(* ===== verification/_CoqProject ===== *)
-Q . S2P
Prelude.v
GoStrings.v
GoJson.v
Paths.v
Domain.v
WorkQueue.v
Rbac.v
NeverAllow.v
ProtectedPath.v
WorkerRestrict.v
PermPolicy.v
AskMode.v
WorkItems.v
Dependencies.v
Hierarchy.v
Calendar.v
Recurring.v
WorkItemUpdate.v
Lifecycle.v
Sequence.v
SequenceControl.v
WorkflowDag.v
