(* ===== verification/Prelude.v ===== *)
(** * Orchicon: a verification development for the control plane

    Orchicon plans work items in a database, runs workflows and sequences of
    them, starts AI workers on their steps and guards what those workers may
    touch.  This development models the Go code that decides: what may run,
    when and in which order, how the work item tree and the dependency graph
    stay well formed, and which command, path or tool is refused.  Definitions
    keep the names of the source; every file's opening comment says which
    sources it follows.

    ** The parts and the files

    - Shared ground.  This file: results, machine integers, time units, the
      tactics [case_all], [inv_bind] and [breflect], the hint databases.
      GoStrings.v, Paths.v and GoJson.v: the string, path and JSON functions of
      Go's standard library the program calls, and cleaned absolute paths as
      lists of components.  Calendar.v: the part of package [time] the
      schedules use.  Domain.v: internal/domain, the vocabulary of statuses and
      kinds.
    - The work queue.  WorkQueue.v is internal/reconciler/manager.go: the
      per-kind queue, the processing pass that every reconciler is called from,
      and leader election.  [mstep] interleaves the manager goroutine with
      [Enqueue] calls.
    - Permissions.  Rbac.v (internal/rbac) maps procedures to entitlements and
      checks grants.  NeverAllow.v (internal/neverallow), ProtectedPath.v
      (internal/protectedpath) and WorkerRestrict.v (internal/workerrestrict)
      are the rules on commands and paths; WorkerRestrict extends the patterns
      of NeverAllow.  PermPolicy.v (internal/permpolicy) is the operator's
      policy file and the precedence of its verdicts.  AskMode.v
      (internal/askmode, internal/toolclass) is the mode boundary of tools.
    - The work item store.  WorkItems.v is the state ([DB]): one tenant's rows
      and edges, and transactions ([Tx]) as computations that roll back when
      they fail (internal/db).  On it stand Dependencies.v (AddDependency,
      RemoveDependency, the set replacement of an item's edges), Hierarchy.v
      (kinds, parents, status predicates, the resolution of a kind switch),
      Recurring.v (schedules and the pass that fires them),
      WorkItemUpdate.v (UpdateWorkItem) and Lifecycle.v (creation, ideas,
      deletion, archiving, assignment, reordering), all of internal/workitem
      and internal/scheduler/recurring_fire_reconciler.go.
    - The engines.  Sequence.v (internal/scheduler/sequence_reconciler.go) runs
      the children of a parent one after the other; SequenceControl.v
      (ControlSequence) starts, resumes and stops such a run.  WorkflowDag.v
      (internal/scheduler/workflow_reconciler.go) is the step graph of one
      workflow run: its map of active runs, the fan-in rule, the verdict, and
      loops.
    The components meet in the store: an edit or a fire sets a status, the next
    pass of an engine reads it, and the dispatch gate of WorkItems.v reads the
    edges Dependencies.v admitted.

    ** What the theorems show

    - Graph and tree (C1, C2, C18, C22, C35, C36, C39).  Every operation that
      writes edges keeps the graph acyclic; an edit keeps every parent
      strictly shallower than its child, except for the links of a kind switch
      that are named ([misplaced]) and of which one is exhibited; the
      replacement of an item's edges is exact; an edge's direction at the gate.
    - Edits and life cycle (C15, C17, C27, C28, C29).  "recurring" needs a
      schedule, a recurring item is flat and bound, a run is started only when
      asked for, archive and restore are inverse, reordering renumbers.
    - Sequences (C3, C4, C16, C40).  A pass ends and starts only children whose
      gate is open, each once; a strict chain starts its cursor; a stop parks
      the whole subtree; a finished recurring sequence restarts nothing.
    - Workflow runs (C5, C6, C7, C19, C20).  The ready phase marks exactly the
      runs whose fan-in holds; a loop's chain is what lies between its ends;
      re-entry blocks what lies behind; the verdict and an acceptance
      characterised.
    - Schedules (C11, C24, C25, C37, C38).  The closed form of fixed steps, the
      first selected day of a weekly schedule, accepted schedules always
      compute, a fixed schedule stops after 1000 steps, an occurrence is fired
      once.
    - Queue (C12, C21, C23, C26, C30).  No key is lost; a quiet pass ends; the
      first due key goes first; a key that has failed 54 times in a row is due
      again at once and pins the pass.
    - Permissions (C8, C9, C10, C13, C14, C31, C32, C33, C34).  The wildcard
      matcher decides its language; the project boundary is decided on
      components; the policy's verdict is its precedence; grants cover what
      they say; the targets that destroy a protected root; the reach and the
      limits of the refusal of [sudo].

    ** Conventions, bounds and fuel

    A Go [error] is an [Err] or [None] result; a transaction that fails has no
    final state.  Machine integers are [Z] with [wrap64] where the code can
    wrap.  Loops bounded in the source keep the source's bound (1000 steps of a
    schedule).  The others carry fuel that is proved enough: [dequeue_loop] one
    turn per waiting key, [glob_loop] [glob_fuel] (C8), the graph walks of
    WorkflowDag.v one round per queued edge (C6), the cycle query of
    WorkItems.v one round per edge (Dependencies.v), [json_fuel]
    ([parse_fuel]), and [chain_fuel] levels of the hierarchy, of which there
    are at most four when parents are shallower than children (C3, C4).
    [process_loop] has no bound in the source: C23 and C21 say when it ends.
    Time zones, the YAML decoder, the doublestar matcher, the file system, the
    environment, fresh identifiers and the injected starters are parameters.

    ** What is not modelled

    Dispatch to workers, recovery, containers, work trees, adapters and
    sessions (process and network I/O, or later parts of the pass over a
    workflow run than WorkflowDag.v covers, such as its handling of rejected
    approvals); the API servers, generated stubs, front ends, telemetry and
    delivery of the outbox; text columns, attachments and listings of work
    items; tenant scoping (every query is scoped to one tenant). *)

From stdpp Require Export base option list gmap sets strings.
From Stdlib Require Export ZArith Lia Bool.
From Stdlib Require Import Ascii.
From Stdlib Require String.
Export ListNotations.

#[global] Set Default Goal Selector "!".

#[global] Arguments String.append : simpl nomatch.

(** ** Results: Go's [(value, error)] pairs

    A Go function returning [(T, error)] is modelled as a function into
    [result E T]; the source never uses the value of a failed call. *)

Inductive result (E A : Type) : Type :=
| Ok (a : A)
| Err (e : E).

Arguments Ok {E A} a.
Arguments Err {E A} e.

#[export] Instance result_ret {E} : MRet (result E) := fun A a => Ok a.

#[export] Instance result_bind {E} : MBind (result E) :=
  fun A B k m => match m with Ok a => k a | Err e => Err e end.

#[export] Instance result_fmap {E} : FMap (result E) :=
  fun A B f m => match m with Ok a => Ok (f a) | Err e => Err e end.

Definition is_ok {E A} (r : result E A) : bool :=
  match r with Ok _ => true | Err _ => false end.

Definition option_or {A} (d : A) (o : option A) : A :=
  match o with Some a => a | None => d end.

(** ** Machine integers: Go's [int64] arithmetic wraps around. *)

Definition wrap64 (z : Z) : Z :=
  ((z + 2 ^ 63) mod 2 ^ 64 - 2 ^ 63)%Z.

Definition int64_min : Z := (- 2 ^ 63)%Z.
Definition int64_max : Z := (2 ^ 63 - 1)%Z.

(** [uint32] arithmetic. *)
Definition wrap32u (z : Z) : Z := (z mod 2 ^ 32)%Z.

(** ** Time: nanoseconds, as [time.Duration] and [time.Time] count them. *)

Definition Second : Z := 1000000000%Z.
Definition Minute : Z := (60 * Second)%Z.
Definition Hour : Z := (60 * Minute)%Z.

(** ** Tactics shared by the components *)

(** Split every [if]/[match] on a boolean or result in the goal, using the
    equations on the way. *)
Ltac case_all :=
  repeat (simplify_eq/=; case_match; simplify_eq/=).

(** Unpack the monadic binds of a hypothesis [m ≫= k = Ok x]. *)
Ltac inv_bind H :=
  match type of H with
  | (mbind ?k ?m = Ok _) =>
      let E := fresh "E" in
      destruct m eqn:E; simpl in H; [ | discriminate H ]
  end.

(** Turn boolean tests into propositions, both in goal and context. *)
Ltac breflect :=
  repeat match goal with
  | H : _ && _ = true |- _ => apply andb_true_iff in H as [? ?]
  | H : _ && _ = false |- _ => apply andb_false_iff in H
  | H : _ || _ = true |- _ => apply orb_true_iff in H
  | H : _ || _ = false |- _ => apply orb_false_iff in H as [? ?]
  | H : negb _ = true |- _ => apply negb_true_iff in H
  | H : negb _ = false |- _ => apply negb_false_iff in H
  | H : Is_true _ |- _ => apply Is_true_eq_true in H
  | H : (_ =? _)%string = true |- _ => apply String.eqb_eq in H
  | H : (_ =? _)%string = false |- _ => apply String.eqb_neq in H
  | H : (_ <? _)%Z = true |- _ => apply Z.ltb_lt in H
  | H : (_ <? _)%Z = false |- _ => apply Z.ltb_ge in H
  | H : (_ <=? _)%Z = true |- _ => apply Z.leb_le in H
  | H : (_ <=? _)%Z = false |- _ => apply Z.leb_gt in H
  | H : (_ =? _)%Z = true |- _ => apply Z.eqb_eq in H
  | H : (_ =? _)%Z = false |- _ => apply Z.eqb_neq in H
  | H : (_ =? _)%nat = true |- _ => apply Nat.eqb_eq in H
  | H : (_ =? _)%nat = false |- _ => apply Nat.eqb_neq in H
  | H : (_ <? _)%nat = true |- _ => apply Nat.ltb_lt in H
  | H : (_ <? _)%nat = false |- _ => apply Nat.ltb_ge in H
  | H : (_ <=? _)%nat = true |- _ => apply Nat.leb_le in H
  | H : (_ <=? _)%nat = false |- _ => apply Nat.leb_gt in H
  | H : bool_decide _ = true |- _ => apply bool_decide_eq_true in H
  | H : bool_decide _ = false |- _ => apply bool_decide_eq_false in H
  end.

Create HintDb orch.
Create Rewrite HintDb orch_rw.

(** ** Generic lemmas *)

Lemma wrap64_small z : (int64_min <= z <= int64_max)%Z -> wrap64 z = z.
Proof.
  unfold wrap64, int64_min, int64_max. intros H.
  rewrite Z.mod_small; lia.
Qed.

Lemma wrap64_range z : (int64_min <= wrap64 z <= int64_max)%Z.
Proof.
  unfold wrap64, int64_min, int64_max.
  pose proof (Z.mod_pos_bound (z + 2 ^ 63) (2 ^ 64)). lia.
Qed.

Lemma wrap32u_range z : (0 <= wrap32u z < 2 ^ 32)%Z.
Proof. unfold wrap32u. apply Z.mod_pos_bound. lia. Qed.

Lemma forallb_false_exists {A} (f : A -> bool) l :
  forallb f l = false <-> exists x, In x l /\ f x = false.
Proof.
  induction l as [|a l IH]; simpl.
  - split; [discriminate | intros (x & [] & _)].
  - rewrite andb_false_iff, IH. split.
    + intros [H | (x & Hx & Hf)]; eauto.
    + intros (x & [-> | Hx] & Hf); eauto.
Qed.

Lemma existsb_false_forall {A} (f : A -> bool) l :
  existsb f l = false <-> forall x, In x l -> f x = false.
Proof.
  induction l as [|a l IH]; simpl.
  - split; [intros _ x [] | done].
  - rewrite orb_false_iff, IH. split.
    + intros [H1 H2] x [<- | Hx]; auto.
    + intros H. split; auto.
Qed.

Lemma result_bind_ok {E A B} (m : result E A) (k : A -> result E B) b :
  m ≫= k = Ok b <-> exists a, m = Ok a /\ k a = Ok b.
Proof.
  destruct m; simpl; split.
  - intros H. eauto.
  - intros (a' & [= <-] & H). done.
  - discriminate.
  - intros (a' & ? & _). discriminate.
Qed.

#[export] Hint Resolve wrap64_range wrap32u_range : orch.
#[export] Hint Rewrite @result_bind_ok : orch_rw.
