(* ===== verification/GoStrings.v ===== *)
(** * The parts of Go's [strings] and [path/filepath] the program calls

    Go strings are byte strings; they are modelled as Rocq strings, one
    [ascii] per byte.  [TrimSpace] knows every Unicode space in its UTF-8
    encoding.  [ToLower] folds the ASCII letters and the two code points
    outside ASCII whose lower case is an ASCII letter (U+212A KELVIN SIGN and
    U+0130); the program compares the results with ASCII literals only, so
    the case folding of other code points cannot be observed.
    [path/filepath] is the Unix version (separator [/]). *)

From S2P Require Import Prelude.
From Stdlib Require Import Ascii.

Declare Scope go_scope.
Delimit Scope go_scope with go.
Infix "==" := String.eqb (at level 70, no associativity) : go_scope.
Open Scope go_scope.

(** ** Byte strings *)

Definition len (s : string) : nat := String.length s.

Fixpoint sdrop (n : nat) (s : string) : string :=
  match n, s with
  | O, _ => s
  | S n', String _ s' => sdrop n' s'
  | S _, EmptyString => EmptyString
  end.

Fixpoint stake (n : nat) (s : string) : string :=
  match n, s with
  | O, _ => EmptyString
  | S n', String c s' => String c (stake n' s')
  | S _, EmptyString => EmptyString
  end.

Definition HasPrefix (s p : string) : bool := String.prefix p s.

Definition HasSuffix (s p : string) : bool :=
  Nat.leb (len p) (len s) && (sdrop (len s - len p) s == p).

Definition TrimPrefix (s p : string) : string :=
  if HasPrefix s p then sdrop (len p) s else s.

Definition TrimSuffix (s p : string) : string :=
  if HasSuffix s p then stake (len s - len p) s else s.

(** [strings.Split] with a one-byte separator. *)
Fixpoint split_char (sep : ascii) (s : string) : list string :=
  match s with
  | EmptyString => [""]
  | String c s' =>
      if Ascii.eqb c sep then "" :: split_char sep s'
      else match split_char sep s' with
           | h :: t => String c h :: t
           | [] => [String c ""]
           end
  end.

(** [strings.SplitN(s, sep, 2)]: at most one cut, at the first separator. *)
Fixpoint split_first (sep : ascii) (s : string) : option (string * string) :=
  match s with
  | EmptyString => None
  | String c s' =>
      if Ascii.eqb c sep then Some ("", s')
      else match split_first sep s' with
           | Some (a, b) => Some (String c a, b)
           | None => None
           end
  end.

(** [strings.Join]. *)
Definition Join (l : list string) (sep : string) : string := String.concat sep l.

(** ** White space and case *)

Definition is_ascii_space (c : N) : bool :=
  match c with 9 | 10 | 11 | 12 | 13 | 32 => true | _ => false end%N.

(** U+0085 and U+00A0. *)
Definition is_space2 (a b : N) : bool :=
  match a, b with 194, 133 | 194, 160 => true | _, _ => false end%N.

(** U+1680, U+2000-U+200A, U+2028, U+2029, U+202F, U+205F, U+3000. *)
Definition is_space3 (a b c : N) : bool :=
  match a, b with
  | 225, 154 => N.eqb c 128
  | 226, 128 => (N.leb 128 c && N.leb c 138)%bool
                || N.eqb c 168 || N.eqb c 169 || N.eqb c 175
  | 226, 129 => N.eqb c 159
  | 227, 128 => N.eqb c 128
  | _, _ => false
  end%N.

Section trim.
Context (sp2 : N -> N -> bool) (sp3 : N -> N -> N -> bool).

Fixpoint trim_front (l : list N) : list N :=
  match l with
  | [] => []
  | c1 :: t1 =>
      if is_ascii_space c1 then trim_front t1
      else match t1 with
           | [] => l
           | c2 :: t2 =>
               if sp2 c1 c2 then trim_front t2
               else match t2 with
                    | [] => l
                    | c3 :: t3 => if sp3 c1 c2 c3 then trim_front t3 else l
                    end
           end
  end.
End trim.

Definition bytes_of (s : string) : list N := map N_of_ascii (String.list_ascii_of_string s).
Definition string_of (l : list N) : string := String.string_of_list_ascii (map ascii_of_N l).

Definition TrimSpace (s : string) : string :=
  let l := trim_front is_space2 is_space3 (bytes_of s) in
  let r := trim_front (fun a b => is_space2 b a) (fun a b c => is_space3 c b a) (rev l) in
  string_of (rev r).

Definition lower_byte (c : N) : N :=
  if (N.leb 65 c && N.leb c 90)%N then (c + 32)%N else c.

Fixpoint lower_bytes (l : list N) : list N :=
  match l with
  | 196%N :: 176%N :: t => 105%N :: lower_bytes t
  | 226%N :: 132%N :: 170%N :: t => 107%N :: lower_bytes t
  | c :: t => lower_byte c :: lower_bytes t
  | [] => []
  end.

Definition ToLower (s : string) : string := string_of (lower_bytes (bytes_of s)).

(** ** path/filepath *)

Definition slash : ascii := "/"%char.
Definition colon : ascii := ":"%char.
Definition asterisk : ascii := "*"%char.

Definition IsAbs (p : string) : bool := HasPrefix p "/".

(** One path component processed by [filepath.Clean]; [stack] is the output
    so far, last component first. *)
Definition clean_push (rooted : bool) (stack : list string) (seg : string) : list string :=
  if (seg == "") || (seg == ".") then stack
  else if seg == ".." then
    match stack with
    | top :: rest => if top == ".." then ".." :: stack else rest
    | [] => if rooted then [] else [".."]
    end
  else seg :: stack.

Definition clean_segs (rooted : bool) (segs : list string) : list string :=
  rev (fold_left (clean_push rooted) segs []).

Definition Clean (p : string) : string :=
  if p == "" then "."
  else
    let rooted := IsAbs p in
    let segs := clean_segs rooted (split_char slash p) in
    if rooted then String slash (Join segs "/")
    else match segs with [] => "." | _ => Join segs "/" end.

(** [filepath.Join(a, b)]. *)
Definition JoinPath (a b : string) : string :=
  if a == "" then (if b == "" then "" else Clean b)
  else Clean (a +:+ "/" +:+ b).

(** ** Lemmas *)

Lemma slen_app a b : len (a +:+ b) = len a + len b.
Proof. unfold len. induction a; simpl; [done | by f_equal]. Qed.

Lemma sapp_assoc a b c : (a +:+ b) +:+ c = a +:+ (b +:+ c).
Proof. induction a as [|x a IH]; [done | exact (f_equal (String x) IH)]. Qed.

Lemma sapp_nil_r a : a +:+ "" = a.
Proof. induction a as [|x a IH]; [done | exact (f_equal (String x) IH)]. Qed.

Lemma sdrop_app a b : sdrop (len a) (a +:+ b) = b.
Proof. induction a; simpl; [destruct b|]; done. Qed.

Lemma HasPrefix_spec s p : HasPrefix s p = true <-> exists t, s = p +:+ t.
Proof.
  unfold HasPrefix. revert s. induction p as [|c p IH]; intros s.
  - simpl. split; [eauto | by destruct s].
  - destruct s as [|c' s]; simpl.
    + split; [discriminate | intros (t & Ht); discriminate].
    + destruct (ascii_dec c c') as [-> | Hne].
      * rewrite IH. split; intros (t & Ht); exists t; congruence.
      * split; [discriminate | intros (t & Ht); congruence].
Qed.

Lemma HasPrefix_refl s : HasPrefix s s = true.
Proof. apply HasPrefix_spec. exists "". by rewrite sapp_nil_r. Qed.

Lemma sdrop_all_app a b n : n = len a -> sdrop n (a +:+ b) = b.
Proof. intros ->. apply sdrop_app. Qed.

Lemma sdrop_split n s : n <= len s -> exists a, s = a +:+ sdrop n s /\ len a = n.
Proof.
  revert s. induction n as [|n IH]; intros s Hn; simpl.
  - by exists "".
  - destruct s as [|c s]; simpl in *; [lia|].
    destruct (IH s) as (a & Ha & Hl); [unfold len in *; simpl in *; lia|].
    exists (String c a). unfold len in *. simpl. split; [by rewrite <- Ha | lia].
Qed.

Lemma HasSuffix_spec s p : HasSuffix s p = true <-> exists t, s = t +:+ p.
Proof.
  unfold HasSuffix. rewrite andb_true_iff, Nat.leb_le, String.eqb_eq. split.
  - intros [Hl He]. destruct (sdrop_split (len s - len p) s) as (a & Ha & _); [lia|].
    exists a. congruence.
  - intros (t & ->). rewrite slen_app. split; [lia|].
    apply sdrop_all_app. lia.
Qed.

Lemma TrimPrefix_app p t : TrimPrefix (p +:+ t) p = t.
Proof.
  unfold TrimPrefix. rewrite (proj2 (HasPrefix_spec _ _)); [|eauto].
  apply sdrop_app.
Qed.

Lemma stake_app a b : stake (len a) (a +:+ b) = a.
Proof. induction a; simpl; [done | by f_equal]. Qed.

Lemma TrimSuffix_app t p : TrimSuffix (t +:+ p) p = t.
Proof.
  unfold TrimSuffix. rewrite (proj2 (HasSuffix_spec _ _)); [|eauto].
  rewrite slen_app. replace (len t + len p - len p) with (len t) by lia. apply stake_app.
Qed.

(** A component list: no separator inside a component. *)
Fixpoint no_sep (sep : ascii) (s : string) : bool :=
  match s with
  | EmptyString => true
  | String c s' => negb (Ascii.eqb c sep) && no_sep sep s'
  end.

Lemma split_char_cons sep s : exists h t, split_char sep s = h :: t.
Proof.
  induction s as [|c s (h & t & E)]; simpl; [eauto|].
  destruct (Ascii.eqb c sep); [eauto|]. rewrite E. eauto.
Qed.

Lemma split_char_no_sep sep s : Forall (fun x => no_sep sep x = true) (split_char sep s).
Proof.
  induction s as [|c s IH]; simpl; [by repeat constructor|].
  destruct (Ascii.eqb c sep) eqn:E; [by constructor|].
  destruct (split_char_cons sep s) as (h & t & Eh). rewrite Eh in *.
  inversion IH; subst. constructor; [|done]. simpl. by rewrite E.
Qed.

Lemma split_char_atom sep s : no_sep sep s = true -> split_char sep s = [s].
Proof.
  induction s as [|c s IH]; simpl; [done|]. intros [Hc Hs]%andb_true_iff.
  apply negb_true_iff in Hc. by rewrite Hc, (IH Hs).
Qed.

Lemma split_char_app sep a b :
  no_sep sep a = true -> split_char sep (a +:+ String sep b) = a :: split_char sep b.
Proof.
  induction a as [|c a IH]; simpl.
  - intros _. by rewrite Ascii.eqb_refl.
  - intros [Hc Hs]%andb_true_iff. apply negb_true_iff in Hc.
    by rewrite Hc, (IH Hs).
Qed.

Lemma split_join l :
  l <> [] -> Forall (fun x => no_sep slash x = true) l -> split_char slash (Join l "/") = l.
Proof.
  intros Hne Hf. induction Hf as [|a l Ha Hl IH]; [done|].
  destruct l as [|b l].
  - simpl. by apply split_char_atom.
  - change (Join (a :: b :: l) "/") with (a +:+ String slash (Join (b :: l) "/")).
    rewrite split_char_app by done. rewrite IH; [done|discriminate].
Qed.

Lemma join_split s : Join (split_char slash s) "/" = s.
Proof.
  induction s as [|c s IH]; [done|]. simpl.
  destruct (split_char_cons slash s) as (h & t & E). rewrite E in *.
  destruct (Ascii.eqb c slash) eqn:Hc.
  - apply Ascii.eqb_eq in Hc as ->.
    change (Join ("" :: h :: t) "/") with (String slash (Join (h :: t) "/")).
    by rewrite IH.
  - destruct t as [|h' t].
    + simpl in *. by rewrite IH.
    + change (Join (String c h :: h' :: t) "/")
        with (String c (h +:+ String slash (Join (h' :: t) "/"))).
      f_equal. exact IH.
Qed.

Lemma no_sep_app c a b : no_sep c (a +:+ b) = no_sep c a && no_sep c b.
Proof. induction a as [|x a IH]; simpl; [done|]. by rewrite IH, andb_assoc. Qed.

(** How often a byte occurs. *)
Fixpoint count_char (c : ascii) (s : string) : nat :=
  match s with
  | EmptyString => 0
  | String x s' => (if Ascii.eqb x c then 1 else 0) + count_char c s'
  end.

Lemma count_app c a b : count_char c (a +:+ b) = count_char c a + count_char c b.
Proof. induction a as [|x a IH]; simpl; [done|]. rewrite IH. lia. Qed.

Lemma no_sep_count c s : no_sep c s = true <-> count_char c s = 0.
Proof.
  induction s as [|x s IH]; simpl; [done|].
  rewrite andb_true_iff, IH. destruct (Ascii.eqb x c); simpl;
    (split; [by intros [? ?] | by intros]).
Qed.

Lemma sapp_inj_sep c a b a' b' :
  no_sep c a = true -> no_sep c a' = true ->
  a +:+ String c b = a' +:+ String c b' -> a = a' /\ b = b'.
Proof.
  revert a'. induction a as [|x a IH]; intros [|x' a'] Ha Ha' E; simpl in *.
  - by injection E.
  - injection E as <- _. by rewrite Ascii.eqb_refl in Ha'.
  - injection E as -> _. by rewrite Ascii.eqb_refl in Ha.
  - apply andb_true_iff in Ha as [_ Ha]. apply andb_true_iff in Ha' as [_ Ha'].
    injection E as -> E. destruct (IH a' Ha Ha' E) as [-> ->]. done.
Qed.

(** Two cuts of a string at its only separator are the same cut. *)
Lemma sapp_inj_once c a b a' b' :
  no_sep c a = true -> no_sep c b = true ->
  a +:+ String c b = a' +:+ String c b' -> a' = a /\ b' = b.
Proof.
  intros Ha Hb E.
  assert (Hc : count_char c (a +:+ String c b) = count_char c (a' +:+ String c b')) by congruence.
  rewrite !count_app in Hc. simpl in Hc. rewrite Ascii.eqb_refl in Hc.
  rewrite no_sep_count in Hb. pose proof (proj1 (no_sep_count c a) Ha) as Ha0.
  assert (Ha' : no_sep c a' = true) by (apply no_sep_count; lia).
  destruct (sapp_inj_sep c a b a' b' Ha Ha' E) as [-> ->]. done.
Qed.

(** ** Trimming plain ASCII text *)

Definition plain (c : N) : bool := negb (is_ascii_space c) && (c <? 128)%N.
Definition plain_str (s : string) : bool := forallb plain (bytes_of s).

Lemma trim_front_plain sp2 sp3 c l :
  is_ascii_space c = false -> (forall d, sp2 c d = false) -> (forall d e, sp3 c d e = false) ->
  trim_front sp2 sp3 (c :: l) = c :: l.
Proof.
  intros Hc H2 H3. simpl. rewrite Hc. destruct l as [|c2 l]; [done|]. rewrite H2.
  destruct l as [|c3 l]; [done|]. by rewrite H3.
Qed.

(** [c < 128] refutes every test against a literal byte from 128 on. *)
Ltac plain_byte := intros; unfold is_space2, is_space3; repeat case_match; subst; try done; breflect; lia.

Lemma trim_front_id l : forallb plain l = true -> trim_front is_space2 is_space3 l = l.
Proof.
  destruct l as [|c l]; [done|]. intros [[Hs Hc]%andb_true_iff _]%andb_true_iff. apply N.ltb_lt in Hc.
  apply negb_true_iff in Hs. apply trim_front_plain; [done | plain_byte | plain_byte].
Qed.

Lemma is_space2_high a b : is_space2 a b = true -> (128 <= b)%N.
Proof. unfold is_space2. repeat case_match; try done; intros _; lia. Qed.

Lemma is_space3_high a b c : is_space3 a b c = true -> (128 <= c)%N.
Proof.
  unfold is_space3. intros H. repeat case_match; try done;
    rewrite ?orb_true_iff, ?andb_true_iff, ?N.eqb_eq, ?N.leb_le in H; lia.
Qed.

Lemma trim_front_rev_id l :
  forallb plain l = true ->
  trim_front (fun a b => is_space2 b a) (fun a b c => is_space3 c b a) l = l.
Proof.
  destruct l as [|c l]; [done|]. intros [[Hs Hc]%andb_true_iff _]%andb_true_iff. apply N.ltb_lt in Hc.
  apply negb_true_iff in Hs. apply trim_front_plain; [done | |].
  - intros d. destruct (is_space2 d c) eqn:E; [apply is_space2_high in E; lia | done].
  - intros d e. destruct (is_space3 e d c) eqn:E; [apply is_space3_high in E; lia | done].
Qed.

Lemma string_of_bytes s : string_of (bytes_of s) = s.
Proof.
  unfold string_of, bytes_of. rewrite map_map.
  rewrite (map_ext _ id) by (intros a; apply ascii_N_embedding). rewrite map_id.
  apply String.string_of_list_ascii_of_string.
Qed.

Lemma TrimSpace_plain s : plain_str s = true -> TrimSpace s = s.
Proof.
  unfold plain_str, TrimSpace. intros H. rewrite trim_front_id by done.
  rewrite trim_front_rev_id.
  - rewrite rev_involutive. apply string_of_bytes.
  - rewrite forallb_forall in *. intros x Hx%in_rev. auto.
Qed.

Lemma plain_str_app a b : plain_str (a +:+ b) = plain_str a && plain_str b.
Proof.
  unfold plain_str, bytes_of. induction a as [|c a IH]; [done|]. simpl. by rewrite IH, andb_assoc.
Qed.
