(* ===== verification/GoJson.v ===== *)
(** * Go's [encoding/json.Valid]

    The recogniser the program applies to the JSON texts it stores.  As in the
    standard library's scanner, bytes inside strings are not checked to be
    UTF-8, a byte below 32 is refused there, numbers have no leading zeros,
    and arrays and objects nest at most 10000 deep.  [parse] follows the text
    with one call per value, element or member; every second call consumes a
    byte, so [json_fuel] is enough ([parse_fuel]). *)

From S2P Require Import Prelude GoStrings.

Open Scope N_scope.

Definition maxNestingDepth : N := 10000.

Fixpoint skip_space (l : list N) : list N :=
  match l with
  | c :: rest => if existsb (N.eqb c) [32; 9; 13; 10] then skip_space rest else l
  | [] => []
  end.

Definition is_digit (c : N) : bool := (48 <=? c) && (c <=? 57).
Definition is_hex (c : N) : bool :=
  is_digit c || ((97 <=? c) && (c <=? 102)) || ((65 <=? c) && (c <=? 70)).

Fixpoint digits (l : list N) : list N :=
  match l with
  | c :: rest => if is_digit c then digits rest else l
  | [] => []
  end.

(** At least one digit. *)
Definition digits1 (l : list N) : option (list N) :=
  match l with
  | c :: rest => if is_digit c then Some (digits rest) else None
  | [] => None
  end.

(** After the opening quote; [escaped] counts what an escape still needs: 0
    none, 1 the letter after the backslash, n + 1 the last n hex digits. *)
Fixpoint string_rest (escaped : nat) (l : list N) : option (list N) :=
  match l with
  | [] => None
  | c :: rest =>
      match escaped with
      | O => if c =? 34 then Some rest
             else if c =? 92 then string_rest 1 rest
             else if c <? 32 then None
             else string_rest 0 rest
      | 1%nat => if existsb (N.eqb c) [34; 92; 47; 98; 102; 110; 114; 116] then string_rest 0 rest
             else if c =? 117 then string_rest 5 rest
             else None
      | S (S O) => if is_hex c then string_rest 0 rest else None
      | S n => if is_hex c then string_rest n rest else None
      end
  end.

Definition fraction (l : list N) : option (list N) :=
  match l with 46 :: rest => digits1 rest | _ => Some l end.

Definition exponent (l : list N) : option (list N) :=
  match l with
  | c :: rest =>
      if (c =? 101) || (c =? 69) then
        digits1 (match rest with s :: r => if (s =? 43) || (s =? 45) then r else rest | [] => [] end)
      else Some l
  | [] => Some []
  end.

Definition number (l : list N) : option (list N) :=
  let l := match l with 45 :: rest => rest | _ => l end in
  l ← (match l with 48 :: rest => Some rest | _ => digits1 l end);
  l ← fraction l;
  exponent l.

Fixpoint literal (w l : list N) : option (list N) :=
  match w, l with
  | [], _ => Some l
  | a :: w, c :: rest => if a =? c then literal w rest else None
  | _ :: _, [] => None
  end.

(** What is expected next: a value, the elements of an array after [[] or a
    comma, the members of an object after [{] or a comma. *)
Inductive expecting := Value | Elements | Members.

(** What follows an element or member: a comma and the next one, or the end. *)
Definition after_item (close : N) (more : list N -> option (list N)) (l : list N) : option (list N) :=
  match skip_space l with
  | c :: rest => if c =? 44 then more rest else if c =? close then Some rest else None
  | [] => None
  end.

Fixpoint parse (fuel : nat) (what : expecting) (depth : N) (l : list N) : option (list N) :=
  match fuel with
  | O => None
  | S fuel =>
      match what with
      | Value =>
          match skip_space l with
          | [] => None
          | c :: rest =>
              if c =? 123 then
                if maxNestingDepth <=? depth then None
                else match skip_space rest with
                     | 125 :: r => Some r
                     | _ => parse fuel Members (depth + 1) rest
                     end
              else if c =? 91 then
                if maxNestingDepth <=? depth then None
                else match skip_space rest with
                     | 93 :: r => Some r
                     | _ => parse fuel Elements (depth + 1) rest
                     end
              else if c =? 34 then string_rest 0 rest
              else if c =? 116 then literal (bytes_of "rue") rest
              else if c =? 102 then literal (bytes_of "alse") rest
              else if c =? 110 then literal (bytes_of "ull") rest
              else number (c :: rest)
          end
      | Elements =>
          rest ← parse fuel Value depth l;
          after_item 93 (parse fuel Elements depth) rest
      | Members =>
          match skip_space l with
          | 34 :: rest =>
              rest ← string_rest 0 rest;
              match skip_space rest with
              | 58 :: rest =>
                  rest ← parse fuel Value depth rest;
                  after_item 125 (parse fuel Members depth) rest
              | _ => None
              end
          | _ => None
          end
      end
  end.

Definition json_fuel (l : list N) : nat := 2 * length l + 2.

(** [json.Valid]. *)
Definition Valid (s : string) : bool :=
  let l := bytes_of s in
  match parse (json_fuel l) Value 0 l with
  | Some rest => match skip_space rest with [] => true | _ => false end
  | None => false
  end.

Open Scope nat_scope.

(** ** The fuel is enough *)

Lemma skip_space_le l : length (skip_space l) <= length l.
Proof. induction l as [|c l IH]; [done|]. cbn. destruct (_ || _); cbn; lia. Qed.

Lemma digits_le l : length (digits l) <= length l.
Proof. induction l as [|c l IH]; [done|]. cbn. destruct (is_digit c); cbn; lia. Qed.

Lemma digits1_lt l r : digits1 l = Some r -> length r < length l.
Proof.
  destruct l as [|c l]; [done|]. cbn. destruct (is_digit c); [|done]. intros [= <-].
  pose proof (digits_le l). lia.
Qed.

Lemma string_rest_lt n l r : string_rest n l = Some r -> length r < length l.
Proof.
  revert n. induction l as [|c l IH]; intros n; [done|]. cbn [string_rest].
  intros Hr; repeat case_match; try done; try (apply IH in Hr; cbn; lia).
  injection Hr as <-. cbn. lia.
Qed.

Lemma literal_le w l r : literal w l = Some r -> length r <= length l.
Proof.
  revert l. induction w as [|a w IH]; intros l; cbn [literal]; [intros [= <-]; done|].
  destruct l as [|c l]; [done|]. destruct (N.eqb a c); [|done]. intros H%IH. cbn. lia.
Qed.

Lemma fraction_le l r : fraction l = Some r -> length r <= length l.
Proof.
  unfold fraction. intros Hr. repeat case_match; try (injection Hr as <-; cbn; lia).
  apply digits1_lt in Hr. cbn. lia.
Qed.

Lemma exponent_le l r : exponent l = Some r -> length r <= length l.
Proof.
  destruct l as [|c l]; cbn [exponent]; [by intros [= <-]|].
  destruct (_ || _); [|intros [= <-]; done]. intros H%digits1_lt.
  destruct l as [|x l]; [cbn in *; lia|]. destruct (_ || _); cbn in *; lia.
Qed.

Lemma number_lt l r : number l = Some r -> length r < length l.
Proof.
  unfold number. set (l1 := match l with 45%N :: rest => rest | _ => l end).
  assert (length l1 <= length l) by (unfold l1; repeat case_match; cbn; lia).
  intros Hn. apply bind_Some in Hn as (l2 & H2 & Hn). apply bind_Some in Hn as (l3 & H3%fraction_le & Hn%exponent_le).
  assert (length l2 < length l1); [|lia].
  clear -H2. repeat case_match; try (apply digits1_lt in H2; cbn in *; lia). injection H2 as <-. cbn. lia.
Qed.

Lemma after_item_lt close more l r :
  (forall l' r', more l' = Some r' -> length r' <= length l') ->
  after_item close more l = Some r -> length r < length l.
Proof.
  intros Hm. unfold after_item. pose proof (skip_space_le l) as Hs.
  destruct (skip_space l) as [|c rest]; [done|]. cbn in Hs.
  destruct (N.eqb c 44); [intros H%Hm; lia|]. destruct (N.eqb c close); [|done]. intros [= <-]. lia.
Qed.

Lemma parse_lt fuel what depth l r : parse fuel what depth l = Some r -> length r < length l.
Proof.
  revert what depth l r. induction fuel as [|fuel IH]; intros what depth l r; [done|]. cbn [parse].
  pose proof (skip_space_le l) as Hs. intros Hp. destruct what.
  - destruct (skip_space l) as [|c rest] eqn:E; [done|]. cbn in Hs. pose proof (skip_space_le rest) as Hr.
    repeat (match type of Hp with context [if ?b then _ else _] => destruct b end); try done;
      try (first [apply string_rest_lt in Hp | apply literal_le in Hp | apply number_lt in Hp]; cbn in *; lia);
      repeat case_match; try (apply IH in Hp; lia); injection Hp as <-; cbn in Hr; lia.
  - apply bind_Some in Hp as (l2 & H2%IH & Hp).
    apply after_item_lt in Hp; [lia|]. intros ? ? ?%IH. lia.
  - repeat case_match; try done. apply bind_Some in Hp as (l2 & Ha2%string_rest_lt & Hp).
    pose proof (skip_space_le l2) as Hs2. repeat case_match; try done.
    apply bind_Some in Hp as (l3 & Ha3%IH & Hp). apply after_item_lt in Hp; [cbn in *; lia|]. intros ? ? ?%IH. lia.
Qed.

(** With [json_fuel] the recogniser never stops for lack of fuel: more fuel
    changes nothing. *)
Lemma parse_fuel f1 f2 what depth l :
  2 * length l + match what with Value => 1 | _ => 2 end <= f1 ->
  2 * length l + match what with Value => 1 | _ => 2 end <= f2 ->
  parse f1 what depth l = parse f2 what depth l.
Proof.
  revert f2 what depth l. induction f1 as [|f1 IH]; intros f2 what depth l H1 H2; [destruct what; lia|].
  destruct f2 as [|f2]; [destruct what; lia|]. cbn [parse]. pose proof (skip_space_le l) as Hs.
  assert (Hafter : forall close w d l2, w <> Value -> length l2 < length l ->
    after_item close (parse f1 w d) l2 = after_item close (parse f2 w d) l2).
  { intros close w d l2 Hw Hl. unfold after_item. pose proof (skip_space_le l2) as Hs2.
    destruct (skip_space l2) as [|c rest]; [done|]. cbn in Hs2. destruct (N.eqb c 44); [|done].
    destruct w; [done|..]; apply IH; destruct what; lia. }
  destruct what.
  - destruct (skip_space l) as [|c rest] eqn:E; [done|]. cbn in Hs.
    assert (Hm : forall w, w <> Value -> parse f1 w (depth + 1) rest = parse f2 w (depth + 1) rest)
      by (intros []; intros Hw; [done | apply IH; lia..]).
    by rewrite !Hm.
  - rewrite (IH f2 Value) by lia. destruct (parse f2 Value depth l) as [l2|] eqn:E; [|done].
    apply parse_lt in E. cbn. by apply Hafter.
  - repeat case_match; try done. destruct (string_rest 0 _) as [l2|] eqn:E; [|done]. apply string_rest_lt in E.
    cbn. pose proof (skip_space_le l2) as Hs2. repeat case_match; try done. cbn in Hs, Hs2.
    rewrite (IH f2 Value) by lia.
    match goal with |- context [parse f2 Value depth ?x] => destruct (parse f2 Value depth x) as [l4|] eqn:E3 end; [|done].
    apply parse_lt in E3. cbn. apply Hafter; [done | lia].
Qed.

Example valid_ref : Valid "{ }" = true /\ Valid "[1, 2.5e-3 ,[]]" = true /\ Valid "[1,]" = false /\ Valid "01" = false.
Proof. by vm_compute. Qed.
