(* ===== verification/Paths.v ===== *)
(** * Cleaned absolute paths as lists of components

    [filepath.Clean] and [filepath.Join] (GoStrings.v) work on bytes.  Every
    boundary rule of the program compares cleaned paths by a byte prefix that
    ends in a separator; the lemmas here turn these tests into statements
    about lists of components, where going up ([..]) is popping a stack. *)

From S2P Require Import Prelude GoStrings.

(** A component a cleaned absolute path may contain. *)
Definition proper (seg : string) : Prop :=
  no_sep slash seg = true /\ seg <> "" /\ seg <> "." /\ seg <> "..".

(** The directory components an absolute path denotes. *)
Definition path_segs (p : string) : list string := clean_segs true (split_char slash p).

(** The path with the given components. *)
Definition abs_path (segs : list string) : string := String slash (Join segs "/").

(** The components of [target] seen from the directory [dir]. *)
Definition resolve (dir : list string) (target : string) : list string :=
  if IsAbs target then path_segs target
  else rev (fold_left (clean_push true) (split_char slash target) (rev dir)).

(** ** Component lists *)

Lemma clean_push_proper stack seg :
  Forall proper stack -> no_sep slash seg = true -> Forall proper (clean_push true stack seg).
Proof.
  intros Hs Hn. unfold clean_push.
  destruct (seg == "") eqn:E1; [done|]. destruct (seg == ".") eqn:E2; [done|]. simpl.
  destruct (seg == "..") eqn:E3.
  - destruct Hs as [|top rest [Hp [? [? Hne]]] Hr]; [constructor|].
    apply String.eqb_neq in Hne. by rewrite Hne.
  - breflect. by constructor.
Qed.

Lemma clean_fold_proper segs stack :
  Forall (fun x => no_sep slash x = true) segs -> Forall proper stack ->
  Forall proper (fold_left (clean_push true) segs stack).
Proof.
  intros Hsegs. revert stack. induction Hsegs as [|s segs Hs Hsegs IH]; intros stack Hst; [done|].
  simpl. apply IH. by apply clean_push_proper.
Qed.

Lemma path_segs_proper p : Forall proper (path_segs p).
Proof.
  apply Forall_rev, clean_fold_proper; [apply split_char_no_sep | constructor].
Qed.

Lemma resolve_proper dir t : Forall proper dir -> Forall proper (resolve dir t).
Proof.
  intros Hd. unfold resolve. destruct (IsAbs t); [apply path_segs_proper|].
  apply Forall_rev, clean_fold_proper; [apply split_char_no_sep | by apply Forall_rev].
Qed.

Lemma clean_push_atom stack seg : proper seg -> clean_push true stack seg = seg :: stack.
Proof.
  intros (_ & H1 & H2 & H3). unfold clean_push.
  apply String.eqb_neq in H1, H2, H3. by rewrite H1, H2, H3.
Qed.

Lemma clean_fold_atoms segs stack :
  Forall proper segs -> fold_left (clean_push true) segs stack = rev segs ++ stack.
Proof.
  intros H. revert stack. induction H as [|s segs Hs _ IH]; intros stack; [done|].
  simpl. rewrite clean_push_atom by done. rewrite IH. by rewrite <- app_assoc.
Qed.

Lemma split_abs_path segs :
  Forall proper segs ->
  split_char slash (abs_path segs) = "" :: (match segs with [] => [""] | _ => segs end).
Proof.
  intros H. unfold abs_path. simpl. f_equal. destruct segs as [|s segs]; [done|].
  apply split_join; [done|]. eapply Forall_impl; [exact H|]. by intros x [? _].
Qed.

Lemma path_segs_abs_path segs : Forall proper segs -> path_segs (abs_path segs) = segs.
Proof.
  intros H. unfold path_segs, clean_segs. rewrite split_abs_path by done.
  destruct segs as [|s segs]; [done|].
  change (fold_left (clean_push true) ("" :: s :: segs) [])
    with (fold_left (clean_push true) (s :: segs) []).
  by rewrite clean_fold_atoms, app_nil_r, rev_involutive.
Qed.

Lemma Clean_abs p : IsAbs p = true -> Clean p = abs_path (path_segs p).
Proof. intros H. unfold Clean. destruct (p == "") eqn:E; [by breflect; subst|]. by rewrite H. Qed.

Lemma IsAbs_abs_path segs : IsAbs (abs_path segs) = true.
Proof. by apply HasPrefix_spec; exists (Join segs "/"). Qed.

Lemma Clean_abs_path segs : Forall proper segs -> Clean (abs_path segs) = abs_path segs.
Proof. intros H. rewrite Clean_abs by apply IsAbs_abs_path. by rewrite path_segs_abs_path. Qed.

Lemma abs_path_inj a b : Forall proper a -> Forall proper b -> abs_path a = abs_path b -> a = b.
Proof.
  intros Ha Hb E. rewrite <- (path_segs_abs_path a), <- (path_segs_abs_path b) by done. by rewrite E.
Qed.

Lemma Clean_idempotent p : IsAbs p = true -> Clean (Clean p) = Clean p.
Proof.
  intros H. rewrite (Clean_abs p) by done. apply Clean_abs_path, path_segs_proper.
Qed.

(** ** Splitting at a separator *)

Lemma split_char_app_sep sep a b :
  split_char sep (a +:+ String sep b) = split_char sep a ++ split_char sep b.
Proof.
  induction a as [|c a IH]; simpl; [by rewrite Ascii.eqb_refl|].
  destruct (Ascii.eqb c sep); [by rewrite IH|].
  rewrite IH. destruct (split_char_cons sep a) as (h & t & E). by rewrite E.
Qed.

Lemma JoinPath_abs dir t :
  IsAbs dir = true -> IsAbs t = false ->
  JoinPath dir t = abs_path (resolve (path_segs dir) t).
Proof.
  intros Hd Ht. unfold JoinPath.
  destruct (dir == "") eqn:E; [by breflect; subst|].
  assert (Ha : IsAbs (dir +:+ "/" +:+ t) = true).
  { apply HasPrefix_spec in Hd as (u & ->). apply HasPrefix_spec. eexists. by rewrite sapp_assoc. }
  rewrite Clean_abs by done. f_equal. unfold resolve. rewrite Ht.
  unfold path_segs, clean_segs. rewrite rev_involutive.
  change (dir +:+ "/" +:+ t) with (dir +:+ String slash t).
  by rewrite split_char_app_sep, fold_left_app.
Qed.

(** ** The byte-prefix test is the component-prefix test *)

Lemma Join_app a b :
  a <> [] -> b <> [] -> Join (a ++ b) "/" = Join a "/" +:+ String slash (Join b "/").
Proof.
  intros Ha Hb. induction a as [|x a IH]; [done|].
  destruct a as [|y a].
  - simpl. by destruct b.
  - change (Join ((x :: y :: a) ++ b) "/") with (x +:+ String slash (Join ((y :: a) ++ b) "/")).
    rewrite IH by done.
    change (Join (x :: y :: a) "/") with (x +:+ String slash (Join (y :: a) "/")).
    by rewrite sapp_assoc.
Qed.

Definition below (dir p : list string) : Prop := exists rest, p = dir ++ rest.

Lemma below_refl d : below d d.
Proof. exists []. by rewrite app_nil_r. Qed.

(** [p] lies strictly below [dir], by the byte test of the program. *)
Lemma proper_prefix_spec dir p :
  dir <> [] -> Forall proper dir -> Forall proper p ->
  HasPrefix (abs_path p) (abs_path dir +:+ "/") = true
  <-> exists rest, rest <> [] /\ p = dir ++ rest.
Proof.
  intros Hne Hd Hp. rewrite HasPrefix_spec. split.
  - intros (t & E). rewrite sapp_assoc in E.
    assert (E2 : split_char slash (abs_path p) = split_char slash (abs_path dir +:+ String slash t))
      by (by rewrite E).
    rewrite split_char_app_sep, !split_abs_path in E2 by done.
    simpl in E2. injection E2 as E2.
    destruct p as [|x p].
    { destruct dir as [|d dir]; [done|].
      injection E2 as E2 _. apply Forall_inv in Hd as (_ & Hd & _). congruence. }
    destruct dir as [|d dir]; [done|].
    exists (split_char slash t). split; [|done].
    destruct (split_char_cons slash t) as (? & ? & ->). done.
  - intros (rest & Hr & ->). unfold abs_path. rewrite Join_app by done.
    exists (Join rest "/"). simpl. by rewrite sapp_assoc.
Qed.

Lemma inside_spec dir p :
  dir <> [] -> Forall proper dir -> Forall proper p ->
  (abs_path p == abs_path dir) || HasPrefix (abs_path p) (abs_path dir +:+ "/") = true
  <-> below dir p.
Proof.
  intros Hne Hd Hp. rewrite orb_true_iff, String.eqb_eq, proper_prefix_spec by done.
  unfold below. split.
  - intros [E | (rest & _ & ->)]; [|eauto].
    apply abs_path_inj in E as ->; [apply below_refl | done | done].
  - intros (rest & ->). destruct rest as [|r rest]; [left; by rewrite app_nil_r | right; by exists (r :: rest)].
Qed.

#[export] Hint Resolve path_segs_proper resolve_proper below_refl IsAbs_abs_path : orch.
