(* ===== verification/Domain.v ===== *)
(** * Domain vocabulary (internal/domain/domain.go)

    The life-cycle states, kinds and modes are plain Go strings: a value read
    from the database may be none of the declared constants, so they stay
    strings here and every switch keeps its default branch. *)

From S2P Require Import Prelude GoStrings.

Definition WorkItemKindEpic : string := "epic".
Definition WorkItemKindFeature : string := "feature".
Definition WorkItemKindTask : string := "task".
Definition WorkItemKindSubtask : string := "subtask".
Definition WorkItemKindRecoveryStop : string := "recovery_stop".
Definition WorkItemKindRecoverySummarizeRestart : string := "recovery_summarize_restart".
Definition WorkItemKindRecoveryHumanEscalation : string := "recovery_human_escalation".
Definition WorkItemKindRecoveryRetryN : string := "recovery_retry_n".
Definition WorkItemPending : string := "pending".
Definition WorkItemScheduled : string := "scheduled".
Definition WorkItemReady : string := "ready".
Definition WorkItemAssigned : string := "assigned".
Definition WorkItemRunning : string := "running".
Definition WorkItemCheckpointing : string := "checkpointing".
Definition WorkItemSucceeded : string := "succeeded".
Definition WorkItemFailed : string := "failed".
Definition WorkItemCancelled : string := "cancelled".
Definition WorkItemRecovering : string := "recovering".
Definition WorkItemRecurring : string := "recurring".
Definition WorkItemBlocked : string := "blocked".
Definition WorkItemSkipped : string := "skipped".
Definition WorkItemArchived : string := "archived".
Definition WorkItemIdea : string := "idea".
Definition RecurringOutputsStandard : string := "standard".
Definition RecurringOutputsIdea : string := "idea".
Definition RecurringOutputsNone : string := "none".
Definition DependencyBlocks : string := "blocks".
Definition DependencyDependsOn : string := "depends_on".
Definition DependencyRelatesTo : string := "relates_to".
Definition WorkflowDraft : string := "draft".
Definition WorkflowPublished : string := "published".
Definition WorkflowDeprecated : string := "deprecated".
Definition WorkflowRunPending : string := "pending".
Definition WorkflowRunRunning : string := "running".
Definition WorkflowRunCompleted : string := "completed".
Definition WorkflowRunFailed : string := "failed".
Definition WorkflowRunAborted : string := "aborted".
Definition WorkflowRunPaused : string := "paused".
Definition WorktreePending : string := "pending".
Definition WorktreeReady : string := "ready".
Definition WorktreeSkipped : string := "skipped".
Definition WorktreeFailed : string := "failed".
Definition WorktreePruned : string := "pruned".
Definition StepKindTask : string := "task".
Definition StepKindDecision : string := "decision".
Definition StepKindApproval : string := "approval".
Definition StepKindParallel : string := "parallel".
Definition StepKindRecover : string := "recover".
Definition StepKindWorkItem : string := "work_item".
Definition StepKindProject : string := "project".
Definition StepKindLoopDecision : string := "loop_decision".
Definition StepKindEnd : string := "end".

Definition ExecutionDispatching : string := "dispatching".
Definition ExecutionRunning : string := "running".
Definition ExecutionTerminated : string := "terminated".

Definition StepRunPending : string := "pending".
Definition StepRunReady : string := "ready".
Definition StepRunRunning : string := "running".
Definition StepRunSucceeded : string := "succeeded".
Definition StepRunFailed : string := "failed".
Definition StepRunSkipped : string := "skipped".
Definition StepRunBlocked : string := "blocked".
Definition StepRunApprovalPending : string := "approval_pending".
Definition StepRunRecovering : string := "recovering".

(** ** Classification of work item kinds and states *)

Definition IsRecoveryKind (kind : string) : bool :=
  (kind == WorkItemKindRecoveryStop)
  || (kind == WorkItemKindRecoverySummarizeRestart)
  || (kind == WorkItemKindRecoveryHumanEscalation)
  || (kind == WorkItemKindRecoveryRetryN).

(** [None] is the error branch: the message names the offending kind. *)
Definition NormalizeWorkItemKind (kind : string) : option string :=
  let normalized := ToLower (TrimSpace kind) in
  if (normalized == WorkItemKindEpic) || (normalized == WorkItemKindFeature)
     || (normalized == WorkItemKindTask) || (normalized == WorkItemKindSubtask)
  then Some normalized
  else None.

Definition WorkItemIsTerminalArchivable (status : string) : bool :=
  (status == WorkItemSucceeded) || (status == WorkItemFailed)
  || (status == WorkItemCancelled) || (status == WorkItemSkipped).

Definition WorkItemIsTerminalSuccess (status : string) : bool :=
  (status == WorkItemSucceeded) || (status == WorkItemSkipped).

Definition WorkItemIsTerminalNonReplayable (status : string) : bool :=
  (status == WorkItemSucceeded) || (status == WorkItemSkipped)
  || (status == WorkItemCancelled) || (status == WorkItemArchived).

Definition NormalizeRecurringOutputsMode (mode : string) : string :=
  let m := ToLower (TrimSpace mode) in
  if m == RecurringOutputsIdea then RecurringOutputsIdea
  else if m == RecurringOutputsNone then RecurringOutputsNone
  else RecurringOutputsStandard.

(** The hierarchy kinds, from the top of the tree to the leaves. *)
Definition hierarchy_kinds : list string :=
  [WorkItemKindEpic; WorkItemKindFeature; WorkItemKindTask; WorkItemKindSubtask].

(** ** Lemmas *)

Lemma terminal_success_cases s :
  WorkItemIsTerminalSuccess s = true <-> s = WorkItemSucceeded \/ s = WorkItemSkipped.
Proof.
  unfold WorkItemIsTerminalSuccess.
  by rewrite orb_true_iff, !String.eqb_eq.
Qed.

Lemma terminal_success_archivable s :
  WorkItemIsTerminalSuccess s = true -> WorkItemIsTerminalArchivable s = true.
Proof. intros [-> | ->]%terminal_success_cases; done. Qed.

Lemma terminal_success_nonreplayable s :
  WorkItemIsTerminalSuccess s = true -> WorkItemIsTerminalNonReplayable s = true.
Proof. intros [-> | ->]%terminal_success_cases; done. Qed.

Lemma normalize_kind_in k k' : NormalizeWorkItemKind k = Some k' -> In k' hierarchy_kinds.
Proof.
  unfold NormalizeWorkItemKind. case_match; [|done]. intros [= <-].
  breflect. unfold hierarchy_kinds. simpl.
  destruct H as [[[H | H]%orb_true_iff | H]%orb_true_iff | H]; apply String.eqb_eq in H; eauto.
Qed.

#[export] Hint Resolve terminal_success_archivable terminal_success_nonreplayable : orch.

(** ** Properties *)

(** [NormalizeWorkItemKind] accepts a spelling only when it denotes one of
    the four hierarchy kinds, returns that kind's canonical constant, is
    idempotent on its own results, and never lets a recovery kind through. *)
Theorem normalize_kind_canonical (kind kind' : string) (H : NormalizeWorkItemKind kind = Some kind') :
  In kind' hierarchy_kinds
  /\ NormalizeWorkItemKind kind' = Some kind'
  /\ IsRecoveryKind kind' = false.
Proof.
  apply normalize_kind_in in H. split; [done|].
  unfold hierarchy_kinds in H. simpl in H.
  destruct H as [<- | [<- | [<- | [<- | []]]]]; done.
Qed.

Lemma normalize_kind_canonical_witness :
  NormalizeWorkItemKind "  EPIC " = Some "epic"
  /\ (In "epic" hierarchy_kinds
      /\ NormalizeWorkItemKind "epic" = Some "epic" /\ IsRecoveryKind "epic" = false).
Proof.
  split; [vm_compute; reflexivity |].
  apply (normalize_kind_canonical "  EPIC " "epic"). vm_compute. reflexivity.
Defined.
