(* ===== verification/WorkQueue.v ===== *)
(** * The reconciler manager's work queue (internal/reconciler/manager.go)

    [workQueue] is the per-kind queue: a map of pending entries, the FIFO
    order of the keys waiting, and the failure counters.  Every operation
    takes the value [time.Now()] returned to it.  [mstep] interleaves the
    manager goroutine, one locked section at a time, with [Enqueue] calls
    from other goroutines. *)

From S2P Require Import Prelude GoStrings.

Record queueEntry := mkEntry {
  qe_key : string;
  qe_enqueuedAt : Z;
  qe_readyAt : Z;
  qe_failures : Z
}.

Record workQueue := mkQueue {
  wq_kind : string;
  pending : gmap string queueEntry;
  ordered : list string;
  fail : gmap string Z
}.

Definition newWorkQueue (kind : string) : workQueue := mkQueue kind ∅ [] ∅.

Definition with_ordered (q : workQueue) (l : list string) : workQueue :=
  mkQueue (wq_kind q) (pending q) l (fail q).

Definition enqueue (now : Z) (key : string) (q : workQueue) : workQueue :=
  match pending q !! key with
  | Some _ => q
  | None =>
      mkQueue (wq_kind q) (<[key := mkEntry key now now 0]> (pending q))
              (ordered q ++ [key]) (fail q)
  end.

(** The scan loop: [visited] counts the not-ready keys rotated to the back.
    [length ordered - visited] shrinks at every turn, so it bounds the turns. *)
Fixpoint dequeue_loop (fuel visited : nat) (now : Z) (q : workQueue) : option string * workQueue :=
  match fuel with
  | O => (None, q)
  | S fuel' =>
      if Nat.ltb visited (length (ordered q)) then
        match ordered q with
        | [] => (None, q)
        | key :: rest =>
            match pending q !! key with
            | None => dequeue_loop fuel' visited now (with_ordered q rest)
            | Some entry =>
                if (now <? qe_readyAt entry)%Z
                then dequeue_loop fuel' (S visited) now (with_ordered q (rest ++ [key]))
                else (Some key, with_ordered q rest)
            end
        end
      else (None, q)
  end.

Definition dequeue (now : Z) (q : workQueue) : option string * workQueue :=
  dequeue_loop (length (ordered q)) 0 now q.

Definition markDone (key : string) (q : workQueue) : workQueue :=
  mkQueue (wq_kind q) (delete key (pending q)) (ordered q) (delete key (fail q)).

(** [time.Duration(1<<uint(failures)) * time.Second], capped at five minutes:
    the shift and the product are [int64] operations. *)
Definition failure_backoff (failures : Z) : Z :=
  let backoff := wrap64 (wrap64 (Z.shiftl 1 failures) * Second) in
  if (5 * Minute <? backoff)%Z then (5 * Minute)%Z else backoff.

Definition markFailed (now : Z) (key : string) (q : workQueue) : workQueue :=
  match pending q !! key with
  | Some entry =>
      let failures := wrap64 (qe_failures entry + 1) in
      let entry' := mkEntry (qe_key entry) (qe_enqueuedAt entry)
                            (now + failure_backoff failures) failures in
      mkQueue (wq_kind q) (<[key := entry']> (pending q))
              (ordered q ++ [key]) (<[key := failures]> (fail q))
  | None => q
  end.

Definition requeueAfter (now : Z) (key : string) (after : Z) (q : workQueue) : workQueue :=
  match pending q !! key with
  | Some entry =>
      mkQueue (wq_kind q)
              (<[key := mkEntry (qe_key entry) (qe_enqueuedAt entry) (now + after) (qe_failures entry)]>
                 (pending q))
              (ordered q ++ [key]) (fail q)
  | None =>
      mkQueue (wq_kind q) (<[key := mkEntry key now (now + after) 0]> (pending q))
              (ordered q ++ [key]) (fail q)
  end.

Definition failures (key : string) (q : workQueue) : Z :=
  match fail q !! key with Some n => n | None => 0%Z end.

(** ** The processing pass *)

Record Result := mkResult { RequeueAfter : Z; ResultError : bool }.

(** What a pass sees of its surroundings: the clock, whether the context is
    cancelled, the registered reconciler, and the keys other goroutines enqueue
    while it runs. *)
Record Env (W : Type) := mkEnv {
  env_now : W -> Z;
  env_cancelled : W -> bool;
  env_reconcile : string -> W -> Result * list string * W
}.

Arguments env_now {W}.
Arguments env_cancelled {W}.
Arguments env_reconcile {W}.

Section process.
Context {W : Type} (env : Env W).

(** One turn of the loop of [processQueue] after [dequeue] returned [key]. *)
Definition process_key (key : string) (q : workQueue) (w : W) : workQueue * W :=
  let '(result, arrivals, w') := env_reconcile env key w in
  let q := fold_left (fun q k => enqueue (env_now env w') k q) arrivals q in
  if ResultError result then (markFailed (env_now env w') key q, w')
  else
    let q := markDone key q in
    if (0 <? RequeueAfter result)%Z
    then (requeueAfter (env_now env w') key (RequeueAfter result) q, w')
    else (q, w').

(** The loop: [None] when the fuel runs out, otherwise the queue, the world,
    and whether a key was processed ([didWork]).  A cancelled context returns
    at once ([true] in the last component). *)
Fixpoint process_loop (fuel : nat) (didWork : bool) (q : workQueue) (w : W)
  : option (workQueue * W * bool * bool) :=
  match fuel with
  | O => None
  | S fuel' =>
      if env_cancelled env w then Some (q, w, didWork, true)
      else
        match dequeue (env_now env w) q with
        | (None, q') => Some (q', w, didWork, false)
        | (Some key, q') =>
            let '(q'', w') := process_key key q' w in
            process_loop fuel' true q'' w'
        end
  end.

(** [processQueue]: the loop, then one scan ([Reconcile] with an empty key)
    when the loop found no work. *)
Definition processQueue (fuel : nat) (q : workQueue) (w : W) : option (workQueue * W * bool) :=
  match process_loop fuel false q w with
  | None => None
  | Some (q', w', _, true) => Some (q', w', false)
  | Some (q', w', true, false) => Some (q', w', false)
  | Some (q', w', false, false) =>
      let '(_, arrivals, w'') := env_reconcile env "" w' in
      Some (fold_left (fun q k => enqueue (env_now env w'') k q) arrivals q', w'', true)
  end.
End process.

(** ** Leader election

    The advisory lock is held by a pinned connection.  What Postgres answers is
    an argument: [acquire] is the outcome of taking a connection from the pool,
    [query] of [SELECT pg_try_advisory_lock]. *)

Record leaderElection (C : Type) := mkLeader { lockKey : Z; heldConn : option C }.
Arguments mkLeader {C}.
Arguments lockKey {C}.
Arguments heldConn {C}.

Inductive leaderError := ErrRenew | ErrAcquireConn | ErrTryLock.

(** The last component lists the connections handed back to the pool. *)
Definition tryAcquireOrRenew {C} (l : leaderElection C) (acquire : option C) (query : C -> option bool)
  : result leaderError bool * leaderElection C * list C :=
  match heldConn l with
  | Some c =>
      match query c with
      | None => (Err ErrRenew, mkLeader (lockKey l) None, [c])
      | Some _ => (Ok true, l, [])
      end
  | None =>
      match acquire with
      | None => (Err ErrAcquireConn, l, [])
      | Some conn =>
          match query conn with
          | None => (Err ErrTryLock, l, [conn])
          | Some false => (Ok false, l, [conn])
          | Some true => (Ok true, mkLeader (lockKey l) (Some conn), [])
          end
      end
  end.

Definition release {C} (l : leaderElection C) : leaderElection C * list C :=
  match heldConn l with
  | None => (l, [])
  | Some c => (mkLeader (lockKey l) None, [c])
  end.

(** FNV-1a over the code points of the kind, in [uint32] arithmetic. *)
Definition hashKind (kind : list Z) : Z :=
  fold_left (fun h c => wrap32u (Z.lxor h (wrap32u c) * 16777619)) kind 2166136261%Z.

(** ** The manager goroutine interleaved with [Enqueue] calls *)

Inductive phase :=
| Idle
| Processing (key : string)
| Requeueing (key : string) (after : Z).

Inductive mstep : workQueue * phase -> workQueue * phase -> Prop :=
| step_enqueue now k q p : mstep (q, p) (enqueue now k q, p)
| step_dequeue now k q q' :
    dequeue now q = (Some k, q') -> mstep (q, Idle) (q', Processing k)
| step_empty now q q' : dequeue now q = (None, q') -> mstep (q, Idle) (q', Idle)
| step_failed now k q : mstep (q, Processing k) (markFailed now k q, Idle)
| step_done k q : mstep (q, Processing k) (markDone k q, Idle)
| step_done_requeue k after q :
    (0 < after)%Z -> mstep (q, Processing k) (markDone k q, Requeueing k after)
| step_requeue now k after q :
    mstep (q, Requeueing k after) (requeueAfter now k after q, Idle).

(** No key is lost: whatever is pending waits in the order or is in hand. *)
Definition no_lost_key (s : workQueue * phase) : Prop :=
  forall k, is_Some (pending s.1 !! k) ->
            k ∈ ordered s.1 \/ s.2 = Processing k.

(** ** Reference behaviour of [dequeue] *)

Definition live (q : workQueue) (key : string) : bool :=
  match pending q !! key with Some _ => true | None => false end.

Definition ready (now : Z) (q : workQueue) (key : string) : bool :=
  match pending q !! key with Some e => negb (now <? qe_readyAt e)%Z | None => false end.

(** The keys before the first ready one, that key, and the keys after it. *)
Fixpoint cut_ready (now : Z) (q : workQueue) (l : list string)
  : option (list string * string * list string) :=
  match l with
  | [] => None
  | k :: t =>
      if ready now q k then Some ([], k, t)
      else match cut_ready now q t with
           | Some (b, x, a) => Some (k :: b, x, a)
           | None => None
           end
  end.

Definition dequeue_spec (now : Z) (q : workQueue) : option string * workQueue :=
  match cut_ready now q (ordered q) with
  | Some (before, k, after) =>
      (Some k, with_ordered q (after ++ List.filter (live q) before))
  | None => (None, with_ordered q (List.filter (live q) (ordered q)))
  end.

(** ** Lemmas *)

Lemma with_ordered_same q : with_ordered q (ordered q) = q.
Proof. by destruct q. Qed.

Lemma dequeue_loop_spec now q u r :
  dequeue_loop (length u) (length r) now (with_ordered q (u ++ r)) =
  match cut_ready now q u with
  | Some (b, k, a) => (Some k, with_ordered q (a ++ r ++ List.filter (live q) b))
  | None => (None, with_ordered q (r ++ List.filter (live q) u))
  end.
Proof.
  revert r. induction u as [|k u IH]; intros r; simpl.
  { by rewrite app_nil_r. }
  rewrite length_app.
  replace (Nat.ltb (length r) (S (length u + length r))) with true
    by (symmetry; apply Nat.ltb_lt; lia).
  unfold ready, live in *. destruct (pending q !! k) as [e|] eqn:Ek; simpl.
  - destruct (now <? qe_readyAt e)%Z; simpl.
    + specialize (IH (r ++ [k])). rewrite length_app in IH. simpl in IH.
      rewrite Nat.add_comm in IH. simpl in IH.
      change (with_ordered (with_ordered q (k :: u ++ r)) ((u ++ r) ++ [k]))
        with (with_ordered q ((u ++ r) ++ [k])).
      rewrite <- app_assoc, IH.
      destruct (cut_ready now q u) as [[[b x] a]|]; simpl; rewrite ?Ek, <- ?app_assoc; done.
    + by rewrite app_nil_r.
  - change (with_ordered (with_ordered q (k :: u ++ r)) (u ++ r)) with (with_ordered q (u ++ r)).
    rewrite IH. destruct (cut_ready now q u) as [[[b x] a]|]; simpl; by rewrite ?Ek.
Qed.

Lemma dequeue_eq now q : dequeue now q = dequeue_spec now q.
Proof.
  unfold dequeue, dequeue_spec.
  pose proof (dequeue_loop_spec now q (ordered q) []) as H.
  rewrite app_nil_r, with_ordered_same in H. exact H.
Qed.

Lemma cut_ready_Some now q l b k a :
  cut_ready now q l = Some (b, k, a) ->
  l = b ++ k :: a /\ ready now q k = true /\ Forall (fun x => ready now q x = false) b.
Proof.
  revert b k a. induction l as [|x l IH]; simpl; [done|]. intros b k a.
  destruct (ready now q x) eqn:Hx.
  - intros [= <- <- <-]. done.
  - destruct (cut_ready now q l) as [[[b' k'] a']|]; [|done].
    intros [= <- <- <-]. destruct (IH b' k' a' eq_refl) as (-> & Hk & Hb).
    repeat split; [done|]. by constructor.
Qed.

Lemma cut_ready_None now q l :
  cut_ready now q l = None <-> Forall (fun x => ready now q x = false) l.
Proof.
  induction l as [|x l IH]; simpl; [by split|].
  rewrite Forall_cons. destruct (ready now q x).
  - split; [done | by intros [? _]].
  - destruct (cut_ready now q l) as [[[b k] a]|]; rewrite <- IH; [|done].
    split; [done | by intros [_ ?]].
Qed.

Lemma live_pending q k : live q k = true <-> is_Some (pending q !! k).
Proof.
  unfold live. destruct (pending q !! k); by split.
Qed.

Lemma elem_of_filter_live q k l : k ∈ l -> live q k = true -> k ∈ List.filter (live q) l.
Proof. rewrite !list_elem_of_In. intros. by apply filter_In. Qed.

Lemma dequeue_keeps now q q' o :
  dequeue now q = (o, q') -> pending q' = pending q /\ fail q' = fail q.
Proof.
  rewrite dequeue_eq. unfold dequeue_spec. repeat case_match; by intros [= <- <-].
Qed.

Lemma dequeue_order now q o q' k :
  dequeue now q = (o, q') -> is_Some (pending q !! k) -> k ∈ ordered q ->
  k ∈ ordered q' \/ o = Some k.
Proof.
  rewrite dequeue_eq. unfold dequeue_spec. intros Hd Hk%live_pending Hin.
  destruct (cut_ready now q (ordered q)) as [[[b x] a]|] eqn:E; injection Hd as <- <-; simpl.
  - apply cut_ready_Some in E as (E & _ & _). rewrite E in Hin.
    apply elem_of_app in Hin as [Hb | [-> | Ha]%elem_of_cons].
    + left. apply elem_of_app. right. by apply elem_of_filter_live.
    + by right.
    + left. apply elem_of_app. by left.
  - left. by apply elem_of_filter_live.
Qed.

Lemma enqueue_present now k q : is_Some (pending q !! k) -> enqueue now k q = q.
Proof. intros [e He]. unfold enqueue. by rewrite He. Qed.

Lemma no_lost_enqueue now k q p : no_lost_key (q, p) -> no_lost_key (enqueue now k q, p).
Proof.
  unfold enqueue. destruct (pending q !! k) as [e|] eqn:E; [done|].
  intros H k' Hk'. simpl in *. destruct (decide (k = k')) as [<- | Hne].
  - left. set_solver.
  - rewrite lookup_insert_ne in Hk' by done. destruct (H k' Hk'); set_solver.
Qed.

Lemma mstep_no_lost s s' : mstep s s' -> no_lost_key s -> no_lost_key s'.
Proof.
  destruct 1 as [now k q p | now k q q' Hd | now q q' Hd | now k q | k q | k after q _ | now k after q];
    intros H; [by apply no_lost_enqueue | ..]; intros k' Hk'; simpl in *.
  - destruct (dequeue_keeps _ _ _ _ Hd) as [Ep _]. rewrite Ep in Hk'.
    destruct (H k' Hk') as [Hin | Hp]; [|discriminate Hp].
    destruct (dequeue_order _ _ _ _ k' Hd Hk' Hin) as [? | [= ->]]; auto.
  - destruct (dequeue_keeps _ _ _ _ Hd) as [Ep _]. rewrite Ep in Hk'.
    destruct (H k' Hk') as [Hin | Hp]; [|discriminate Hp].
    destruct (dequeue_order _ _ _ _ k' Hd Hk' Hin) as [? | ?]; [auto | done].
  - unfold markFailed in *. destruct (pending q !! k) as [e|] eqn:E; simpl in *.
    + destruct (decide (k = k')) as [<- | Hne]; [left; set_solver|].
      rewrite lookup_insert_ne in Hk' by done.
      destruct (H k' Hk') as [? | [= ->]]; [left; set_solver | done].
    + destruct (H k' Hk') as [? | [= ->]]; [auto|]. rewrite E in Hk'. by destruct Hk'.
  - destruct (decide (k = k')) as [<- | Hne].
    { rewrite lookup_delete_eq in Hk'. by destruct Hk'. }
    rewrite lookup_delete_ne in Hk' by done. destruct (H k' Hk') as [? | [= ->]]; [auto | done].
  - destruct (decide (k = k')) as [<- | Hne].
    { rewrite lookup_delete_eq in Hk'. by destruct Hk'. }
    rewrite lookup_delete_ne in Hk' by done. destruct (H k' Hk') as [? | [= ->]]; [auto | done].
  - unfold requeueAfter in *.
    destruct (pending q !! k) as [e|] eqn:E; simpl in *;
      (destruct (decide (k = k')) as [<- | Hne]; [left; set_solver|];
       rewrite lookup_insert_ne in Hk' by done;
       destruct (H k' Hk') as [? | ?]; [left; set_solver | done]).
Qed.

Lemma wrap64_mul_l x y : wrap64 (wrap64 x * y) = wrap64 (x * y).
Proof.
  unfold wrap64. f_equal.
  rewrite <- (Zplus_mod_idemp_l (((x + 2 ^ 63) mod 2 ^ 64 - 2 ^ 63) * y)).
  rewrite <- (Zplus_mod_idemp_l (x * y)). f_equal. f_equal.
  rewrite Z.mul_sub_distr_r, <- Zminus_mod_idemp_l, Zmult_mod_idemp_l, Zminus_mod_idemp_l.
  f_equal. lia.
Qed.

Lemma failure_backoff_eq n :
  (0 <= n <= 33)%Z -> failure_backoff n = Z.min (2 ^ n * Second) (5 * Minute).
Proof.
  intros Hn. unfold failure_backoff.
  rewrite Z.shiftl_1_l, wrap64_mul_l.
  assert (2 ^ n <= 2 ^ 33)%Z by (apply Z.pow_le_mono_r; lia).
  assert (0 < 2 ^ n)%Z by (apply Z.pow_pos_nonneg; lia).
  rewrite wrap64_small; unfold int64_min, int64_max, Minute, Second in *; [|lia].
  case_match; breflect; lia.
Qed.

Lemma failure_backoff_pos n : (0 <= n <= 33)%Z -> (0 < failure_backoff n <= 5 * Minute)%Z.
Proof.
  intros Hn. rewrite failure_backoff_eq by done.
  assert (0 < 2 ^ n)%Z by (apply Z.pow_pos_nonneg; lia).
  unfold Minute, Second. lia.
Qed.

Lemma failure_backoff_zero n : (55 <= n)%Z -> failure_backoff n = 0%Z.
Proof.
  intros Hn. unfold failure_backoff.
  rewrite Z.shiftl_1_l, wrap64_mul_l.
  replace (2 ^ n)%Z with (2 ^ (n - 55) * 2 ^ 55)%Z by (rewrite <- Z.pow_add_r by lia; f_equal; lia).
  unfold wrap64.
  replace (2 ^ (n - 55) * 2 ^ 55 * Second + 2 ^ 63)%Z
    with (2 ^ 63 + 2 ^ (n - 55) * (Second / 2 ^ 9) * 2 ^ 64)%Z.
  - rewrite Z.mod_add by lia. reflexivity.
  - unfold Second. change (1000000000 / 2 ^ 9)%Z with 1953125%Z.
    change (2 ^ 64)%Z with (2 ^ 55 * 2 ^ 9)%Z. change 1000000000%Z with (1953125 * 2 ^ 9)%Z. ring.
Qed.

Lemma ready_with_ordered now q l k : ready now (with_ordered q l) k = ready now q k.
Proof. done. Qed.

Lemma length_filter_mono {A} (f g : A -> bool) l :
  (forall x, f x = true -> g x = true) ->
  length (List.filter f l) <= length (List.filter g l).
Proof.
  intros H. induction l as [|x l IH]; simpl; [lia|].
  destruct (f x) eqn:Ef; [rewrite (H x Ef); simpl; lia|].
  destruct (g x); simpl; lia.
Qed.

Lemma filter_none {A} (f : A -> bool) l : Forall (fun x => f x = false) l -> List.filter f l = [].
Proof. induction 1 as [|x l Hx _ IH]; simpl; [done|]. by rewrite Hx. Qed.

Lemma length_filter_filter {A} (f g : A -> bool) l :
  length (List.filter f (List.filter g l)) <= length (List.filter f l).
Proof.
  induction l as [|x l IH]; simpl; [done|]. destruct (g x); simpl; destruct (f x); simpl; lia.
Qed.

(** The shortest retry delay is two seconds. *)
Lemma failure_backoff_two n : (1 <= n <= 33)%Z -> (2 * Second <= failure_backoff n)%Z.
Proof.
  intros Hn. rewrite failure_backoff_eq by lia.
  assert (2 ^ 1 <= 2 ^ n)%Z by (apply Z.pow_le_mono_r; lia). unfold Minute, Second. lia.
Qed.

Lemma ready_later now now' q k : (now <= now')%Z -> ready now q k = true -> ready now' q k = true.
Proof.
  unfold ready. intros Hle. destruct (pending q !! k) as [e|]; [|done].
  rewrite !negb_true_iff, !Z.ltb_ge. lia.
Qed.

Definition ready_count (now : Z) (q : workQueue) : nat :=
  length (List.filter (ready now q) (ordered q)).

(** Keys due now have failed fewer than 33 times in a row. *)
Definition few_failures (now : Z) (q : workQueue) : Prop :=
  forall k e, pending q !! k = Some e -> ready now q k = true -> (0 <= qe_failures e < 33)%Z.

(** A pass during which the clock stays between [t] and [t'], less than the
    shortest retry delay apart, and nothing is enqueued. *)
Section window.
Context {W : Type} (env : Env W) (t t' : Z) (good : W -> Prop).
Context (Hshort : (t' < t + 2 * Second)%Z).
Context (Hgood : forall k w, good w -> good (snd (env_reconcile env k w))).
Context (Hclock : forall w, good w -> (t <= env_now env w <= t')%Z).
Context (Hrun : forall w, good w -> env_cancelled env w = false).
Context (Hquiet : forall k w, good w -> snd (fst (env_reconcile env k w)) = []).
Context (Hlater : forall k w, good w ->
  let after := RequeueAfter (fst (fst (env_reconcile env k w))) in (after <= 0 \/ t' - t < after)%Z).

Lemma process_key_good q k w : good w -> good (snd (process_key env k q w)).
Proof.
  intros Hw. unfold process_key. pose proof (Hgood k w Hw) as H.
  destruct (env_reconcile env k w) as [[r arr] w']. cbn [snd] in H. by repeat case_match.
Qed.

Lemma process_key_settles q k w e :
  good w -> pending q !! k = Some e -> (0 <= qe_failures e < 33)%Z ->
  let q' := fst (process_key env k q w) in
  ready t' q' k = false
  /\ (forall x, x <> k -> pending q' !! x = pending q !! x)
  /\ (ordered q' = ordered q \/ ordered q' = ordered q ++ [k]).
Proof.
  intros Hw He Hf. unfold process_key.
  pose proof (Hquiet k w Hw) as Hq. pose proof (Hlater k w Hw) as Hl. pose proof (Hgood k w Hw) as Hw'.
  destruct (env_reconcile env k w) as [[r arr] w']. simpl in Hq, Hl, Hw'. subst arr.
  pose proof (Hclock _ Hw') as Hc. simpl.
  destruct (ResultError r); simpl.
  - unfold markFailed. rewrite He. simpl. unfold ready. simpl. rewrite lookup_insert_eq. simpl.
    rewrite (wrap64_small (qe_failures e + 1)) by (unfold int64_min, int64_max; lia).
    pose proof (failure_backoff_two (qe_failures e + 1)).
    repeat split; [apply negb_false_iff, Z.ltb_lt; lia | | by right].
    intros x Hx. by rewrite lookup_insert_ne.
  - destruct (0 <? RequeueAfter r)%Z eqn:Ha; simpl.
    + unfold requeueAfter. simpl. rewrite lookup_delete_eq. simpl. unfold ready. simpl.
      rewrite lookup_insert_eq. simpl. breflect.
      repeat split; [apply negb_false_iff, Z.ltb_lt; lia | | by right].
      intros x Hx. by rewrite lookup_insert_ne, lookup_delete_ne.
    + unfold ready. simpl. rewrite lookup_delete_eq.
      repeat split; [|by left]. intros x Hx. by rewrite lookup_delete_ne.
Qed.

Lemma ready_other now q q' x :
  pending q' !! x = pending q !! x -> ready now q' x = ready now q x.
Proof. unfold ready. by intros ->. Qed.

Lemma process_step_decreases q k q' w :
  good w -> few_failures t' q -> dequeue (env_now env w) q = (Some k, q') ->
  let q'' := fst (process_key env k q' w) in
  ready_count t' q'' < ready_count t' q /\ few_failures t' q''.
Proof.
  rewrite dequeue_eq. unfold dequeue_spec. intros Hw Hff Hd.
  destruct (cut_ready (env_now env w) q (ordered q)) as [[[b x] a]|] eqn:E; [|done].
  injection Hd as -> <-. apply cut_ready_Some in E as (Eo & Hk & _).
  apply (ready_later _ t') in Hk; [|by apply Hclock].
  set (q' := with_ordered q _).
  assert (exists e, pending q !! k = Some e) as [e He]
    by (unfold ready in Hk; destruct (pending q !! k); [by eexists | done]).
  destruct (process_key_settles q' k w e Hw He) as (Hdead & Hoth & Hord); [eauto|].
  set (q'' := fst (process_key env k q' w)) in *. simpl.
  assert (Hsub : forall x, ready t' q'' x = true -> ready t' q x = true).
  { intros x Hx. destruct (decide (x = k)) as [-> | Hne]; [congruence|].
    rewrite <- Hx. symmetry. apply ready_other. by apply Hoth. }
  split.
  - unfold ready_count.
    assert (length (List.filter (ready t' q'') (ordered q'')) <= length (List.filter (ready t' q'') (ordered q'))).
    { destruct Hord as [-> | ->]; [done|]. rewrite List.filter_app, length_app. simpl. rewrite Hdead. simpl. lia. }
    pose proof (length_filter_mono (ready t' q'') (ready t' q) (ordered q') Hsub) as H2.
    change (ordered q') with (a ++ List.filter (live q) b) in *.
    rewrite (List.filter_app (ready t' q)), length_app in H2.
    pose proof (length_filter_filter (ready t' q) (live q) b).
    rewrite Eo, List.filter_app, length_app. simpl. rewrite Hk. simpl. lia.
  - intros x e' Hx Hr. destruct (decide (x = k)) as [-> | Hne]; [congruence|].
    rewrite Hoth in Hx by done. eapply Hff; [exact Hx | by apply Hsub].
Qed.

Lemma process_loop_finishes fuel did q w :
  good w -> few_failures t' q -> ready_count t' q < fuel ->
  exists q' w' did', process_loop env fuel did q w = Some (q', w', did', false)
    /\ Forall (fun k => ready (env_now env w') q' k = false) (ordered q').
Proof.
  revert did q w. induction fuel as [|fuel IH]; intros did q w Hw Hff Hc; [lia|].
  simpl. rewrite (Hrun _ Hw). destruct (dequeue (env_now env w) q) as [[k|] q'] eqn:Ed.
  - pose proof (process_step_decreases q k q' w Hw Hff Ed) as [Hlt Hff'].
    pose proof (process_key_good q' k w Hw) as Hw'.
    destruct (process_key env k q' w) as [q'' w'] eqn:Ep. simpl in *.
    apply IH; [done | done | lia].
  - exists q', w, did. split; [done|]. revert Ed. rewrite dequeue_eq. unfold dequeue_spec.
    destruct (cut_ready (env_now env w) q (ordered q)) as [[[b x] a]|] eqn:E; [done|].
    intros [= <-]. simpl. apply cut_ready_None in E. rewrite Forall_forall in E.
    apply Forall_forall. intros x [Hx _]%list_elem_of_In%filter_In.
    apply E. by apply list_elem_of_In.
Qed.
End window.

(** *** A key that fails for good *)

Lemma dequeue_due now q o q' k e :
  dequeue now q = (o, q') -> k ∈ ordered q -> pending q !! k = Some e -> (qe_readyAt e <= now)%Z ->
  exists x, o = Some x /\ (x = k \/ k ∈ ordered q').
Proof.
  intros Hd Hk He Hdue. destruct (dequeue_order _ _ _ _ k Hd) as [Hin | ->]; [by eexists | done | | eauto].
  rewrite dequeue_eq in Hd. unfold dequeue_spec in Hd.
  destruct (cut_ready now q (ordered q)) as [[[b x] a]|] eqn:E; injection Hd as <- <-; [eauto|].
  apply cut_ready_None in E. rewrite Forall_forall in E. specialize (E k Hk).
  unfold ready in E. rewrite He in E. apply negb_false_iff, Z.ltb_lt in E. lia.
Qed.

Lemma enqueue_all_keeps now l q k e :
  pending q !! k = Some e ->
  pending (fold_left (fun q k => enqueue now k q) l q) !! k = Some e
  /\ (k ∈ ordered q -> k ∈ ordered (fold_left (fun q k => enqueue now k q) l q)).
Proof.
  revert q. induction l as [|x l IH]; intros q He; [done|]. cbn [fold_left].
  destruct (IH (enqueue now x q)) as [H1 H2].
  - unfold enqueue. destruct (pending q !! x) eqn:E; [done|]. cbn. rewrite lookup_insert_ne by congruence. done.
  - split; [done|]. intros Hin. apply H2. unfold enqueue. destruct (pending q !! x); [done|]. cbn. set_solver.
Qed.

(** After any turn the failing key is due and waits in the order. *)
Lemma process_pinned {W} (env : Env W) k x e q w :
  (forall w, ResultError (fst (fst (env_reconcile env k w))) = true) ->
  (forall x w, (env_now env w <= env_now env (snd (env_reconcile env x w)))%Z) ->
  (x = k \/ k ∈ ordered q) -> pending q !! k = Some e -> (qe_readyAt e <= env_now env w)%Z ->
  (54 <= qe_failures e < int64_max)%Z ->
  let '(q', w') := process_key env x q w in
  exists e', k ∈ ordered q' /\ pending q' !! k = Some e' /\ (qe_readyAt e' <= env_now env w')%Z
    /\ (qe_failures e <= qe_failures e' <= qe_failures e + 1)%Z.
Proof.
  intros Hfail Hclock Hx He Hdue Hf. unfold process_key. pose proof (Hfail w) as Hfw. pose proof (Hclock x w) as Hc.
  destruct (env_reconcile env x w) as [[r arr] w'] eqn:Er. cbn [snd] in Hc.
  destruct (enqueue_all_keeps (env_now env w') arr q k e He) as [He1 Hin1].
  revert He1 Hin1. generalize (fold_left (fun q k => enqueue (env_now env w') k q) arr q). intros q1 He1 Hin1.
  destruct (decide (x = k)) as [->|Hne].
  - rewrite Er in Hfw. cbn in Hfw. rewrite Hfw. unfold markFailed. rewrite He1. cbn.
    rewrite wrap64_small by (unfold int64_min, int64_max in *; lia).
    rewrite failure_backoff_zero by lia.
    eexists. split; [set_solver|]. split; [apply lookup_insert_eq|]. cbn. lia.
  - destruct Hx as [?|Hin]; [done|]. specialize (Hin1 Hin).
    destruct (ResultError r); [|destruct (0 <? RequeueAfter r)%Z].
    + exists e. unfold markFailed. destruct (pending q1 !! x); cbn; rewrite ?lookup_insert_ne by done;
        (split; [set_solver | split; [done | lia]]).
    + exists e. unfold requeueAfter. cbn. rewrite lookup_delete_eq. cbn.
      rewrite lookup_insert_ne, lookup_delete_ne by done. split; [set_solver | split; [done | lia]].
    + exists e. cbn. rewrite lookup_delete_ne by done. split; [done | split; [done | lia]].
Qed.

(** ** Properties *)

(** C12: no key is ever lost.  Whatever the interleaving of the manager
    goroutine with [Enqueue] calls, every pending key either waits in the
    order or is the key being processed. *)
Theorem manager_loses_no_key (kind : string) (s : workQueue * phase)
  (Hreach : rtc mstep (newWorkQueue kind, Idle) s) : no_lost_key s.
Proof.
  remember (newWorkQueue kind, Idle) as s0 eqn:E0.
  assert (H0 : no_lost_key s0) by (subst s0; intros k [e He]; done).
  clear E0. induction Hreach; eauto using mstep_no_lost.
Qed.

Lemma manager_loses_no_key_witness :
  let s := (enqueue 7 "a" (newWorkQueue "task"), Idle) in
  rtc mstep (newWorkQueue "task", Idle) s /\ no_lost_key s.
Proof.
  assert (H : rtc mstep (newWorkQueue "task", Idle) (enqueue 7 "a" (newWorkQueue "task"), Idle))
    by (eapply rtc_l; [apply step_enqueue | apply rtc_refl]).
  split; [exact H | exact (manager_loses_no_key "task" _ H)].
Defined.

(** C26: [dequeue] terminates within one visit per waiting key and is exactly
    "first ready key, in order": it returns the first key whose entry is due,
    keeps every later key ahead of the not-ready ones it passed (which rotate
    to the back in their order), forgets the passed keys that are no longer
    pending, and changes no entry; with nothing due it returns nothing. *)
Theorem dequeue_first_ready (now : Z) (q : workQueue) :
  let '(o, q') := dequeue now q in
  pending q' = pending q /\ fail q' = fail q
  /\ match o with
     | Some k =>
         exists before after,
           ordered q = before ++ k :: after
           /\ ready now q k = true
           /\ Forall (fun x => ready now q x = false) before
           /\ ordered q' = after ++ List.filter (live q) before
     | None =>
         Forall (fun x => ready now q x = false) (ordered q)
         /\ ordered q' = List.filter (live q) (ordered q)
     end.
Proof.
  rewrite dequeue_eq. unfold dequeue_spec.
  destruct (cut_ready now q (ordered q)) as [[[b k] a]|] eqn:E; simpl; repeat split.
  - apply cut_ready_Some in E as (? & ? & ?). by exists b, a.
  - by apply cut_ready_None.
Qed.

(** the retry delay after [n] consecutive failures is [min(2^n s, 5 min)],
    strictly positive, for every [n] up to 33. *)
Theorem failure_backoff_capped (n : Z) (H : (1 <= n <= 33)%Z) :
  failure_backoff n = Z.min (2 ^ n * Second) (5 * Minute)
  /\ (0 < failure_backoff n <= 5 * Minute)%Z.
Proof. split; [apply failure_backoff_eq; lia | apply failure_backoff_pos; lia]. Qed.

Lemma failure_backoff_capped_witness :
  (1 <= 9 <= 33)%Z /\ failure_backoff 9 = (5 * Minute)%Z.
Proof.
  split; [lia|]. rewrite (proj1 (failure_backoff_capped 9 ltac:(lia))). reflexivity.
Defined.

(** C23: a pass over a quiet queue terminates and leaves nothing due.  The
    clock stays in a window shorter than the shortest retry delay (two
    seconds), the keys the reconciler asks back come back after the window,
    the keys due in it have failed fewer than 33 times in a row, nothing is
    enqueued and the context lives: then [process_loop] runs at most one turn
    per key due in the window, whatever the reconciler answers, errors
    included.  The bound on the failures cannot go: see
    [failing_key_pins_the_pass]. *)
Theorem process_loop_terminates (W : Type) (env : Env W) (t t' : Z) (good : W -> Prop)
  (q : workQueue) (w : W)
  (Hw : good w)
  (Hgood : forall k w, good w -> good (snd (env_reconcile env k w)))
  (Hclock : forall w, good w -> (t <= env_now env w <= t')%Z)
  (Hshort : (t' < t + 2 * Second)%Z)
  (Hlater : forall k w, good w ->
     let after := RequeueAfter (fst (fst (env_reconcile env k w))) in (after <= 0 \/ t' - t < after)%Z)
  (Hrun : forall w, good w -> env_cancelled env w = false)
  (Hquiet : forall k w, good w -> snd (fst (env_reconcile env k w)) = [])
  (Hfew : few_failures t' q) :
  exists q' w' did, process_loop env (S (ready_count t' q)) false q w = Some (q', w', did, false)
    /\ Forall (fun k => ready (env_now env w') q' k = false) (ordered q').
Proof. apply (process_loop_finishes env t t' good); [done.. | lia]. Qed.

(** Every reconciliation fails and takes a nanosecond of the first second. *)
Definition failing_env : Env Z :=
  mkEnv Z (fun w => (7 + w)%Z) (fun _ => false)
    (fun _ w => (mkResult 0 true, [], if (w <? Second)%Z then (w + 1)%Z else w)).

Lemma process_loop_terminates_witness :
  exists q' w' did,
    process_loop failing_env 2 false (enqueue 7 "a" (newWorkQueue "task")) 0%Z
      = Some (q', w', did, false)
    /\ Forall (fun k => ready (env_now failing_env w') q' k = false) (ordered q').
Proof.
  apply (process_loop_terminates Z failing_env 7 (7 + Second) (fun w => 0 <= w <= Second)%Z
           (enqueue 7 "a" (newWorkQueue "task")) 0%Z);
    [unfold Second; lia | intros x y Hy; simpl; destruct (y <? Second)%Z eqn:E; breflect; lia
    | simpl; lia | unfold Second; lia | simpl; lia | reflexivity | reflexivity |].
  intros k e He _.
  change (<["a" := mkEntry "a" 7 7 0]> (∅ : gmap string queueEntry) !! k = Some e) in He.
  apply lookup_insert_Some in He as [[_ <-] | [_ He]]; [simpl; lia|].
  rewrite lookup_empty in He. discriminate He.
Defined.

(** C21: a key that keeps failing pins the pass.  Once a due key has failed 54
    times in a row, its reconciler goes on failing and the clock does not run
    backwards, [process_loop] does not end: with any number of turns up to the
    wrap of the failure counter (2^63) it is still running, whatever the
    other keys do and however much time passes.  The bound of [dequeue] on one
    scan does not help, as the key is due again at once. *)
Theorem failing_key_pins_the_pass (W : Type) (env : Env W) (k : string) (e : queueEntry)
  (fuel : nat) (did : bool) (q : workQueue) (w : W)
  (Hrun : forall w, env_cancelled env w = false)
  (Hfail : forall w, ResultError (fst (fst (env_reconcile env k w))) = true)
  (Hclock : forall x w, (env_now env w <= env_now env (snd (env_reconcile env x w)))%Z)
  (Hk : k ∈ ordered q) (He : pending q !! k = Some e) (Hdue : (qe_readyAt e <= env_now env w)%Z)
  (Hf : (54 <= qe_failures e)%Z) (Hfuel : (qe_failures e + Z.of_nat fuel <= int64_max)%Z) :
  process_loop env fuel did q w = None.
Proof.
  revert did q w e Hk He Hdue Hf Hfuel. induction fuel as [|fuel IH]; intros did q w e Hk He Hdue Hf Hfuel; [done|].
  cbn [process_loop]. rewrite Hrun.
  destruct (dequeue (env_now env w) q) as [o q'] eqn:Ed.
  destruct (dequeue_keeps _ _ _ _ Ed) as [Ep _].
  destruct (dequeue_due _ _ _ _ _ _ Ed Hk He Hdue) as (x & -> & Hx).
  pose proof (process_pinned env k x e q' w Hfail Hclock) as Hstep.
  destruct (process_key env x q' w) as [q'' w'].
  destruct Hstep as (e' & Hk' & He' & Hdue' & Hf');
    [destruct Hx as [<- | ?]; [by left | by right] | by rewrite Ep | done | lia |].
  apply (IH _ _ _ e'); [done | done | done | lia | lia].
Qed.

Lemma failing_key_pins_the_pass_witness :
  process_loop failing_env 100 false
    (mkQueue "task" {["a" := mkEntry "a" 0 0 60]} ["a"] {["a" := 60%Z]}) 0%Z = None.
Proof.
  apply (failing_key_pins_the_pass Z failing_env "a" (mkEntry "a" 0 0 60) 100 false
           (mkQueue "task" {["a" := mkEntry "a" 0 0 60]} ["a"] {["a" := 60%Z]}) 0%Z).
  - reflexivity.
  - reflexivity.
  - intros x y. simpl. destruct (y <? Second)%Z; lia.
  - left.
  - reflexivity.
  - simpl. lia.
  - simpl. lia.
  - simpl. unfold int64_max. lia.
Defined.

(** C30: the cap does not hold for ever: from 55 consecutive failures on the
    [int64] product is 0, so the key is due again at the very instant it
    failed. *)
Theorem failure_backoff_wraps (n : Z) (H : (55 <= n)%Z) : failure_backoff n = 0%Z.
Proof. by apply failure_backoff_zero. Qed.

Lemma failure_backoff_wraps_witness : (55 <= 60)%Z /\ failure_backoff 60 = 0%Z.
Proof. split; [lia|]. exact (failure_backoff_wraps 60 ltac:(lia)). Defined.

(** an event that arrives for a key while that key is being processed is
    dropped: [enqueue] changes nothing, and [markDone] then removes the key
    although the event came after the reconciler had read its state. *)
Theorem enqueue_while_processing_is_dropped (now now' : Z) (k : string) (q q' : workQueue)
  (Hd : dequeue now q = (Some k, q')) :
  enqueue now' k q' = q'
  /\ pending (markDone k (enqueue now' k q')) !! k = None.
Proof.
  assert (Hk : is_Some (pending q' !! k)).
  { destruct (dequeue_keeps _ _ _ _ Hd) as [Ep _]. rewrite Ep. rewrite dequeue_eq in Hd.
    unfold dequeue_spec in Hd. destruct (cut_ready now q (ordered q)) as [[[b x] a]|] eqn:E; [|done].
    injection Hd as <- _. apply cut_ready_Some in E as (_ & Hr & _).
    unfold ready in Hr. destruct (pending q !! x); [by eexists | done]. }
  rewrite enqueue_present by done. split; [done|]. apply lookup_delete_eq.
Qed.

Lemma enqueue_while_processing_is_dropped_witness :
  let q := enqueue 1 "a" (newWorkQueue "task") in
  dequeue 2 q = (Some "a", with_ordered q [])
  /\ pending (markDone "a" (enqueue 3 "a" (with_ordered q []))) !! "a" = None.
Proof.
  split; [vm_compute; reflexivity|].
  apply (enqueue_while_processing_is_dropped 2 3 "a" (enqueue 1 "a" (newWorkQueue "task"))).
  vm_compute. reflexivity.
Defined.

(** leadership and the pinned connection go together: a renewal or an
    acquisition answers [true] exactly when the elector ends up holding a
    connection, and no connection leaks: what it held or took from the pool
    is either held afterwards or handed back. *)
Theorem leader_holds_connection {C : Type} (l : leaderElection C) (acquire : option C)
  (query : C -> option bool) :
  let '(r, l', back) := tryAcquireOrRenew l acquire query in
  lockKey l' = lockKey l
  /\ (r = Ok true <-> is_Some (heldConn l'))
  /\ option_list (heldConn l')  ++ back
     = match heldConn l with Some c => [c] | None => option_list acquire end.
Proof.
  destruct l as [key held]. unfold tryAcquireOrRenew. simpl.
  repeat case_match; simplify_eq/=; unfold iff; repeat apply conj; try done;
    intros Hx; first [by eexists | by destruct Hx].
Qed.
