(* ===== verification/Rbac.v ===== *)
(** * Role-based access control (internal/rbac/rbac.go)

    An entitlement is the string [resource:action]; the empty entitlement means
    that the procedure requires nothing.  A procedure is the name the RPC
    framework passes, [/orchicon.api.v1.<Service>/<Method>]. *)

From S2P Require Import Prelude GoStrings.

Definition api_prefix : string := "/orchicon.api.v1.".

Definition serviceToResource (service : string) : string :=
  if service == "ProviderService" then "provider"
  else if service == "MCPService" then "mcp"
  else if service == "ProjectService" then "project"
  else if service == "WorkItemService" then "workitem"
  else if service == "WorkerService" then "worker"
  else if service == "WorkflowService" then "workflow"
  else if service == "PolicyService" then "policy"
  else if service == "RecoveryService" then "recovery"
  else if service == "ExecutionService" then "execution"
  else if service == "RuntimeAdapterService" then "adapter"
  else if service == "TelemetryService" then "telemetry"
  else if service == "AIGatewayService" then "aigateway"
  else if service == "AuthService" then "auth"
  else if service == "WebhookService" then "webhook"
  else if service == "RuntimeImageService" then "runtimeimage"
  else "".

Definition isRead (method : string) : bool :=
  HasPrefix method "Get" || HasPrefix method "List" || HasPrefix method "Stream".

Definition specificAction (resource method : string) : string :=
  if (resource == "policy") && (method == "SupersedePolicy") then "policy:supersede"
  else if (resource == "worker") && (method == "PublishWorkerVersion") then "worker:publish"
  else if (resource == "workflow") && (method == "PublishWorkflow") then "workflow:publish"
  else if (resource == "policy") && (method == "PublishPolicy") then "policy:publish"
  else "".

Definition EntitlementFor (procedure : string) : string :=
  if negb (HasPrefix procedure api_prefix) then ""
  else
    let rest := TrimPrefix procedure api_prefix in
    match split_first slash rest with
    | None => ""
    | Some (service, method) =>
        let resource := serviceToResource service in
        if resource == "" then ""
        else if isRead method then resource +:+ ":read"
        else
          let action := specificAction resource method in
          if negb (action == "") then action else resource +:+ ":write"
    end.

(** One iteration of the loop of [Has]. *)
Definition grants (required g : string) : bool :=
  if (g == "*") || (g == "*:*") then true
  else if g == required then true
  else if HasSuffix g ":*" && HasPrefix required (TrimSuffix g "*") then true
  else if HasPrefix g "*:" && HasSuffix required (TrimPrefix g "*") then true
  else false.

Fixpoint has_loop (granted : list string) (required : string) : bool :=
  match granted with
  | [] => false
  | g :: rest => if grants required g then true else has_loop rest required
  end.

Definition Has (granted : list string) (required : string) : bool :=
  if required == "" then true else has_loop granted required.

(** ** Specification: what an entitlement string stands for *)

Inductive covers : string -> string -> string -> Prop :=
| cov_all r a : covers "*" r a
| cov_all2 r a : covers "*:*" r a
| cov_exact r a : covers (r +:+ ":" +:+ a) r a
| cov_resource r a : covers (r +:+ ":*") r a
| cov_action r a : covers ("*:" +:+ a) r a.

(** Resource and action names carry no separator and no wildcard. *)
Definition plain (s : string) : bool := no_sep colon s && no_sep asterisk s.

(** The procedures of the served API. *)
Definition procedure (service method : string) : string :=
  api_prefix +:+ service +:+ "/" +:+ method.

(** ** Lemmas *)

Lemma has_loop_exists granted required :
  has_loop granted required = true <-> exists g, In g granted /\ grants required g = true.
Proof.
  induction granted as [|g gs IH]; simpl; [split; [done | by intros (? & [] & _)]|].
  destruct (grants required g) eqn:E.
  - split; [eauto | done].
  - rewrite IH. split; intros (g' & Hin & Hg); [eauto|].
    destruct Hin as [-> | Hin]; [congruence | eauto].
Qed.

Lemma split_first_procedure a b :
  no_sep slash a = true -> split_first slash (a +:+ String slash b) = Some (a, b).
Proof.
  induction a as [|c a IH]; simpl; [done|].
  intros [Hc Ha]%andb_true_iff. apply negb_true_iff in Hc. rewrite Hc. by rewrite IH.
Qed.

Lemma entitlement_of_procedure service method :
  no_sep slash service = true ->
  EntitlementFor (procedure service method) =
  let resource := serviceToResource service in
  if resource == "" then ""
  else if isRead method then resource +:+ ":read"
  else let action := specificAction resource method in
       if negb (action == "") then action else resource +:+ ":write".
Proof.
  intros Hs. unfold EntitlementFor, procedure.
  rewrite (proj2 (HasPrefix_spec _ _)) by eauto. cbn [negb].
  rewrite TrimPrefix_app.
  change (service +:+ "/" +:+ method) with (service +:+ String slash method).
  by rewrite split_first_procedure.
Qed.

Lemma grants_or required g :
  grants required g =
  (g == "*") || (g == "*:*") || (g == required)
  || (HasSuffix g ":*" && HasPrefix required (TrimSuffix g "*"))
  || (HasPrefix g "*:" && HasSuffix required (TrimPrefix g "*")).
Proof. unfold grants. repeat case_match; simpl; try done; by rewrite ?orb_true_r. Qed.

Lemma trim_resource_wildcard t : TrimSuffix (t +:+ ":*") "*" = t +:+ ":".
Proof. change ":*" with (":" +:+ "*"). by rewrite <- sapp_assoc, TrimSuffix_app. Qed.

Lemma covers_grants r a g : covers g r a -> grants (r +:+ ":" +:+ a) g = true.
Proof.
  intros H. rewrite grants_or. destruct H as [r a | r a | r a | r a | r a].
  - done.
  - done.
  - by rewrite String.eqb_refl, !orb_true_r.
  - rewrite (proj2 (HasSuffix_spec _ _)) by eauto.
    rewrite trim_resource_wildcard, (proj2 (HasPrefix_spec _ _)), !orb_true_r; [done|].
    exists a. by rewrite sapp_assoc.
  - change ("*:" +:+ a) with ("*" +:+ (":" +:+ a)). rewrite TrimPrefix_app.
    rewrite (proj2 (HasSuffix_spec (r +:+ ":" +:+ a) _)) by eauto.
    rewrite (proj2 (HasPrefix_spec _ "*:")) by (by exists a).
    by rewrite !orb_true_r.
Qed.

Lemma grants_covers r a g :
  plain r = true -> plain a = true ->
  grants (r +:+ ":" +:+ a) g = true -> covers g r a.
Proof.
  unfold plain. intros [Hr _]%andb_true_iff [Ha _]%andb_true_iff. rewrite grants_or.
  intros [[[[H | H]%orb_true_iff | H]%orb_true_iff | H]%orb_true_iff | H]%orb_true_iff.
  - apply String.eqb_eq in H as ->. constructor.
  - apply String.eqb_eq in H as ->. constructor.
  - apply String.eqb_eq in H as ->. constructor.
  - apply andb_true_iff in H as [(t & ->)%HasSuffix_spec H].
    rewrite trim_resource_wildcard in H. apply HasPrefix_spec in H as (u & E).
    rewrite sapp_assoc in E. apply sapp_inj_once in E as [-> _]; [constructor | done | done].
  - apply andb_true_iff in H as [(t & ->)%HasPrefix_spec H].
    change ("*:" +:+ t) with ("*" +:+ (":" +:+ t)) in H |- *. rewrite TrimPrefix_app in H.
    apply HasSuffix_spec in H as (u & E).
    apply sapp_inj_once in E as [_ ->]; [constructor | done | done].
Qed.


Lemma has_covers (granted : list string) (r a : string) :
  plain r = true -> plain a = true ->
  Has granted (r +:+ ":" +:+ a) = true <-> exists g, In g granted /\ covers g r a.
Proof.
  intros Hr Ha.
  unfold Has. replace (r +:+ ":" +:+ a == "") with false by (by destruct r).
  rewrite has_loop_exists. split; intros (g & Hin & Hg); exists g; split; try done.
  - by apply grants_covers.
  - by apply covers_grants.
Qed.

(** ** Properties *)

(** C13: [Has] decides the documented entitlement relation: a set grants a
    required [resource:action] exactly when one of its entries is the full
    wildcard, the pair itself, the resource with any action, or the action on
    any resource. *)
Theorem has_decides_covers (granted : list string) (r a : string)
  (Hr : plain r = true) (Ha : plain a = true) :
  Has granted (r +:+ ":" +:+ a) = true <-> exists g, In g granted /\ covers g r a.
Proof. by apply has_covers. Qed.

Lemma has_decides_covers_witness :
  Has ["worker:read"; "project:*"] "project:write" = true
  <-> exists g, In g ["worker:read"; "project:*"] /\ covers g "project" "write".
Proof.
  apply (has_decides_covers ["worker:read"; "project:*"] "project" "write");
    vm_compute; reflexivity.
Defined.



(** the entitlement a procedure requires is never a wildcard, and only the
    procedures outside the known services require nothing. *)
Theorem entitlement_empty_iff_unknown (service method : string) (Hs : no_sep slash service = true) :
  EntitlementFor (procedure service method) = "" <-> serviceToResource service = "".
Proof.
  rewrite entitlement_of_procedure by done. simpl.
  destruct (serviceToResource service == "") eqn:E.
  - apply String.eqb_eq in E. by rewrite E.
  - apply String.eqb_neq in E. split; [|done].
    destruct (isRead method); [by destruct (serviceToResource service)|].
    unfold specificAction. repeat (destruct (_ && _); [done|]).
    by destruct (serviceToResource service).
Qed.

Lemma entitlement_empty_iff_unknown_witness :
  EntitlementFor (procedure "CategoryService" "CreateCategory") = ""
  <-> serviceToResource "CategoryService" = "".
Proof.
  apply (entitlement_empty_iff_unknown "CategoryService" "CreateCategory"). reflexivity.
Defined.
