(* ===== verification/NeverAllow.v ===== *)
(** * The never-allow class (internal/neverallow/neverallow.go)

    The binaries and command patterns that are refused in every session.  The
    slices of the source are Rocq lists, so the copy [DenyRules] takes cannot
    be told apart from the declaration. *)

From S2P Require Import Prelude GoStrings.

Record Binary := mkBinary { Name : string; Shim : bool }.

Definition Binaries : list Binary :=
  [mkBinary "sudo" true;
   mkBinary "dd" true;
   mkBinary "mkfs" true;
   mkBinary "mkfs.ext2" true;
   mkBinary "mkfs.ext3" true;
   mkBinary "mkfs.ext4" true;
   mkBinary "mkfs.xfs" true;
   mkBinary "mkfs.btrfs" true;
   mkBinary "mkfs.fat" true;
   mkBinary "mkfs.vfat" true;
   mkBinary "mkswap" true;
   mkBinary "fdisk" true;
   mkBinary "parted" true;
   mkBinary "shred" true;
   mkBinary "wipefs" true;
   mkBinary "pvcreate" true;
   mkBinary "pvremove" true;
   mkBinary "vgcreate" true;
   mkBinary "vgremove" true;
   mkBinary "lvcreate" true;
   mkBinary "lvremove" true;
   mkBinary "mkfs.*" false;
   mkBinary "fdisk*" false;
   mkBinary "wipefs*" false].

Definition CommandPatterns : list string :=
  ["sudo"; "sudo *"; "sudo su *"; "sudo -i *"; "sudo -s *"; "sudo bash *"; "sudo sh *";
    "sudo rm *"; "sudo * rm *"; "sudo -u * rm *"; "(* sudo *"; "{* sudo *"; "* & sudo *";
    "* && sudo *"; "* ; sudo *"; "* | sudo *"; "mkfs*"; "mkfs.*"; "fdisk*"; "parted *";
    "shred *"; "wipefs*"; "mkswap *"; "swapoff *"; "swapon *"; "pvcreate *"; "pvremove *";
    "vgcreate *"; "vgremove *"; "vgextend *"; "lvcreate *"; "lvremove *"; "lvreduce *";
    "lvextend *"; "dd if=* of=/dev/*"; "dd * of=/dev/*"; "dd of=/dev/*"; "* & dd *";
    "* && dd *"; "* ; dd *"].

Definition Shimmed : list string := map Name (List.filter Shim Binaries).

Definition CasePattern : string := Join (map Name Binaries) "|".

Definition DenyRules : list string := CommandPatterns.
