(* ===== verification/ProtectedPath.v ===== *)
(** * Protected paths (internal/protectedpath/protectedpath.go)

    Which target of a destructive operation would take a protected root with
    it.  The environment ([os.UserHomeDir], [XDG_DATA_HOME]) is a parameter. *)

From S2P Require Import Prelude GoStrings Paths.

(** The [add] closure of [Roots] and [ScopeRoots]: trim, clean, skip empty and
    relative-to-nothing values, keep the first occurrence. *)
Definition add_root (out : list string) (p : string) : list string :=
  let p := TrimSpace p in
  if p == "" then out
  else
    let p := Clean p in
    if (p == "") || (p == ".") then out
    else if existsb (fun seen => seen == p) out then out
    else out ++ [p].

Section roots.
(** [os.UserHomeDir()] ([None] on error) and [os.Getenv("XDG_DATA_HOME")]. *)
Context (UserHomeDir : option string) (XDG_DATA_HOME : string).

Definition Roots (home : string) : list string :=
  let home := if TrimSpace home == "" then option_or home UserHomeDir else home in
  let out := add_root [] "/" in
  let out := add_root out home in
  if negb (TrimSpace home == "") then
    let data := TrimSpace XDG_DATA_HOME in
    let data := if data == "" then JoinPath (JoinPath home ".local") "share" else data in
    let out := add_root out (JoinPath data "orchicon") in
    add_root out (JoinPath home ".orchicon")
  else out.
End roots.

Definition ScopeRoots (projectDir : string) (grants : list string) : list string :=
  fold_left add_root grants (add_root [] projectDir).

(** The two loops of [DestroyedBy]. *)
Fixpoint destroyed_machine (t prefix : string) (roots : list string) : option string :=
  match roots with
  | [] => None
  | r :: rest =>
      if r == "" then destroyed_machine t prefix rest
      else if (t == r) || HasPrefix r prefix then Some r
      else destroyed_machine t prefix rest
  end.

Fixpoint destroyed_scope (prefix : string) (roots : list string) : option string :=
  match roots with
  | [] => None
  | r :: rest =>
      if r == "" then destroyed_scope prefix rest
      else if HasPrefix r prefix then Some r
      else destroyed_scope prefix rest
  end.

Definition DestroyedBy (target : string) (machineRoots scopeRoots : list string) : string :=
  let t := TrimSpace target in
  if t == "" then ""
  else
    let t := Clean t in
    if (t == "") || (t == ".") || (t == "..") then ""
    else
      let prefix := if t == "/" then "/" else t +:+ "/" in
      match destroyed_machine t prefix machineRoots with
      | Some r => r
      | None => match destroyed_scope prefix scopeRoots with
                | Some r => r
                | None => ""
                end
      end.

(** ** Specification *)

(** A root in the form the functions above return it for absolute inputs. *)
Definition canonical_root (r : string) : Prop := exists segs, Forall proper segs /\ r = abs_path segs.

Definition strictly_below (dir p : list string) : Prop := exists rest, rest <> [] /\ p = dir ++ rest.

(** What destroying the directory [t] does to a root: a machine root is lost
    with its ancestors and itself, a scope root only with a proper ancestor
    (or with the filesystem root). *)
Definition takes_machine (t : list string) (r : string) : Prop := below t (path_segs r).
Definition takes_scope (t : list string) (r : string) : Prop :=
  t = [] \/ strictly_below t (path_segs r).

(** ** Lemmas *)

Lemma add_root_sound out p r :
  In r (add_root out p) -> In r out \/ (r = Clean (TrimSpace p) /\ TrimSpace p <> "").
Proof.
  unfold add_root. destruct (TrimSpace p == "") eqn:E; [by left|]. apply String.eqb_neq in E.
  destruct (_ || _); [by left|]. destruct (existsb _ _); [by left|].
  rewrite in_app_iff. intros [? | [<- | []]]; auto.
Qed.

Lemma add_root_keeps out p r : In r out -> In r (add_root out p).
Proof.
  intros H. unfold add_root.
  destruct (_ == ""); [done|]. destruct (_ || _); [done|]. destruct (existsb _ _); [done|].
  apply in_or_app. by left.
Qed.

Lemma add_root_adds out p :
  TrimSpace p <> "" -> IsAbs (TrimSpace p) = true -> In (Clean (TrimSpace p)) (add_root out p).
Proof.
  intros Hne Ha. unfold add_root. apply String.eqb_neq in Hne. rewrite Hne.
  rewrite Clean_abs by done.
  set (segs := path_segs (TrimSpace p)).
  replace ((abs_path segs == "") || (abs_path segs == ".")) with false by done.
  destruct (existsb _ _) eqn:E.
  - apply existsb_exists in E as (x & Hx & ->%String.eqb_eq). done.
  - apply in_or_app. right. by left.
Qed.

Lemma canonical_Clean p : IsAbs p = true -> canonical_root (Clean p).
Proof. intros H. rewrite Clean_abs by done. eexists. split; [apply path_segs_proper | done]. Qed.

Lemma destroyed_machine_some t prefix roots r :
  destroyed_machine t prefix roots = Some r ->
  In r roots /\ r <> "" /\ (t == r) || HasPrefix r prefix = true.
Proof.
  induction roots as [|x roots IH]; simpl; [done|].
  destruct (x == "") eqn:E; [intros ?%IH; firstorder|].
  destruct ((t == x) || HasPrefix x prefix) eqn:E2; [|intros ?%IH; firstorder].
  intros [= <-]. apply String.eqb_neq in E. auto.
Qed.

Lemma destroyed_machine_none t prefix roots r :
  destroyed_machine t prefix roots = None -> In r roots -> r <> "" ->
  (t == r) || HasPrefix r prefix = false.
Proof.
  induction roots as [|x roots IH]; simpl; [done|]. intros H [-> | Hin] Hne.
  - apply String.eqb_neq in Hne. rewrite Hne in H. by destruct (_ || _).
  - destruct (x == ""); [auto|]. destruct ((t == x) || _); [done | auto].
Qed.

Lemma destroyed_scope_some prefix roots r :
  destroyed_scope prefix roots = Some r -> In r roots /\ r <> "" /\ HasPrefix r prefix = true.
Proof.
  induction roots as [|x roots IH]; simpl; [done|].
  destruct (x == "") eqn:E; [intros ?%IH; firstorder|].
  destruct (HasPrefix x prefix) eqn:E2; [|intros ?%IH; firstorder].
  intros [= <-]. apply String.eqb_neq in E. auto.
Qed.

Lemma destroyed_scope_none prefix roots r :
  destroyed_scope prefix roots = None -> In r roots -> r <> "" -> HasPrefix r prefix = false.
Proof.
  induction roots as [|x roots IH]; simpl; [done|]. intros H [-> | Hin] Hne.
  - apply String.eqb_neq in Hne. rewrite Hne in H. by destruct (HasPrefix _ _).
  - destruct (x == ""); [auto|]. destruct (HasPrefix x prefix); [done | auto].
Qed.

(** The descendant prefix of [DestroyedBy], the filesystem root included. *)
Definition contain_prefix (t : string) : string := if t == "/" then "/" else t +:+ "/".

Lemma abs_path_root segs : Forall proper segs -> abs_path segs = "/" <-> segs = [].
Proof.
  intros H. split; [|by intros ->]. intros E. apply (abs_path_inj segs []); [done | constructor | done].
Qed.

Lemma root_no_prefix segs : HasPrefix "/" (abs_path segs +:+ "/") = false.
Proof.
  apply not_true_iff_false. intros (t & E)%HasPrefix_spec.
  apply (f_equal len) in E. rewrite !slen_app in E. unfold abs_path, len in E. simpl in E. lia.
Qed.

Lemma contain_prefix_spec segs r :
  Forall proper segs -> Forall proper r -> r <> [] ->
  HasPrefix (abs_path r) (contain_prefix (abs_path segs)) = true <-> strictly_below segs r.
Proof.
  intros Hs Hr Hne. unfold contain_prefix. destruct segs as [|s segs].
  - simpl. split; [intros _; by exists r | intros _; by apply HasPrefix_spec; exists (Join r "/")].
  - destruct (abs_path (s :: segs) == "/") eqn:E.
    + apply String.eqb_eq, abs_path_root in E; done.
    + by apply proper_prefix_spec.
Qed.

Lemma machine_spec segs r :
  Forall proper segs -> Forall proper r ->
  (abs_path segs == abs_path r) || HasPrefix (abs_path r) (contain_prefix (abs_path segs)) = true
  <-> below segs r.
Proof.
  intros Hs Hr. rewrite orb_true_iff, String.eqb_eq. destruct r as [|x r].
  - change (abs_path []) with "/". split.
    + intros [->%abs_path_root | E]; [apply below_refl | done |].
      destruct segs as [|s segs]; [apply below_refl|]. exfalso.
      unfold contain_prefix in E. destruct (abs_path (s :: segs) == "/") eqn:E2.
      * apply String.eqb_eq, abs_path_root in E2; done.
      * by rewrite root_no_prefix in E.
    + intros (rest & E). left. destruct segs; done.
  - rewrite contain_prefix_spec by done. unfold strictly_below, below. split.
    + intros [E | (rest & _ & ->)]; [|eauto].
      apply abs_path_inj in E as ->; [apply below_refl | done | done].
    + intros (rest & E). destruct rest as [|y rest]; [left; by rewrite E, app_nil_r | by right; exists (y :: rest)].
Qed.

Lemma scope_spec segs r :
  Forall proper segs -> canonical_root r ->
  HasPrefix r (contain_prefix (abs_path segs)) = true <-> takes_scope segs r.
Proof.
  intros Hs (rs & Hr & ->). unfold takes_scope. rewrite path_segs_abs_path by done.
  destruct rs as [|x rs].
  - change (abs_path []) with "/". unfold strictly_below. split.
    + destruct segs as [|s segs]; [by left|]. unfold contain_prefix.
      destruct (abs_path (s :: segs) == "/") eqn:E2;
        [by apply String.eqb_eq, abs_path_root in E2|].
      by rewrite root_no_prefix.
    + intros [-> | (rest & Hne & E)]; [done|]. destruct segs; [|done]. by destruct rest.
  - rewrite contain_prefix_spec by done. split; [by right|].
    intros [-> | ?]; [by exists (x :: rs) | done].
Qed.

Lemma canonical_nonempty r : canonical_root r -> r <> "".
Proof. intros (segs & _ & ->). done. Qed.

#[export] Hint Resolve canonical_nonempty canonical_Clean : orch.

Lemma machine_root_spec segs r :
  Forall proper segs -> canonical_root r ->
  (abs_path segs == r) || HasPrefix r (contain_prefix (abs_path segs)) = true
  <-> takes_machine segs r.
Proof.
  intros Hs (rs & Hr & ->). unfold takes_machine. rewrite path_segs_abs_path by done.
  by apply machine_spec.
Qed.

Lemma DestroyedBy_abs target M S :
  IsAbs (TrimSpace target) = true ->
  DestroyedBy target M S =
  let t := abs_path (path_segs (TrimSpace target)) in
  option_or "" (match destroyed_machine t (contain_prefix t) M with
                | Some r => Some r
                | None => destroyed_scope (contain_prefix t) S
                end).
Proof.
  intros Ha. unfold DestroyedBy.
  destruct (TrimSpace target == "") eqn:E; [by apply String.eqb_eq in E; rewrite E in Ha|].
  rewrite Clean_abs by done. set (t := path_segs (TrimSpace target)).
  replace ((abs_path t == "") || (abs_path t == ".") || (abs_path t == "..")) with false by done.
  fold (contain_prefix (abs_path t)). simpl.
  destruct (destroyed_machine _ _ M); [done|]. by destruct (destroyed_scope _ S).
Qed.

Lemma Roots_members uh xdg home :
  IsAbs (TrimSpace home) = true ->
  In "/" (Roots uh xdg home) /\ In (Clean (TrimSpace home)) (Roots uh xdg home).
Proof.
  intros Ha. unfold Roots.
  assert (Hne : TrimSpace home <> "") by (intros E; by rewrite E in Ha).
  apply String.eqb_neq in Hne as E. rewrite E. rewrite E. cbn [negb].
  split; apply add_root_keeps, add_root_keeps.
  - by apply add_root_keeps; left.
  - apply add_root_adds; [by apply String.eqb_neq | done].
Qed.

Lemma ScopeRoots_project project grants :
  IsAbs (TrimSpace project) = true -> In (Clean (TrimSpace project)) (ScopeRoots project grants).
Proof.
  intros Ha. unfold ScopeRoots.
  assert (H : In (Clean (TrimSpace project)) (add_root [] project)).
  { apply add_root_adds; [intros E; by rewrite E in Ha | done]. }
  revert H. generalize (add_root [] project). induction grants as [|g gs IH]; intros out H; [done|].
  simpl. by apply IH, add_root_keeps.
Qed.

Lemma destroyed_of_machine target M S r :
  IsAbs (TrimSpace target) = true -> In r M -> canonical_root r ->
  takes_machine (path_segs (TrimSpace target)) r -> DestroyedBy target M S <> "".
Proof.
  intros Ha Hin Hc Ht. rewrite DestroyedBy_abs by done. cbn zeta.
  apply machine_root_spec in Ht; [|apply path_segs_proper | done].
  destruct (destroyed_machine _ _ M) as [x|] eqn:E.
  - by apply destroyed_machine_some in E as (_ & ? & _).
  - rewrite (destroyed_machine_none _ _ _ r E) in Ht; eauto with orch.
Qed.

Lemma destroyed_of_scope target M S r :
  IsAbs (TrimSpace target) = true -> In r S -> canonical_root r ->
  takes_scope (path_segs (TrimSpace target)) r -> DestroyedBy target M S <> "".
Proof.
  intros Ha Hin Hc Ht. rewrite DestroyedBy_abs by done. cbn zeta.
  apply scope_spec in Ht; [|apply path_segs_proper | done].
  destruct (destroyed_machine _ _ M) as [x|] eqn:E;
    [by apply destroyed_machine_some in E as (_ & ? & _)|].
  destruct (destroyed_scope _ S) as [x|] eqn:E2.
  - by apply destroyed_scope_some in E2 as (_ & ? & _).
  - rewrite (destroyed_scope_none _ _ r E2) in Ht; eauto with orch.
Qed.

Lemma path_segs_Clean p : IsAbs p = true -> path_segs (Clean p) = path_segs p.
Proof. intros H. rewrite Clean_abs by done. apply path_segs_abs_path, path_segs_proper. Qed.

(** ** Properties *)

(** C14: [DestroyedBy] refuses an absolute target exactly when destroying the
    directory it denotes (with [.], [..] and repeated separators resolved)
    would take a protected root with it: a machine root below it or equal to
    it, or a scope root properly below it; and the root it names is one of
    the protected ones that the target takes. *)
Theorem destroyed_by_spec (target : string) (machineRoots scopeRoots : list string)
  (Hm : Forall canonical_root machineRoots) (Hs : Forall canonical_root scopeRoots)
  (Ht : IsAbs (TrimSpace target) = true) :
  let t := path_segs (TrimSpace target) in
  let r := DestroyedBy target machineRoots scopeRoots in
  (r = "" <-> (forall x, In x machineRoots -> ~ takes_machine t x)
              /\ (forall x, In x scopeRoots -> ~ takes_scope t x))
  /\ (r <> "" -> (In r machineRoots /\ takes_machine t r) \/ (In r scopeRoots /\ takes_scope t r)).
Proof.
  intros t r. unfold r. rewrite DestroyedBy_abs by done. fold t. simpl.
  assert (Hp : Forall proper t) by apply path_segs_proper.
  rewrite List.Forall_forall in Hm, Hs.
  destruct (destroyed_machine _ _ machineRoots) as [x|] eqn:E1; simpl.
  { apply destroyed_machine_some in E1 as (Hin & Hne & Hx).
    apply machine_root_spec in Hx; [|done|auto].
    split; [|auto]. split; [done|]. intros [H _]. by destruct (H x Hin). }
  assert (HM : forall x, In x machineRoots -> ~ takes_machine t x).
  { intros x Hin Hx. apply machine_root_spec in Hx; [|done|auto].
    rewrite (destroyed_machine_none _ _ _ x E1) in Hx; [done | done | eauto with orch]. }
  destruct (destroyed_scope _ scopeRoots) as [x|] eqn:E2; simpl.
  { apply destroyed_scope_some in E2 as (Hin & Hne & Hx).
    apply scope_spec in Hx; [|done|auto].
    split; [|auto]. split; [done|]. intros [_ H]. by destruct (H x Hin). }
  split; [|done]. split; [|done]. intros _. split; [done|].
  intros x Hin Hx. apply scope_spec in Hx; [|done|auto].
  rewrite (destroyed_scope_none _ _ x E2) in Hx; [done | done | eauto with orch].
Qed.

Lemma destroyed_by_spec_witness :
  let t := path_segs "/home/u/work/../" in
  let r := DestroyedBy " /home/u/work/../ " ["/"; "/home/u"] ["/srv/p"] in
  (r = "" <-> (forall x, In x ["/"; "/home/u"] -> ~ takes_machine t x)
              /\ (forall x, In x ["/srv/p"] -> ~ takes_scope t x))
  /\ (r <> "" -> (In r ["/"; "/home/u"] /\ takes_machine t r) \/ (In r ["/srv/p"] /\ takes_scope t r)).
Proof.
  apply (destroyed_by_spec " /home/u/work/../ " ["/"; "/home/u"] ["/srv/p"]).
  - constructor; [|constructor; [|constructor]].
    + exists []. split; [constructor | reflexivity].
    + exists ["home"; "u"]. split; [|reflexivity].
      repeat (constructor; [repeat split; discriminate|]). constructor.
  - constructor; [|constructor]. exists ["srv"; "p"]. split; [|reflexivity].
    repeat (constructor; [repeat split; discriminate|]). constructor.
  - vm_compute. reflexivity.
Defined.

(** C33: whatever the grants and the environment are, in a session whose home
    and project directories are absolute no destructive target may be the
    filesystem root, the home directory or an ancestor of it, or a proper
    ancestor of the project. *)
Theorem home_and_project_ancestors_refused (uh : option string) (xdg home project : string)
  (grants : list string) (target : string)
  (Hh : IsAbs (TrimSpace home) = true) (Hp : IsAbs (TrimSpace project) = true)
  (Ht : IsAbs (TrimSpace target) = true)
  (H : let t := path_segs (TrimSpace target) in
       t = [] \/ below t (path_segs (TrimSpace home))
       \/ strictly_below t (path_segs (TrimSpace project))) :
  DestroyedBy target (Roots uh xdg home) (ScopeRoots project grants) <> "".
Proof.
  destruct (Roots_members uh xdg home Hh) as [Hroot Hhome].
  pose proof (ScopeRoots_project project grants Hp) as Hproj.
  destruct H as [H | [H | H]].
  - eapply destroyed_of_machine; [done | exact Hroot | exists []; by split; [constructor|] |].
    rewrite H. apply below_refl.
  - eapply destroyed_of_machine; [done | exact Hhome | by apply canonical_Clean |].
    unfold takes_machine. by rewrite path_segs_Clean.
  - eapply destroyed_of_scope; [done | exact Hproj | by apply canonical_Clean |].
    unfold takes_scope. rewrite path_segs_Clean by done. by right.
Qed.

Lemma home_and_project_ancestors_refused_witness :
  DestroyedBy "/srv/../srv/apps" (Roots None "" "/home/u") (ScopeRoots "/srv/apps/orchicon" ["/tmp"]) <> "".
Proof.
  apply (home_and_project_ancestors_refused None "" "/home/u" "/srv/apps/orchicon" ["/tmp"]
           "/srv/../srv/apps"); [vm_compute; reflexivity .. |].
  right. right. exists ["orchicon"]. split; [discriminate | vm_compute; reflexivity].
Defined.
