(* ===== verification/WorkerRestrict.v ===== *)
(** * Worker restrictions (internal/workerrestrict/workerrestrict.go)

    The command patterns a worker's shell may never run, the wildcard matcher
    that applies them, and the project boundary for literal paths.  The
    matcher keeps the source's indices: [pi] into the pattern, [si] into the
    command, [star] the last asterisk seen ([None] for -1) and [mark] the
    position the text after it was last tried at. *)

From S2P Require Import Prelude GoStrings Paths NeverAllow ProtectedPath.
From Stdlib Require Import Ascii.

Definition ScratchDir : string := "/tmp/orchicon".
Definition RunDirSegment : string := ".orchicon".
Definition TaskToolDeny : string := "task".
Definition SubagentToolNames : list string := ["Task"; "Agent"].

Definition IsSubagentTool (toolName : string) : bool :=
  existsb (fun n => toolName == n) SubagentToolNames || (toolName == TaskToolDeny).

Definition ProjectBoundaryDenyPatterns : list string :=
  ["rm -rf /"; "rm -r /"; "rm -R /"; "rm -f /"; "rm -fr /"; "rm -Rf /"; "rm -rf /*";
    "rm -fr /*"; "rm -r /*"; "rm -R /*"; "rm -f /*"; "rm -rf /home/*"; "rm -rf /root/*";
    "rm -rf /etc/*"; "rm -rf /usr/*"; "rm -rf /var/*"; "rm -rf /bin/*"; "rm -rf /boot/*";
    "rm -rf ~"; "rm -rf ~/*"; "rm -rf $HOME"; "rm -rf $HOME/*"; "rm -rf ${HOME}/*";
    "rm -rf ${HOME}*"; "rm --no-preserve-root *"; "rm -rf --no-preserve-root *"; "/bin/rm *";
    "/usr/bin/rm *"; "/bin/rm -rf *"; "/usr/bin/rm -rf *"; "rm -rf . /"; "rm -rf . ..";
    "(*rm*"; "{*rm*"; "* & rm *"; "* && rm *"; "* ; rm *"; "* || rm *"; "* | rm *";
    "* > /dev/sd*"; "* >> /dev/sd*"; ": > /dev/sd*"; "echo * > /dev/sd*";
    "echo * >> /dev/sd*"; "cat * > /dev/sd*"; "cat * >> /dev/sd*"; "cp * /dev/sd*";
    "mv * /dev/null"; "cp -r * /dev/null"; "cp -a * /dev/null"; "chmod -R 777 /*";
    "chmod -R 777 /"; "chmod -R 000 /*"; "chmod -R 000 /"; "chown -R * /*"; "chown -R * /";
    "chmod -R 777 * /"; "curl * | sh"; "curl * | bash"; "curl * | sh -"; "curl * | bash -";
    "curl * | zsh"; "wget * | sh"; "wget * | bash"; "wget * | zsh"].

Definition WorkerDenyPatterns : list string := DenyRules ++ ProjectBoundaryDenyPatterns.

(** ** The wildcard matcher *)

(** [pattern[pi] == c], false past the end. *)
Definition byte_is (s : string) (i : nat) (c : ascii) : bool :=
  match String.get i s with Some x => Ascii.eqb x c | None => false end.

(** The first loop: [Some false] is the early [return false], [Some true] with
    the final [pi] leaves the loop; [None] is out of fuel. *)
Fixpoint glob_loop (fuel : nat) (pattern s : string)
    (pi si : nat) (star : option nat) (mark : nat) : option (option nat) :=
  match fuel with
  | O => None
  | S fuel =>
      match String.get si s with
      | None => Some (Some pi)
      | Some c =>
          if byte_is pattern pi asterisk then glob_loop fuel pattern s (pi + 1) si (Some pi) si
          else if byte_is pattern pi c then glob_loop fuel pattern s (pi + 1) (si + 1) star mark
          else match star with
               | Some k => glob_loop fuel pattern s (k + 1) (mark + 1) star (mark + 1)
               | None => Some None
               end
      end
  end.

(** The second loop skips trailing asterisks. *)
Fixpoint skip_stars (fuel : nat) (pattern : string) (pi : nat) : nat :=
  match fuel with
  | O => pi
  | S fuel => if byte_is pattern pi asterisk then skip_stars fuel pattern (pi + 1) else pi
  end.

Definition glob_fuel (pattern s : string) : nat := (len s + 2) * (len pattern + 1).

Definition matchGlob (pattern s : string) : bool :=
  match glob_loop (glob_fuel pattern s) pattern s 0 0 None 0 with
  | Some (Some pi) => Nat.eqb (skip_stars (len pattern) pattern pi) (len pattern)
  | _ => false
  end.

Definition MatchCommandAgainst (rules : list string) (cmd : string) : string * bool :=
  match List.find (fun p => matchGlob p cmd) rules with
  | Some p => (p, true)
  | None => ("", false)
  end.

Definition MatchCommand (cmd : string) : string * bool :=
  match List.find (fun p => matchGlob p cmd) WorkerDenyPatterns with
  | Some p => (p, true)
  | None => ("", false)
  end.

(** ** The project boundary *)

Definition insideDir (child root : string) : bool :=
  let root := TrimSpace root in
  if root == "" then false
  else
    let root := Clean root in
    let child := Clean child in
    if child == root then true else HasPrefix child (root +:+ "/").

(** Some component is [RunDirSegment] and is not the last one. *)
Fixpoint run_dir_in (segs : list string) : bool :=
  match segs with
  | [] | [_] => false
  | s :: rest => (s == RunDirSegment) || run_dir_in rest
  end.

Definition hasRunDirSegment (p : string) : bool := run_dir_in (split_char slash (Clean p)).

Definition OutsideProject (target projectDir : string) : bool * string :=
  let t := TrimSpace target in
  if t == "" then (true, "")
  else
    let t := TrimSuffix t "/**" in
    let check p :=
      let p := Clean p in
      if insideDir p projectDir then (true, "")
      else if (p == ScratchDir) || insideDir p ScratchDir then (true, "")
      else if hasRunDirSegment p then (true, "")
      else (false, "*") in
    if negb (IsAbs t) then
      if TrimSpace projectDir == "" then (false, "*")
      else check (JoinPath projectDir t)
    else check t.

Definition CarveOutDirs (projectDir : string) : list string :=
  if negb (TrimSpace projectDir == "") then [ScratchDir; JoinPath projectDir RunDirSegment]
  else [ScratchDir].

Definition ProtectedRoots (uh : option string) (xdg projectDir : string) (grants : list string)
    : list string * list string :=
  (Roots uh xdg "", ScopeRoots projectDir grants).

(** ** Specification of the wildcard language *)

Inductive glob : list ascii -> list ascii -> Prop :=
| glob_nil : glob [] []
| glob_lit c p s : c <> asterisk -> glob p s -> glob (c :: p) (c :: s)
| glob_star_empty p s : glob p s -> glob (asterisk :: p) s
| glob_star_more c p s : glob (asterisk :: p) s -> glob (asterisk :: p) (c :: s).

Definition chars (s : string) : list ascii := String.list_ascii_of_string s.

(** ** The matcher decides the language *)

Lemma get_chars s i : String.get i s = chars s !! i.
Proof. revert i. induction s as [|c s IH]; intros [|i]; simpl; [done .. | exact (IH i)]. Qed.

Lemma len_chars s : length (chars s) = len s.
Proof. unfold len. induction s as [|c s IH]; [done | exact (f_equal S IH)]. Qed.

Lemma byte_is_spec s i c : byte_is s i c = true <-> chars s !! i = Some c.
Proof.
  unfold byte_is. rewrite get_chars. destruct (chars s !! i) as [x|]; [|done].
  rewrite Ascii.eqb_eq. split; [by intros -> | by intros [= ->]].
Qed.

Lemma glob_star_drop p s n : glob (asterisk :: p) (drop n s) -> glob (asterisk :: p) s.
Proof.
  revert s. induction n as [|n IH]; intros s H; [by rewrite drop_0 in H|].
  destruct s as [|c s]; [done|]. apply glob_star_more, IH. exact H.
Qed.

Lemma glob_star_inv p s :
  glob (asterisk :: p) s -> exists n, glob p (drop n s).
Proof.
  remember (asterisk :: p) as q eqn:E. intros H. revert p E.
  induction H as [| c p s Hc H IH | p s H IH | c p s H IH]; intros q [=]; subst; try done.
  - by exists 0.
  - destruct (IH q eq_refl) as (n & Hn). by exists (S n).
Qed.

Lemma glob_lits_inv lits p s :
  Forall (fun c => c <> asterisk) lits -> glob (lits ++ p) s -> exists t, s = lits ++ t /\ glob p t.
Proof.
  intros Hl. revert s. induction Hl as [|c lits Hc Hl IH]; intros s H; simpl in *; [eauto|].
  inversion H; subst; try done.
  match goal with H : glob (lits ++ p) _ |- _ => destruct (IH _ H) as (t & -> & Ht) end. by exists t.
Qed.

Lemma glob_lits lits p t :
  Forall (fun c => c <> asterisk) lits -> glob p t -> glob (lits ++ p) (lits ++ t).
Proof. intros Hl H. induction Hl as [|c lits Hc Hl IH]; simpl; [done | by constructor]. Qed.

(** After the literal text between two asterisks has matched at its first
    place, trying later places is useless. *)
Lemma glob_star_commit lits p t :
  Forall (fun c => c <> asterisk) lits ->
  glob (asterisk :: lits ++ asterisk :: p) (lits ++ t) <-> glob (asterisk :: p) t.
Proof.
  intros Hl. split; intros H.
  - apply glob_star_inv in H as (n & H). apply glob_lits_inv in H as (t' & E & H); [|done].
    apply (f_equal (drop (length lits))) in E. rewrite drop_drop, drop_app_length in E.
    replace (n + length lits) with (length lits + n) in E by lia.
    rewrite <- drop_drop, drop_app_length in E.
    apply (glob_star_drop _ _ n). by rewrite E.
  - apply glob_star_empty. by apply glob_lits.
Qed.

Lemma glob_star_end lits p :
  Forall (fun c => c <> asterisk) lits -> glob (asterisk :: lits ++ p) lits <-> glob p [].
Proof.
  intros Hl. split; intros H.
  - apply glob_star_inv in H as (n & H). apply glob_lits_inv in H as (t & E & H); [|done].
    apply (f_equal length) in E. rewrite length_drop, length_app in E.
    destruct t as [|x t]; [done|]. simpl in E. lia.
  - apply glob_star_empty. rewrite <- (app_nil_r lits) at 2. by apply glob_lits.
Qed.

Lemma glob_star_skip p x s : ~ glob p (x :: s) -> glob (asterisk :: p) (x :: s) <-> glob (asterisk :: p) s.
Proof. intros Hn. split; intros H; [|by constructor]. inversion H; subst; done. Qed.

Lemma glob_mismatch p i c t :
  byte_is p i asterisk = false -> byte_is p i c = false -> ~ glob (drop i (chars p)) (c :: t).
Proof.
  intros H1 H2 H. apply not_true_iff_false in H1, H2. rewrite byte_is_spec in H1, H2.
  destruct (chars p !! i) as [x|] eqn:E.
  - rewrite (drop_S _ x) in H by done. inversion H; subst; congruence.
  - apply lookup_ge_None in E. rewrite drop_ge in H by done. inversion H.
Qed.

Section loop.
Context (p s : string).
Let P := chars p.
Let T := chars s.

(** What the matcher has established when it looks at [p[pi]] and [s[si]]. *)
Definition glob_inv (pi si : nat) (star : option nat) (mark : nat) : Prop :=
  pi <= length P /\ si <= length T /\ mark <= si /\
  match star with
  | None => glob P T <-> glob (drop pi P) (drop si T)
  | Some k =>
      k < length P /\
      (glob P T <-> glob (asterisk :: drop (k + 1) P) (drop mark T)) /\
      exists lits, Forall (fun c => c <> asterisk) lits
        /\ drop (k + 1) P = lits ++ drop pi P /\ drop mark T = lits ++ drop si T
  end.

Definition glob_measure (pi mark : nat) : nat :=
  (length T + 1 - mark) * (length P + 1) + (length P - pi).

Lemma glob_inv_star pi si star mark :
  glob_inv pi si star mark -> P !! pi = Some asterisk -> glob_inv (pi + 1) si (Some pi) si.
Proof.
  intros (Hpi & Hsi & Hm & H) E. pose proof (lookup_lt_Some _ _ _ E).
  split_and!; [lia .. | | by exists []].
  rewrite Nat.add_1_r, <- (drop_S P asterisk) by done.
  destruct star as [k|]; [|done].
  destruct H as (_ & -> & lits & Hl & -> & ->). rewrite (drop_S P asterisk) by done.
  by apply glob_star_commit.
Qed.

Lemma glob_inv_lit pi si star mark c :
  glob_inv pi si star mark -> c <> asterisk -> P !! pi = Some c -> T !! si = Some c ->
  glob_inv (pi + 1) (si + 1) star mark.
Proof.
  intros (Hpi & Hsi & Hm & H) Hc E1 E2.
  pose proof (lookup_lt_Some _ _ _ E1). pose proof (lookup_lt_Some _ _ _ E2).
  pose proof (drop_S P c pi E1) as D1. pose proof (drop_S T c si E2) as D2.
  rewrite <- Nat.add_1_r in D1, D2.
  split_and!; [lia .. |].
  destruct star as [k|].
  - destruct H as (Hk & Hg & lits & Hl & HP & HT). split_and!; [done | done |].
    exists (lits ++ [c]). rewrite D1 in HP. rewrite D2 in HT. rewrite <- !app_assoc. split_and!; [|done|done].
    by apply Forall_app_2; [|repeat constructor].
  - rewrite H, D1, D2. split; [by inversion 1 | by constructor].
Qed.

Lemma glob_inv_back pi si k mark c :
  glob_inv pi si (Some k) mark -> T !! si = Some c ->
  byte_is p pi asterisk = false -> byte_is p pi c = false ->
  glob_inv (k + 1) (mark + 1) (Some k) (mark + 1).
Proof.
  intros (Hpi & Hsi & Hm & Hk & Hg & lits & Hl & HP & HT) E H1 H2.
  pose proof (lookup_lt_Some _ _ _ E).
  destruct (lookup_lt_is_Some_2 T mark) as [x Hx]; [lia|].
  split_and!; [lia .. | | by exists []].
  pose proof (drop_S T x mark Hx) as D. rewrite <- Nat.add_1_r in D.
  rewrite Hg, D. apply glob_star_skip. rewrite <- D, HP, HT. intros Hglob.
  apply glob_lits_inv in Hglob as (t & Et%app_inv_head & Hglob); [|done].
  subst t. rewrite (drop_S T c) in Hglob by done. by apply glob_mismatch in Hglob.
Qed.

Lemma glob_loop_correct fuel pi si star mark :
  glob_inv pi si star mark -> glob_measure pi mark < fuel ->
  exists r, glob_loop fuel p s pi si star mark = Some r /\
    match r with
    | Some pi' => pi' <= length P /\ (glob P T <-> glob (drop pi' P) [])
    | None => ~ glob P T
    end.
Proof.
  revert pi si star mark. induction fuel as [|fuel IH]; intros pi si star mark Hinv Hfuel; [lia|].
  pose proof Hinv as (Hpi & Hsi & Hm & Hst). unfold glob_measure in *. simpl.
  rewrite get_chars. fold T. destruct (T !! si) as [c|] eqn:Ec.
  - pose proof (lookup_lt_Some _ _ _ Ec).
    destruct (byte_is p pi asterisk) eqn:Es.
    { apply byte_is_spec in Es. pose proof (lookup_lt_Some _ _ _ Es) as Hlt. fold P in Es, Hlt.
      apply IH; [by eapply glob_inv_star | nia]. }
    destruct (byte_is p pi c) eqn:Eb.
    { pose proof Eb as Eb'. apply byte_is_spec in Eb'.
      pose proof (lookup_lt_Some _ _ _ Eb') as Hlt. fold P in Eb', Hlt.
      apply IH; [|nia]. apply (glob_inv_lit _ _ _ _ c); try done. intros ->. congruence. }
    destruct star as [k|].
    + apply IH; [by eapply glob_inv_back | nia].
    + eexists. split; [done|]. simpl. rewrite Hst, (drop_S T c) by done. by apply glob_mismatch.
  - apply lookup_ge_None in Ec. exists (Some pi). split; [done|]. split; [done|].
    rewrite (drop_ge T si) in Hst by done. destruct star as [k|]; [|done].
    destruct Hst as (_ & -> & lits & Hl & -> & ->). rewrite app_nil_r. by apply glob_star_end.
Qed.
End loop.

Lemma skip_stars_spec fuel p pi :
  pi <= len p -> len p - pi <= fuel ->
  skip_stars fuel p pi = len p <-> glob (drop pi (chars p)) [].
Proof.
  revert pi. induction fuel as [|fuel IH]; intros pi Hpi Hf; simpl.
  - rewrite drop_ge by (rewrite len_chars; lia). split; [constructor | lia].
  - destruct (byte_is p pi asterisk) eqn:E.
    + apply byte_is_spec in E. pose proof (lookup_lt_Some _ _ _ E) as Hlt. rewrite len_chars in Hlt.
      rewrite IH by lia. rewrite (drop_S (chars p) asterisk pi), Nat.add_1_r by done.
      split; intros H; [by constructor | by inversion H].
    + destruct (decide (pi = len p)) as [->|Hne].
      * rewrite drop_ge by (by rewrite len_chars). split; [constructor | done].
      * split; [done|]. intros H.
        destruct (lookup_lt_is_Some_2 (chars p) pi) as [x Hx]; [rewrite len_chars; lia|].
        rewrite (drop_S _ x) in H by done. inversion H; subst.
        apply byte_is_spec in Hx. congruence.
Qed.

Lemma matchGlob_glob pattern s : matchGlob pattern s = true <-> glob (chars pattern) (chars s).
Proof.
  unfold matchGlob. destruct (glob_loop_correct pattern s (glob_fuel pattern s) 0 0 None 0)
    as (r & -> & Hr).
  - split_and!; [lia .. | done].
  - unfold glob_measure, glob_fuel. rewrite !len_chars. nia.
  - destruct r as [pi|]; [|by split].
    destruct Hr as [Hpi ->]. rewrite len_chars in Hpi. rewrite Nat.eqb_eq.
    apply skip_stars_spec; lia.
Qed.

(** ** Rules *)








(** ** The boundary on path components *)










(** ** Properties *)

(** C8: the wildcard matcher terminates on every pattern and command within
    its loop bound, and accepts exactly the commands of the pattern's
    language, in which an asterisk stands for any run of bytes and every other
    byte for itself: backtracking to the last asterisk only is complete. *)
Theorem match_glob_correct (pattern s : string) :
  glob_loop (glob_fuel pattern s) pattern s 0 0 None 0 <> None
  /\ (matchGlob pattern s = true <-> glob (chars pattern) (chars s)).
Proof.
  split; [|apply matchGlob_glob].
  destruct (glob_loop_correct pattern s (glob_fuel pattern s) 0 0 None 0) as (r & -> & _); [| |done].
  - split_and!; [lia .. | done].
  - unfold glob_measure, glob_fuel. rewrite !len_chars. nia.
Qed.




(** ** Two gaps of the rules *)

(** The wildcard suffix is trimmed before the target is classified, so the
    glob over the whole filesystem is taken for the project itself. *)
Lemma root_glob_is_let_through : OutsideProject "/**" "/home/u/project" = (true, "").
Proof. vm_compute. reflexivity. Qed.

(** The list for [rm] names the [||] separator, the list for [sudo] does not. *)
Lemma sudo_after_or_is_let_through :
  MatchCommand "true || sudo id" = ("", false)
  /\ MatchCommand "true || rm x" = ("* || rm *", true).
Proof. split; vm_compute; reflexivity. Qed.
