(* ===== verification/PermPolicy.v ===== *)
(** * The operator's permission policy (internal/permpolicy/policy.go)

    A policy file is read again for every decision.  The file system, the home
    directory, the YAML decoder and the doublestar matcher are parameters;
    everything between them is the source's. *)

From S2P Require Import Prelude GoStrings.

Inductive List_ := ListDeny | ListAccept.

Definition ParseList (s : string) : option List_ :=
  let n := ToLower (TrimSpace s) in
  if n == "deny" then Some ListDeny
  else if n == "accept" then Some ListAccept
  else None.

Inductive Verdict :=
| VerdictNone | VerdictDeny | VerdictGrant | VerdictAccept | VerdictProject | VerdictAsk.

#[export] Instance Verdict_eq_dec : EqDecision Verdict.
Proof. solve_decision. Defined.

Definition Proceed (v : Verdict) : bool :=
  match v with
  | VerdictDeny | VerdictAsk | VerdictNone => false
  | _ => true
  end.

Record Policy := mkPolicy { Deny : list string; Accept : list string }.

Definition no_policy : Policy := mkPolicy [] [].

Definition Empty (p : Policy) : bool :=
  match Deny p, Accept p with [], [] => true | _, _ => false end.

Record Decision := mkDecision { verdict : Verdict; Entry : string; half : List_ }.

Record Inputs := mkInputs { SessionGranted : bool }.

(** What [os.ReadFile] and the decoder answer. *)
Inductive file_read := NotExist | ReadError | Content (bytes : string).
Inductive decoded := DecodedEOF | DecodeError | Decoded (p : Policy).

Inductive parse_error :=
| ErrRead | ErrDecode | ErrEmptyEntry (l : List_) | ErrMalformedEntry (l : List_) (entry : string).

Inductive policy_error :=
| PolicyLoadError (path : string) (err : parse_error)
| Refused (target entry path : string).

Definition PolicyLoadFailure (e : policy_error) : bool :=
  match e with PolicyLoadError _ _ => true | Refused _ _ _ => false end.

Section policy.
(** [os.ReadFile], the user's home, [yaml] with known fields only,
    [doublestar.ValidatePattern] and [doublestar.PathMatch] ([false] also
    stands for its error). *)
Context (ReadFile : string -> file_read) (home : string)
  (yaml : string -> decoded) (ValidatePattern : string -> bool)
  (PathMatch : string -> string -> bool).

Definition expandHome (p : string) : string :=
  let s := TrimSpace p in
  if s == "~" then home
  else if HasPrefix s "~/" then JoinPath home (sdrop 2 s)
  else if (s == "$HOME") || (s == "${HOME}") then home
  else if HasPrefix s "$HOME/" then JoinPath home (sdrop (len "$HOME/") s)
  else if HasPrefix s "${HOME}/" then JoinPath home (sdrop (len "${HOME}/") s)
  else s.

Fixpoint check_entries (l : List_) (entries : list string) : result parse_error unit :=
  match entries with
  | [] => Ok tt
  | e :: rest =>
      if TrimSpace e == "" then Err (ErrEmptyEntry l)
      else if negb (ValidatePattern (expandHome e)) then Err (ErrMalformedEntry l e)
      else check_entries l rest
  end.

Definition Parse (b : string) : result parse_error Policy :=
  if TrimSpace b == "" then Ok no_policy
  else
    match yaml b with
    | DecodedEOF => Ok no_policy
    | DecodeError => Err ErrDecode
    | Decoded p =>
        _ ← check_entries ListDeny (Deny p);
        _ ← check_entries ListAccept (Accept p);
        Ok p
    end.

Definition Load (path : string) : result parse_error Policy :=
  match ReadFile path with
  | NotExist => Ok no_policy
  | ReadError => Err ErrRead
  | Content b => Parse b
  end.

Definition matchPattern (entry target : string) : bool :=
  let pat := expandHome entry in
  if (pat == "") || (target == "") then false
  else if pat == target then true
  else if HasSuffix pat "/**" && (TrimSuffix pat "/**" == target) then true
  else PathMatch pat target.

Definition candidates (target : string) : list string :=
  let exp := expandHome target in
  if negb (exp == target) then [target; exp] else [target].

Definition matchAny (entries : list string) (target : string) : option string :=
  List.find (fun e => existsb (matchPattern e) (candidates target)) entries.

Record Store := mkStore { Path : string }.

Definition Read (s : Store) : result parse_error Policy := Load (Path s).

Definition DenyBelow (s : Store) (dir : string) : result parse_error (list string) :=
  let d := Clean (expandHome (TrimSpace dir)) in
  if (d == "") || (d == ".") then Ok []
  else
    let prefix := if negb (HasSuffix d "/") then d +:+ "/" else d in
    p ← Read s;
    Ok (List.filter (fun e => let pat := Clean (expandHome e) in
                              (pat == d) || HasPrefix pat prefix) (Deny p)).

Definition Decide (s : Store) (target : string) (inp : Inputs) : result policy_error Decision :=
  match Read s with
  | Err err => Err (PolicyLoadError (Path s) err)
  | Ok p =>
      match matchAny (Deny p) target with
      | Some entry => Ok (mkDecision VerdictDeny entry ListDeny)
      | None =>
          if SessionGranted inp then Ok (mkDecision VerdictGrant "" ListDeny)
          else
            match matchAny (Accept p) target with
            | Some entry => Ok (mkDecision VerdictAccept entry ListAccept)
            | None => Ok (mkDecision VerdictAsk "" ListDeny)
            end
      end
  end.

Definition Consult (s : Store) (target : string) : result policy_error Decision :=
  Decide s target (mkInputs false).

Definition Refusal (s : Store) (target entry : string) : policy_error := Refused target entry (Path s).

(** [None] is the nil error. *)
Fixpoint HostSuiteGuard (s : Store) (paths : list string) : option policy_error :=
  match paths with
  | [] => None
  | target :: rest =>
      if TrimSpace target == "" then HostSuiteGuard s rest
      else
        match Decide s target (mkInputs false) with
        | Err err => Some err
        | Ok d =>
            if decide (verdict d = VerdictDeny) then Some (Refusal s target (Entry d))
            else HostSuiteGuard s rest
        end
  end.

(** ** Specification: the precedence chain *)

(** An entry covers a target when it matches one of the target's spellings. *)
Definition entry_covers (target entry : string) : Prop :=
  exists c, In c (candidates target) /\ matchPattern entry c = true.

Definition first_covering (entries : list string) (target entry : string) : Prop :=
  exists before after, entries = before ++ entry :: after /\ entry_covers target entry
    /\ forall e, In e before -> ~ entry_covers target e.

Inductive chain (p : Policy) (target : string) : bool -> Decision -> Prop :=
| chain_deny granted e :
    first_covering (Deny p) target e -> chain p target granted (mkDecision VerdictDeny e ListDeny)
| chain_grant :
    (forall e, In e (Deny p) -> ~ entry_covers target e) ->
    chain p target true (mkDecision VerdictGrant "" ListDeny)
| chain_accept e :
    (forall e, In e (Deny p) -> ~ entry_covers target e) ->
    first_covering (Accept p) target e ->
    chain p target false (mkDecision VerdictAccept e ListAccept)
| chain_ask :
    (forall e, In e (Deny p) -> ~ entry_covers target e) ->
    (forall e, In e (Accept p) -> ~ entry_covers target e) ->
    chain p target false (mkDecision VerdictAsk "" ListDeny).

(** ** Lemmas *)

Lemma covers_b target e : existsb (matchPattern e) (candidates target) = true <-> entry_covers target e.
Proof. apply existsb_exists. Qed.

Lemma find_first {A} (f : A -> bool) l x :
  List.find f l = Some x ->
  exists before after, l = before ++ x :: after /\ f x = true /\ forall y, In y before -> f y = false.
Proof.
  induction l as [|a l IH]; simpl; [done|]. destruct (f a) eqn:E.
  - intros [= ->]. by exists [], l.
  - intros (b & af & -> & Hx & Hb)%IH. exists (a :: b), af. split_and!; [done .. |].
    intros y [<- | Hy]; auto.
Qed.

Lemma matchAny_some entries target e :
  matchAny entries target = Some e -> first_covering entries target e.
Proof.
  intros (b & a & -> & Hx & Hb)%find_first. exists b, a. split_and!; [done | by apply covers_b |].
  intros y Hy Hc%covers_b. by rewrite Hb in Hc.
Qed.

Lemma matchAny_none entries target :
  matchAny entries target = None -> forall e, In e entries -> ~ entry_covers target e.
Proof.
  intros H e Hin Hc%covers_b. pose proof (List.find_none _ _ H e Hin) as Hn. simpl in Hn. congruence.
Qed.

Lemma Decide_chain s target granted p :
  Read s = Ok p -> exists d, Decide s target (mkInputs granted) = Ok d /\ chain p target granted d.
Proof.
  intros HR. unfold Decide. rewrite HR. simpl.
  destruct (matchAny (Deny p) target) as [e|] eqn:Ed.
  { eexists. split; [done|]. by apply chain_deny, matchAny_some. }
  pose proof (matchAny_none _ _ Ed) as Hd.
  destruct granted; [eexists; split; [done | by constructor]|].
  destruct (matchAny (Accept p) target) as [e|] eqn:Ea; eexists; (split; [done|]).
  - by apply chain_accept, matchAny_some.
  - by apply chain_ask; [|apply matchAny_none].
Qed.

Lemma first_covering_unique entries target e1 e2 :
  first_covering entries target e1 -> first_covering entries target e2 -> e1 = e2.
Proof.
  intros (b1 & a1 & -> & H1 & N1) (b2 & a2 & E & H2 & N2).
  revert b2 E N2. induction b1 as [|x b1 IH]; intros [|y b2] E N2; simpl in *.
  - by injection E.
  - injection E as -> _. by destruct (N2 y); [left|].
  - injection E as -> _. by destruct (N1 e2); [left|].
  - injection E as _ E. apply (IH (fun e H => N1 e (or_intror H)) b2 E). eauto.
Qed.

Lemma first_covering_covered entries target e :
  first_covering entries target e -> exists e, In e entries /\ entry_covers target e.
Proof. intros (b & a & -> & H & _). exists e. split; [apply in_elt | done]. Qed.

Lemma chain_deterministic p target g d1 d2 : chain p target g d1 -> chain p target g d2 -> d1 = d2.
Proof.
  assert (Hx : forall l e, first_covering l target e -> (forall e, In e l -> ~ entry_covers target e) -> False).
  { intros l e (x & Hin & Hc)%first_covering_covered H. by apply (H x). }
  intros H1 H2. destruct H1; inversion H2; subst; try done;
    try (exfalso; eapply (Hx (Deny p)); eassumption);
    try (exfalso; eapply (Hx (Accept p)); eassumption);
    f_equal; by eapply first_covering_unique.
Qed.

Lemma check_entries_ok l entries :
  check_entries l entries = Ok tt <->
  Forall (fun e => TrimSpace e <> "" /\ ValidatePattern (expandHome e) = true) entries.
Proof.
  induction entries as [|e entries IH]; simpl; [by split|]. rewrite Forall_cons, <- IH.
  destruct (TrimSpace e == "") eqn:E1; breflect.
  - split; [done | by intros [[? _] _]].
  - destruct (ValidatePattern (expandHome e)); simpl; [tauto|]. split; [done | by intros [[_ ?] _]].
Qed.

(** No deny entry covers the target. *)
Definition not_denied (p : Policy) (target : string) : Prop :=
  forall e, In e (Deny p) -> ~ entry_covers target e.

Lemma Decide_deny s p target :
  Read s = Ok p ->
  (exists e, Decide s target (mkInputs false) = Ok (mkDecision VerdictDeny e ListDeny)
             /\ In e (Deny p) /\ entry_covers target e)
  \/ ((exists d, Decide s target (mkInputs false) = Ok d /\ verdict d <> VerdictDeny)
      /\ not_denied p target).
Proof.
  intros HR. unfold Decide. rewrite HR. simpl.
  destruct (matchAny (Deny p) target) as [e|] eqn:Ed.
  - left. exists e. apply List.find_some in Ed as [? ?%covers_b]. done.
  - right. split; [|exact (matchAny_none _ _ Ed)]. destruct (matchAny (Accept p) target); by eexists.
Qed.

Lemma guard_allows s p paths :
  Read s = Ok p ->
  HostSuiteGuard s paths = None <->
  Forall (fun target => TrimSpace target = "" \/ not_denied p target) paths.
Proof.
  intros HR. induction paths as [|t paths IH]; simpl; [by split|]. rewrite Forall_cons, <- IH.
  destruct (TrimSpace t == "") eqn:E; breflect; [tauto|].
  destruct (Decide_deny s p t HR) as [(e & -> & Hin & Hc) | ((d & -> & Hv) & Hn)].
  - rewrite decide_True by done. split; [done|]. intros [[?|Hn] _]; [done | by destruct (Hn e)].
  - rewrite decide_False by done. tauto.
Qed.

Lemma guard_refuses s p paths err :
  Read s = Ok p -> HostSuiteGuard s paths = Some err ->
  exists target e, In target paths /\ In e (Deny p) /\ entry_covers target e
    /\ err = Refused target e (Path s).
Proof.
  intros HR. induction paths as [|t paths IH]; simpl; [done|].
  destruct (TrimSpace t == ""); [intros (x & e & ? & ?)%IH; exists x, e; tauto|].
  destruct (Decide_deny s p t HR) as [(e & -> & Hin & Hc) | ((d & -> & Hv) & Hn)].
  - rewrite decide_True by done. intros [= <-]. exists t, e. tauto.
  - rewrite decide_False by done. intros (x & e & ? & ?)%IH. exists x, e. tauto.
Qed.

(** ** Properties *)

(** C10: [Decide] implements the precedence chain and nothing else: when the file
    loads, the decision it returns is the one and only decision of the chain
    deny > session grant > accept > ask, and it names the first entry, in the
    operator's order, that covers the target in either of its spellings; in
    particular it never answers [VerdictNone] or [VerdictProject], and a deny
    entry refuses with and without the session grant. *)
Theorem decide_follows_precedence (s : Store) (p : Policy) (target : string) (granted : bool)
  (d : Decision) (HR : Read s = Ok p) :
  (Decide s target (mkInputs granted) = Ok d <-> chain p target granted d)
  /\ (chain p target granted d ->
      (Proceed (verdict d) = true -> not_denied p target)
      /\ verdict d <> VerdictNone /\ verdict d <> VerdictProject).
Proof.
  destruct (Decide_chain s target granted p HR) as (d' & E & Hc). split.
  - rewrite E. split; [by intros [= <-]|].
    intros H. f_equal. by eapply chain_deterministic.
  - intros H. destruct H; simpl; done.
Qed.

(** C32: the guard of the host tool suite lets a call through exactly when every
    non-blank path of it is covered by no deny entry; when it refuses, the
    error names a path of the call and a deny entry that covers it; and when
    the policy does not load, a call with a non-blank path fails with the load
    failure, which is never taken for a refusal. *)
Theorem host_guard_enforces_deny (s : Store) (paths : list string) :
  match Read s with
  | Ok p =>
      (HostSuiteGuard s paths = None
       <-> Forall (fun target => TrimSpace target = "" \/ not_denied p target) paths)
      /\ (forall err, HostSuiteGuard s paths = Some err ->
          exists target e, In target paths /\ In e (Deny p) /\ entry_covers target e
            /\ err = Refused target e (Path s))
  | Err e =>
      HostSuiteGuard s paths =
        if forallb (fun target => TrimSpace target == "") paths then None
        else Some (PolicyLoadError (Path s) e)
  end.
Proof.
  destruct (Read s) as [p|e] eqn:HR.
  - split; [by apply guard_allows | intros err; by apply guard_refuses].
  - induction paths as [|t paths IH]; simpl; [done|].
    destruct (TrimSpace t == ""); simpl; [done|]. unfold Decide. by rewrite HR.
Qed.

(** a policy that loads holds only entries that are not blank and whose
    expansion is a valid pattern; no file, and an empty one, load as the
    policy that denies nothing and accepts nothing. *)
Theorem loaded_policy_is_valid (path : string) (p : Policy) (H : Load path = Ok p) :
  Forall (fun e => TrimSpace e <> "" /\ ValidatePattern (expandHome e) = true) (Deny p ++ Accept p)
  /\ (ReadFile path = NotExist -> p = no_policy)
  /\ (forall b, ReadFile path = Content b -> TrimSpace b = "" -> p = no_policy).
Proof.
  unfold Load in H. destruct (ReadFile path) as [| |b]; try done.
  { injection H as <-. by split_and!. }
  unfold Parse in H. destruct (TrimSpace b == "") eqn:E; breflect.
  { injection H as <-. by split_and!. }
  destruct (yaml b) as [| |q]; try done.
  { injection H as <-. by split_and!. }
  apply result_bind_ok in H as ([] & H1 & H). apply result_bind_ok in H as ([] & H2 & [= <-]).
  apply check_entries_ok in H1, H2. split_and!; [by apply Forall_app_2 | done |].
  intros b' [= <-]. done.
Qed.

End policy.

(** ** Witnesses: a policy on disk, with equality for the matcher *)

Definition demo_disk (path : string) : file_read :=
  if path == "/etc/p.yaml" then Content "deny: [...]" else NotExist.
Definition demo_yaml (b : string) : decoded := Decoded (mkPolicy ["~/.ssh/**"; "**/.env"] ["/tmp/**"]).
Definition demo_valid (pat : string) : bool := negb (pat == "[").

Lemma decide_follows_precedence_witness :
  Decide demo_disk "/home/u" demo_yaml demo_valid String.eqb (mkStore "/etc/p.yaml") "~/.ssh"
    (mkInputs true) = Ok (mkDecision VerdictDeny "~/.ssh/**" ListDeny)
  <-> chain "/home/u" String.eqb (mkPolicy ["~/.ssh/**"; "**/.env"] ["/tmp/**"]) "~/.ssh" true
        (mkDecision VerdictDeny "~/.ssh/**" ListDeny).
Proof.
  apply (decide_follows_precedence demo_disk "/home/u" demo_yaml demo_valid String.eqb
           (mkStore "/etc/p.yaml") (mkPolicy ["~/.ssh/**"; "**/.env"] ["/tmp/**"]) "~/.ssh" true).
  vm_compute. reflexivity.
Defined.

Lemma loaded_policy_is_valid_witness :
  Forall (fun e => TrimSpace e <> "" /\ demo_valid (expandHome "/home/u" e) = true)
    (["~/.ssh/**"; "**/.env"] ++ ["/tmp/**"]).
Proof.
  apply (loaded_policy_is_valid demo_disk "/home/u" demo_yaml demo_valid String.eqb "/etc/p.yaml"
           (mkPolicy ["~/.ssh/**"; "**/.env"] ["/tmp/**"])).
  vm_compute. reflexivity.
Defined.
