(* ===== verification/AskMode.v ===== *)
(** * The mode boundary of an Ask session (internal/askmode/askmode.go,
    internal/toolclass/toolclass.go)

    Which tools a conversation mode may run.  A Go map used as a set is the
    list of its keys; where the program iterates over it, the order is an
    argument. *)

From S2P Require Import Prelude GoStrings.
From stdpp Require Import sorting.

Definition Brainstorm : string := "brainstorm".
Definition Iteration : string := "iteration".
Definition QuickWork : string := "quick_work".

Record ModePolicy := mkModePolicy {
  Mode : string; Denied : list string; SwitchTo : string; policyMayAct : bool }.

Definition theWorkTools : list string := ["write"; "edit"; "batch_write"; "bash"].

Definition thePlanTools : list string :=
  ["create_work_item"; "update_work_item"; "schedule_work_item"; "reorder_work_items";
   "control_sequence"; "force_progress_workflow_run"; "retry_failed_workflow_run"].

Definition policies (mode : string) : option ModePolicy :=
  if mode == Brainstorm then Some (mkModePolicy Brainstorm theWorkTools Iteration false)
  else if mode == QuickWork then Some (mkModePolicy QuickWork theWorkTools Iteration false)
  else if mode == Iteration then Some (mkModePolicy Iteration thePlanTools Brainstorm true)
  else None.

Definition orchiconMCPServer : string := "orchicon".

(** [strings.Index(s, "__")] with the text on both sides. *)
Fixpoint cut_dunder (s : string) : option (string * string) :=
  if HasPrefix s "__" then Some ("", sdrop 2 s)
  else match s with
       | EmptyString => None
       | String c s' =>
           match cut_dunder s' with
           | Some (a, b) => Some (String c a, b)
           | None => None
           end
       end.

Definition IsOpaqueMCPTool (name : string) : bool :=
  let n := ToLower (TrimSpace name) in
  if negb (HasPrefix n "mcp__") then false
  else
    match cut_dunder (sdrop (len "mcp__") n) with
    | None => false
    | Some (server, tool) =>
        if (server == "") || (tool == "") then false
        else negb (server == orchiconMCPServer)
    end.

Definition NormalizeToolName (name : string) : string :=
  let trimmed := TrimSpace name in
  let p := "mcp__" +:+ orchiconMCPServer +:+ "__" in
  if HasPrefix (ToLower trimmed) p then sdrop (len p) trimmed
  else TrimPrefix trimmed "orchicon_".

Definition MayAct (mode : string) : bool :=
  match policies mode with None => true | Some p => policyMayAct p end.

Definition PolicyFor (mode : string) : option ModePolicy := policies mode.

Definition Allows (mode tool : string) : bool :=
  match policies mode with
  | None => true
  | Some p =>
      if IsOpaqueMCPTool tool then policyMayAct p
      else negb (existsb (String.eqb (NormalizeToolName tool)) (Denied p))
  end.

(** [sortStrings]: the inner loop moves [x] down the sorted prefix, kept here
    with its last element first. *)
Fixpoint sift (x : string) (prefix : list string) : list string :=
  match prefix with
  | [] => [x]
  | y :: rest => if String.ltb x y then y :: sift x rest else x :: prefix
  end.

Definition sortStrings (s : list string) : list string :=
  rev (fold_left (fun prefix x => sift x prefix) s []).

(** [iterate] is the order in which Go ranges over the set. *)
Definition DeniedNames (iterate : list string -> list string) (mode : string) : list string :=
  match policies mode with
  | None => []
  | Some p => sortStrings (iterate (Denied p))
  end.

(** ** The activity line's classification *)

Inductive Class_ := Modify | Read | Bash | Other | Ignore.

Definition modifyTools : list string := ["write"; "edit"; "batch_write"].
Definition readTools : list string :=
  ["read"; "batch_read"; "grep"; "batch_grep"; "list"; "glob"; "todoread"].
Definition bashTools : list string := ["bash"; "shell"].

Definition Classify (toolName : string) : Class_ :=
  let n := ToLower (TrimSpace toolName) in
  if HasPrefix n "permission." then Ignore
  else
    let n := TrimPrefix n "orchicon_" in
    if (n == "ask_user") || (n == "askuser") || (n == "ask_user_question") then Ignore
    else if n == "todowrite" then Ignore
    else if existsb (String.eqb n) modifyTools then Modify
    else if existsb (String.eqb n) readTools then Read
    else if existsb (String.eqb n) bashTools then Bash
    else if n == "" then Ignore
    else Other.

(** ** Lemmas *)

Lemma policies_cases mode p :
  policies mode = Some p ->
  (Denied p = theWorkTools /\ SwitchTo p = Iteration /\ policyMayAct p = false)
  \/ (mode = Iteration /\ Denied p = thePlanTools /\ SwitchTo p = Brainstorm /\ policyMayAct p = true).
Proof.
  unfold policies. repeat case_match; intros [= <-]; [by left .. |].
  right. breflect. done.
Qed.

Lemma sift_perm x l : Permutation (sift x l) (x :: l).
Proof.
  induction l as [|y l IH]; simpl; [done|]. destruct (String.ltb x y); [|done].
  rewrite IH. apply perm_swap.
Qed.

Lemma sort_fold_perm s acc :
  Permutation (fold_left (fun prefix x => sift x prefix) s acc) (s ++ acc).
Proof.
  revert acc. induction s as [|x s IH]; intros acc; simpl; [done|].
  rewrite IH, sift_perm. symmetry. apply Permutation_middle.
Qed.

Lemma sortStrings_perm s : Permutation (sortStrings s) s.
Proof.
  unfold sortStrings. rewrite <- Permutation_rev, sort_fold_perm. by rewrite app_nil_r.
Qed.

Lemma ltb_le x y : String.ltb x y = true -> String.le x y.
Proof. unfold String.ltb, String.le, String.leb. by destruct (String.compare x y). Qed.

Lemma ltb_ge x y : String.ltb x y = false -> String.le y x.
Proof.
  unfold String.ltb, String.le, String.leb. rewrite (String.compare_antisym y x).
  by destruct (String.compare x y).
Qed.

(** Largest first: the order of the reversed prefix. *)
Definition descending : list string -> Prop := StronglySorted (flip String.le).

#[export] Instance flip_le_antisymm : AntiSymm (=) (flip String.le).
Proof. intros x y Hxy Hyx. by apply (anti_symm String.le). Qed.

Lemma sift_sorted x l : descending l -> descending (sift x l).
Proof.
  induction 1 as [|y l Hl IH Hy]; simpl; [by repeat constructor|].
  destruct (String.ltb x y) eqn:E.
  - constructor; [done|]. apply (Permutation_Forall (Permutation_sym (sift_perm x l))).
    constructor; [by apply ltb_le | done].
  - apply ltb_ge in E. constructor; [by constructor|]. constructor; [done|].
    eapply Forall_impl; [exact Hy|]. intros z Hz. unfold flip in *. by etrans.
Qed.

Lemma sort_fold_sorted s acc :
  descending acc -> descending (fold_left (fun prefix x => sift x prefix) s acc).
Proof. revert acc. induction s as [|x s IH]; intros acc H; simpl; [done|]. by apply IH, sift_sorted. Qed.

Lemma sortStrings_unique s1 s2 : Permutation s1 s2 -> sortStrings s1 = sortStrings s2.
Proof.
  intros Hp. unfold sortStrings. f_equal.
  apply (StronglySorted_unique (flip String.le)); [apply sort_fold_sorted; constructor .. |].
  by rewrite !sort_fold_perm, Hp.
Qed.

Lemma sortStrings_sorted s : StronglySorted String.le (sortStrings s).
Proof.
  unfold sortStrings.
  pose proof (sort_fold_sorted s [] (SSorted_nil _)) as H. revert H.
  generalize (fold_left (fun prefix x => sift x prefix) s []). induction 1 as [|y l Hl IH Hy]; simpl.
  - constructor.
  - apply StronglySorted_app_2; [| done | by repeat constructor].
    intros a b Ha%list_elem_of_In Hb%list_elem_of_singleton. subst b.
    rewrite List.Forall_forall in Hy. apply Hy. by apply in_rev.
Qed.

(** ** Properties *)

(** a refusal is a direction rather than a wall: whenever a mode refuses a
    tool (a classified or an opaque one, under any spelling), the mode has a
    policy, and the mode that policy points to allows that tool. *)
Theorem refusal_is_a_direction (mode tool : string) (H : Allows mode tool = false) :
  exists p, PolicyFor mode = Some p /\ Allows (SwitchTo p) tool = true.
Proof.
  unfold Allows in H. unfold PolicyFor. destruct (policies mode) as [p|] eqn:Ep; [|done].
  exists p. split; [done|]. apply policies_cases in Ep as [(Hd & -> & Hm) | (_ & Hd & -> & Hm)].
  - unfold Allows. simpl. rewrite Hd, Hm in H. destruct (IsOpaqueMCPTool tool); [done|].
    breflect. apply existsb_exists in H as (x & Hx & ->%String.eqb_eq).
    repeat (destruct Hx as [<- | Hx]; [done|]). done.
  - unfold Allows. simpl. rewrite Hd, Hm in H. destruct (IsOpaqueMCPTool tool); [done|].
    breflect. apply existsb_exists in H as (x & Hx & ->%String.eqb_eq).
    repeat (destruct Hx as [<- | Hx]; [done|]). done.
Qed.

Lemma refusal_is_a_direction_witness :
  Allows Brainstorm " mcp__GitHub__create_issue" = false
  /\ exists p, PolicyFor Brainstorm = Some p /\ Allows (SwitchTo p) " mcp__GitHub__create_issue" = true.
Proof.
  split; [vm_compute; reflexivity|].
  apply (refusal_is_a_direction Brainstorm " mcp__GitHub__create_issue"). vm_compute. reflexivity.
Defined.

(** the list of denied names an adapter receives does not depend on the
    order in which Go ranges over the set: it is sorted, and holds exactly
    the denied names. *)
Theorem denied_names_deterministic (it1 it2 : list string -> list string) (mode : string)
  (H1 : forall l, Permutation (it1 l) l) (H2 : forall l, Permutation (it2 l) l) :
  DeniedNames it1 mode = DeniedNames it2 mode
  /\ StronglySorted String.le (DeniedNames it1 mode)
  /\ forall p, policies mode = Some p -> Permutation (DeniedNames it1 mode) (Denied p).
Proof.
  unfold DeniedNames. destruct (policies mode) as [p|]; [|split_and!; [done | constructor | done]].
  split_and!.
  - apply sortStrings_unique. by rewrite H1, H2.
  - apply sortStrings_sorted.
  - intros q [= <-]. by rewrite sortStrings_perm, H1.
Qed.

Lemma denied_names_deterministic_witness :
  DeniedNames (fun l => rev l) Iteration = DeniedNames (fun l => l) Iteration.
Proof.
  apply (denied_names_deterministic (fun l => rev l) (fun l => l) Iteration).
  - intros l. symmetry. apply Permutation_rev.
  - intros l. reflexivity.
Defined.
