(* ===== verification/WorkItems.v ===== *)
(** * The work item store (internal/db/work_item.go, internal/db/execution.go)

    One tenant's rows of [work_items] and [work_item_dependencies]: every
    query of the source is scoped to one tenant, so the tenant is not a column
    here.  A database transaction is a state-passing computation that fails
    with a [db_error]; a failed computation has no final state, which is the
    rollback every caller defers.  [now] is the transaction's [now()], which
    PostgreSQL keeps constant; times are nanoseconds.  Of the columns, those
    no modelled operation reads or writes (texts, budgets, prompt, context
    files, secrets, image) are left out.  [sort_order] is an integer: its only
    writer numbers the siblings 1..N. *)

From S2P Require Import Prelude GoStrings Domain.
From stdpp Require Export sorting.

(** A JSON column: SQL NULL or empty bytes, bytes that do not decode, or the
    decoded value. *)
Inductive jsonb (A : Type) := JNull | JBad | JVal (a : A).
Arguments JNull {A}.
Arguments JBad {A}.
Arguments JVal {A} a.

(** [len(column) > 0]. *)
Definition json_present {A} (j : jsonb A) : bool := match j with JNull => false | _ => true end.

(** The message stored in [recurring_schedule]. *)
Record RecurringSchedule := mkSchedule {
  Frequency : string; Interval : Z; Days : list string;
  StartDate : string; StartTime : string; OutputsMode : string;
  WindowStart : string; WindowEnd : string; Timezone : string }.

Record WorkItemRow := mkItem {
  ID : string;
  ProjectID : string;
  ParentID : option string;
  Kind : string;
  Title : string;
  Status : string;
  AssignedWorkerRef : option string;
  WorkflowID : option string;
  WorkflowRunID : string;
  SortOrder : option Z;
  Results : jsonb (gmap string string);
  ScheduledStartAt : option Z;
  AutoStartWorkflow : bool;
  RecurringScheduleCol : jsonb RecurringSchedule;
  NextRunAt : option Z;
  RecurringEnabled : bool;
  ArchivedAt : option Z;
  ArchivedFromStatus : option string;
  Ephemeral : bool;
  SpawnedBy : option (string * string);   (** the recurring item and the fire's run *)
  SequenceAttempts : Z;
  SequenceLastAttemptAt : option Z;
  SequenceConsecutiveScanErrors : Z;
  SequenceLastProgressAt : option Z;
  Version : Z;
  CreatedAt : Z;
  UpdatedAt : Z }.

Record DependencyRow := mkDep {
  DepID : string; DepProjectID : string; FromID : string; ToID : string; DepType : string;
  DepCreatedAt : Z }.

(** Workflow runs, their step runs and the workers' executions, as far as
    stopping a sequence touches them. *)
Record WorkflowRunRow := mkRun {
  RunStatus : string; RunWorkItemID : string; RunVersion : Z }.

Record StepRunRow := mkStepRun {
  StepRunID : string; StepRunOf : string; StepRunStatus : string; WorkerExecutionID : string }.

(** A workflow: its status and whether its current version has a step. *)
Record WorkflowRow := mkWorkflow { WfStatus : string; WfHasSteps : bool }.

Record DB := mkDB {
  items : gmap string WorkItemRow;
  deps : list DependencyRow;
  runs : gmap string WorkflowRunRow;
  stepRuns : list StepRunRow;
  executions : gmap string string;      (** execution id to execution status *)
  workflows : gmap string WorkflowRow;
  projects : gmap string string;        (** project id to project status *)
  outbox : list (string * string);      (** event type and aggregate id *)
  audit : list (string * string);       (** action and target id *)
  now : Z }.

Inductive db_error :=
| ErrNotFound
| ErrVersionConflict
| ErrInvalid (what : string)   (** a caller's own error value *)
| ErrConstraint                (** a constraint or trigger of the schema *)
| ErrFuel.                     (** the model's recursion bound, see each use *)

(** ** Transactions *)

Definition Tx (A : Type) : Type := DB -> result db_error (A * DB).

#[export] Instance tx_ret : MRet Tx := fun A a db => Ok (a, db).
#[export] Instance tx_bind : MBind Tx :=
  fun A B k m db => match m db with Ok (a, db') => k a db' | Err e => Err e end.

Definition fail {A} (e : db_error) : Tx A := fun _ => Err e.
Definition read : Tx DB := fun db => Ok (db, db).
Definition with_items (db : DB) (m : gmap string WorkItemRow) : DB :=
  mkDB m (deps db) (runs db) (stepRuns db) (executions db) (workflows db) (projects db)
    (outbox db) (audit db) (now db).
Definition with_deps (db : DB) (l : list DependencyRow) : DB :=
  mkDB (items db) l (runs db) (stepRuns db) (executions db) (workflows db) (projects db)
    (outbox db) (audit db) (now db).
Definition with_runs (db : DB) (r : gmap string WorkflowRunRow) (s : list StepRunRow)
    (e : gmap string string) : DB :=
  mkDB (items db) (deps db) r s e (workflows db) (projects db) (outbox db) (audit db) (now db).
Definition with_logs (db : DB) (o a : list (string * string)) : DB :=
  mkDB (items db) (deps db) (runs db) (stepRuns db) (executions db) (workflows db) (projects db)
    o a (now db).

(** [db.EnqueueOutbox] and the audit insert, in the caller's transaction. *)
Definition enqueueEvent (event id : string) : Tx unit :=
  fun db => Ok (tt, with_logs db (outbox db ++ [(event, id)]) (audit db)).
Definition recordAudit (action id : string) : Tx unit :=
  fun db => Ok (tt, with_logs db (outbox db) (audit db ++ [(action, id)])).

(** ** Partial updates *)

Record UpdateWorkItemFields := mkFields {
  fTitle : option string;
  fStatus : option string;
  fAssignedWorkerRef : option string;
  fClearAssignedWorkerRef : bool;
  fKind : option string;
  fProjectID : option string;
  fWorkflowID : option string;
  fParentID : option string;
  fResults : option (gmap string string);
  fWorkflowRunID : option string;
  fScheduledStartAt : option Z;
  fClearScheduledStartAt : bool;
  fAutoStartWorkflow : option bool;
  fSortOrder : option Z;
  fRecurringSchedule : option RecurringSchedule;
  fNextRunAt : option Z;
  fClearRecurringSchedule : bool;
  fRecurringEnabled : option bool }.

Definition no_fields : UpdateWorkItemFields :=
  mkFields None None None false None None None None None None None false None None None None false None.

Definition set_status (s : string) : UpdateWorkItemFields :=
  mkFields None (Some s) None false None None None None None None None false None None None None false None.

(** [column = $n] when the field is present. *)
Definition upd {A} (f : option A) (old : A) : A := option_or old f.

(** An empty string clears a nullable text column. *)
Definition upd_null (f : option string) (old : option string) : option string :=
  match f with
  | None => old
  | Some v => if v == "" then None else Some v
  end.

Definition apply_fields (t : Z) (f : UpdateWorkItemFields) (w : WorkItemRow) : WorkItemRow :=
  mkItem (ID w)
    (upd (fProjectID f) (ProjectID w))
    (upd_null (fParentID f) (ParentID w))
    (upd (fKind f) (Kind w))
    (upd (fTitle f) (Title w))
    (upd (fStatus f) (Status w))
    (if fClearAssignedWorkerRef f then None
     else match fAssignedWorkerRef f with Some r => Some r | None => AssignedWorkerRef w end)
    (upd_null (fWorkflowID f) (WorkflowID w))
    (upd (fWorkflowRunID f) (WorkflowRunID w))
    (match fSortOrder f with Some o => Some o | None => SortOrder w end)
    (match fResults f with Some r => JVal r | None => Results w end)
    (if fClearScheduledStartAt f then None
     else match fScheduledStartAt f with Some v => Some v | None => ScheduledStartAt w end)
    (upd (fAutoStartWorkflow f) (AutoStartWorkflow w))
    (if fClearRecurringSchedule f then JNull
     else match fRecurringSchedule f with Some r => JVal r | None => RecurringScheduleCol w end)
    (if fClearRecurringSchedule f then None
     else match fNextRunAt f with Some v => Some v | None => NextRunAt w end)
    (upd (fRecurringEnabled f) (RecurringEnabled w))
    (ArchivedAt w) (ArchivedFromStatus w) (Ephemeral w) (SpawnedBy w)
    (SequenceAttempts w) (SequenceLastAttemptAt w)
    (SequenceConsecutiveScanErrors w) (SequenceLastProgressAt w)
    (Version w + 1)%Z (CreatedAt w) t.

(** The archive columns and the status, with the version bump. *)
Definition set_archive (t : Z) (status : string) (at_ : option Z) (from_ : option string)
    (w : WorkItemRow) : WorkItemRow :=
  mkItem (ID w) (ProjectID w) (ParentID w) (Kind w) (Title w) status (AssignedWorkerRef w)
    (WorkflowID w) (WorkflowRunID w) (SortOrder w) (Results w) (ScheduledStartAt w)
    (AutoStartWorkflow w) (RecurringScheduleCol w) (NextRunAt w) (RecurringEnabled w) at_ from_
    (Ephemeral w) (SpawnedBy w) (SequenceAttempts w) (SequenceLastAttemptAt w) (SequenceConsecutiveScanErrors w)
    (SequenceLastProgressAt w) (Version w + 1)%Z (CreatedAt w) t.

(** The columns of the sequence engine's heartbeat, with the version bump. *)
Definition set_sequence (t : Z) (status : string) (attempts : Z) (last_attempt : option Z)
    (errors : Z) (progress : option Z) (w : WorkItemRow) : WorkItemRow :=
  mkItem (ID w) (ProjectID w) (ParentID w) (Kind w) (Title w) status (AssignedWorkerRef w)
    (WorkflowID w) (WorkflowRunID w) (SortOrder w) (Results w) (ScheduledStartAt w)
    (AutoStartWorkflow w) (RecurringScheduleCol w) (NextRunAt w) (RecurringEnabled w) (ArchivedAt w)
    (ArchivedFromStatus w) (Ephemeral w) (SpawnedBy w) attempts last_attempt errors progress
    (Version w + 1)%Z (CreatedAt w) t.

(** ** Single-row operations *)

Definition put (w : WorkItemRow) : Tx WorkItemRow :=
  fun db => Ok (w, with_items db (<[ID w := w]> (items db))).

Definition GetWorkItem (id : string) : Tx WorkItemRow :=
  fun db => match items db !! id with
            | Some w => Ok (w, db)
            | None => Err ErrNotFound
            end.

(** The probe [isWorkItemVersionConflict] on the row the UPDATE missed. *)
Definition isWorkItemVersionConflict (db : DB) (id : string) : bool :=
  match items db !! id with
  | Some w => match ArchivedAt w with None => true | Some _ => false end
  | None => false
  end.

Definition UpdateWorkItem (id : string) (expectedVersion : Z) (f : UpdateWorkItemFields)
    : Tx WorkItemRow :=
  fun db =>
    match items db !! id with
    | Some w =>
        if (Version w =? expectedVersion)%Z then put (apply_fields (now db) f w) db
        else Err (if isWorkItemVersionConflict db id then ErrVersionConflict else ErrNotFound)
    | None => Err ErrNotFound
    end.

Definition ParkWorkItem (id : string) : Tx WorkItemRow :=
  fun db =>
    match items db !! id with
    | Some w =>
        match ArchivedAt w with
        | Some _ => Err ErrNotFound
        | None =>
            let status := if json_present (RecurringScheduleCol w) then WorkItemRecurring
                          else WorkItemPending in
            put (apply_fields (now db)
                   (mkFields None (Some status) None false None None None None None (Some "")
                      None true None None None None false None) w) db
        end
    | None => Err ErrNotFound
    end.

Definition ArchiveWorkItem_row (id : string) (expectedVersion : Z) (fromStatus : string)
    : Tx WorkItemRow :=
  fun db =>
    match items db !! id with
    | Some w =>
        if (Version w =? expectedVersion)%Z
        then put (set_archive (now db) WorkItemArchived (Some (now db)) (Some fromStatus) w) db
        else Err (if isWorkItemVersionConflict db id then ErrVersionConflict else ErrNotFound)
    | None => Err ErrNotFound
    end.

Definition RestoreWorkItem_row (id : string) (expectedVersion : Z) (fromStatus : string)
    : Tx WorkItemRow :=
  fun db =>
    match items db !! id with
    | Some w =>
        if (Version w =? expectedVersion)%Z
        then put (set_archive (now db) fromStatus None None w) db
        else Err ErrVersionConflict
    | None => Err ErrNotFound
    end.

Definition HardDeleteWorkItem_row (id : string) : Tx unit :=
  fun db =>
    let db := with_deps db (List.filter (fun d => negb ((FromID d == id) || (ToID d == id))) (deps db)) in
    match items db !! id with
    | Some _ => Ok (tt, with_items db (delete id (items db)))
    | None => Err ErrNotFound
    end.

(** The row the INSERT stores: version 1, recurrence enabled. *)
Definition CreateWorkItem_row (w : WorkItemRow) : Tx WorkItemRow :=
  fun db =>
    match items db !! ID w with
    | Some _ => Err ErrConstraint
    | None =>
        put (mkItem (ID w) (ProjectID w) (ParentID w) (Kind w) (Title w) (Status w)
               (AssignedWorkerRef w) (WorkflowID w) (WorkflowRunID w) None
               (match Results w with JNull => JVal ∅ | r => r end)
               (ScheduledStartAt w) (AutoStartWorkflow w) (RecurringScheduleCol w) (NextRunAt w) true
               None None (Ephemeral w) (SpawnedBy w) 0 None 0 None 1 (now db) (now db)) db
    end.

(** ** Listing *)

(** [ORDER BY sort_order NULLS LAST, created_at, id]. *)
Definition sibling_le (a b : WorkItemRow) : bool :=
  match SortOrder a, SortOrder b with
  | Some x, Some y => if (x <? y)%Z then true else if (y <? x)%Z then false
                      else if (CreatedAt a <? CreatedAt b)%Z then true
                      else if (CreatedAt b <? CreatedAt a)%Z then false
                      else String.leb (ID a) (ID b)
  | Some _, None => true
  | None, Some _ => false
  | None, None => if (CreatedAt a <? CreatedAt b)%Z then true
                  else if (CreatedAt b <? CreatedAt a)%Z then false
                  else String.leb (ID a) (ID b)
  end.

Definition sibling_order (a b : WorkItemRow) : Prop := sibling_le a b = true.
Definition oldest_update_first (a b : WorkItemRow) : Prop := (UpdatedAt a <= UpdatedAt b)%Z.

#[export] Instance sibling_order_dec : RelDecision sibling_order := fun a b => bool_eq_dec _ _.
#[export] Instance oldest_update_first_dec : RelDecision oldest_update_first := fun a b => Z_le_dec _ _.

Definition rows (db : DB) : list WorkItemRow := map snd (map_to_list (items db)).

Definition is_archived (w : WorkItemRow) : bool :=
  match ArchivedAt w with None => false | Some _ => true end.

Definition has_parent (pid : string) (w : WorkItemRow) : bool :=
  match ParentID w with Some p => p == pid | None => false end.

Definition ListDirectChildren (db : DB) (parentID : string) : list WorkItemRow :=
  merge_sort sibling_order
    (List.filter (fun w => has_parent parentID w && negb (is_archived w)) (rows db)).

Definition children (parentID : string) : Tx (list WorkItemRow) :=
  fun db => Ok (ListDirectChildren db parentID, db).

Definition ListSiblingsForReorder (db : DB) (projectID parentID : string) : list WorkItemRow :=
  merge_sort sibling_order
    (List.filter (fun w => (ProjectID w == projectID)
        && (if parentID == "" then match ParentID w with None => true | Some _ => false end
            else has_parent parentID w)
        && negb (is_archived w) && negb (Ephemeral w)) (rows db)).

Definition ListSequenceActiveParents (db : DB) : list WorkItemRow :=
  firstn 100 (merge_sort oldest_update_first
    (List.filter (fun w => ((Status w == WorkItemRunning) || (Status w == WorkItemFailed))
        && (WorkflowRunID w == "")
        && existsb (has_parent (ID w)) (rows db)) (rows db))).

(** ** Dependency edges *)

(** [type IN ('blocks', 'depends_on')]. *)
Definition dag_edge (d : DependencyRow) : bool :=
  (DepType d == DependencyBlocks) || (DepType d == DependencyDependsOn).

(** The unique index on (from_id, to_id, type). *)
Definition same_edge (a b : DependencyRow) : bool :=
  (FromID a == FromID b) && (ToID a == ToID b) && (DepType a == DepType b).

Definition CreateDependency (d : DependencyRow) : Tx DependencyRow :=
  fun db =>
    if existsb (same_edge d) (deps db) then Err ErrConstraint
    else
      let row := mkDep (DepID d) (DepProjectID d) (FromID d) (ToID d) (DepType d) (now db) in
      Ok (row, with_deps db (deps db ++ [row])).

Definition DeleteDependency (id : string) : Tx unit :=
  fun db =>
    if existsb (fun d => DepID d == id) (deps db)
    then Ok (tt, with_deps db (List.filter (fun d => negb (DepID d == id)) (deps db)))
    else Err ErrNotFound.

Definition ListDependenciesForItems (db : DB) (fromIDs : list string) (depType : string)
    : list DependencyRow :=
  List.filter (fun d => existsb (String.eqb (FromID d)) fromIDs && (DepType d == depType)) (deps db).

Definition ListDependenciesTargetingItems (db : DB) (toIDs depTypes : list string)
    : list DependencyRow :=
  List.filter (fun d => existsb (String.eqb (ToID d)) toIDs && existsb (String.eqb (DepType d)) depTypes)
    (deps db).

Definition DeleteOutgoingDependencies (fromID depType : string) : Tx unit :=
  fun db => Ok (tt, with_deps db
    (List.filter (fun d => negb ((FromID d == fromID) && (DepType d == depType))) (deps db))).

Definition ItemParticipatesInDependency (db : DB) (itemID : string) : bool :=
  existsb (fun d => (FromID d == itemID) || (ToID d == itemID)) (deps db).

(** The source of an edge keeps its target waiting: the join drops an edge
    whose source row is gone. *)
Definition blocking (db : DB) (d : DependencyRow) : bool :=
  match items db !! FromID d with
  | Some w => negb (WorkItemIsTerminalSuccess (Status w))
  | None => false
  end.

Definition CheckDependenciesSatisfied (db : DB) (workItemID : string) : bool :=
  negb (existsb (fun d => (ToID d == workItemID) && dag_edge d) (deps db))
  || negb (existsb (blocking db) (List.filter (fun d => (ToID d == workItemID) && dag_edge d) (deps db))).

(** The (dependent, blocker) pairs; the blocker's id stands for its row. *)
Definition ListUnsatisfiedDependencies (db : DB) (toIDs : list string) : list (string * string) :=
  map (fun d => (ToID d, FromID d))
    (List.filter (fun d => existsb (String.eqb (ToID d)) toIDs && dag_edge d && blocking db d) (deps db)).

(** The recursive query of [CheckCycleWithRecursiveCTE]: the set [reach] grows
    by one level per round of [UNION] until no round adds a node; [S] of the
    number of edges bounds the rounds. *)
Definition successors (db : DB) (projectID : string) (nodes : gset string) : gset string :=
  list_to_set (map ToID (List.filter (fun d => (DepProjectID d == projectID) && dag_edge d
                                               && bool_decide (FromID d ∈ nodes)) (deps db))).

Fixpoint reach_rounds (fuel : nat) (db : DB) (projectID : string) (reach : gset string) : gset string :=
  match fuel with
  | O => reach
  | S fuel =>
      let next := reach ∪ successors db projectID reach in
      if decide (next = reach) then reach else reach_rounds fuel db projectID next
  end.

Definition CheckCycleWithRecursiveCTE (db : DB) (projectID fromID toID : string) : bool :=
  bool_decide (fromID ∈ reach_rounds (S (length (deps db))) db projectID (successors db projectID {[toID]})).

(** ** Lemmas *)

(** Rows are stored under their primary key. *)
Definition keyed (db : DB) : Prop := forall id w, items db !! id = Some w -> ID w = id.

Lemma put_items w db : put w db = Ok (w, with_items db (<[ID w := w]> (items db))).
Proof. done. Qed.

Lemma GetWorkItem_ok id db w db' :
  GetWorkItem id db = Ok (w, db') <-> items db !! id = Some w /\ db' = db.
Proof.
  unfold GetWorkItem. destruct (items db !! id); split; try done.
  - by intros [= -> ->].
  - by intros [[= ->] ->].
  - by intros [? _].
Qed.

Lemma UpdateWorkItem_hit id f db w :
  items db !! id = Some w ->
  UpdateWorkItem id (Version w) f db
  = Ok (apply_fields (now db) f w,
        with_items db (<[ID w := apply_fields (now db) f w]> (items db))).
Proof. intros H. unfold UpdateWorkItem. by rewrite H, Z.eqb_refl. Qed.

Lemma UpdateWorkItem_ok id v f db w' db' :
  UpdateWorkItem id v f db = Ok (w', db') <->
  exists w, items db !! id = Some w /\ Version w = v /\ w' = apply_fields (now db) f w
    /\ db' = with_items db (<[ID w := w']> (items db)).
Proof.
  unfold UpdateWorkItem. destruct (items db !! id) as [w|]; [|split; [done | by intros (? & ? & _)]].
  destruct (Version w =? v)%Z eqn:E; breflect.
  - split.
    + intros [= <- <-]. by exists w.
    + intros (w0 & [= <-] & _ & -> & ->). done.
  - split; [by destruct (isWorkItemVersionConflict db id)|]. by intros (w0 & [= <-] & ? & _).
Qed.

Lemma tx_bind_ok {A B} (m : Tx A) (k : A -> Tx B) db b db' :
  (m ≫= k) db = Ok (b, db') <-> exists a db1, m db = Ok (a, db1) /\ k a db1 = Ok (b, db').
Proof.
  unfold mbind, tx_bind. destruct (m db) as [[a db1]|e]; split.
  - eauto.
  - by intros (? & ? & [= <- <-] & ?).
  - done.
  - by intros (? & ? & ? & _).
Qed.

Lemma rows_spec db w : In w (rows db) <-> exists id, items db !! id = Some w.
Proof.
  unfold rows. rewrite in_map_iff. split.
  - intros ((id & w') & <- & Hin%list_elem_of_In%elem_of_map_to_list). by exists id.
  - intros (id & Hid). exists (id, w). split; [done|].
    by apply list_elem_of_In, elem_of_map_to_list.
Qed.

Lemma has_parent_spec pid w : has_parent pid w = true <-> ParentID w = Some pid.
Proof.
  unfold has_parent. destruct (ParentID w); [|done]. rewrite String.eqb_eq. split; congruence.
Qed.

Lemma is_archived_false w : is_archived w = false <-> ArchivedAt w = None.
Proof. unfold is_archived. by destruct (ArchivedAt w). Qed.

Lemma in_merge_sort {A} (R : relation A) `{!RelDecision R} l x : In x (merge_sort R l) <-> In x l.
Proof. by rewrite <- !list_elem_of_In, merge_sort_Permutation. Qed.

Lemma ListDirectChildren_spec db pid w :
  In w (ListDirectChildren db pid) <->
  (exists id, items db !! id = Some w) /\ ParentID w = Some pid /\ ArchivedAt w = None.
Proof.
  unfold ListDirectChildren. rewrite in_merge_sort, List.filter_In, rows_spec, andb_true_iff.
  by rewrite has_parent_spec, negb_true_iff, is_archived_false.
Qed.

Lemma NoDup_rows_ids db : keyed db -> NoDup (map ID (rows db)).
Proof.
  intros Hk. unfold rows. rewrite map_map.
  rewrite (map_ext_in _ fst); [apply NoDup_fst_map_to_list|].
  intros [id w] Hin%list_elem_of_In%elem_of_map_to_list. simpl. by apply Hk.
Qed.

Lemma NoDup_map_filter {A B} (f : A -> B) (p : A -> bool) l :
  NoDup (map f l) -> NoDup (map f (List.filter p l)).
Proof.
  induction l as [|a l IH]; simpl; [done|]. rewrite NoDup_cons. intros [Hn Hd].
  destruct (p a); simpl; [|auto]. apply NoDup_cons. split; [|auto].
  rewrite !list_elem_of_In, !in_map_iff in *. intros (x & Hx & Hin%List.filter_In). apply Hn.
  exists x. tauto.
Qed.

Lemma NoDup_children_ids db pid : keyed db -> NoDup (map ID (ListDirectChildren db pid)).
Proof.
  intros Hk. unfold ListDirectChildren.
  assert (Hp : Permutation
    (map ID (merge_sort sibling_order
       (List.filter (fun w => has_parent pid w && negb (is_archived w)) (rows db))))
    (map ID (List.filter (fun w => has_parent pid w && negb (is_archived w)) (rows db))))
    by (apply Permutation_map, merge_sort_Permutation).
  rewrite Hp. by apply NoDup_map_filter, NoDup_rows_ids.
Qed.

Lemma keyed_insert db w : keyed db -> keyed (with_items db (<[ID w := w]> (items db))).
Proof.
  intros Hk id v. simpl. rewrite lookup_insert_Some. intros [[<- ->] | [_ H]]; [done | by apply Hk].
Qed.

Lemma apply_fields_ID t f w : ID (apply_fields t f w) = ID w.
Proof. done. Qed.

Lemma UpdateWorkItem_keyed id v f db w' db' :
  keyed db -> UpdateWorkItem id v f db = Ok (w', db') -> keyed db'.
Proof.
  intros Hk (w & Hw & _ & -> & ->)%UpdateWorkItem_ok.
  rewrite <- (apply_fields_ID (now db) f w). by apply keyed_insert.
Qed.

#[export] Hint Resolve UpdateWorkItem_keyed keyed_insert : orch.
#[export] Hint Rewrite @tx_bind_ok GetWorkItem_ok UpdateWorkItem_ok ListDirectChildren_spec : orch_rw.

(** *** The sibling order is total and transitive, so a listing is sorted. *)

Lemma leb_trans a b c : String.leb a b = true -> String.leb b c = true -> String.leb a c = true.
Proof.
  intros H1 H2. apply Is_true_true. apply (transitivity (R := String.le) (y := b));
    by apply Is_true_true.
Qed.

(** Break a lexicographic test into its comparisons. *)
Ltac lex_cases :=
  repeat (match goal with
          | H : context [if (?x <? ?y)%Z then _ else _] |- _ => destruct (x <? y)%Z eqn:?
          | |- context [if (?x <? ?y)%Z then _ else _] => destruct (x <? y)%Z eqn:?
          end; try discriminate);
  breflect; try lia; try done.

#[export] Instance sibling_order_total : Total sibling_order.
Proof.
  intros a b. unfold sibling_order, sibling_le.
  assert (Hi : String.leb (ID a) (ID b) = true \/ String.leb (ID b) (ID a) = true).
  { destruct (String.leb_total (ID a) (ID b)); auto. }
  destruct (SortOrder a), (SortOrder b); auto; lex_cases; auto.
Qed.

#[export] Instance sibling_order_trans : Transitive sibling_order.
Proof.
  intros a b c. unfold sibling_order, sibling_le.
  destruct (SortOrder a), (SortOrder b), (SortOrder c); try done; intros H1 H2;
    lex_cases; by eapply leb_trans.
Qed.

Lemma ListDirectChildren_sorted db pid : StronglySorted sibling_order (ListDirectChildren db pid).
Proof. apply StronglySorted_merge_sort; apply _. Qed.

(** *** The dispatch gate and the read-time list of blockers agree. *)

Lemma CheckDependenciesSatisfied_spec db id :
  CheckDependenciesSatisfied db id = true <->
  forall d w, In d (deps db) -> ToID d = id -> dag_edge d = true ->
    items db !! FromID d = Some w -> WorkItemIsTerminalSuccess (Status w) = true.
Proof.
  unfold CheckDependenciesSatisfied. rewrite orb_true_iff, !negb_true_iff, !existsb_false_forall.
  split.
  - intros H d w Hin Ht Hd Hw. destruct H as [H | H].
    + specialize (H d Hin). by rewrite Hd, Ht, String.eqb_refl in H.
    + assert (Hb : blocking db d = false).
      { apply H, List.filter_In. by rewrite Hd, Ht, String.eqb_refl. }
      unfold blocking in Hb. rewrite Hw in Hb. by apply negb_false_iff.
  - intros H. right. intros d [Hin [Ht Hd]%andb_true_iff]%List.filter_In.
    apply String.eqb_eq in Ht. unfold blocking.
    destruct (items db !! FromID d) as [w|] eqn:Hw; [|done]. by rewrite (H d w).
Qed.

(** the blockers the API names for an item and the gate the engine applies
    to it can never disagree: the list of unsatisfied incoming edges is empty
    exactly when the dispatch gate is open, for every state of the store. *)
Theorem gate_agrees_with_blockers (db : DB) (id : string) :
  ListUnsatisfiedDependencies db [id] = [] <-> CheckDependenciesSatisfied db id = true.
Proof.
  rewrite CheckDependenciesSatisfied_spec. unfold ListUnsatisfiedDependencies.
  split.
  - intros H%map_eq_nil d w Hin Ht Hd Hw. apply not_false_iff_true. intros Hs.
    assert (Hf : In d (List.filter (fun d => existsb (String.eqb (ToID d)) [id] && dag_edge d
                                       && blocking db d) (deps db))).
    { apply List.filter_In. simpl. unfold blocking. by rewrite Hd, Hw, Hs, Ht, String.eqb_refl. }
    by rewrite H in Hf.
  - intros H. destruct (List.filter _ _) as [|d l] eqn:E; [done|].
    assert (Hin : In d (d :: l)) by by left. rewrite <- E in Hin.
    apply List.filter_In in Hin as [Hin Hb]. simpl in Hb. rewrite orb_false_r in Hb.
    apply andb_true_iff in Hb as [[Ht Hd]%andb_true_iff Hb]. apply String.eqb_eq in Ht.
    unfold blocking in Hb. destruct (items db !! FromID d) as [w|] eqn:Hw; [|done].
    by rewrite (H d w) in Hb.
Qed.

(** ** Sample rows, for the concrete instances of the theorems *)

Definition sample (id kind status : string) (parent : option string) (order : Z) : WorkItemRow :=
  mkItem id "p" parent kind id status None (Some "wf") "" (Some order) JNull None false JNull None true
    None None false None 0 None 0 None 1 0 0.

Definition sample_db (l : list WorkItemRow) (d : list DependencyRow) : DB :=
  mkDB (list_to_map (map (fun w => (ID w, w)) l)) d ∅ [] ∅ {["wf" := mkWorkflow WorkflowPublished true]}
    {["p" := "active"]} [] [] 1000.
