(* ===== verification/Dependencies.v ===== *)
(** * The dependency DAG (internal/workitem/service.go, internal/db/work_item.go)

    Admission of edges, set-replacement of an item's outgoing edges, and the
    proof that the recursive query decides reachability, so that the handlers
    keep the graph of every project acyclic without help from the database
    trigger (which is not modelled). *)

From S2P Require Import Prelude GoStrings Domain WorkItems.
From stdpp Require Import relations.

(** The protobuf enumeration of the request. *)
Inductive DependencyTypeProto :=
| DEPENDENCY_TYPE_UNSPECIFIED | DEPENDENCY_TYPE_BLOCKS | DEPENDENCY_TYPE_DEPENDS_ON
| DEPENDENCY_TYPE_RELATES_TO.

Definition validateDependencyType (t : DependencyTypeProto) : option string :=
  match t with
  | DEPENDENCY_TYPE_BLOCKS => Some DependencyBlocks
  | DEPENDENCY_TYPE_DEPENDS_ON => Some DependencyDependsOn
  | DEPENDENCY_TYPE_RELATES_TO => Some DependencyRelatesTo
  | DEPENDENCY_TYPE_UNSPECIFIED => None
  end.

(** An early return. *)
Definition guard_tx (b : bool) (e : db_error) : Tx unit := if b then fail e else mret tt.

Definition GetDependency (id : string) : Tx DependencyRow :=
  fun db => match List.find (fun d => DepID d == id) (deps db) with
            | Some d => Ok (d, db)
            | None => Err ErrNotFound
            end.

(** [newID] is the value [db.NewID()] returns. *)
Definition AddDependency (newID projectId fromId toId : string) (type : DependencyTypeProto)
    : Tx DependencyRow :=
  guard_tx (projectId == "") (ErrInvalid "project_id");;
  guard_tx (fromId == "") (ErrInvalid "from_id");;
  guard_tx (toId == "") (ErrInvalid "to_id");;
  guard_tx (fromId == toId) (ErrInvalid "self-dependency");;
  match validateDependencyType type with
  | None => fail (ErrInvalid "type")
  | Some depType =>
      fromItem ← GetWorkItem fromId;
      guard_tx (negb (ProjectID fromItem == projectId)) (ErrInvalid "from_id project");;
      toItem ← GetWorkItem toId;
      guard_tx (negb (ProjectID toItem == projectId)) (ErrInvalid "to_id project");;
      db ← read;
      guard_tx (negb (depType == DependencyRelatesTo)
                && CheckCycleWithRecursiveCTE db projectId fromId toId) (ErrInvalid "cycle");;
      created ← CreateDependency (mkDep newID projectId fromId toId depType 0);
      enqueueEvent "work_item.dependency_added" (DepID created);;
      recordAudit "work_item.dependency_added" (FromID created);;
      mret created
  end.

Definition RemoveDependency (id : string) : Tx unit :=
  guard_tx (id == "") (ErrInvalid "id");;
  current ← GetDependency id;
  DeleteDependency id;;
  recordAudit "work_item.dependency_removed" (FromID current).

(** [seen] is the set of the ids already listed. *)
Fixpoint validateDependsOn (projectID itemID : string) (seen : list string) (depIDs : list string)
    : Tx (list string) :=
  match depIDs with
  | [] => mret []
  | id :: rest =>
      let id := TrimSpace id in
      guard_tx (id == "") (ErrInvalid "blank");;
      guard_tx (id == itemID) (ErrInvalid "self-dependency");;
      if existsb (String.eqb id) seen then validateDependsOn projectID itemID seen rest
      else
        item ← GetWorkItem id;
        guard_tx (negb (ProjectID item == projectID)) (ErrInvalid "project");;
        out ← validateDependsOn projectID itemID (id :: seen) rest;
        mret (id :: out)
  end.

(** One iteration of the insertion loop of [replaceDependsOn]. *)
Definition insert_edge (newID : string -> string) (projectID itemID : string) (had : list string)
    (depID : string) : Tx unit :=
  db ← read;
  guard_tx (CheckCycleWithRecursiveCTE db projectID itemID depID) (ErrInvalid "cycle");;
  created ← CreateDependency (mkDep (newID depID) projectID itemID depID DependencyDependsOn 0);
  if existsb (String.eqb depID) had then mret tt
  else
    enqueueEvent "work_item.dependency_added" (DepID created);;
    recordAudit "work_item.dependency_added" (FromID created).

Fixpoint each {A} (f : A -> Tx unit) (l : list A) : Tx unit :=
  match l with
  | [] => mret tt
  | a :: rest => f a;; each f rest
  end.

Definition note_removed (d : DependencyRow) : Tx unit :=
  recordAudit "work_item.dependency_removed" (FromID d);;
  enqueueEvent "work_item.dependency_removed" (DepID d).

(** [newID] gives the fresh id of the edge to each target. *)
Definition replaceDependsOn (newID : string -> string) (projectID itemID : string)
    (depIDs : list string) : Tx unit :=
  db ← read;
  let current := ListDependenciesForItems db [itemID] DependencyDependsOn in
  desired ← validateDependsOn projectID itemID [] depIDs;
  DeleteOutgoingDependencies itemID DependencyDependsOn;;
  let had := map ToID current in
  let removed := List.filter (fun d => negb (existsb (String.eqb (ToID d)) desired)) current in
  each (insert_edge newID projectID itemID had) desired;;
  each note_removed removed.

(** ** The order the edges stand for *)

Definition edge (db : DB) (projectID a b : string) : Prop :=
  exists d, In d (deps db) /\ DepProjectID d = projectID /\ dag_edge d = true
    /\ FromID d = a /\ ToID d = b.

Definition acyclic (db : DB) : Prop := forall projectID a, ~ tc (edge db projectID) a a.

(** ** The recursive query decides reachability *)

Section reach.
Context (db : DB) (projectID : string).
Let E := edge db projectID.

Lemma successors_spec nodes b :
  b ∈ successors db projectID nodes <-> exists a, a ∈ nodes /\ E a b.
Proof.
  unfold successors. rewrite elem_of_list_to_set, list_elem_of_In, in_map_iff. split.
  - intros (d & <- & Hin). apply List.filter_In in Hin as [Hin H]. breflect.
    exists (FromID d). split; [done|]. by exists d.
  - intros (a & Ha & d & Hin & Hp & Hd & <- & <-). exists d. split; [done|].
    apply List.filter_In. split; [done|].
    rewrite Hd, Hp, String.eqb_refl. by apply bool_decide_eq_true.
Qed.

Definition targets : gset string := list_to_set (map ToID (deps db)).

Lemma successors_targets nodes : successors db projectID nodes ⊆ targets.
Proof.
  intros b (a & _ & d & Hin & _ & _ & _ & <-)%successors_spec.
  apply elem_of_list_to_set, list_elem_of_In. by apply in_map.
Qed.

Lemma size_list_le (l : list string) : size (list_to_set l : gset string) <= length l.
Proof.
  induction l as [|x l IH]; [by rewrite list_to_set_nil, size_empty|].
  rewrite list_to_set_cons. simpl.
  rewrite size_union_alt, size_singleton.
  assert (size ((list_to_set l : gset string) ∖ {[x]}) <= size (list_to_set l : gset string))
    by (apply subseteq_size; set_solver). lia.
Qed.

Lemma targets_size : size targets <= length (deps db).
Proof. unfold targets. rewrite <- (length_map ToID (deps db)). apply size_list_le. Qed.

(** Enough rounds: the result is closed under edges. *)
Lemma reach_rounds_closed fuel reach :
  reach ⊆ targets -> size targets - size reach < fuel ->
  successors db projectID (reach_rounds fuel db projectID reach) ⊆ reach_rounds fuel db projectID reach
  /\ reach ⊆ reach_rounds fuel db projectID reach.
Proof.
  revert reach. induction fuel as [|fuel IH]; intros reach Hsub Hf; [lia|].
  cbn [reach_rounds]. destruct (decide _) as [Heq | Hne].
  - split; [set_solver | done].
  - set (next := reach ∪ successors db projectID reach) in *.
    assert (Hn : next ⊆ targets) by (pose proof (successors_targets reach); set_solver).
    assert (Hsz : size reach < size next) by (apply subset_size; set_solver).
    pose proof (subseteq_size _ _ Hn).
    destruct (IH next Hn ltac:(lia)) as [H1 H2]. split; [done | set_solver].
Qed.

Lemma reach_rounds_sound fuel reach (P : string -> Prop) :
  (forall a, a ∈ reach -> P a) -> (forall a b, P a -> E a b -> P b) ->
  forall a, a ∈ reach_rounds fuel db projectID reach -> P a.
Proof.
  revert reach. induction fuel as [|fuel IH]; intros reach Hr Hs; cbn [reach_rounds]; [done|].
  destruct (decide _); [done|]. apply IH; [|done].
  intros a [Ha | (x & Hx & He)%successors_spec]%elem_of_union; eauto.
Qed.

Lemma CheckCycle_spec fromID toID :
  CheckCycleWithRecursiveCTE db projectID fromID toID = true <-> tc E toID fromID.
Proof.
  unfold CheckCycleWithRecursiveCTE. rewrite bool_decide_eq_true. split.
  - apply reach_rounds_sound.
    + intros a (x & ->%elem_of_singleton & He)%successors_spec. by apply tc_once.
    + intros a b Ha He. by eapply tc_r.
  - intros H.
    destruct (reach_rounds_closed (S (length (deps db))) (successors db projectID {[toID]}))
      as [Hc Hi]; [apply successors_targets | pose proof targets_size; lia |].
    revert H Hi Hc. generalize (reach_rounds (S (length (deps db))) db projectID
      (successors db projectID {[toID]})). intros R Htc Hi Hc.
    apply (tc_ind_r (fun b => b ∈ R) toID) in Htc; [done | |].
    + intros b He. apply Hi, successors_spec. exists toID. split; [by apply elem_of_singleton | done].
    + intros b c _ He Hb. apply Hc, successors_spec. eauto.
Qed.
End reach.

(** ** Acyclicity is preserved *)

Lemma tc_add (E : relation string) f t a b :
  tc (fun x y => E x y \/ (x = f /\ y = t)) a b -> tc E a b \/ (rtc E a f /\ rtc E t b).
Proof.
  induction 1 as [x y [He | [-> ->]] | x y z [He | [-> ->]] _ IH].
  - left. by apply tc_once.
  - right. by split.
  - destruct IH as [IH | [IH1 IH2]]; [left; by eapply tc_l | right].
    split; [by eapply rtc_l | done].
  - right. split; [done|]. destruct IH as [IH | [_ IH]]; [by apply tc_rtc | done].
Qed.

Lemma tc_mono (R R' : relation string) a b :
  (forall x y, R x y -> R' x y) -> tc R a b -> tc R' a b.
Proof. intros Hs. induction 1; [by apply tc_once, Hs | eapply tc_l; [by apply Hs | done]]. Qed.

Lemma acyclic_subset db db' :
  (forall p a b, edge db' p a b -> edge db p a b) -> acyclic db -> acyclic db'.
Proof.
  intros Hsub Hac p a Htc. apply (Hac p a). revert Htc. apply tc_mono, Hsub.
Qed.

Lemma acyclic_add db db' p f t :
  (forall q a b, edge db' q a b -> edge db q a b \/ (q = p /\ a = f /\ b = t)) ->
  f <> t -> ~ tc (edge db p) t f -> acyclic db -> acyclic db'.
Proof.
  intros Hadd Hne Hn Hac q a Htc.
  destruct (decide (q = p)) as [-> | Hq].
  - assert (H : tc (fun x y => edge db p x y \/ (x = f /\ y = t)) a a).
    { revert Htc. apply tc_mono. intros x y H. apply Hadd in H. tauto. }
    apply tc_add in H as [H | [H1 H2]]; [by apply (Hac p a)|].
    assert (Htf : rtc (edge db p) t f) by by etrans.
    apply rtc_tc in Htf as [-> | Htf]; done.
  - apply (Hac q a). revert Htc. apply tc_mono. intros x y H.
    apply Hadd in H. tauto.
Qed.

Lemma guard_tx_ok b e db x db' : guard_tx b e db = Ok (x, db') <-> b = false /\ db' = db.
Proof.
  destruct x. unfold guard_tx. destruct b; split; try done; [by intros [? _] | by intros [= ->] | by intros [_ ->]].
Qed.

Lemma CreateDependency_ok d db row db' :
  CreateDependency d db = Ok (row, db') <->
  existsb (same_edge d) (deps db) = false
  /\ row = mkDep (DepID d) (DepProjectID d) (FromID d) (ToID d) (DepType d) (now db)
  /\ db' = with_deps db (deps db ++ [row]).
Proof.
  unfold CreateDependency. destruct (existsb _ _); split; try done.
  - by intros [? _].
  - by intros [= <- <-].
  - by intros (_ & -> & ->).
Qed.

(** Unpack a successful transaction into its steps. *)
Ltac tx_inv H :=
  let a := fresh "a" in let s := fresh "s" in let H1 := fresh "Hm" in let H2 := fresh "Hk" in
  lazymatch type of H with
  | (_ ≫= _) _ = Ok _ =>
      apply tx_bind_ok in H as (a & s & H1 & H2); tx_inv H1; tx_inv H2
  | guard_tx _ _ _ = Ok _ =>
      apply guard_tx_ok in H as [H1 H2]; try subst
  | GetWorkItem _ _ = Ok _ => apply GetWorkItem_ok in H as [H1 H2]; try subst
  | read _ = Ok _ => injection H as <- <-
  | mret _ _ = Ok _ => injection H as <- <-
  | enqueueEvent _ _ _ = Ok _ => injection H as <- <-
  | recordAudit _ _ _ = Ok _ => injection H as <- <-
  | CreateDependency _ _ = Ok _ => apply CreateDependency_ok in H as (H1 & H2 & ->)
  | _ => idtac
  end.

(** The new edge is the only one a creation adds. *)
Lemma edge_snoc db db' row :
  deps db' = deps db ++ [row] -> forall p a b,
  edge db' p a b <->
  edge db p a b \/ (dag_edge row = true /\ p = DepProjectID row /\ a = FromID row /\ b = ToID row).
Proof.
  intros Hd p a b. unfold edge. rewrite Hd. split.
  - intros (d & Hin & Hp & Hdag & Ha & Hb). apply in_app_iff in Hin as [Hin | [<- | []]].
    + left. by exists d.
    + by right.
  - intros [(d & Hin & H) | (Hdag & -> & -> & ->)].
    + exists d. split; [apply in_app_iff; by left | done].
    + exists row. split; [apply in_app_iff; right; by left | done].
Qed.

Lemma validateDependencyType_dag t depType :
  validateDependencyType t = Some depType ->
  (depType == DependencyRelatesTo) = negb ((depType == DependencyBlocks) || (depType == DependencyDependsOn)).
Proof. destruct t; intros [= <-]; done. Qed.

Lemma AddDependency_inv newID p f t ty db row db' :
  AddDependency newID p f t ty db = Ok (row, db') ->
  exists depType, validateDependencyType ty = Some depType /\ f <> t
    /\ row = mkDep newID p f t depType (now db) /\ deps db' = deps db ++ [row]
    /\ items db' = items db
    /\ (dag_edge row = true -> ~ tc (edge db p) t f).
Proof.
  unfold AddDependency. intros H. tx_inv H. breflect.
  destruct (validateDependencyType ty) as [depType|] eqn:Ety; [|done].
  match goal with H : _ = Ok (row, db') |- _ => rename H into HH end. tx_inv HH.
  exists depType. cbn in *. simplify_eq/=. split_and!; try done.
  intros Hdag Htc. apply CheckCycle_spec in Htc.
  match goal with H : negb _ && _ = false |- _ => rewrite Htc, andb_true_r in H; rename H into Hc end.
  rewrite (validateDependencyType_dag _ _ Ety), negb_involutive in Hc.
  unfold dag_edge in Hdag. simpl in Hdag. by rewrite Hdag in Hc.
Qed.

Lemma AddDependency_acyclic newID p f t ty db row db' :
  acyclic db -> AddDependency newID p f t ty db = Ok (row, db') -> acyclic db'.
Proof.
  intros Hac (depType & _ & Hne & Hrow & Hd & _ & Hc)%AddDependency_inv.
  destruct (dag_edge row) eqn:Edag.
  - apply (acyclic_add db db' p f t); [|done|auto|done].
    intros q a b He. apply (edge_snoc db db' row Hd) in He. subst row. simpl in He. tauto.
  - apply (acyclic_subset db); [|done].
    intros q a b He. apply (edge_snoc db db' row Hd) in He as [He | [He _]]; congruence.
Qed.

(** ** Set replacement *)

(** What one insertion does to a graph: one edge from [item] to [dep], and only
    if no path leads back. *)
Lemma insert_edge_inv newID p item had dep db x db' :
  insert_edge newID p item had dep db = Ok (x, db') ->
  exists row, deps db' = deps db ++ [row] /\ items db' = items db /\ now db' = now db
    /\ DepProjectID row = p /\ FromID row = item /\ ToID row = dep /\ DepType row = DependencyDependsOn
    /\ ~ tc (edge db p) dep item.
Proof.
  unfold insert_edge. intros H. tx_inv H.
  match goal with H : (if ?b then _ else _) _ = Ok _ |- _ => rename H into HH; destruct b end.
  all: tx_inv HH; simplify_eq/=.
  all: exists (mkDep (newID dep) p item dep DependencyDependsOn (now db)).
  all: split_and!; try reflexivity; intros Htc%CheckCycle_spec; congruence.
Qed.

Lemma each_insert_acyclic newID p item had l db x db' :
  acyclic db -> Forall (fun dep => dep <> item) l ->
  each (insert_edge newID p item had) l db = Ok (x, db') ->
  acyclic db' /\ items db' = items db
  /\ exists new, deps db' = deps db ++ new /\ map ToID new = l
     /\ Forall (fun d => FromID d = item /\ DepType d = DependencyDependsOn /\ DepProjectID d = p) new.
Proof.
  revert db. induction l as [|dep l IH]; intros db Hac Hl H; simpl in H.
  - injection H as <- <-. split_and!; [done .. |]. exists []. by rewrite app_nil_r.
  - apply Forall_cons in Hl as [Hne Hl]. apply tx_bind_ok in H as (u & db1 & H1 & H2).
    apply insert_edge_inv in H1 as (row & Hd & Hi & _ & Hp & Hf & Ht & Hty & Hc).
    assert (Hac1 : acyclic db1).
    { apply (acyclic_add db db1 p item dep); [|done|done|done].
      intros q a b He. apply (edge_snoc db db1 row Hd) in He. rewrite Hp, Hf, Ht in He. tauto. }
    destruct (IH db1 Hac1 Hl H2) as (Hac' & Hi' & new & Hd' & Hm & Hall).
    split_and!; [done | by rewrite Hi', Hi |]. exists (row :: new).
    rewrite Hd', Hd, <- app_assoc, <- Hm, <- Ht. by split_and!; [| | constructor].
Qed.

Lemma each_note_deps l db x db' :
  each note_removed l db = Ok (x, db') -> deps db' = deps db /\ items db' = items db.
Proof.
  revert db. induction l as [|d l IH]; intros db H; simpl in H; [by injection H as <- <-|].
  apply tx_bind_ok in H as (u & db1 & H1 & H2). apply IH in H2 as [-> ->].
  unfold note_removed in H1. tx_inv H1. done.
Qed.

Lemma validateDependsOn_inv p item seen l db out db' :
  validateDependsOn p item seen l db = Ok (out, db') ->
  db' = db /\ Forall (fun dep => dep <> item) out
  /\ (forall x, In x out <-> In x (map TrimSpace l) /\ ~ In x seen).
Proof.
  revert seen out. induction l as [|id l IH]; intros seen out H; simpl in H.
  - injection H as <- <-. split_and!; [done | constructor | tauto].
  - tx_inv H.
    match goal with H : (if ?b then _ else _) _ = Ok _ |- _ => rename H into HH; destruct b eqn:Es end.
    + apply existsb_exists in Es as (y & Hy & <-%String.eqb_eq).
      apply IH in HH as (-> & Hf & Hin). split_and!; [done | done |].
      intros x. rewrite Hin. simpl. split; [tauto|]. intros [[<- | Hx] Hn]; [by destruct Hn | tauto].
    + tx_inv HH.
      match goal with H : validateDependsOn _ _ _ _ _ = Ok _ |- _ => apply IH in H as (-> & Hf & Hin) end.
      breflect. rewrite existsb_false_forall in Es.
      split_and!; [done | by constructor |].
      intros x. simpl. rewrite Hin. simpl. split.
      * intros [<- | [Hx Hn]]; [|tauto]. split; [tauto|]. intros Hx. specialize (Es _ Hx).
        by rewrite String.eqb_refl in Es.
      * intros [[<- | Hx] Hn]; [tauto|]. destruct (decide (TrimSpace id = x)); [tauto|].
        right. split; [done|]. tauto.
Qed.

(** The outgoing edges [replaceDependsOn] is in charge of. *)
Definition depends_on_of (item : string) (d : DependencyRow) : bool :=
  (FromID d == item) && (DepType d == DependencyDependsOn).

Lemma replaceDependsOn_inv newID p item l db x db' :
  acyclic db -> replaceDependsOn newID p item l db = Ok (x, db') ->
  acyclic db' /\ items db' = items db
  /\ exists new, deps db' = List.filter (fun d => negb (depends_on_of item d)) (deps db) ++ new
     /\ (forall t, In t (map ToID new) <-> In t (map TrimSpace l))
     /\ Forall (fun d => depends_on_of item d = true /\ DepProjectID d = p) new.
Proof.
  intros Hac H. unfold replaceDependsOn in H. tx_inv H.
  match goal with H : validateDependsOn _ _ _ _ _ = Ok _ |- _ =>
    apply validateDependsOn_inv in H as (-> & Hne & Hin) end.
  match goal with H : DeleteOutgoingDependencies _ _ _ = Ok _ |- _ => injection H as <- <- end.
  match goal with H : each note_removed _ _ = Ok _ |- _ => apply each_note_deps in H as [Hd2 Hi2] end.
  match goal with H : each (insert_edge _ _ _ _) _ _ = Ok _ |- _ =>
    apply each_insert_acyclic in H as (Hac' & Hi & new & Hd & Hm & Hall) end.
  - split_and!.
    + eapply acyclic_subset; [|exact Hac']. intros q u v. unfold edge. by rewrite Hd2.
    + by rewrite Hi2, Hi.
    + exists new. rewrite Hd2, Hd. split_and!; [done | |].
      * intros t. rewrite Hm, Hin. simpl. tauto.
      * eapply Forall_impl; [exact Hall|]. unfold depends_on_of.
        intros d (-> & -> & ->). by rewrite !String.eqb_refl.
  - apply (acyclic_subset db); [|done]. intros q u v (d & Hd & Hr).
    apply List.filter_In in Hd as [Hd _]. by exists d.
  - done.
Qed.

(** ** The graph as a state machine *)

(** Every operation of the program that writes the edge table, and any
    operation on the items alone. *)
Inductive dag_step : DB -> DB -> Prop :=
| step_add db newID p f t ty row db' :
    AddDependency newID p f t ty db = Ok (row, db') -> dag_step db db'
| step_remove db id db' : RemoveDependency id db = Ok (tt, db') -> dag_step db db'
| step_replace db newID p item l db' :
    replaceDependsOn newID p item l db = Ok (tt, db') -> dag_step db db'
| step_delete_item db id db' : HardDeleteWorkItem_row id db = Ok (tt, db') -> dag_step db db'
| step_items db m : dag_step db (with_items db m).

Lemma RemoveDependency_inv id x db db' :
  RemoveDependency id db = Ok (x, db') ->
  deps db' = List.filter (fun d => negb (DepID d == id)) (deps db)
  /\ outbox db' = outbox db /\ items db' = items db.
Proof.
  unfold RemoveDependency. intros H. tx_inv H.
  match goal with H : GetDependency _ _ = Ok _ |- _ => unfold GetDependency in H;
    destruct (List.find _ _); [injection H as <- <- | done] end.
  match goal with H : DeleteDependency _ _ = Ok _ |- _ => unfold DeleteDependency in H;
    destruct (existsb _ _); [injection H as <- <- | done] end.
  done.
Qed.

Lemma filter_edge_subset db db' (keep : DependencyRow -> bool) :
  deps db' = List.filter keep (deps db) -> forall p a b, edge db' p a b -> edge db p a b.
Proof.
  intros Hd p a b (d & Hin & H). rewrite Hd in Hin. apply List.filter_In in Hin as [Hin _]. by exists d.
Qed.

Lemma dag_step_acyclic db db' : dag_step db db' -> acyclic db -> acyclic db'.
Proof.
  intros [] Hac.
  - by eapply AddDependency_acyclic.
  - apply RemoveDependency_inv in H as (H & _). by eapply acyclic_subset; [eapply filter_edge_subset|].
  - by apply replaceDependsOn_inv in H as (? & _).
  - unfold HardDeleteWorkItem_row in H.
    match goal with H : match ?x with Some _ => _ | None => _ end = _ |- _ =>
      destruct x; [injection H as <- | done] end.
    eapply acyclic_subset; [|done]. by eapply filter_edge_subset.
  - done.
Qed.

Lemma acyclic_empty db : deps db = [] -> acyclic db.
Proof.
  intros He p a Htc.
  destruct Htc as [x y (d & Hin & _) | x y z (d & Hin & _) _]; by rewrite He in Hin.
Qed.

(** ** Properties *)

(** C1: no sequence of admissions, removals, set-replacements, deletions and
    item updates, started from an empty edge table, ever closes a cycle of
    blocking edges in any project. *)
Theorem dag_stays_acyclic (db0 db : DB) (Hempty : deps db0 = []) (Hsteps : rtc dag_step db0 db) :
  acyclic db.
Proof.
  apply acyclic_empty in Hempty. induction Hsteps as [db | db0 db1 db Hs _ IH]; [done|].
  apply IH. by eapply dag_step_acyclic.
Qed.

(** C35: admission is exact: for two different items of the project and a
    blocking type, [AddDependency] stores the edge if and only if the edge is
    not there yet and no path of blocking edges leads from its target back to
    its source. *)
Theorem add_dependency_admission (newID p f t : string) (ty : DependencyTypeProto) (depType : string)
  (db : DB) (wf wt : WorkItemRow)
  (Hp : p <> "") (Hf : f <> "") (Ht : t <> "") (Hne : f <> t)
  (Hwf : items db !! f = Some wf) (Hpf : ProjectID wf = p)
  (Hwt : items db !! t = Some wt) (Hpt : ProjectID wt = p)
  (Hty : validateDependencyType ty = Some depType) (Hdag : depType <> DependencyRelatesTo) :
  is_ok (AddDependency newID p f t ty db) = true
  <-> (forall d, In d (deps db) -> ~ (FromID d = f /\ ToID d = t /\ DepType d = depType))
      /\ ~ tc (edge db p) t f.
Proof.
  unfold AddDependency, guard_tx, mbind, tx_bind, mret, tx_ret.
  apply String.eqb_neq in Hp, Hf, Ht, Hne, Hdag. rewrite Hp, Hf, Ht, Hne, Hty.
  unfold GetWorkItem at 1. rewrite Hwf, Hpf, String.eqb_refl. cbn [negb].
  unfold GetWorkItem. rewrite Hwt, Hpt, String.eqb_refl. cbn [negb]. unfold read.
  rewrite Hdag. cbn [negb andb]. rewrite <- (CheckCycle_spec db p f t).
  destruct (CheckCycleWithRecursiveCTE db p f t); [simpl; split; [done | by intros [_ []]]|].
  unfold CreateDependency. destruct (existsb _ (deps db)) eqn:E; simpl.
  - split; [done|]. intros [H _]. apply existsb_exists in E as (d & Hin & Hd).
    unfold same_edge in Hd. simpl in Hd. breflect. by destruct (H d Hin).
  - split; [|done]. intros _. split; [|done]. intros d Hin (Hfd & Htd & Hdd).
    rewrite existsb_false_forall in E. specialize (E d Hin). unfold same_edge in E. simpl in E.
    by rewrite Hfd, Htd, Hdd, !String.eqb_refl in E.
Qed.

(** C18: set replacement is exact: when it succeeds on an acyclic graph, the
    item's outgoing [depends_on] edges lead to exactly the requested ids
    (trimmed, duplicates once), every other edge of the table is as before,
    and the graph is still acyclic. *)
Theorem replace_depends_on_exact (newID : string -> string) (p item : string) (l : list string)
  (db db' : DB) (Hac : acyclic db) (H : replaceDependsOn newID p item l db = Ok (tt, db')) :
  (forall t, (exists d, In d (deps db') /\ depends_on_of item d = true /\ ToID d = t)
             <-> In t (map TrimSpace l))
  /\ List.filter (fun d => negb (depends_on_of item d)) (deps db')
     = List.filter (fun d => negb (depends_on_of item d)) (deps db)
  /\ items db' = items db /\ acyclic db'.
Proof.
  apply replaceDependsOn_inv in H as (Hac' & Hi & new & Hd & Hin & Hall); [|done].
  rewrite Forall_forall in Hall. split_and!; [| |done|done].
  - intros t. rewrite <- Hin, in_map_iff, Hd. split.
    + intros (d & [Hd'%List.filter_In | Hn]%in_app_iff & Hdep & <-).
      * destruct Hd' as [_ Hd']. by rewrite Hdep in Hd'.
      * by exists d.
    + intros (d & <- & Hn). exists d. split_and!; [by apply in_app_iff; right | | done].
      by apply Hall, list_elem_of_In.
  - rewrite Hd, List.filter_app.
    assert (Hnil : List.filter (fun d => negb (depends_on_of item d)) new = []).
    { destruct (List.filter _ new) as [|d l0] eqn:E; [done|].
      assert (Hx : In d (d :: l0)) by (by left). rewrite <- E in Hx.
      apply List.filter_In in Hx as [Hx Hn].
      destruct (Hall d ltac:(by apply list_elem_of_In)) as [Hdep _]. by rewrite Hdep in Hn. }
    rewrite Hnil, app_nil_r. clear. induction (deps db) as [|d ds IH]; simpl; [done|].
    destruct (depends_on_of item d) eqn:E; simpl; [done|]. rewrite E. simpl. by rewrite IH.
Qed.

(** removing an edge writes no outbox row, while admitting one does: the
    consumers of [work_item.dependency_removed] hear of set-replacements
    only. *)
Theorem remove_dependency_is_silent (newID p f t id : string) (ty : DependencyTypeProto)
  (db db1 db2 : DB) (row : DependencyRow)
  (Hadd : AddDependency newID p f t ty db = Ok (row, db1))
  (Hdel : RemoveDependency id db1 = Ok (tt, db2)) :
  outbox db1 = outbox db ++ [("work_item.dependency_added", newID)] /\ outbox db2 = outbox db1.
Proof.
  apply RemoveDependency_inv in Hdel as (_ & Ho & _). split; [|done].
  unfold AddDependency in Hadd. tx_inv Hadd.
  destruct (validateDependencyType ty); [|done].
  match goal with H : _ = Ok (row, db1) |- _ => tx_inv H end. by simplify_eq/=.
Qed.

(** C36: the gate waits in the direction of the edge, whatever its type: once
    "f depends on t" is stored (source f, "the work item that depends"), it is
    t, the prerequisite, whose dispatch gate is closed until f succeeds, while
    the gate of the dependent f does not change. *)
Theorem depends_on_gates_the_prerequisite (newID p f t : string) (db db' : DB) (row : DependencyRow)
  (wf : WorkItemRow)
  (Hadd : AddDependency newID p f t DEPENDENCY_TYPE_DEPENDS_ON db = Ok (row, db'))
  (Hwf : items db !! f = Some wf) (Hopen : WorkItemIsTerminalSuccess (Status wf) = false) :
  CheckDependenciesSatisfied db' t = false
  /\ CheckDependenciesSatisfied db' f = CheckDependenciesSatisfied db f.
Proof.
  apply AddDependency_inv in Hadd as (depType & Hty & Hne & Hrow & Hd & Hi & _).
  injection Hty as <-. split.
  - apply not_true_iff_false. rewrite CheckDependenciesSatisfied_spec. intros H.
    specialize (H row wf). rewrite Hd, Hi, Hrow in H. rewrite H in Hopen; try done.
    apply in_app_iff. by right; left.
  - apply eq_true_iff_eq. rewrite !CheckDependenciesSatisfied_spec, Hd, Hi. split.
    + intros H d w Hin. apply H, in_app_iff. by left.
    + intros H d w [Hin | [<- | []]]%in_app_iff; [by apply H|]. intros Hto. by rewrite Hrow in Hto.
Qed.

(** ** Witnesses *)

Definition pair_db : DB :=
  sample_db [sample "a" "task" "pending" None 1; sample "b" "task" "pending" None 2] [].

Definition a_to_b : DependencyRow := mkDep "e1" "p" "a" "b" DependencyDependsOn 1000.

Definition chain_db : DB :=
  with_logs (with_deps pair_db [a_to_b]) [("work_item.dependency_added", "e1")]
    [("work_item.dependency_added", "a")].

Lemma dag_stays_acyclic_witness : acyclic chain_db.
Proof.
  apply (dag_stays_acyclic pair_db chain_db); [reflexivity|].
  apply rtc_once, (step_add _ "e1" "p" "a" "b" DEPENDENCY_TYPE_DEPENDS_ON a_to_b).
  vm_compute. reflexivity.
Defined.

Lemma add_dependency_admission_witness :
  is_ok (AddDependency "e2" "p" "b" "a" DEPENDENCY_TYPE_BLOCKS chain_db) = true
  <-> (forall d, In d (deps chain_db) -> ~ (FromID d = "b" /\ ToID d = "a" /\ DepType d = DependencyBlocks))
      /\ ~ tc (edge chain_db "p") "a" "b".
Proof.
  apply (add_dependency_admission "e2" "p" "b" "a" DEPENDENCY_TYPE_BLOCKS DependencyBlocks chain_db
           (sample "b" "task" "pending" None 2) (sample "a" "task" "pending" None 1));
    try discriminate; vm_compute; reflexivity.
Defined.

Lemma replace_depends_on_exact_witness :
  (exists d, In d (deps chain_db) /\ depends_on_of "a" d = true /\ ToID d = "b")
  <-> In "b" (map TrimSpace ["b"; " b "]).
Proof.
  apply (replace_depends_on_exact (fun _ => "e1") "p" "a" ["b"; " b "] pair_db chain_db).
  - by apply acyclic_empty.
  - vm_compute. reflexivity.
Defined.

Lemma remove_dependency_is_silent_witness :
  outbox chain_db = outbox pair_db ++ [("work_item.dependency_added", "e1")]
  /\ outbox (with_logs pair_db (outbox chain_db)
              (audit chain_db ++ [("work_item.dependency_removed", "a")])) = outbox chain_db.
Proof.
  apply (remove_dependency_is_silent "e1" "p" "a" "b" "e1" DEPENDENCY_TYPE_DEPENDS_ON pair_db chain_db
           _ a_to_b); vm_compute; reflexivity.
Defined.

Lemma depends_on_gates_the_prerequisite_witness :
  CheckDependenciesSatisfied chain_db "b" = false
  /\ CheckDependenciesSatisfied chain_db "a" = CheckDependenciesSatisfied pair_db "a".
Proof.
  apply (depends_on_gates_the_prerequisite "e1" "p" "a" "b" pair_db chain_db a_to_b
           (sample "a" "task" "pending" None 1)); vm_compute; reflexivity.
Defined.
