(* ===== verification/Hierarchy.v ===== *)
(** * The work item hierarchy (internal/workitem/validate.go, switch_kind.go)

    Validation of kinds, parents and status transitions, and the resolution of
    a kind switch.  [nearestShallowerAncestor] follows parent links without a
    bound; the model follows at most [chain_fuel] of them and fails with
    [ErrFuel], which a store that respects the hierarchy never reaches. *)

From S2P Require Import Prelude GoStrings Domain WorkItems Dependencies.

Definition kindOrder (kind : string) : Z :=
  if kind == WorkItemKindEpic then 1
  else if kind == WorkItemKindFeature then 2
  else if kind == WorkItemKindTask then 3
  else if kind == WorkItemKindSubtask then 4
  else 0.

Definition validateTopLevelKind (kind : string) : Tx unit :=
  guard_tx (negb (kind == WorkItemKindEpic)) (ErrInvalid "top-level").

Definition validateKindDepth (childKind parentKind : string) : Tx unit :=
  guard_tx (kindOrder childKind <=? kindOrder parentKind)%Z (ErrInvalid "depth").

Definition ValidateParent (parentID childKind projectID : string) (recurring ephemeral : bool) : Tx unit :=
  if parentID == "" then
    if recurring then mret tt
    else if ephemeral then mret tt
    else validateTopLevelKind childKind
  else
    parent ← GetWorkItem parentID;
    guard_tx (negb (ProjectID parent == projectID)) (ErrInvalid "parent project");;
    validateKindDepth childKind (Kind parent).

(** Status predicates. *)
Definition IsActiveRunStatus (status : string) : bool :=
  (status == WorkItemRunning) || (status == WorkItemCheckpointing) || (status == WorkItemRecovering).

Definition IsIdeaStatus (status : string) : bool := status == WorkItemIdea.

Definition IsStartableForAutoStart (status : string) : bool :=
  (status == WorkItemPending) || (status == WorkItemScheduled)
  || (status == WorkItemReady) || (status == WorkItemAssigned).

Definition IsRunnableStatus (status : string) : bool :=
  (status == WorkItemReady) || (status == WorkItemAssigned)
  || (status == WorkItemScheduled) || (status == WorkItemRunning).

Definition ValidateStatus (status : string) : option string :=
  let status := ToLower (TrimSpace status) in
  if existsb (String.eqb status)
       [WorkItemPending; WorkItemScheduled; WorkItemReady; WorkItemAssigned; WorkItemRunning;
        WorkItemCheckpointing; WorkItemSucceeded; WorkItemFailed; WorkItemCancelled;
        WorkItemRecovering; WorkItemRecurring; WorkItemSkipped]
  then Some status else None.

(** [workflowID != nil && *workflowID != ""]. *)
Definition bound (workflowID : option string) : bool :=
  match workflowID with None => false | Some w => negb (w == "") end.

Definition ValidateWorkflowFirstTransition (newStatus : string) (workflowID : option string)
    (hasChildren : bool) : Tx unit :=
  if negb (IsRunnableStatus newStatus) then mret tt
  else if hasChildren then mret tt
  else if bound workflowID then mret tt
  else fail (ErrInvalid "no workflow is set").

Definition ValidateRecurringFlatness (recurring : bool) (kind parentID : string) : Tx unit :=
  if negb recurring then mret tt
  else
    guard_tx (negb (kind == WorkItemKindTask)) (ErrInvalid "recurring kind");;
    guard_tx (negb (parentID == "")) (ErrInvalid "recurring parent").

Definition ValidateRecurringWorkflowBinding (recurring hasChildren : bool) (workflowID : string) : Tx unit :=
  guard_tx (recurring && negb hasChildren && (workflowID == "")) (ErrInvalid "recurring workflow").

Fixpoint secret_ids_ok (seen ids : list string) : bool :=
  match ids with
  | [] => true
  | id :: rest => negb (id == "") && negb (existsb (String.eqb id) seen) && secret_ids_ok (id :: seen) rest
  end.

Definition ValidateSecretIDs (ids : list string) : bool :=
  Nat.leb (length ids) 10 && secret_ids_ok [] ids.

(** ** Sequence validation *)

Definition workflowHasSteps (wf : WorkflowRow) : bool := WfHasSteps wf.

(** A leaf's workflow can be started. *)
Definition workflow_runnable (db : DB) (workflowID : string) : bool :=
  match workflows db !! workflowID with
  | None => false
  | Some wf => ((WfStatus wf == WorkflowPublished) || (WfStatus wf == WorkflowDeprecated))
               && workflowHasSteps wf
  end.

(** [walk] of [ValidateSequenceSubtree]: the titles without a workflow and
    those whose workflow cannot run; [None] is out of fuel. *)
Fixpoint walk_subtree (fuel : nat) (db : DB) (id : string) : option (list string * list string) :=
  match fuel with
  | O => None
  | S fuel =>
      fold_left (fun acc c =>
        '(noWf, badWf) ← acc;
        match ListDirectChildren db (ID c) with
        | [] =>
            match WorkflowID c with
            | Some wf =>
                if wf == "" then Some (noWf ++ [Title c], badWf)
                else if workflow_runnable db wf then Some (noWf, badWf)
                else Some (noWf, badWf ++ [Title c])
            | None => Some (noWf ++ [Title c], badWf)
            end
        | _ :: _ => '(n, b) ← walk_subtree fuel db (ID c); Some (noWf ++ n, badWf ++ b)
        end) (ListDirectChildren db id) (Some ([], []))
  end.

(** Parent links followed at most: depths strictly increase from 0 to 4. *)
Definition chain_fuel : nat := 6.

Definition ValidateSequenceSubtree (parent : WorkItemRow) : Tx (list string * list string) :=
  fun db => match walk_subtree chain_fuel db (ID parent) with
            | Some r => Ok (r, db)
            | None => Err ErrFuel
            end.

Definition ValidateSequenceSchedule (item : WorkItemRow) : Tx unit :=
  db ← read;
  match ListDirectChildren db (ID item) with
  | [] => guard_tx (negb (bound (WorkflowID item))) (ErrInvalid "no workflow is set")
  | _ :: _ =>
      '(noWorkflow, badWorkflow) ← ValidateSequenceSubtree item;
      match noWorkflow, badWorkflow with
      | [], [] => mret tt
      | _, _ => fail (ErrInvalid "sequence")
      end
  end.

(** ** Kind switch *)

Record ChildReparent := mkReparent {
  ChildID : string; ChildVersion : Z; ChildNewParentID : option string }.

Record KindSwitchPlan := mkPlan {
  NewParentID : option string;
  NewStatus : option string;
  ClearWorkerRef : bool;
  ClearScheduledStartAt : bool;
  ClearRecurringSchedule : bool;
  ReparentedChildren : list ChildReparent }.

Definition isSchedulableKind (kind : string) : bool :=
  (kind == WorkItemKindTask) || (kind == WorkItemKindSubtask).

Fixpoint nearestShallowerAncestor (fuel : nat) (parentID : string) (newDepth : Z) (projectID : string)
    : Tx string :=
  match fuel with
  | O => fail ErrFuel
  | S fuel =>
      parent ← GetWorkItem parentID;
      guard_tx (negb (ProjectID parent == projectID)) (ErrInvalid "ancestor project");;
      if (kindOrder (Kind parent) <? newDepth)%Z then mret (ID parent)
      else match ParentID parent with
           | None => fail (ErrInvalid "no shallower ancestor")
           | Some p => nearestShallowerAncestor fuel p newDepth projectID
           end
  end.

Definition workflowRunActive (runID : string) : Tx bool :=
  fun db =>
    if runID == "" then Ok (false, db)
    else match runs db !! runID with
         | None => Ok (false, db)
         | Some r => Ok (negb ((RunStatus r == WorkflowRunCompleted) || (RunStatus r == WorkflowRunFailed)
                               || (RunStatus r == WorkflowRunAborted)), db)
         end.

(** The parent a non-epic is given. *)
Definition resolve_parent (current : WorkItemRow) (kind : string) (explicitParentID : option string)
    (projectID : string) : Tx string :=
  let explicit :=
    match explicitParentID, ParentID current with
    | Some e, Some p => if e == p then None else Some e
    | e, _ => e
    end in
  match explicit, ParentID current with
  | Some e, _ =>
      guard_tx (e == ID current) (ErrInvalid "own parent");;
      ValidateParent e kind projectID false false;;
      mret e
  | None, Some p => nearestShallowerAncestor chain_fuel p (kindOrder kind) projectID
  | None, None => fail (ErrInvalid "must have a parent")
  end.

Definition ResolveKindSwitch (current : WorkItemRow) (newKind : string)
    (explicitParentID : option string) (projectID : string) : Tx KindSwitchPlan :=
  match NormalizeWorkItemKind newKind with
  | None => fail (ErrInvalid "kind")
  | Some kind =>
      guard_tx (IsActiveRunStatus (Status current)) (ErrInvalid "running");;
      active ← workflowRunActive (WorkflowRunID current);
      guard_tx active (ErrInvalid "active run");;
      resolvedParent ← (if kind == WorkItemKindEpic then mret None
                        else p ← resolve_parent current kind explicitParentID projectID; mret (Some p));
      db ← read;
      let reparented :=
        map (fun c => mkReparent (ID c) (Version c) resolvedParent)
          (List.filter (fun c => (kindOrder (Kind c) <=? kindOrder kind)%Z)
             (ListDirectChildren db (ID current))) in
      if isSchedulableKind kind then mret (mkPlan resolvedParent None false false false reparented)
      else
        let status := Status current in
        let newStatus :=
          if (status == WorkItemReady) || (status == WorkItemAssigned) || (status == WorkItemScheduled)
             || (status == WorkItemRecurring) then Some WorkItemPending else None in
        mret (mkPlan resolvedParent newStatus true true true reparented)
  end.

(** ** The hierarchy invariant *)

(** Every stored parent link goes to a strictly shallower item. *)
Definition tree_ok (db : DB) : Prop :=
  forall id w pid p, items db !! id = Some w -> ParentID w = Some pid -> items db !! pid = Some p ->
  (kindOrder (Kind p) < kindOrder (Kind w))%Z.

Lemma kindOrder_range k : (0 <= kindOrder k <= 4)%Z.
Proof. unfold kindOrder. repeat case_match; lia. Qed.

(** The chain of parents, as a relation on the stored rows. *)
Definition parent_of (db : DB) (a b : string) : Prop :=
  exists w, items db !! a = Some w /\ ParentID w = Some b /\ is_Some (items db !! b).

Definition depth (db : DB) (id : string) : Z :=
  match items db !! id with Some w => kindOrder (Kind w) | None => 0 end.

Lemma parent_of_depth db a b : tree_ok db -> parent_of db a b -> (depth db b < depth db a)%Z.
Proof.
  intros Ht (w & Ha & Hp & p & Hb). unfold depth. rewrite Ha, Hb. by eapply Ht.
Qed.
