(* ===== verification/Calendar.v ===== *)
(** * The parts of Go's [time] package the scheduler uses

    An instant is a number of nanoseconds since 1970-01-01T00:00:00Z.  A
    location is its lookup function, as in Go: for a UTC second it gives the
    offset in force and the half-open period of seconds it is in force for;
    the time zone database itself is a parameter of the program.  Years are
    those of the proleptic Gregorian calendar. *)

From S2P Require Import Prelude GoStrings.
From Stdlib Require Import Ascii.

Open Scope Z_scope.

Record Location := mkLocation { lookup_zone : Z -> Z * Z * Z }.

(** [time.UTC]. *)
Definition UTC : Location := mkLocation (fun _ => (0, int64_min, int64_max)).

Record Time := mkTime { inst : Z; loc : Location }.

Definition zone_offset (l : Location) (sec : Z) : Z := let '(off, _, _) := lookup_zone l sec in off.

(** ** The civil calendar: a day is a number of days since 1970-01-01. *)

Definition days_from_civil (y m d : Z) : Z :=
  let y := if m <=? 2 then y - 1 else y in
  let era := y / 400 in
  let yoe := y mod 400 in
  let mp := if 2 <? m then m - 3 else m + 9 in
  let doy := (153 * mp + 2) / 5 + d - 1 in
  let doe := yoe * 365 + yoe / 4 - yoe / 100 + doy in
  era * 146097 + doe - 719468.

(** Year, month, day of day [doe] of a 400-year era that starts on March 1 of
    year 0. *)
Definition civil_in_era (doe : Z) : Z * Z * Z :=
  let yoe := (doe - doe / 1460 + doe / 36524 - doe / 146096) / 365 in
  let doy := doe - (365 * yoe + yoe / 4 - yoe / 100) in
  let mp := (5 * doy + 2) / 153 in
  let d := doy - (153 * mp + 2) / 5 + 1 in
  let m := if mp <? 10 then mp + 3 else mp - 9 in
  (if m <=? 2 then yoe + 1 else yoe, m, d).

Definition civil_from_days (z : Z) : Z * Z * Z :=
  let z := z + 719468 in
  let '(y, m, d) := civil_in_era (z mod 146097) in
  (y + (z / 146097) * 400, m, d).

(** ** Reading a time *)

Definition sec (t : Time) : Z := inst t / Second.
Definition nsec (t : Time) : Z := inst t mod Second.
Definition local_sec (t : Time) : Z := sec t + zone_offset (loc t) (sec t).
Definition local_day (t : Time) : Z := local_sec t / 86400.
Definition second_of_day (t : Time) : Z := local_sec t mod 86400.
Definition Hour_ (t : Time) : Z := second_of_day t / 3600.
Definition Minute_ (t : Time) : Z := second_of_day t mod 3600 / 60.
Definition Second_ (t : Time) : Z := second_of_day t mod 60.

(** Sunday is 0. *)
Definition Weekday (t : Time) : Z := (local_day t + 4) mod 7.

(** ** Building a time *)

(** [time.Date]: months and days out of range are normalised; a wall clock
    reading that a zone transition skips or repeats is resolved as Go does. *)
Definition Date_ (y m d h mi s ns : Z) (l : Location) : Time :=
  let y := y + (m - 1) / 12 in
  let m := (m - 1) mod 12 + 1 in
  let unix := (days_from_civil y m 1 + (d - 1)) * 86400 + h * 3600 + mi * 60 + s in
  let '(offset, start, end_) := lookup_zone l unix in
  let unix :=
    if offset =? 0 then unix
    else
      let utc := unix - offset in
      let offset := if (utc <? start) || (end_ <=? utc) then zone_offset l utc else offset in
      unix - offset in
  mkTime (unix * Second + ns) l.

Definition TimeAdd (t : Time) (d : Z) : Time := mkTime (inst t + d) (loc t).

Definition AddDate (t : Time) (years months days : Z) : Time :=
  let '(y, m, d) := civil_from_days (local_day t) in
  Date_ (y + years) (m + months) (d + days) (Hour_ t) (Minute_ t) (Second_ t) (nsec t) (loc t).

Definition Before (t u : Time) : bool := inst t <? inst u.

(** [TimeSub] saturates. *)
Definition TimeSub (t u : Time) : Z := Z.max int64_min (Z.min int64_max (inst t - inst u)).

(** ** Parsing *)

Definition digit (c : ascii) : option Z :=
  let n := Z.of_N (N_of_ascii c) in
  if (48 <=? n) && (n <=? 57) then Some (n - 48) else None.

(** [getnum]: one or two digits, or exactly two when [fixed]. *)
Definition getnum (s : string) (fixed : bool) : option (Z * string) :=
  match s with
  | String a rest =>
      match digit a with
      | None => None
      | Some x =>
          match rest with
          | String b rest' =>
              match digit b with
              | Some y => Some (10 * x + y, rest')
              | None => if fixed then None else Some (x, rest)
              end
          | EmptyString => if fixed then None else Some (x, rest)
          end
      end
  | EmptyString => None
  end.

Definition year4 (s : string) : option (Z * string) :=
  match s with
  | String a (String b (String c (String d rest))) =>
      match digit a, digit b, digit c, digit d with
      | Some w, Some x, Some y, Some z => Some (1000 * w + 100 * x + 10 * y + z, rest)
      | _, _, _, _ => None
      end
  | _ => None
  end.

Definition expect (c : ascii) (s : string) : option string :=
  match s with
  | String a rest => if Ascii.eqb a c then Some rest else None
  | EmptyString => None
  end.

(** A space of the layout: any run of spaces, which may be empty at the end. *)
Fixpoint cut_spaces (s : string) : string :=
  match s with
  | String " " rest => cut_spaces rest
  | _ => s
  end.

Definition expect_space (s : string) : option string :=
  match s with
  | String a _ => if Ascii.eqb a " " then Some (cut_spaces s) else None
  | EmptyString => Some s
  end.

Definition is_leap (y : Z) : bool := (y mod 4 =? 0) && (negb (y mod 100 =? 0) || (y mod 400 =? 0)).

Definition days_in (m y : Z) : Z :=
  if m =? 2 then (if is_leap y then 29 else 28)
  else if (m =? 4) || (m =? 6) || (m =? 9) || (m =? 11) then 30 else 31.

Definition scan_date (s : string) : option (Z * Z * Z * string) :=
  '(y, s) ← year4 s;
  s ← expect "-" s;
  '(m, s) ← getnum s true;
  if (m <=? 0) || (12 <? m) then None
  else
    s ← expect "-" s;
    '(d, s) ← getnum s true;
    Some (y, m, d, s).

Definition scan_clock (s : string) : option (Z * Z * string) :=
  '(h, s) ← getnum s false;
  if 24 <=? h then None
  else
    s ← expect ":" s;
    '(mi, s) ← getnum s true;
    if 60 <=? mi then None else Some (h, mi, s).

Definition valid_day (y m d : Z) : bool := (1 <=? d) && (d <=? days_in m y).

(** [time.Parse("2006-01-02", s)] and [time.Parse("15:04", s)]. *)
Definition parse_date (s : string) : option (Z * Z * Z) :=
  '(y, m, d, rest) ← scan_date s;
  if (rest == "") && valid_day y m d then Some (y, m, d) else None.

Definition parse_clock (s : string) : option (Z * Z) :=
  '(h, mi, rest) ← scan_clock s;
  if rest == "" then Some (h, mi) else None.

(** [time.ParseInLocation("2006-01-02 15:04", s, l)]. *)
Definition parse_date_clock (s : string) (l : Location) : option Time :=
  '(y, m, d, rest) ← scan_date s;
  rest ← expect_space rest;
  '(h, mi, rest) ← scan_clock rest;
  if (rest == "") && valid_day y m d then Some (Date_ y m d h mi 0 0 l) else None.

(** ** The calendar is a bijection *)

(** Day [doe] of an era falls in a year of the era, at most 365 days after the
    March 1 it starts with. *)
Lemma yoe_bounds doe :
  0 <= doe < 146097 ->
  let yoe := (doe - doe / 1460 + doe / 36524 - doe / 146096) / 365 in
  0 <= yoe <= 399 /\ 0 <= doe - (365 * yoe + yoe / 4 - yoe / 100) <= 365.
Proof. intros H yoe. subst yoe. Z.div_mod_to_equations. lia. Qed.

Lemma month_bounds doy :
  0 <= doy <= 365 ->
  let mp := (5 * doy + 2) / 153 in 0 <= mp <= 11 /\ (153 * mp + 2) / 5 <= doy.
Proof. intros H mp. subst mp. Z.div_mod_to_equations. lia. Qed.

Lemma civil_in_era_spec doe :
  0 <= doe < 146097 ->
  let '(y, m, d) := civil_in_era doe in
  1 <= m <= 12 /\ 1 <= d /\ days_from_civil y m d = doe - 719468.
Proof.
  intros Hdoe. unfold civil_in_era. cbn zeta.
  pose proof (yoe_bounds doe Hdoe) as [Hy Hdoy].
  set (yoe := (doe - doe / 1460 + doe / 36524 - doe / 146096) / 365) in *.
  set (doy := doe - (365 * yoe + yoe / 4 - yoe / 100)) in *.
  pose proof (month_bounds doy Hdoy) as [Hmp Hd]. set (mp := (5 * doy + 2) / 153) in *.
  assert (E : 365 * yoe + yoe / 4 - yoe / 100 + doy = doe) by (subst doy; lia).
  unfold days_from_civil. destruct (mp <? 10) eqn:E10; breflect.
  - assert (E1 : (mp + 3 <=? 2) = false) by lia. assert (E2 : (2 <? mp + 3) = true) by lia.
    rewrite E1, E2. rewrite (Z.div_small yoe 400), (Z.mod_small yoe 400) by lia.
    replace (mp + 3 - 3) with mp by lia. lia.
  - assert (E1 : (mp - 9 <=? 2) = true) by lia. assert (E2 : (2 <? mp - 9) = false) by lia.
    rewrite E1, E2. replace (yoe + 1 - 1) with yoe by lia.
    rewrite (Z.div_small yoe 400), (Z.mod_small yoe 400) by lia.
    replace (mp - 9 + 9) with mp by lia. lia.
Qed.

Lemma days_from_civil_era y m d k :
  days_from_civil (y + k * 400) m d = days_from_civil y m d + k * 146097.
Proof.
  unfold days_from_civil.
  assert (H : forall x, (x + k * 400) / 400 = x / 400 + k /\ (x + k * 400) mod 400 = x mod 400).
  { intros x. rewrite Z.div_add by lia. by rewrite Z.mod_add. }
  destruct (m <=? 2).
  - replace (y + k * 400 - 1) with (y - 1 + k * 400) by lia.
    destruct (H (y - 1)) as [-> ->]. lia.
  - destruct (H y) as [-> ->]. lia.
Qed.

Lemma civil_round_trip z :
  let '(y, m, d) := civil_from_days z in 1 <= m <= 12 /\ 1 <= d /\ days_from_civil y m d = z.
Proof.
  unfold civil_from_days. set (w := z + 719468).
  pose proof (Z.mod_pos_bound w 146097 ltac:(lia)) as Hb.
  pose proof (civil_in_era_spec (w mod 146097) Hb) as H.
  destruct (civil_in_era (w mod 146097)) as [[y m] d]. destruct H as (Hm & Hd & E).
  split_and!; [lia .. |]. rewrite days_from_civil_era.
  pose proof (Z.div_mod w 146097 ltac:(lia)). subst w. lia.
Qed.

Lemma days_from_civil_day y m d : days_from_civil y m d = days_from_civil y m 1 + (d - 1).
Proof. unfold days_from_civil. destruct (m <=? 2), (2 <? m); lia. Qed.

(** In UTC, adding days adds multiples of 24 hours. *)
Lemma AddDate_days_utc t n : loc t = UTC -> AddDate t 0 0 n = mkTime (inst t + n * 24 * Hour) UTC.
Proof.
  intros Hl. unfold AddDate. pose proof (civil_round_trip (local_day t)) as H.
  destruct (civil_from_days (local_day t)) as [[y m] d]. destruct H as (Hm & Hd & E).
  unfold Date_. rewrite Hl, !Z.add_0_r. change (lookup_zone UTC) with (fun _ : Z => (0, int64_min, int64_max)).
  cbv beta iota. rewrite Z.eqb_refl.
  rewrite (Z.div_small (m - 1)), (Z.mod_small (m - 1)) by lia.
  replace (m - 1 + 1) with m by lia. rewrite Z.add_0_r.
  rewrite days_from_civil_day in E. f_equal.
  unfold Hour_, Minute_, Second_, second_of_day, local_day, local_sec, nsec, sec, zone_offset in *.
  rewrite Hl in *. change (lookup_zone UTC) with (fun _ : Z => (0, int64_min, int64_max)) in *.
  cbv beta iota in *. rewrite Z.add_0_r in *.
  set (s := inst t / Second) in *.
  replace (days_from_civil y m 1 + (d + n - 1)) with (s / 86400 + n) by lia.
  assert (E60 : s mod 86400 mod 60 = s mod 86400 mod 3600 mod 60).
  { symmetry. apply Z.mod_mod_divide. by exists 60. }
  pose proof (Z.div_mod (inst t) Second ltac:(unfold Second; lia)) as Hs. fold s in Hs.
  pose proof (Z.div_mod s 86400 ltac:(lia)). pose proof (Z.div_mod (s mod 86400) 3600 ltac:(lia)).
  pose proof (Z.div_mod (s mod 86400 mod 3600) 60 ltac:(lia)).
  unfold Hour, Minute. rewrite E60. nia.
Qed.

Lemma Weekday_days_utc t n :
  loc t = UTC -> Weekday (mkTime (inst t + n * 24 * Hour) UTC) = (Weekday t + n) mod 7.
Proof.
  intros Hl. unfold Weekday, local_day, local_sec, sec, zone_offset. rewrite Hl. simpl.
  rewrite !Z.add_0_r. replace (inst t + n * 24 * Hour) with (inst t + (n * 86400) * Second)
    by (unfold Hour, Minute; lia).
  rewrite Z.div_add, Z.div_add by (unfold Second; lia).
  rewrite Zplus_mod_idemp_l. f_equal. lia.
Qed.

(** ** Parsers read a prefix of plain text *)

Lemma some_pair_inj {A B} (a a' : A) (b b' : B) : Some (a, b) = Some (a', b') -> a = a' /\ b = b'.
Proof. by intros [= -> ->]. Qed.

(** What [f] reads it also reads in front of any other text. *)
Definition reads {A} (f : string -> option (A * string)) : Prop :=
  forall s a rest, f s = Some (a, rest) ->
  exists p, s = p +:+ rest /\ plain_str p = true /\ forall r, f (p +:+ r) = Some (a, r).

Lemma digit_plain c x : digit c = Some x -> plain (N_of_ascii c) = true.
Proof.
  unfold digit. intros H. destruct (_ && _) eqn:E in H; [|done]. breflect.
  unfold plain, is_ascii_space. apply andb_true_iff.
  split; [|apply N.ltb_lt; lia]. apply negb_true_iff. repeat case_match; subst; try done; lia.
Qed.

Lemma plain_str_cons c s : plain_str (String c s) = plain (N_of_ascii c) && plain_str s.
Proof. done. Qed.

(** Rewrite with the equations of the digits a parser has read. *)
Ltac rew_digits := repeat match goal with E : digit _ = Some _ |- _ => rewrite E end.
Ltac plain_digits :=
  repeat rewrite plain_str_cons;
  repeat match goal with E : digit _ = Some _ |- _ => apply digit_plain in E; rewrite E; clear E end; done.

Lemma year4_reads : reads year4.
Proof.
  intros s a rest H. unfold year4 in H.
  destruct s as [|c1 [|c2 [|c3 [|c4 s]]]]; try done.
  destruct (digit c1) eqn:E1; [|done]. destruct (digit c2) eqn:E2; [|done].
  destruct (digit c3) eqn:E3; [|done]. destruct (digit c4) eqn:E4; [|done].
  apply some_pair_inj in H as [<- <-]. exists (String c1 (String c2 (String c3 (String c4 "")))).
  split_and!; [done | plain_digits |]. intros r. simpl. by rew_digits.
Qed.

Lemma getnum_reads : reads (fun s => getnum s true).
Proof.
  intros s a rest H. unfold getnum in H. destruct s as [|c1 [|c2 s]]; [done | by destruct (digit c1) |].
  destruct (digit c1) eqn:E1; [|done]. destruct (digit c2) eqn:E2; [|done].
  apply some_pair_inj in H as [<- <-]. exists (String c1 (String c2 "")).
  split_and!; [done | plain_digits |]. intros r. simpl. by rew_digits.
Qed.

Lemma expect_spec c s rest : expect c s = Some rest -> s = String c rest.
Proof.
  destruct s as [|a s]; [done|]. simpl. destruct (Ascii.eqb a c) eqn:E; [|done].
  apply Ascii.eqb_eq in E as ->. by intros [= ->].
Qed.

Lemma expect_hit c r : expect c (String c r) = Some r.
Proof. simpl. by rewrite Ascii.eqb_refl. Qed.

Lemma scan_date_reads : reads scan_date.
Proof.
  intros s [[y m] d] rest H. unfold scan_date in H.
  destruct (year4 s) as [[y' s1]|] eqn:E1; [|done]. cbn [mbind option_bind] in H.
  destruct (expect "-" s1) as [s2|] eqn:E2; [|done]. cbn [mbind option_bind] in H.
  destruct (getnum s2 true) as [[m' s3]|] eqn:E3; [|done]. cbn [mbind option_bind] in H.
  destruct (_ || _) eqn:Em in H; [done|].
  destruct (expect "-" s3) as [s4|] eqn:E4; [|done]. cbn [mbind option_bind] in H.
  destruct (getnum s4 true) as [[d' s5]|] eqn:E5; [|done]. cbn [mbind option_bind] in H.
  injection H as -> -> -> ->.
  apply year4_reads in E1 as (p1 & -> & P1 & F1). apply expect_spec in E2 as ->.
  apply getnum_reads in E3 as (p2 & -> & P2 & F2). apply expect_spec in E4 as ->.
  apply getnum_reads in E5 as (p3 & -> & P3 & F3).
  exists (p1 +:+ String "-" (p2 +:+ String "-" p3)). split_and!.
  - rewrite !sapp_assoc. simpl. by rewrite sapp_assoc.
  - by rewrite plain_str_app, plain_str_cons, plain_str_app, plain_str_cons, P1, P2, P3.
  - intros r. rewrite sapp_assoc. simpl. rewrite sapp_assoc. simpl.
    unfold scan_date. rewrite F1. cbn [mbind option_bind]. rewrite expect_hit. cbn [mbind option_bind].
    rewrite F2. cbn [mbind option_bind]. rewrite Em, expect_hit. cbn [mbind option_bind].
    rewrite F3. done.
Qed.

Lemma scan_clock_plain s h mi : scan_clock s = Some (h, mi, "") -> plain_str s = true.
Proof.
  unfold scan_clock. intros H.
  destruct (getnum s false) as [[h' s1]|] eqn:E1; [|done]. cbn [mbind option_bind] in H.
  destruct (24 <=? h'); [done|].
  destruct (expect ":" s1) as [s2|] eqn:E2; [|done]. cbn [mbind option_bind] in H.
  destruct (getnum s2 true) as [[m' s3]|] eqn:E3; [|done]. cbn [mbind option_bind] in H.
  destruct (60 <=? m'); [done|]. injection H as -> -> ->.
  apply expect_spec in E2 as ->. apply getnum_reads in E3 as (p2 & -> & P2 & _).
  rewrite sapp_nil_r in E1. unfold getnum in E1.
  destruct s as [|c1 s]; [done|]. destruct (digit c1) eqn:D1; [|done].
  apply digit_plain in D1. destruct s as [|c2 s]; [done|].
  destruct (digit c2) eqn:D2.
  - apply digit_plain in D2. injection E1 as <- ->.
    by rewrite plain_str_cons, plain_str_cons, plain_str_cons, D1, D2, P2.
  - injection E1 as <- -> ->. by rewrite plain_str_cons, plain_str_cons, D1, P2.
Qed.

Lemma cut_spaces_plain s : plain_str s = true -> cut_spaces s = s.
Proof.
  destruct s as [|c s]; [done|]. rewrite plain_str_cons. intros [H _]%andb_true_iff.
  destruct (ascii_dec c " ") as [->|Hc]; [done|]. simpl.
  destruct c as [[] [] [] [] [] [] [] []]; try done; by destruct Hc.
Qed.

(** A date and a clock reading that parse on their own parse together, and are
    their own trimming. *)
Lemma parse_date_clock_ok d t l :
  parse_date d <> None -> parse_clock t <> None ->
  TrimSpace d = d /\ TrimSpace t = t /\ parse_date_clock (d +:+ " " +:+ t) l <> None.
Proof.
  unfold parse_date, parse_clock. intros Hd Ht.
  destruct (scan_date d) as [[[[y m] dd] rest]|] eqn:Ed; [|done]. cbn [mbind option_bind] in Hd.
  destruct (rest == "") eqn:Er; [|done]. apply String.eqb_eq in Er as ->.
  destruct (valid_day y m dd) eqn:Ev; [|done].
  destruct (scan_clock t) as [[[h mi] rest]|] eqn:Et; [|done]. cbn [mbind option_bind] in Ht.
  destruct (rest == "") eqn:Er; [|done]. apply String.eqb_eq in Er as ->.
  pose proof (scan_clock_plain t h mi Et) as Hp.
  apply scan_date_reads in Ed as (p & -> & P & F). rewrite sapp_nil_r.
  split_and!; [by apply TrimSpace_plain .. |].
  unfold parse_date_clock. rewrite F. cbn [mbind option_bind].
  change (" " +:+ t) with (String " " t). unfold expect_space. simpl Ascii.eqb. cbv iota.
  cbn [mbind option_bind]. change (cut_spaces (String " " t)) with (cut_spaces t).
  rewrite cut_spaces_plain, Et by done. cbn [mbind option_bind]. by rewrite Ev.
Qed.
