(* ===== verification/Recurring.v ===== *)
(** * Recurring schedules (internal/workitem/validate.go, recurring.go,
    internal/scheduler/recurring_fire_reconciler.go)

    Validation of a schedule, its next occurrence, and the pass that fires the
    due items.  The time zone database ([LoadLocation]) is a parameter.  The
    walks of [ComputeNextRunAt] and [alignToGrid] are bounded by 1000 steps in
    the source; the bound here is the source's own. *)

From S2P Require Import Prelude GoStrings Domain Calendar WorkItems.

Open Scope Z_scope.

Definition validFrequencies : list string := ["minute"; "hourly"; "daily"; "weekly"; "monthly"].
Definition validDays : list string := ["Mon"; "Tue"; "Wed"; "Thu"; "Fri"; "Sat"; "Sun"].

Definition mem (s : string) (l : list string) : bool := existsb (String.eqb s) l.

Definition IsRecurringScheduleEmpty (msg : RecurringSchedule) : bool :=
  (TrimSpace (Frequency msg) == "") && (Interval msg =? 0)
  && (match Days msg with [] => true | _ => false end)
  && (TrimSpace (StartDate msg) == "") && (TrimSpace (StartTime msg) == "")
  && (TrimSpace (WindowStart msg) == "") && (TrimSpace (WindowEnd msg) == "").

Inductive schedule_error :=
| BadFrequency | BadInterval | BadDay | NoStartDate | BadStartDate | NoStartTime | BadStartTime
| HalfWindow | BadWindowStart | BadWindowEnd | WindowWraps | StartOutsideWindow | BadTimezone.

(** The days that are not blank, trimmed; an unknown one is an error. *)
Fixpoint clean_days (days : list string) : result schedule_error (list string) :=
  match days with
  | [] => Ok []
  | d :: rest =>
      let d := TrimSpace d in
      if d == "" then clean_days rest
      else if negb (mem d validDays) then Err BadDay
      else out ← clean_days rest; Ok (d :: out)
  end.

Definition guard_r (b : bool) (e : schedule_error) : result schedule_error unit :=
  if b then Err e else Ok tt.

(** [hour*60 + minute] of a clock reading. *)
Definition minutes_of (c : Z * Z) : Z := let '(h, m) := c in h * 60 + m.

Section zones.
Context (LoadLocation : string -> option Location).

Definition RecurringZone (name : string) : option Location :=
  let name := TrimSpace name in
  if name == "" then Some UTC
  else if name == "Local" then None
  else LoadLocation name.

Definition check_window (freq startTime windowStart windowEnd : string) : result schedule_error unit :=
  _ ← guard_r (negb (Bool.eqb (windowStart == "") (windowEnd == ""))) HalfWindow;
  if negb (windowStart == "") && negb (windowEnd == "") then
    match parse_clock windowStart, parse_clock windowEnd with
    | None, _ => Err BadWindowStart
    | Some _, None => Err BadWindowEnd
    | Some ws, Some we =>
        _ ← guard_r (minutes_of we <=? minutes_of ws) WindowWraps;
        if (freq == "daily") || (freq == "weekly") || (freq == "monthly") then
          let m := minutes_of (option_or (0, 0) (parse_clock startTime)) in
          guard_r ((m <? minutes_of ws) || (minutes_of we <=? m)) StartOutsideWindow
        else Ok tt
    end
  else Ok tt.

Definition ValidateRecurringSchedule (msg : RecurringSchedule) : result schedule_error RecurringSchedule :=
  let freq := ToLower (TrimSpace (Frequency msg)) in
  _ ← guard_r (negb (mem freq validFrequencies)) BadFrequency;
  _ ← guard_r (Interval msg <? 1) BadInterval;
  days ← clean_days (Days msg);
  let startDate := TrimSpace (StartDate msg) in
  _ ← guard_r (startDate == "") NoStartDate;
  _ ← guard_r (match parse_date startDate with None => true | Some _ => false end) BadStartDate;
  let startTime := TrimSpace (StartTime msg) in
  _ ← guard_r (startTime == "") NoStartTime;
  _ ← guard_r (match parse_clock startTime with None => true | Some _ => false end) BadStartTime;
  let windowStart := TrimSpace (WindowStart msg) in
  let windowEnd := TrimSpace (WindowEnd msg) in
  _ ← check_window freq startTime windowStart windowEnd;
  let timezone := TrimSpace (Timezone msg) in
  _ ← guard_r (negb (timezone == "")
               && match RecurringZone timezone with None => true | Some _ => false end) BadTimezone;
  Ok (mkSchedule freq (Interval msg) days startDate startTime
        (NormalizeRecurringOutputsMode (OutputsMode msg)) windowStart windowEnd timezone).

(** [None] for no window. *)
Definition parseWindow (schedule : RecurringSchedule) : option (Z * Z) :=
  let ws := TrimSpace (WindowStart schedule) in
  let we := TrimSpace (WindowEnd schedule) in
  if (ws == "") || (we == "") then None
  else
    tStart ← parse_clock ws;
    tEnd ← parse_clock we;
    let sm := minutes_of tStart in
    let em := minutes_of tEnd in
    if em <=? sm then None else Some (sm, em).

Definition isInWindow (t : Time) (startMin endMin : Z) : bool :=
  let m := Hour_ t * 60 + Minute_ t in
  (startMin <=? m) && (m <? endMin).

Definition nextWindowStart (t : Time) (startMin : Z) : Time :=
  let m := Hour_ t * 60 + Minute_ t in
  let t := if m <? startMin then t else AddDate t 0 0 1 in
  let '(y, mo, d) := civil_from_days (local_day t) in
  Date_ y mo d (startMin / 60) (startMin mod 60) 0 0 (loc t).

Definition weekdayOffset (day : string) : Z :=
  if day == "Sun" then 0 else if day == "Mon" then 1 else if day == "Tue" then 2
  else if day == "Wed" then 3 else if day == "Thu" then 4 else if day == "Fri" then 5
  else if day == "Sat" then 6 else 0.

(** [time.Duration(interval) * unit] in 64 bits. *)
Definition step_of (interval unit : Z) : Z := wrap64 (interval * unit).

Definition advanceTime (t : Time) (freq : string) (interval : Z) : Time :=
  if freq == "minute" then TimeAdd t (step_of interval Minute)
  else if freq == "hourly" then TimeAdd t (step_of interval Hour)
  else if freq == "daily" then AddDate t 0 0 interval
  else if freq == "weekly" then AddDate t 0 0 (7 * interval)
  else if freq == "monthly" then AddDate t 0 interval 0
  else AddDate t 0 0 interval.

Fixpoint walk_to (n : nat) (candidate target : Time) (freq : string) (interval : Z) : Time :=
  match n with
  | O => target
  | S n => if negb (Before candidate target) then candidate
           else walk_to n (advanceTime candidate freq interval) target freq interval
  end.

(** The next point at or after [target] of the grid with the given step. *)
Definition snap (target anchor : Time) (step : Z) : Time :=
  let diff := TimeSub target anchor in
  if diff <=? 0 then anchor
  else
    let remainder := Z.rem diff step in
    if remainder =? 0 then target else TimeAdd target (wrap64 (step - remainder)).

Definition alignToGrid (target anchor : Time) (freq : string) (interval : Z) : Time :=
  if freq == "minute" then snap target anchor (step_of interval Minute)
  else if freq == "hourly" then snap target anchor (step_of interval Hour)
  else walk_to 1000%nat anchor target freq interval.

(** The window test of a candidate. *)
Definition admitted (window : option (Z * Z)) (t : Time) : bool :=
  match window with None => true | Some (ws, we) => isInWindow t ws we end.

Fixpoint next_walk (n : nat) (anchor now candidate : Time) (freq : string) (interval : Z)
    (window : option (Z * Z)) : option Time :=
  match n with
  | O => None
  | S n =>
      if Before candidate now then
        next_walk n anchor now (advanceTime candidate freq interval) freq interval window
      else
        match window with
        | Some (ws, we) =>
            if negb (isInWindow candidate ws we) then
              next_walk n anchor now
                (alignToGrid (nextWindowStart candidate ws) anchor freq interval) freq interval window
            else Some candidate
        | None => Some candidate
        end
  end.

(** The offsets from the anchor's weekday a weekly schedule selects. *)
Definition valid_offsets (anchor : Time) (days : list string) : list Z :=
  match days with
  | [] => [0; 1; 2; 3; 4; 5; 6]
  | _ => map (fun d => (weekdayOffset d - Weekday anchor + 7) mod 7) days
  end.

Fixpoint weekly_walk (n : nat) (now candidate : Time) (daysSinceAnchor cadenceDays : Z)
    (offsets : list Z) (window : option (Z * Z)) : option Time :=
  match n with
  | O => None
  | S n =>
      if negb (Before candidate now)
         && existsb (Z.eqb (daysSinceAnchor mod cadenceDays)) offsets
         && admitted window candidate
      then Some candidate
      else weekly_walk n now (AddDate candidate 0 0 1) (daysSinceAnchor + 1) cadenceDays offsets window
  end.

(** The anchor of a schedule, in its own zone. *)
Definition anchor_of (schedule : RecurringSchedule) : option Time :=
  let l := option_or UTC (RecurringZone (Timezone schedule)) in
  parse_date_clock (TrimSpace (StartDate schedule) +:+ " " +:+ TrimSpace (StartTime schedule)) l.

Definition interval_of (schedule : RecurringSchedule) : Z :=
  if Interval schedule <? 1 then 1 else Interval schedule.

Definition ComputeNextRunAt (schedule : RecurringSchedule) (now : Time) : option Time :=
  anchor ← anchor_of schedule;
  let freq := ToLower (TrimSpace (Frequency schedule)) in
  let interval := interval_of schedule in
  let window := parseWindow schedule in
  if freq == "weekly" then
    Some (option_or anchor (weekly_walk 1000%nat now anchor 0 (7 * interval)
                              (valid_offsets anchor (Days schedule)) window))
  else Some (option_or anchor (next_walk 1000%nat anchor now anchor freq interval window)).

(** ** The stored schedule *)

(** Instants of a UTC clock. *)
Definition utc_time (t : Z) : Time := mkTime t UTC.

Definition computeRecurringNextRunAt (schedule : jsonb RecurringSchedule) (now : Z) : option Z :=
  match schedule with
  | JVal rs => inst <$> ComputeNextRunAt rs (utc_time now)
  | _ => None
  end.

Definition ComputeNextRunAtFromScheduleJSON := computeRecurringNextRunAt.

Definition ensureRecurringNextRun (schedule : jsonb RecurringSchedule) (nextRunAt : option Z) (now : Z)
    : option Z :=
  match nextRunAt with
  | Some _ => None
  | None => computeRecurringNextRunAt schedule now
  end.

Definition recurringOutputsMode (schedule : jsonb RecurringSchedule) : string :=
  match schedule with
  | JVal rs => NormalizeRecurringOutputsMode (OutputsMode rs)
  | _ => RecurringOutputsStandard
  end.

(** ** The fire pass *)

Definition set_next_run (t : Z) : UpdateWorkItemFields :=
  mkFields None None None false None None None None None None None false None None None (Some t)
    false None.

Definition advanceNextRunAt (itemID : string) (expectedVersion : Z) (schedule : jsonb RecurringSchedule)
    : Tx unit :=
  fun db =>
    match computeRecurringNextRunAt schedule (now db) with
    | None => Ok (tt, db)
    | Some next =>
        match UpdateWorkItem itemID expectedVersion (set_next_run next) db with
        | Ok (_, db') => Ok (tt, db')
        | Err e => Err e
        end
    end.

(** The scan's predicate. *)
Definition due (db : DB) (w : WorkItemRow) : bool :=
  (Status w == WorkItemRecurring) && RecurringEnabled w
  && match NextRunAt w with
     | None => false
     | Some t => (now db - 5 * Minute <=? t) && (t <=? now db)
     end.

(** [EXISTS (SELECT 1 ... c.parent_id = w.id)]: archived children count. *)
Definition has_children_row (db : DB) (id : string) : bool := existsb (has_parent id) (rows db).

(** [mergeWorkItemError] adds the reason to the results object. *)
Definition merge_error (results : jsonb (gmap string string)) (reason : string) : gmap string string :=
  <["work_item_error" := reason]> (match results with JVal m => m | _ => ∅ end).

Definition fail_fields (results : gmap string string) : UpdateWorkItemFields :=
  mkFields None (Some WorkItemFailed) None false None None None None (Some results) None None false
    None None None None false None.

Definition failNoWorkflowItemTx (itemID reason : string) : Tx unit :=
  item ← GetWorkItem itemID;
  UpdateWorkItem itemID (Version item) (fail_fields (merge_error (Results item) reason));;
  enqueueEvent "work_item.updated" itemID.

(** The state after a transaction whose error is logged and dropped. *)
Definition settle {A} (m : Tx A) (db : DB) : DB := match m db with Ok (_, db') => db' | Err _ => db end.

(** What the scan reads of a due row. *)
Record wiRef := mkRef {
  ref_id : string; ref_projectID : string; ref_workflowID : option string;
  ref_schedule : jsonb RecurringSchedule; ref_version : Z; ref_hasChildren : bool }.

Definition scan_ref (db : DB) (w : WorkItemRow) : wiRef :=
  mkRef (ID w) (ProjectID w) (WorkflowID w) (RecurringScheduleCol w) (Version w) (has_children_row db (ID w)).

(** [sequence] and [start] are the injected starters: they commit their own
    transactions and report success.  The sequence starter is optional;
    [start] takes the workflow, the project, the item and the outputs mode
    (which a starter without run context ignores). *)
Context (sequence : option (string -> DB -> DB * bool))
        (start : string -> string -> string -> string -> DB -> DB * bool).

(** [ref.workflowID != nil && *ref.workflowID != ""]. *)
Definition ref_bound (ref : wiRef) : bool :=
  match ref_workflowID ref with None => false | Some f => negb (f == "") end.

(** One iteration of the firing loop: the new state and the ledger row.  The
    version, the binding and the children are those the scan saw. *)
Definition fire_one (db : DB) (ref : wiRef) : DB * list (string * string) :=
  if ref_hasChildren ref then
    match sequence with
    | None => (db, [])
    | Some sequence =>
        match advanceNextRunAt (ref_id ref) (ref_version ref) (ref_schedule ref) db with
        | Err _ => (db, [])
        | Ok (_, db1) =>
            let '(db2, ok) := sequence (ref_id ref) db1 in
            (db2, [(ref_id ref, if ok then "fired" else "failed")])
        end
    end
  else if negb (ref_bound ref) then
    (settle (failNoWorkflowItemTx (ref_id ref) "no workflow is set") db, [(ref_id ref, "failed")])
  else
    match advanceNextRunAt (ref_id ref) (ref_version ref) (ref_schedule ref) db with
    | Err _ => (db, [])
    | Ok (_, db1) =>
        let '(db2, ok) := start (option_or "" (ref_workflowID ref)) (ref_projectID ref) (ref_id ref)
                            (recurringOutputsMode (ref_schedule ref)) db1 in
        (db2, [(ref_id ref, if ok then "fired" else "failed")])
    end.

Fixpoint fire_all (db : DB) (refs : list wiRef) : DB * list (string * string) :=
  match refs with
  | [] => (db, [])
  | ref :: rest =>
      let '(db1, l1) := fire_one db ref in
      let '(db2, l2) := fire_all db1 rest in
      (db2, l1 ++ l2)
  end.

(** The rows are read once, before any firing; the scan has no ORDER BY, so
    the order is the store's. *)
Definition scanAndFire (db : DB) : DB * list (string * string) :=
  fire_all db (map (scan_ref db) (firstn 100%nat (List.filter (due db) (rows db)))).

(** ** Walks *)

Lemma next_walk_sound n anchor now c freq i w r :
  next_walk n anchor now c freq i w = Some r -> inst now <= inst r /\ admitted w r = true.
Proof.
  revert c. induction n as [|n IH]; intros c H; simpl in H; [done|].
  unfold Before in H. destruct (inst c <? inst now) eqn:E; [by apply IH in H|]. breflect.
  destruct w as [[ws we]|]; [destruct (isInWindow c ws we) eqn:Ew; simpl in H|].
  - injection H as <-. simpl. done.
  - by apply IH in H.
  - by injection H as <-.
Qed.

Lemma iter_S_r {A} n (f : A -> A) x : Nat.iter n f (f x) = Nat.iter (S n) f x.
Proof. apply Nat.iter_swap. Qed.

(** The walk tests the days one after the other and returns the first that
    passes. *)
Lemma weekly_walk_first n now c k cad offs w :
  let day (j : nat) := Nat.iter j (fun t => AddDate t 0 0 1) c in
  let hit (j : nat) := negb (Before (day j) now) && existsb (Z.eqb ((k + Z.of_nat j) mod cad)) offs
                       && admitted w (day j) in
  match weekly_walk n now c k cad offs w with
  | Some r => exists j, (j < n)%nat /\ r = day j /\ hit j = true /\ forall i, (i < j)%nat -> hit i = false
  | None => forall i, (i < n)%nat -> hit i = false
  end.
Proof.
  cbv zeta. revert c k. induction n as [|n IH]; intros c k; cbn [weekly_walk]; [intros i Hi; lia|].
  destruct (negb (Before c now) && existsb (Z.eqb (k mod cad)) offs && admitted w c) eqn:E.
  - exists 0%nat. rewrite Z.add_0_r. split_and!; [lia | done | done | intros i Hi; lia].
  - specialize (IH (AddDate c 0 0 1) (k + 1)).
    assert (Hk : forall j, k + 1 + Z.of_nat j = k + Z.of_nat (S j)) by (intros; lia).
    assert (Hday : forall j, Nat.iter j (fun t => AddDate t 0 0 1) (AddDate c 0 0 1)
                             = Nat.iter (S j) (fun t => AddDate t 0 0 1) c)
      by (intros j; exact (iter_S_r j (fun t => AddDate t 0 0 1) c)).
    destruct (weekly_walk _ _ _ _ _ _ _) as [r|]; setoid_rewrite Hday in IH; setoid_rewrite Hk in IH.
    + destruct IH as (j & Hj & Hr & Hhit & Hmin). exists (S j). split_and!; [lia | done | done |].
      intros [|i] Hi; [by rewrite Z.add_0_r | apply Hmin; lia].
    + intros [|i] Hi; [by rewrite Z.add_0_r | apply IH; lia].
Qed.

Lemma weekly_walk_sound n now c k cad offs w r :
  weekly_walk n now c k cad offs w = Some r -> inst now <= inst r /\ admitted w r = true.
Proof.
  intros H. pose proof (weekly_walk_first n now c k cad offs w) as Hf. rewrite H in Hf. cbv zeta in Hf.
  destruct Hf as (j & _ & -> & [[E1 _]%andb_true_iff E3]%andb_true_iff & _).
  unfold Before in E1. breflect. done.
Qed.

(** A grid of fixed steps: the walk returns the first point not before [now]. *)
Lemma next_walk_grid n anchor now c freq i step :
  0 < step -> (forall t, advanceTime t freq i = TimeAdd t step) ->
  next_walk n anchor now c freq i None =
  let k := if inst now <=? inst c then 0 else (inst now - inst c + step - 1) / step in
  if k <? Z.of_nat n then Some (TimeAdd c (k * step)) else None.
Proof.
  intros Hs Hadv. revert c. induction n as [|n IH]; intros c; cbn [next_walk].
  - cbn zeta. destruct (inst now <=? inst c) eqn:E; breflect; [done|].
    assert (0 < (inst now - inst c + step - 1) / step) by (apply Z.div_str_pos; lia).
    destruct (_ <? _) eqn:E2; breflect; [lia | done].
  - unfold Before. destruct (inst c <? inst now) eqn:E; breflect.
    + assert (E2 : (inst now <=? inst c) = false) by lia. rewrite E2.
      rewrite Hadv, IH. unfold TimeAdd. cbn [inst loc]. cbn zeta.
      assert (Hk : (inst now - inst c + step - 1) / step
                   = 1 + (if inst now <=? inst c + step then 0
                          else (inst now - (inst c + step) + step - 1) / step)).
      { replace (inst now - inst c + step - 1) with ((inst now - (inst c + step) + step - 1) + 1 * step) by lia.
        rewrite Z.div_add by lia. destruct (inst now <=? inst c + step) eqn:E3; breflect; [|lia].
        rewrite (Z.div_small (inst now - (inst c + step) + step - 1)) by lia. lia. }
      rewrite Hk. generalize (if inst now <=? inst c + step then 0
                              else (inst now - (inst c + step) + step - 1) / step). intros k'.
      destruct (k' <? Z.of_nat n) eqn:E4, (1 + k' <? Z.of_nat (S n)) eqn:E5; breflect; try lia; [|done].
      do 2 f_equal. ring.
    + assert (E2 : (inst now <=? inst c) = true) by lia. rewrite E2. cbn zeta.
      assert (E3 : (0 <? Z.of_nat (S n)) = true) by (apply Z.ltb_lt; lia). rewrite E3.
      unfold TimeAdd. rewrite Z.mul_0_l, Z.add_0_r. by destruct c.
Qed.

(** The schedules whose grid is a fixed number of nanoseconds. *)
Definition fixed_unit (freq : string) : option Z :=
  if freq == "minute" then Some Minute else if freq == "hourly" then Some Hour else None.

Lemma advance_fixed freq u i t :
  fixed_unit freq = Some u -> i * u <= int64_max -> 0 <= i -> advanceTime t freq i = TimeAdd t (i * u).
Proof.
  unfold fixed_unit, advanceTime, step_of. intros H Hi H0.
  destruct (freq == "minute").
  - injection H as <-. rewrite wrap64_small; [done | unfold int64_min, Minute, Second in *; lia].
  - destruct (freq == "hourly"); [|done].
    injection H as <-. rewrite wrap64_small; [done | unfold int64_min, Hour, Minute, Second in *; lia].
Qed.

Lemma guard_r_ok b e x : guard_r b e = Ok x -> b = false.
Proof. by destruct b. Qed.

Lemma fixed_unit_minute freq u : fixed_unit freq = Some u -> Minute <= u.
Proof.
  unfold fixed_unit. destruct (freq == "minute"); [by intros [= <-]|].
  destruct (freq == "hourly"); [|done]. intros [= <-]. unfold Hour, Minute, Second. lia.
Qed.

Lemma fixed_unit_pos freq u : fixed_unit freq = Some u -> 0 < u.
Proof. intros H%fixed_unit_minute. unfold Minute, Second in H. lia. Qed.

Lemma interval_pos s : 1 <= interval_of s.
Proof. unfold interval_of. destruct (Interval s <? 1) eqn:E; breflect; lia. Qed.

Lemma weekdayOffset_range d : 0 <= weekdayOffset d < 7.
Proof. unfold weekdayOffset. repeat case_match; lia. Qed.

Lemma iter_days_utc n t :
  loc t = UTC ->
  Nat.iter n (fun t => AddDate t 0 0 1) t = mkTime (inst t + Z.of_nat n * 24 * Hour) UTC.
Proof.
  intros Hl. induction n as [|n IH].
  - simpl. destruct t as [i l]. simpl in *. subst. f_equal. lia.
  - change (Nat.iter (S n) ?f t) with (f (Nat.iter n f t)). cbv beta. rewrite IH, AddDate_days_utc by done.
    cbn [inst]. f_equal. lia.
Qed.

Lemma compute_fixed s now a u :
  anchor_of s = Some a -> fixed_unit (ToLower (TrimSpace (Frequency s))) = Some u ->
  parseWindow s = None -> interval_of s * u <= int64_max ->
  ComputeNextRunAt s now =
  let step := interval_of s * u in
  let k := if inst now <=? inst a then 0 else (inst now - inst a + step - 1) / step in
  Some (if k <? 1000 then TimeAdd a (k * step) else a).
Proof.
  intros Ha Hu Hw Hi. unfold ComputeNextRunAt. rewrite Ha. cbn [mbind option_bind].
  cbn zeta. rewrite Hw.
  assert (Hf : (ToLower (TrimSpace (Frequency s)) == "weekly") = false).
  { unfold fixed_unit in Hu. destruct (_ == "weekly") eqn:E; [|done].
    apply String.eqb_eq in E. by rewrite E in Hu. }
  rewrite Hf. assert (Hint : 1 <= interval_of s).
  { unfold interval_of. destruct (Interval s <? 1) eqn:E; breflect; lia. }
  assert (Hupos : 0 < u).
  { unfold fixed_unit in Hu. repeat case_match; simplify_eq/=; unfold Hour, Minute, Second; lia. }
  rewrite (next_walk_grid _ _ _ _ _ _ (interval_of s * u));
    [| nia | intros t; apply advance_fixed; [done | done | lia]].
  cbn zeta. change (Z.of_nat 1000) with 1000. by destruct (_ <? 1000).
Qed.

Lemma compute_cases s now r :
  ComputeNextRunAt s now = Some r ->
  exists a, anchor_of s = Some a /\
    let freq := ToLower (TrimSpace (Frequency s)) in
    r = if freq == "weekly" then
          option_or a (weekly_walk 1000%nat now a 0 (7 * interval_of s)
                         (valid_offsets a (Days s)) (parseWindow s))
        else option_or a (next_walk 1000%nat a now a freq (interval_of s) (parseWindow s)).
Proof.
  unfold ComputeNextRunAt. destruct (anchor_of s) as [a|]; [|done]. cbn [mbind option_bind].
  intros H. exists a. split; [done|]. cbn zeta in *.
  destruct (_ == "weekly"); apply (inj Some) in H; exact (eq_sym H).
Qed.

(** ** The days of a weekly schedule *)

(** The anchor's clock reading [j] days later, in UTC. *)
Definition day_after (a : Time) (j : Z) : Time := mkTime (inst a + j * 24 * Hour) UTC.

Definition selected (s : RecurringSchedule) (now a : Time) (j : Z) : Prop :=
  inst now <= inst (day_after a j)
  /\ (Days s = [] \/ exists d, In d (Days s) /\ Weekday (day_after a j) = weekdayOffset d)
  /\ j mod (7 * interval_of s) < 7
  /\ admitted (parseWindow s) (day_after a j) = true.

Lemma weekly_day a (j : nat) :
  loc a = UTC -> Nat.iter j (fun t => AddDate t 0 0 1) a = day_after a (Z.of_nat j).
Proof. intros Hl. by rewrite iter_days_utc. Qed.

(** The offsets name the weekdays of the first week of each cadence. *)
Lemma offsets_spec s a j :
  loc a = UTC ->
  In (j mod (7 * interval_of s)) (valid_offsets a (Days s))
  <-> (Days s = [] \/ exists d, In d (Days s) /\ Weekday (day_after a j) = weekdayOffset d)
      /\ j mod (7 * interval_of s) < 7.
Proof.
  intros Hl. pose proof (interval_pos s) as Hint.
  pose proof (Z.mod_pos_bound j (7 * interval_of s) ltac:(lia)) as Hx.
  assert (E7 : (j mod (7 * interval_of s)) mod 7 = j mod 7)
    by (rewrite Z.mod_mod_divide by (exists (interval_of s); lia); done).
  unfold day_after. rewrite Weekday_days_utc by done.
  unfold valid_offsets. destruct (Days s) as [|d0 ds] eqn:Ed.
  { split; [|intros [_ ?]; cbn; lia]. cbn [In]. intros Hin. split; [by left | lia]. }
  rewrite in_map_iff. set (x := j mod (7 * interval_of s)) in *. clearbody x. split.
  - intros (d & Ho & Hin). split; [right | rewrite <- Ho; apply Z.mod_pos_bound; lia].
    exists d. split; [done|]. rewrite <- Zplus_mod_idemp_r, <- E7, <- Ho, Z.mod_mod, Zplus_mod_idemp_r by lia.
    replace (Weekday a + (weekdayOffset d - Weekday a + 7)) with (weekdayOffset d + 1 * 7) by lia.
    rewrite Z.mod_add by lia. apply Z.mod_small, weekdayOffset_range.
  - intros [[?|(d & Hin & Hd)] Hlt]; [done|]. exists d. split; [|done].
    rewrite <- Hd, <- (Z.mod_small x 7) by lia. rewrite E7.
    replace ((Weekday a + j) mod 7 - Weekday a + 7) with ((Weekday a + j) mod 7 + (7 - Weekday a)) by lia.
    rewrite Zplus_mod_idemp_l. replace (Weekday a + j + (7 - Weekday a)) with (j + 1 * 7) by lia.
    by rewrite Z.mod_add by lia.
Qed.

(** The walk's test is [selected]. *)
Lemma weekly_hit s now a (j : nat) (b : bool) :
  loc a = UTC ->
  negb (Before (Nat.iter j (fun t => AddDate t 0 0 1) a) now)
  && existsb (Z.eqb ((0 + Z.of_nat j) mod (7 * interval_of s))) (valid_offsets a (Days s))
  && admitted (parseWindow s) (Nat.iter j (fun t => AddDate t 0 0 1) a) = b
  <-> (if b then selected s now a (Z.of_nat j) else ~ selected s now a (Z.of_nat j)).
Proof.
  intros Hl. rewrite weekly_day, Z.add_0_l by done.
  assert (Hiff : negb (Before (day_after a (Z.of_nat j)) now)
    && existsb (Z.eqb (Z.of_nat j mod (7 * interval_of s))) (valid_offsets a (Days s))
    && admitted (parseWindow s) (day_after a (Z.of_nat j)) = true <-> selected s now a (Z.of_nat j)).
  { unfold selected. rewrite !andb_true_iff, negb_true_iff. unfold Before. rewrite Z.ltb_ge.
    pose proof (offsets_spec s a (Z.of_nat j) Hl) as Ho. rewrite existsb_exists.
    assert (Hex : (exists x, In x (valid_offsets a (Days s)) /\ (Z.of_nat j mod (7 * interval_of s) =? x) = true)
                  <-> In (Z.of_nat j mod (7 * interval_of s)) (valid_offsets a (Days s))).
    { split; [intros (x & Hx & <-%Z.eqb_eq); done | intros Hx; eexists; split; [exact Hx | apply Z.eqb_refl]]. }
    rewrite Hex. tauto. }
  destruct b; [done|]. rewrite <- not_true_iff_false. by rewrite Hiff.
Qed.

(** Whether a schedule computes does not depend on the time. *)
Lemma computes_iff s now : is_Some (ComputeNextRunAt s now) <-> is_Some (anchor_of s).
Proof.
  unfold ComputeNextRunAt. destruct (anchor_of s) as [a|].
  - split; intros _; [by eexists|]. cbn [mbind option_bind].
    destruct (_ == "weekly"); eexists; reflexivity.
  - split; intros [x Hx]; discriminate Hx.
Qed.

Lemma computes_any_time sched t t' :
  is_Some (computeRecurringNextRunAt sched t) -> is_Some (computeRecurringNextRunAt sched t').
Proof.
  unfold computeRecurringNextRunAt. destruct sched as [| |rs]; [intros [x Hx]; discriminate Hx.. |].
  by rewrite !fmap_is_Some, !computes_iff.
Qed.

(** ** Properties *)

(** C11: a "minute" or "hourly" schedule without a daily window has a closed
    form: its occurrences are the grid [anchor + k * step], and the next one is
    the smallest grid point not before [now] as long as fewer than 1000 steps
    separate it from the anchor; from the 1000th step on the result is the
    anchor itself, in the past. *)
Theorem fixed_schedule_closed_form (s : RecurringSchedule) (now a : Time) (u : Z)
    (Ha : anchor_of s = Some a)
    (Hu : fixed_unit (ToLower (TrimSpace (Frequency s))) = Some u)
    (Hw : parseWindow s = None)
    (Hi : interval_of s * u <= int64_max) :
  exists k, ComputeNextRunAt s now = Some (if k <? 1000 then TimeAdd a (k * (interval_of s * u)) else a)
    /\ 0 <= k /\ inst now <= inst a + k * (interval_of s * u)
    /\ (forall j, 0 <= j -> inst now <= inst a + j * (interval_of s * u) -> k <= j).
Proof.
  pose proof (fixed_unit_pos _ _ Hu) as Hupos. pose proof (interval_pos s) as Hint.
  rewrite (compute_fixed s now a u) by done. cbn zeta.
  set (step := interval_of s * u). assert (Hs : 0 < step) by (unfold step; nia). clearbody step.
  eexists. split; [reflexivity|]. destruct (inst now <=? inst a) eqn:E; breflect.
  - split_and!; [lia | lia |]. intros; lia.
  - split_and!.
    + apply Z.div_pos; lia.
    + pose proof (Z.mod_pos_bound (inst now - inst a + step - 1) step Hs).
      pose proof (Z.div_mod (inst now - inst a + step - 1) step ltac:(lia)). nia.
    + intros j Hj Hn. apply Z.lt_succ_r, Z.div_lt_upper_bound; nia.
Qed.

(** C37: the recurring fire of a "minute" or "hourly" schedule without a window
    stops for good once 999 steps have passed since the anchor: the advance
    that precedes a fire then stores the anchor as the next run, and no scan at
    that or any later time finds the row due. *)
Theorem fixed_schedule_stops (db db' : DB) (id : string) (v : Z) (s : RecurringSchedule) (a : Time) (u : Z)
    (Ha : anchor_of s = Some a)
    (Hu : fixed_unit (ToLower (TrimSpace (Frequency s))) = Some u)
    (Hw : parseWindow s = None)
    (Hi : interval_of s * u <= int64_max)
    (Hlate : inst a + 999 * (interval_of s * u) < WorkItems.now db)
    (Hadv : advanceNextRunAt id v (JVal s) db = Ok (tt, db')) :
  exists w, items db' !! ID w = Some w /\ NextRunAt w = Some (inst a)
    /\ (forall later, WorkItems.now db <= WorkItems.now later -> due later w = false).
Proof.
  pose proof (fixed_unit_pos _ _ Hu) as Hupos. pose proof (interval_pos s) as Hint.
  unfold advanceNextRunAt, computeRecurringNextRunAt in Hadv.
  rewrite (compute_fixed s _ a u) in Hadv by done. cbn zeta in Hadv. cbn [inst utc_time] in Hadv.
  set (step := interval_of s * u) in *.
  assert (Hs : Minute <= step) by (pose proof (fixed_unit_minute _ _ Hu); unfold step, Minute, Second in *; nia).
  assert (HM : Minute = 60000000000) by done. clearbody step.
  assert (E1 : (WorkItems.now db <=? inst a) = false) by (apply Z.leb_gt; nia).
  rewrite E1 in Hadv.
  assert (E2 : ((WorkItems.now db - inst a + step - 1) / step <? 1000) = false).
  { apply Z.ltb_ge, Z.div_le_lower_bound; lia. }
  rewrite E2 in Hadv. cbn [fmap option_fmap option_map] in Hadv.
  destruct (UpdateWorkItem id v _ db) as [[w' db1]|] eqn:E; [|done]. injection Hadv as <-.
  apply UpdateWorkItem_ok in E as (w & _ & _ & -> & ->).
  eexists. split; [apply lookup_insert_eq|]. split; [done|].
  intros later Hl. unfold due. cbn [NextRunAt apply_fields set_next_run fNextRunAt fClearRecurringSchedule].
  assert (E3 : (WorkItems.now later - 5 * Minute <=? inst a) = false) by (apply Z.leb_gt; nia).
  rewrite E3. by rewrite andb_false_r.
Qed.

(** the next occurrence is never in the past and always inside the daily
    window, unless the bounded search gave up and returned the anchor. *)
Theorem next_occurrence_sound (s : RecurringSchedule) (now r : Time)
    (Hr : ComputeNextRunAt s now = Some r) :
  anchor_of s = Some r \/ inst now <= inst r /\ admitted (parseWindow s) r = true.
Proof.
  destruct (compute_cases s now r Hr) as (a & Ha & H). rewrite Ha. cbn zeta in H.
  destruct (_ == "weekly").
  - destruct (weekly_walk _ _ _ _ _ _ _) as [t|] eqn:E; simpl in H; subst r; [right | by left].
    by apply weekly_walk_sound in E.
  - destruct (next_walk _ _ _ _ _ _ _) as [t|] eqn:E; simpl in H; subst r; [right | by left].
    by apply next_walk_sound in E.
Qed.

(** C24: what a weekly schedule in UTC computes.  Day [j] after the anchor is
    selected when it is not before now, one of the named weekdays (any, when
    none is named), in a cadence week counted from the anchor, and inside the
    daily window.  The result is the first selected of the 1000 days from the
    anchor on; it is the anchor itself, whatever its weekday, only when none of
    them is selected. *)
Theorem weekly_hits_selected_days (s : RecurringSchedule) (now a r : Time)
    (Hf : ToLower (TrimSpace (Frequency s)) = "weekly")
    (Ha : anchor_of s = Some a)
    (Hl : loc a = UTC)
    (Hr : ComputeNextRunAt s now = Some r) :
  (exists j, 0 <= j < 1000 /\ r = day_after a j /\ selected s now a j
             /\ forall i, 0 <= i < j -> ~ selected s now a i)
  \/ (r = a /\ forall i, 0 <= i < 1000 -> ~ selected s now a i).
Proof.
  destruct (compute_cases s now r Hr) as (a' & Ha' & H). rewrite Ha in Ha'. injection Ha' as <-.
  cbn zeta in H. rewrite Hf in H. rewrite String.eqb_refl in H. cbv iota in H.
  pose proof (weekly_walk_first 1000 now a 0 (7 * interval_of s) (valid_offsets a (Days s)) (parseWindow s)) as Hw.
  cbv zeta in Hw.
  destruct (weekly_walk _ _ _ _ _ _ _) as [t|]; cbn [option_or] in H; subst r; [left | right].
  - destruct Hw as (j & Hj & -> & Hhit & Hmin). exists (Z.of_nat j).
    apply (weekly_hit s now a j true Hl) in Hhit.
    rewrite weekly_day by done. split_and!; [lia | lia | done | done |].
    intros i Hi. rewrite <- (Z2Nat.id i) by lia. apply (weekly_hit s now a _ false Hl), Hmin. lia.
  - split; [done|]. intros i Hi. rewrite <- (Z2Nat.id i) by lia. apply (weekly_hit s now a _ false Hl), Hw. lia.
Qed.

(** C25: every schedule the API accepts has an anchor, in every time zone
    database: the fire path always finds a next run for it. *)
Theorem validated_schedule_computes (msg s : RecurringSchedule) (now : Time)
    (Hv : ValidateRecurringSchedule msg = Ok s) :
  exists r, ComputeNextRunAt s now = Some r.
Proof.
  assert (Ha : exists a, anchor_of s = Some a).
  { unfold ValidateRecurringSchedule in Hv. repeat inv_bind Hv. injection Hv as <-.
    unfold anchor_of. cbn [StartDate StartTime Timezone].
    repeat match goal with E : guard_r _ _ = Ok _ |- _ => apply guard_r_ok in E end.
    destruct (parse_date (TrimSpace (StartDate msg))) eqn:Ed; [|done].
    destruct (parse_clock (TrimSpace (StartTime msg))) eqn:Et; [|done].
    destruct (parse_date_clock_ok (TrimSpace (StartDate msg)) (TrimSpace (StartTime msg))
                (option_or UTC (RecurringZone (TrimSpace (Timezone msg))))) as (-> & -> & H);
      [by rewrite Ed | by rewrite Et |].
    destruct (parse_date_clock _ _) eqn:E'; [by eexists | done]. }
  destruct Ha as [a Ha]. unfold ComputeNextRunAt. rewrite Ha. cbn [mbind option_bind].
  destruct (_ == "weekly"); by eexists.
Qed.

(** C38: an occurrence is fired at most once: the conditional advance that
    precedes a fire moves the row's version, so a second pass that still holds
    what it scanned before starts nothing, whatever happened to the store in
    between.  It does nothing at all when its scan saw children or a workflow;
    a reference with neither only marks the item failed, as it would have been
    by the first pass. *)
Theorem occurrence_fired_once (db db1 db2 : DB) (ref : wiRef) (w1 w2 : WorkItemRow)
    (Hadv : advanceNextRunAt (ref_id ref) (ref_version ref) (ref_schedule ref) db = Ok (tt, db1))
    (Hmoved : is_Some (computeRecurringNextRunAt (ref_schedule ref) (WorkItems.now db)))
    (H1 : items db1 !! ref_id ref = Some w1) (H2 : items db2 !! ref_id ref = Some w2)
    (Hlater : Version w1 <= Version w2) (Hkey : keyed db) :
  fire_one db2 ref
  = if ref_hasChildren ref || ref_bound ref then (db2, [])
    else (settle (failNoWorkflowItemTx (ref_id ref) "no workflow is set") db2, [(ref_id ref, "failed")]).
Proof.
  destruct (computes_any_time _ _ (WorkItems.now db2) Hmoved) as [t2 Ht2]. destruct Hmoved as [t Ht].
  unfold advanceNextRunAt in Hadv. rewrite Ht in Hadv.
  destruct (UpdateWorkItem _ _ _ db) as [[w' db']|] eqn:E; [|done]. injection Hadv as <-.
  apply UpdateWorkItem_ok in E as (w0 & H0 & Hv & -> & ->).
  cbn [items with_items] in H1. rewrite (Hkey _ _ H0), lookup_insert_eq in H1.
  injection H1 as <-. cbn [Version apply_fields] in Hlater.
  assert (Hstale : exists e, advanceNextRunAt (ref_id ref) (ref_version ref) (ref_schedule ref) db2 = Err e).
  { unfold advanceNextRunAt. rewrite Ht2. unfold UpdateWorkItem. rewrite H2.
    assert (E : (Version w2 =? ref_version ref) = false) by (apply Z.eqb_neq; lia). rewrite E. by eexists. }
  destruct Hstale as [e He]. unfold fire_one. rewrite He.
  destruct (ref_hasChildren ref); [by destruct sequence|]. by destruct (ref_bound ref).
Qed.

End zones.

(** ** Concrete instances *)

Definition no_zones : string -> option Location := fun _ => None.

(** Every minute from the last midnight of 1969. *)
Definition every_minute : RecurringSchedule :=
  mkSchedule "minute" 1 [] "1969-12-31" "00:00" "standard" "" "" "".

(** Mondays and Thursdays at 09:30, from Wednesday 2025-01-01. *)
Definition mon_thu : RecurringSchedule :=
  mkSchedule "Weekly" 1 ["Mon"; "Thu"] " 2025-01-01" "09:30" "standard" "" "" "".

Definition schedule_row (s : RecurringSchedule) : WorkItemRow :=
  mkItem "r" "p" None "task" "r" WorkItemRecurring None (Some "wf") "" None JNull None false
    (JVal s) (Some 0) true None None false None 0 None 0 None 1 0 0.

Lemma fixed_schedule_closed_form_witness :
  exists k, ComputeNextRunAt no_zones every_minute (utc_time 90000000001)
            = Some (if k <? 1000 then TimeAdd (utc_time (-86400000000000)) (k * 60000000000)
                    else utc_time (-86400000000000)).
Proof.
  destruct (fixed_schedule_closed_form no_zones every_minute (utc_time 90000000001)
              (utc_time (-86400000000000)) Minute) as (k & H & _);
    [reflexivity | reflexivity | reflexivity | done |].
  exists k. exact H.
Defined.

Lemma fixed_schedule_stops_witness :
  match advanceNextRunAt no_zones "r" 1 (JVal every_minute) (sample_db [schedule_row every_minute] []) with
  | Ok (_, db') => exists w, items db' !! ID w = Some w /\ NextRunAt w = Some (-86400000000000)
                             /\ due db' w = false
  | Err _ => False
  end.
Proof.
  destruct (advanceNextRunAt _ _ _ _ _) as [[[] db']|e] eqn:E; [|by vm_compute in E].
  assert (Hn : WorkItems.now db' = 1000) by (vm_compute in E; injection E as <-; done).
  destruct (fixed_schedule_stops no_zones (sample_db [schedule_row every_minute] []) db' "r" 1 every_minute
              (utc_time (-86400000000000)) Minute) as (w & H1 & H2 & H3);
    [reflexivity | reflexivity | reflexivity | done | done | exact E |].
  exists w. split; [exact H1 | split; [exact H2 | apply H3; rewrite Hn; done]].
Defined.

Lemma next_occurrence_sound_witness :
  let now := utc_time 1735800000000000000 in
  match ComputeNextRunAt no_zones mon_thu now with
  | Some r => anchor_of no_zones mon_thu = Some r \/ inst now <= inst r /\ admitted (parseWindow mon_thu) r = true
  | None => False
  end.
Proof.
  cbv zeta. destruct (ComputeNextRunAt _ _ _) as [r|] eqn:E; [|by vm_compute in E].
  exact (next_occurrence_sound _ _ _ _ E).
Defined.

(** Asked on Thursday 2025-01-02 at 09:45, the schedule names Monday the 6th. *)
Lemma weekly_hits_selected_days_witness :
  ComputeNextRunAt no_zones mon_thu (utc_time 1735811100000000000) = Some (utc_time 1736155800000000000)
  /\ exists j, utc_time 1736155800000000000 = day_after (utc_time 1735723800000000000) j
     /\ selected mon_thu (utc_time 1735811100000000000) (utc_time 1735723800000000000) j.
Proof.
  assert (H : ComputeNextRunAt no_zones mon_thu (utc_time 1735811100000000000)
              = Some (utc_time 1736155800000000000)) by (vm_compute; reflexivity).
  split; [exact H|].
  destruct (weekly_hits_selected_days no_zones mon_thu (utc_time 1735811100000000000)
              (utc_time 1735723800000000000) (utc_time 1736155800000000000)) as [(j & _ & Hj & Hs & _) | [Hr _]];
    [reflexivity | vm_compute; reflexivity | reflexivity | exact H | exists j; split; [exact Hj | exact Hs]
    | discriminate Hr].
Defined.

Lemma validated_schedule_computes_witness :
  match ValidateRecurringSchedule no_zones mon_thu with
  | Ok s => exists r, ComputeNextRunAt no_zones s (utc_time 0) = Some r
  | Err _ => False
  end.
Proof.
  destruct (ValidateRecurringSchedule no_zones mon_thu) as [s|e] eqn:E; [|by vm_compute in E].
  exact (validated_schedule_computes no_zones mon_thu s (utc_time 0) E).
Defined.

Lemma occurrence_fired_once_witness :
  let db := sample_db [schedule_row mon_thu] [] in
  let ref := scan_ref db (schedule_row mon_thu) in
  let sequence := Some (fun (_ : string) db => (db, true)) in
  let start := fun (_ _ _ _ : string) db => (db, true) in
  match advanceNextRunAt no_zones (ref_id ref) (ref_version ref) (ref_schedule ref) db with
  | Ok (_, db1) => fire_one no_zones sequence start db1 ref = (db1, [])
  | Err _ => False
  end.
Proof.
  cbv zeta. destruct (advanceNextRunAt _ _ _ _ _) as [[[] db1]|e] eqn:E; [|by vm_compute in E].
  assert (H : exists w1, items db1 !! "r" = Some w1).
  { vm_compute in E. injection E as <-. eexists. vm_compute. reflexivity. }
  destruct H as (w1 & H1).
  apply (occurrence_fired_once no_zones (Some (fun _ db => (db, true))) (fun _ _ _ _ db => (db, true))
           (sample_db [schedule_row mon_thu] []) db1 db1
           (scan_ref (sample_db [schedule_row mon_thu] []) (schedule_row mon_thu)) w1 w1).
  - exact E.
  - exists 1735810200000000000. vm_compute. reflexivity.
  - exact H1.
  - exact H1.
  - reflexivity.
  - intros id w Hw. cbn in Hw. unfold sample_db in Hw. cbn [items list_to_map map foldr] in Hw.
    apply lookup_insert_Some in Hw as [[<- <-] | [_ Hw]]; [reflexivity | discriminate Hw].
Defined.
