(* ===== verification/WorkItemUpdate.v ===== *)
(** * Editing a work item (internal/workitem/service.go, [UpdateWorkItem])

    The handler of an edit, in the order of the source: the request's fields,
    the guards, the kind switch, the moves between projects, the status flips,
    the result-state checks, the row's update with the events of a kind
    switch, the replacement of the dependency edges, and the decision to start
    a run after the commit.  The texts, budgets, secrets, context files and
    runtime image of a request are left out: they are validated and stored
    without an effect on the rest.  [itemHasChildren] reads a snapshot of its
    own; nothing has been written before it is called, so it reads the
    transaction's state here. *)

From S2P Require Import Prelude GoStrings Domain WorkItems Dependencies Hierarchy Calendar Recurring.

(** ** The request *)

Inductive WorkItemKindProto :=
| WORK_ITEM_KIND_UNSPECIFIED | WORK_ITEM_KIND_EPIC | WORK_ITEM_KIND_FEATURE
| WORK_ITEM_KIND_TASK | WORK_ITEM_KIND_SUBTASK.

Inductive WorkItemStatusProto :=
| WORK_ITEM_STATUS_UNSPECIFIED | WORK_ITEM_STATUS_PENDING | WORK_ITEM_STATUS_READY
| WORK_ITEM_STATUS_ASSIGNED | WORK_ITEM_STATUS_RUNNING | WORK_ITEM_STATUS_CHECKPOINTING
| WORK_ITEM_STATUS_SUCCEEDED | WORK_ITEM_STATUS_FAILED | WORK_ITEM_STATUS_CANCELLED
| WORK_ITEM_STATUS_RECOVERING | WORK_ITEM_STATUS_SCHEDULED | WORK_ITEM_STATUS_RECURRING
| WORK_ITEM_STATUS_BLOCKED | WORK_ITEM_STATUS_SKIPPED | WORK_ITEM_STATUS_ARCHIVED
| WORK_ITEM_STATUS_IDEA.

Definition validateKind (kind : WorkItemKindProto) : option string :=
  match kind with
  | WORK_ITEM_KIND_EPIC => Some WorkItemKindEpic
  | WORK_ITEM_KIND_FEATURE => Some WorkItemKindFeature
  | WORK_ITEM_KIND_TASK => Some WorkItemKindTask
  | WORK_ITEM_KIND_SUBTASK => Some WorkItemKindSubtask
  | WORK_ITEM_KIND_UNSPECIFIED => None
  end.

Definition validateStatus (status : WorkItemStatusProto) : string :=
  match status with
  | WORK_ITEM_STATUS_PENDING => WorkItemPending
  | WORK_ITEM_STATUS_READY => WorkItemReady
  | WORK_ITEM_STATUS_ASSIGNED => WorkItemAssigned
  | WORK_ITEM_STATUS_RUNNING => WorkItemRunning
  | WORK_ITEM_STATUS_CHECKPOINTING => WorkItemCheckpointing
  | WORK_ITEM_STATUS_SUCCEEDED => WorkItemSucceeded
  | WORK_ITEM_STATUS_FAILED => WorkItemFailed
  | WORK_ITEM_STATUS_CANCELLED => WorkItemCancelled
  | WORK_ITEM_STATUS_RECOVERING => WorkItemRecovering
  | WORK_ITEM_STATUS_SCHEDULED => WorkItemScheduled
  | WORK_ITEM_STATUS_RECURRING => WorkItemRecurring
  | WORK_ITEM_STATUS_BLOCKED => WorkItemBlocked
  | WORK_ITEM_STATUS_SKIPPED => WorkItemSkipped
  | WORK_ITEM_STATUS_ARCHIVED => WorkItemArchived
  | WORK_ITEM_STATUS_IDEA => WorkItemIdea
  | WORK_ITEM_STATUS_UNSPECIFIED => WorkItemPending
  end.

Record UpdateWorkItemRequest := mkUpdateRequest {
  rId : string;
  rKind : option WorkItemKindProto;
  rStatus : option WorkItemStatusProto;
  rProjectId : option string;
  rWorkflowId : option string;
  rParentId : option string;
  rClearScheduledStartAt : bool;
  rScheduledStartAt : option Z;
  rAutoStartWorkflow : option bool;
  rRecurringSchedule : option RecurringSchedule;
  rRecurringEnabled : option bool;
  rWorkflowRunId : option string;
  rDependsOn : option (list string) }.

(** ** Assignments to the update's fields *)

Definition put_status (s : string) (f : UpdateWorkItemFields) : UpdateWorkItemFields :=
  mkFields (fTitle f) (Some s) (fAssignedWorkerRef f) (fClearAssignedWorkerRef f) (fKind f)
    (fProjectID f) (fWorkflowID f) (fParentID f) (fResults f) (fWorkflowRunID f) (fScheduledStartAt f)
    (fClearScheduledStartAt f) (fAutoStartWorkflow f) (fSortOrder f) (fRecurringSchedule f)
    (fNextRunAt f) (fClearRecurringSchedule f) (fRecurringEnabled f).

Definition put_kind (k : string) (f : UpdateWorkItemFields) : UpdateWorkItemFields :=
  mkFields (fTitle f) (fStatus f) (fAssignedWorkerRef f) (fClearAssignedWorkerRef f) (Some k)
    (fProjectID f) (fWorkflowID f) (fParentID f) (fResults f) (fWorkflowRunID f) (fScheduledStartAt f)
    (fClearScheduledStartAt f) (fAutoStartWorkflow f) (fSortOrder f) (fRecurringSchedule f)
    (fNextRunAt f) (fClearRecurringSchedule f) (fRecurringEnabled f).

Definition put_parent (p : string) (f : UpdateWorkItemFields) : UpdateWorkItemFields :=
  mkFields (fTitle f) (fStatus f) (fAssignedWorkerRef f) (fClearAssignedWorkerRef f) (fKind f)
    (fProjectID f) (fWorkflowID f) (Some p) (fResults f) (fWorkflowRunID f) (fScheduledStartAt f)
    (fClearScheduledStartAt f) (fAutoStartWorkflow f) (fSortOrder f) (fRecurringSchedule f)
    (fNextRunAt f) (fClearRecurringSchedule f) (fRecurringEnabled f).

Definition put_next_run (t : option Z) (f : UpdateWorkItemFields) : UpdateWorkItemFields :=
  mkFields (fTitle f) (fStatus f) (fAssignedWorkerRef f) (fClearAssignedWorkerRef f) (fKind f)
    (fProjectID f) (fWorkflowID f) (fParentID f) (fResults f) (fWorkflowRunID f) (fScheduledStartAt f)
    (fClearScheduledStartAt f) (fAutoStartWorkflow f) (fSortOrder f) (fRecurringSchedule f)
    t (fClearRecurringSchedule f) (fRecurringEnabled f).

(** Each flag is set, never reset. *)
Definition set_clears (worker scheduled recurring : bool) (f : UpdateWorkItemFields)
    : UpdateWorkItemFields :=
  mkFields (fTitle f) (fStatus f) (fAssignedWorkerRef f) (fClearAssignedWorkerRef f || worker) (fKind f)
    (fProjectID f) (fWorkflowID f) (fParentID f) (fResults f) (fWorkflowRunID f) (fScheduledStartAt f)
    (fClearScheduledStartAt f || scheduled) (fAutoStartWorkflow f) (fSortOrder f) (fRecurringSchedule f)
    (fNextRunAt f) (fClearRecurringSchedule f || recurring) (fRecurringEnabled f).

Definition is_some {A} (o : option A) : bool := match o with Some _ => true | None => false end.

(** [msg.AutoStartWorkflow != nil && *msg.AutoStartWorkflow]. *)
Definition is_true (o : option bool) : bool := option_or false o.

Section service.
Context (LoadLocation : string -> option Location).
Context (newID : string -> string).

(** ** The steps of the handler *)

(** The part before the transaction begins. *)
Definition request_fields (m : UpdateWorkItemRequest) : Tx UpdateWorkItemFields :=
  guard_tx (rId m == "") (ErrInvalid "id");;
  status ← (match rStatus m with
            | None => mret None
            | Some p =>
                let st := validateStatus p in
                guard_tx (st == WorkItemArchived) (ErrInvalid "archived");;
                guard_tx (st == WorkItemIdea) (ErrInvalid "idea");;
                mret (Some st)
            end);
  let scheduled := if rClearScheduledStartAt m then None else rScheduledStartAt m in
  let clearScheduled := rClearScheduledStartAt m
    || (is_true (rAutoStartWorkflow m) && negb (is_some (rScheduledStartAt m))) in
  db ← read;
  '(schedule, next, clearRecurring) ←
    (match rRecurringSchedule m with
     | None => mret (None, None, false)
     | Some rs =>
         if IsRecurringScheduleEmpty rs then mret (None, None, true)
         else match ValidateRecurringSchedule LoadLocation rs with
              | Err _ => fail (ErrInvalid "recurring_schedule")
              | Ok s => mret (Some s, inst <$> ComputeNextRunAt LoadLocation rs (utc_time (now db)), false)
              end
     end);
  mret (mkFields None status None false None (rProjectId m) (rWorkflowId m) (rParentId m) None
          (rWorkflowRunId m) scheduled clearScheduled (rAutoStartWorkflow m) None schedule next
          clearRecurring (rRecurringEnabled m)).

(** The project the item is in after the edit. *)
Definition effective_project (f : UpdateWorkItemFields) (current : WorkItemRow) : string :=
  match fProjectID f with
  | Some p => if p == "" then ProjectID current else p
  | None => ProjectID current
  end.

Definition workItemInProject (db : DB) (id projectID : string) : bool :=
  match items db !! id with Some w => ProjectID w == projectID | None => false end.

(** A kind switch together with a move needs a parent chosen for the target. *)
Definition check_switch_move (m : UpdateWorkItemRequest) (f : UpdateWorkItemFields) (current : WorkItemRow)
    : Tx unit :=
  let eff := effective_project f current in
  if eff == ProjectID current then mret tt
  else
    let keepCurrent := match rParentId m, ParentID current with Some a, Some b => a == b | _, _ => false end in
    if is_some (rParentId m) && negb keepCurrent then mret tt
    else
      db ← read;
      let carryOK := keepCurrent && match ParentID current with
                                    | Some p => workItemInProject db p eff
                                    | None => false
                                    end in
      guard_tx (negb carryOK) (ErrInvalid "choose the new parent explicitly").

(** The plan of a kind switch with the new kind; [None] without one. *)
Definition switch_plan (m : UpdateWorkItemRequest) (f : UpdateWorkItemFields) (current : WorkItemRow)
    : Tx (option (KindSwitchPlan * string)) :=
  match rKind m with
  | None => mret None
  | Some k =>
      match validateKind k with
      | None => fail (ErrInvalid "kind")
      | Some newKind =>
          if newKind == Kind current then mret None
          else
            check_switch_move m f current;;
            plan ← ResolveKindSwitch current newKind (rParentId m) (effective_project f current);
            mret (Some (plan, newKind))
      end
  end.

Definition RequireProjectActive (projectID : string) : Tx unit :=
  fun db => match projects db !! projectID with
            | None => Err ErrNotFound
            | Some s => if s == "active" then Ok (tt, db) else Err (ErrInvalid "project")
            end.

Definition check_move (f : UpdateWorkItemFields) (current : WorkItemRow) : Tx unit :=
  match fProjectID f with
  | None => mret tt
  | Some p =>
      if p == ProjectID current then mret tt
      else
        RequireProjectActive p;;
        db ← read;
        guard_tx (ItemParticipatesInDependency db (ID current)) (ErrInvalid "dependency edges")
  end.

Definition check_parent (m : UpdateWorkItemRequest) (switching : bool) (f : UpdateWorkItemFields)
    (current : WorkItemRow) : Tx unit :=
  let recurring := json_present (RecurringScheduleCol current) in
  match rParentId m with
  | Some pid =>
      if switching then mret tt
      else ValidateParent pid (Kind current) (effective_project f current) recurring (Ephemeral current)
  | None =>
      match fProjectID f, ParentID current with
      | Some p, Some parent =>
          if negb (p == "") && negb (p == ProjectID current)
          then ValidateParent parent (Kind current) p recurring (Ephemeral current)
          else mret tt
      | _, _ => mret tt
      end
  end.

(** [fields.X = plan.X] for what the plan of a kind switch decides. *)
Definition apply_plan (current : WorkItemRow) (plan : KindSwitchPlan) (f : UpdateWorkItemFields)
    : UpdateWorkItemFields :=
  let f := match NewParentID plan, ParentID current with
           | Some p, None => put_parent p f
           | Some p, Some old => if old == p then f else put_parent p f
           | None, Some _ => put_parent "" f
           | None, None => f
           end in
  let f := match NewStatus plan with Some s => put_status s f | None => f end in
  set_clears (ClearWorkerRef plan) (ClearScheduledStartAt plan) (ClearRecurringSchedule plan) f.

(** Saving a scheduled start, then a recurring schedule, flips the status. *)
Definition flip_status (m : UpdateWorkItemRequest) (plan : option KindSwitchPlan) (current : WorkItemRow)
    (f : UpdateWorkItemFields) : UpdateWorkItemFields :=
  let f := if is_some (rScheduledStartAt m) && negb (IsActiveRunStatus (Status current))
              && negb (match plan with Some p => ClearScheduledStartAt p | None => false end)
           then put_status WorkItemScheduled f else f in
  if match rRecurringSchedule m with Some rs => negb (IsRecurringScheduleEmpty rs) | None => false end
     && negb (IsActiveRunStatus (Status current))
     && negb (match plan with Some p => ClearRecurringSchedule p | None => false end)
  then put_status WorkItemRecurring f else f.

(** [fields.Status != nil && *fields.Status != "recurring"]. *)
Definition other_status (f : UpdateWorkItemFields) : bool :=
  match fStatus f with Some s => negb (s == WorkItemRecurring) | None => false end.

(** The schedule stays present in the edited row. *)
Definition schedule_present (current : WorkItemRow) (f : UpdateWorkItemFields) : bool :=
  negb (fClearRecurringSchedule f)
  && (is_some (fRecurringSchedule f) || json_present (RecurringScheduleCol current)).

(** Leaving "recurring" clears the schedule; "recurring" without a schedule
    becomes "pending". *)
Definition settle_recurring (current : WorkItemRow) (f : UpdateWorkItemFields) : UpdateWorkItemFields :=
  let f := if other_status f && json_present (RecurringScheduleCol current)
           then set_clears false false true f else f in
  let wouldBeRecurring := (Status current == WorkItemRecurring)
    || match fStatus f with Some s => s == WorkItemRecurring | None => false end in
  if wouldBeRecurring && negb (schedule_present current f) && negb (other_status f)
  then put_status WorkItemPending f else f.

(** Resuming a paused schedule re-arms it at its next boundary. *)
Definition rearm (m : UpdateWorkItemRequest) (current : WorkItemRow) (t : Z) (f : UpdateWorkItemFields)
    : UpdateWorkItemFields :=
  if is_true (rRecurringEnabled m) && json_present (RecurringScheduleCol current)
     && negb (is_some (fRecurringSchedule f)) && negb (fClearRecurringSchedule f)
  then put_next_run (ComputeNextRunAtFromScheduleJSON LoadLocation (RecurringScheduleCol current) t) f
  else f.

(** The workflow after the edit. *)
Definition effective_workflow (m : UpdateWorkItemRequest) (current : WorkItemRow) : option string :=
  match rWorkflowId m with Some w => Some w | None => WorkflowID current end.

Definition itemHasChildren (db : DB) (id : string) : bool :=
  match ListDirectChildren db id with [] => false | _ => true end.

Definition with_workflow (wf : option string) (w : WorkItemRow) : WorkItemRow :=
  mkItem (ID w) (ProjectID w) (ParentID w) (Kind w) (Title w) (Status w) (AssignedWorkerRef w)
    wf (WorkflowRunID w) (SortOrder w) (Results w) (ScheduledStartAt w)
    (AutoStartWorkflow w) (RecurringScheduleCol w) (NextRunAt w) (RecurringEnabled w) (ArchivedAt w)
    (ArchivedFromStatus w) (Ephemeral w) (SpawnedBy w) (SequenceAttempts w) (SequenceLastAttemptAt w)
    (SequenceConsecutiveScanErrors w) (SequenceLastProgressAt w) (Version w) (CreatedAt w) (UpdatedAt w).

(** Flatness and binding of a recurring result, workflow-first transitions,
    and the subtree of a scheduled or started item. *)
Definition check_result (m : UpdateWorkItemRequest) (current : WorkItemRow) (f : UpdateWorkItemFields)
    : Tx unit :=
  db ← read;
  let wf := effective_workflow m current in
  let hasChildren := itemHasChildren db (ID current) in
  (if schedule_present current f then
     ValidateRecurringFlatness true (upd (fKind f) (Kind current))
       (match fParentID f with Some p => p | None => option_or "" (ParentID current) end);;
     ValidateRecurringWorkflowBinding true hasChildren (option_or "" wf)
   else mret tt);;
  (match fStatus f with
   | Some s => if s == Status current then mret tt else ValidateWorkflowFirstTransition s wf hasChildren
   | None => mret tt
   end);;
  (if is_some (rScheduledStartAt m) || is_true (rAutoStartWorkflow m)
   then ValidateSequenceSchedule (with_workflow wf current) else mret tt).

(** Every reparented child is updated in the same transaction. *)
Definition reparent (cr : ChildReparent) : Tx unit :=
  UpdateWorkItem (ChildID cr) (ChildVersion cr)
    (mkFields None None None false None None None (ChildNewParentID cr) None None None false None None
       None None false None);;
  enqueueEvent "work_item.updated" (ChildID cr).

Definition emit_update (plan : option KindSwitchPlan) (id : string) : Tx unit :=
  match plan with
  | Some p =>
      enqueueEvent "work_item.kind_changed" id;;
      enqueueEvent "work_item.updated" id;;
      each reparent (ReparentedChildren p)
  | None => enqueueEvent "work_item.updated" id
  end.

(** ** The run an edit asks for, after the commit *)

Inductive start_request :=
| StartSequence (id : string)
| StartWorkflow (workflow project id : string).

(** The item's previous run is over, or unknown. *)
Definition run_is_over (db : DB) (runID : string) : bool :=
  if runID == "" then true
  else match runs db !! runID with
       | None => true
       | Some r => (RunStatus r == WorkflowRunCompleted) || (RunStatus r == WorkflowRunFailed)
                   || (RunStatus r == WorkflowRunAborted)
       end.

Definition auto_start (m : UpdateWorkItemRequest) (switching : bool) (current : WorkItemRow)
    (f : UpdateWorkItemFields) (updated : WorkItemRow) (db : DB) : option start_request :=
  let explicit := is_true (rAutoStartWorkflow m) in
  let requestNamedStart := explicit || is_some (rScheduledStartAt m) in
  if requestNamedStart && negb (is_some (ScheduledStartAt updated)) && AutoStartWorkflow updated
     && negb (switching && negb explicit)
  then
    let effectiveStatus := upd (fStatus f) (Status current) in
    if explicit || IsStartableForAutoStart effectiveStatus then
      if itemHasChildren db (ID updated) then Some (StartSequence (ID updated))
      else match WorkflowID updated with
           | Some wf => if negb (wf == "") && run_is_over db (WorkflowRunID updated)
                        then Some (StartWorkflow wf (ProjectID updated) (ID updated)) else None
           | None => None
           end
    else None
  else None.

(** The fields the row is updated with. *)
Definition final_fields (m : UpdateWorkItemRequest) (current : WorkItemRow)
    (plan : option (KindSwitchPlan * string)) (t : Z) (f : UpdateWorkItemFields) : UpdateWorkItemFields :=
  let f := match plan with Some (p, k) => apply_plan current p (put_kind k f) | None => f end in
  rearm m current t (settle_recurring current (flip_status m (fst <$> plan) current f)).

Definition Service_UpdateWorkItem (m : UpdateWorkItemRequest) : Tx (WorkItemRow * option start_request) :=
  f ← request_fields m;
  current ← GetWorkItem (rId m);
  guard_tx (IsIdeaStatus (Status current)) (ErrInvalid "idea");;
  let f := set_clears (bound (rWorkflowId m) && is_some (AssignedWorkerRef current)) false false f in
  plan ← switch_plan m f current;
  check_move f current;;
  check_parent m (is_some plan) f current;;
  db ← read;
  let f := final_fields m current plan (now db) f in
  check_result m current f;;
  updated ← UpdateWorkItem (rId m) (Version current) f;
  emit_update (fst <$> plan) (ID updated);;
  (match rDependsOn m with
   | Some ids => replaceDependsOn newID (effective_project f current) (ID updated) ids
   | None => mret tt
   end);;
  recordAudit "work_item.updated" (ID updated);;
  db' ← read;
  mret (updated, auto_start m (is_some plan) current f updated db').

End service.

(** ** The steps before the update only read *)

Definition read_only {A} (m : Tx A) : Prop := forall db a db', m db = Ok (a, db') -> db' = db.

Lemma ro_ret {A} (a : A) : read_only (mret a).
Proof. by intros db b db' [= <- <-]. Qed.

Lemma ro_fail {A} e : read_only (@fail A e).
Proof. done. Qed.

Lemma ro_read : read_only read.
Proof. by intros db b db' [= <- <-]. Qed.

Lemma ro_guard b e : read_only (guard_tx b e).
Proof. unfold guard_tx. destruct b; [apply ro_fail | apply ro_ret]. Qed.

Lemma ro_get id : read_only (GetWorkItem id).
Proof. by intros db w db' [_ ->]%GetWorkItem_ok. Qed.

Lemma ro_bind {A B} (m : Tx A) (k : A -> Tx B) :
  read_only m -> (forall a, read_only (k a)) -> read_only (m ≫= k).
Proof. intros Hm Hk db b db' (a & db1 & ->%Hm & H)%tx_bind_ok. by apply Hk in H. Qed.

#[export] Hint Resolve ro_ret ro_fail ro_read ro_guard ro_get : orch.

(** Decompose a transaction into its reads. *)
Ltac ro :=
  repeat first
    [ assumption
    | solve [eauto with orch]
    | apply ro_bind; [ | intros ? ]
    | progress cbn beta iota zeta
    | case_match ].

Lemma ro_validate_parent p k pr r e : read_only (ValidateParent p k pr r e).
Proof. unfold ValidateParent, validateTopLevelKind, validateKindDepth. ro. Qed.

Lemma ro_ancestor fuel p d pr : read_only (nearestShallowerAncestor fuel p d pr).
Proof. revert p. induction fuel as [|fuel IH]; intros p; cbn [nearestShallowerAncestor]; ro. Qed.

Lemma ro_run_active r : read_only (workflowRunActive r).
Proof. intros db b db'. unfold workflowRunActive. repeat case_match; by intros [= _ <-]. Qed.

#[export] Hint Resolve ro_validate_parent ro_ancestor ro_run_active : orch.

Lemma ro_resolve_parent c k e p : read_only (resolve_parent c k e p).
Proof. unfold resolve_parent. ro. Qed.

Lemma ro_resolve c k e p : read_only (ResolveKindSwitch c k e p).
Proof. unfold ResolveKindSwitch, resolve_parent. ro. Qed.

Lemma ro_sequence_subtree w : read_only (ValidateSequenceSubtree w).
Proof. intros db a db'. unfold ValidateSequenceSubtree. case_match; [by intros [= _ <-] | done]. Qed.

Lemma ro_project p : read_only (RequireProjectActive p).
Proof. intros db a db'. unfold RequireProjectActive. repeat case_match; by intros [= _ <-]. Qed.

#[export] Hint Resolve ro_resolve ro_sequence_subtree ro_project : orch.

Lemma ro_sequence_schedule w : read_only (ValidateSequenceSchedule w).
Proof. unfold ValidateSequenceSchedule. ro. Qed.

#[export] Hint Resolve ro_sequence_schedule : orch.

Lemma ro_check_result m c f : read_only (check_result m c f).
Proof.
  unfold check_result, ValidateRecurringFlatness, ValidateRecurringWorkflowBinding,
    ValidateWorkflowFirstTransition. ro.
Qed.

Lemma ro_request z m : read_only (request_fields z m).
Proof. unfold request_fields. ro. Qed.

Lemma ro_switch_move m f c : read_only (check_switch_move m f c).
Proof. unfold check_switch_move. ro. Qed.

#[export] Hint Resolve ro_switch_move : orch.

Lemma ro_switch m f c : read_only (switch_plan m f c).
Proof. unfold switch_plan. ro. Qed.

Lemma ro_move f c : read_only (check_move f c).
Proof. unfold check_move. ro. Qed.

Lemma ro_check_parent m s f c : read_only (check_parent m s f c).
Proof. unfold check_parent. ro. Qed.

(** ** What a successful edit did *)

Section edit.
Context (LoadLocation : string -> option Location) (newID : string -> string).

(** The fields after the assignment to the worker's slot. *)
Definition bound_fields (m : UpdateWorkItemRequest) (current : WorkItemRow) (f : UpdateWorkItemFields)
    : UpdateWorkItemFields :=
  set_clears (bound (rWorkflowId m) && is_some (AssignedWorkerRef current)) false false f.

(** Everything the steps before the update establish. *)
Record edit_facts (m : UpdateWorkItemRequest) (db : DB) (w : WorkItemRow) := {
  ef_f : UpdateWorkItemFields;
  ef_current : WorkItemRow;
  ef_plan : option (KindSwitchPlan * string);
  ef_final := final_fields LoadLocation m ef_current ef_plan (now db) (bound_fields m ef_current ef_f);
  ef_request : request_fields LoadLocation m db = Ok (ef_f, db);
  ef_item : items db !! rId m = Some ef_current;
  ef_idea : IsIdeaStatus (Status ef_current) = false;
  ef_switch : switch_plan m (bound_fields m ef_current ef_f) ef_current db = Ok (ef_plan, db);
  ef_parent : check_parent m (is_some ef_plan) (bound_fields m ef_current ef_f) ef_current db = Ok (tt, db);
  ef_result : check_result m ef_current ef_final db = Ok (tt, db);
  ef_row : w = apply_fields (now db) ef_final ef_current }.

(** A transaction that succeeds only reads. *)
Ltac ro_eq H L :=
  let E := fresh "Ero" in pose proof H as E; apply L in E; rewrite E in *; clear E.

Lemma edit_inv m db w st db' :
  Service_UpdateWorkItem LoadLocation newID m db = Ok ((w, st), db') ->
  exists (ef : edit_facts m db w) db2 db3,
    emit_update (fst <$> ef_plan m db w ef) (ID w) (with_items db (<[ID w := w]> (items db))) = Ok (tt, db2)
    /\ (match rDependsOn m with
        | Some ids => replaceDependsOn newID (effective_project (ef_final m db w ef) (ef_current m db w ef))
                        (ID w) ids
        | None => mret tt
        end) db2 = Ok (tt, db3)
    /\ db' = with_logs db3 (outbox db3) (audit db3 ++ [("work_item.updated", ID w)])
    /\ st = auto_start m (is_some (ef_plan m db w ef)) (ef_current m db w ef) (ef_final m db w ef) w db'.
Proof.
  unfold Service_UpdateWorkItem. intros H.
  apply tx_bind_ok in H as (f & s1 & Hf & H). ro_eq Hf ro_request.
  apply tx_bind_ok in H as (cur & s2 & Hc & H). apply GetWorkItem_ok in Hc as [Hc ->].
  apply tx_bind_ok in H as (u1 & s3 & Hi & H). apply guard_tx_ok in Hi as [Hi ->].
  apply tx_bind_ok in H as (plan & s4 & Hp & H). ro_eq Hp ro_switch.
  apply tx_bind_ok in H as ([] & s5 & Hm & H). ro_eq Hm ro_move.
  apply tx_bind_ok in H as ([] & s6 & Hpar & H). ro_eq Hpar ro_check_parent.
  apply tx_bind_ok in H as (dbr & s7 & Hr & H). injection Hr as -> ->.
  apply tx_bind_ok in H as ([] & s8 & Hres & H). ro_eq Hres ro_check_result.
  apply tx_bind_ok in H as (upd & s9 & Hu & H).
  apply UpdateWorkItem_ok in Hu as (w0 & Hw0 & _ & -> & ->). rewrite Hc in Hw0. injection Hw0 as <-.
  apply tx_bind_ok in H as ([] & s10 & He & H).
  apply tx_bind_ok in H as ([] & s11 & Hd & H).
  apply tx_bind_ok in H as ([] & s12 & Ha & H). injection Ha as <-.
  apply tx_bind_ok in H as (dbx & s13 & Hx & H). injection Hx as <- <-.
  injection H as <- <- <-.
  unshelve eexists (Build_edit_facts m _ _ f cur plan Hf Hc Hi Hp Hpar Hres eq_refl), s10, s11.
  split_and!; [exact He | exact Hd | reflexivity | reflexivity].
Qed.

(** ** The recurring state of the result *)

Lemma present_row t f cur :
  json_present (RecurringScheduleCol (apply_fields t f cur)) = schedule_present cur f.
Proof.
  unfold apply_fields, schedule_present. cbn [RecurringScheduleCol].
  destruct (fClearRecurringSchedule f); [done|]. by destruct (fRecurringSchedule f).
Qed.

Lemma rearm_same m cur t f :
  fStatus (rearm LoadLocation m cur t f) = fStatus f
  /\ schedule_present cur (rearm LoadLocation m cur t f) = schedule_present cur f
  /\ fParentID (rearm LoadLocation m cur t f) = fParentID f
  /\ fKind (rearm LoadLocation m cur t f) = fKind f
  /\ fWorkflowID (rearm LoadLocation m cur t f) = fWorkflowID f.
Proof. unfold rearm. by destruct (_ && _ && _ && _). Qed.

Lemma settle_recurring_ok cur f :
  upd (fStatus (settle_recurring cur f)) (Status cur) = WorkItemRecurring ->
  schedule_present cur (settle_recurring cur f) = true.
Proof.
  unfold settle_recurring.
  set (g := if other_status f && json_present (RecurringScheduleCol cur)
            then set_clears false false true f else f).
  assert (Hs : fStatus g = fStatus f) by (unfold g; by destruct (_ && _)). cbn zeta. clearbody g.
  unfold upd, other_status. clear Hs. intros H.
  destruct (fStatus g) as [s|] eqn:E; cbn [option_or] in *.
  - destruct (s == WorkItemRecurring) eqn:Er.
    + rewrite orb_true_r in *. cbn [andb negb] in *. rewrite andb_true_r in *.
      destruct (schedule_present cur g) eqn:Ep; [done|]. by cbn in H.
    + rewrite andb_false_r in *. rewrite E in H. apply String.eqb_neq in Er. done.
  - rewrite orb_false_r, andb_true_r in *.
    destruct (schedule_present cur g) eqn:Ep; [by rewrite andb_false_r|].
    rewrite andb_true_r in *. destruct (Status cur == WorkItemRecurring) eqn:Er; [by cbn in H|].
    rewrite E in H. cbn in H. apply String.eqb_neq in Er. done.
Qed.

Lemma settle_same cur f :
  fParentID (settle_recurring cur f) = fParentID f /\ fKind (settle_recurring cur f) = fKind f
  /\ fWorkflowID (settle_recurring cur f) = fWorkflowID f.
Proof. unfold settle_recurring. by repeat case_match. Qed.

Lemma flip_same m p cur f :
  fParentID (flip_status m p cur f) = fParentID f /\ fKind (flip_status m p cur f) = fKind f
  /\ fWorkflowID (flip_status m p cur f) = fWorkflowID f.
Proof. unfold flip_status. by repeat case_match. Qed.

Lemma apply_plan_workflow cur p f : fWorkflowID (apply_plan cur p f) = fWorkflowID f.
Proof. unfold apply_plan. cbn [fWorkflowID set_clears]. by repeat case_match. Qed.

Lemma request_fields_spec m db f :
  request_fields LoadLocation m db = Ok (f, db) ->
  fParentID f = rParentId m /\ fWorkflowID f = rWorkflowId m /\ fProjectID f = rProjectId m
  /\ fKind f = None.
Proof.
  unfold request_fields. intros H. apply tx_bind_ok in H as (? & ? & _ & H).
  apply tx_bind_ok in H as (? & ? & _ & H). apply tx_bind_ok in H as (? & ? & _ & H).
  apply tx_bind_ok in H as ([[? ?] ?] & ? & _ & H). by injection H as <- <-.
Qed.

Lemma final_workflow m cur plan t f db :
  request_fields LoadLocation m db = Ok (f, db) ->
  fWorkflowID (final_fields LoadLocation m cur plan t (bound_fields m cur f)) = rWorkflowId m.
Proof.
  intros (_ & <- & _)%request_fields_spec. unfold final_fields.
  edestruct rearm_same as (_ & _ & _ & _ & ->). edestruct settle_same as (_ & _ & ->).
  edestruct flip_same as (_ & _ & ->). destruct plan as [[p k]|]; [by rewrite apply_plan_workflow | done].
Qed.

(** C15: "recurring" is derived state: whatever the request asks for, an edited
    item is in status "recurring" only while a recurring schedule is present
    on its row. *)
Theorem recurring_status_has_schedule (m : UpdateWorkItemRequest) (db db' : DB) (w : WorkItemRow)
  (st : option start_request)
  (H : Service_UpdateWorkItem LoadLocation newID m db = Ok ((w, st), db'))
  (Hs : Status w = WorkItemRecurring) :
  json_present (RecurringScheduleCol w) = true.
Proof.
  apply edit_inv in H as (ef & _ & _ & _). rewrite (ef_row _ _ _ ef) in *. rewrite present_row.
  cbn [Status apply_fields] in Hs. unfold ef_final, final_fields in *.
  edestruct rearm_same as (E1 & E2 & _). rewrite E1 in Hs. rewrite E2. by apply settle_recurring_ok.
Qed.

(** C27: an edit that leaves a recurring schedule on a row leaves a flat task
    with something to run: kind "task", no parent, and either children or a
    workflow. *)
Theorem recurring_result_is_flat (m : UpdateWorkItemRequest) (db db' : DB) (w : WorkItemRow)
  (st : option start_request)
  (H : Service_UpdateWorkItem LoadLocation newID m db = Ok ((w, st), db'))
  (Hs : json_present (RecurringScheduleCol w) = true) :
  Kind w = WorkItemKindTask /\ option_or "" (ParentID w) = ""
  /\ (ListDirectChildren db (ID w) = [] -> option_or "" (WorkflowID w) <> "").
Proof.
  apply edit_inv in H as (ef & _ & _ & _). pose proof (ef_row _ _ _ ef) as Hw. pose proof (ef_result _ _ _ ef) as Hr.
  assert (Hwf : fWorkflowID (ef_final m db w ef) = rWorkflowId m).
  { exact (final_workflow _ _ _ _ _ _ (ef_request _ _ _ ef)). }
  set (cur := ef_current _ _ _ ef) in *. set (f := ef_final _ _ _ ef) in *. clearbody cur f. subst w.
  rewrite present_row in Hs. unfold check_result in Hr.
  apply tx_bind_ok in Hr as (dbr & s & [= <- <-] & Hr). rewrite Hs in Hr.
  apply tx_bind_ok in Hr as ([] & s1 & Hr & _).
  apply tx_bind_ok in Hr as ([] & s2 & Hflat & Hbind).
  unfold ValidateRecurringFlatness in Hflat. cbn [negb] in Hflat.
  apply tx_bind_ok in Hflat as ([] & s3 & [Hk _]%guard_tx_ok & [Hp _]%guard_tx_ok).
  apply guard_tx_ok in Hbind as [Hb _]. cbn [andb] in Hb.
  apply negb_false_iff, String.eqb_eq in Hk, Hp. cbn [Kind ParentID WorkflowID ID apply_fields].
  rewrite Hwf in *. split_and!; [done | |].
  - unfold upd_null. destruct (fParentID f) as [p|]; [|done]. subst p. done.
  - intros Hc. unfold itemHasChildren in Hb. rewrite Hc in Hb. cbn [negb andb] in Hb.
    apply String.eqb_neq in Hb. unfold effective_workflow, upd_null in *.
    destruct (rWorkflowId m) as [x|]; [|done]. cbn [option_or] in Hb. apply String.eqb_neq in Hb.
    rewrite Hb. by apply String.eqb_neq.
Qed.

(** ** The hierarchy across a kind switch *)

Lemma ResolveKindSwitch_inv cur nk ep pr db plan db' :
  ResolveKindSwitch cur nk ep pr db = Ok (plan, db') ->
  exists kind, NormalizeWorkItemKind nk = Some kind
    /\ ReparentedChildren plan
       = map (fun c => mkReparent (ID c) (Version c) (NewParentID plan))
           (List.filter (fun c => (kindOrder (Kind c) <=? kindOrder kind)%Z) (ListDirectChildren db (ID cur)))
    /\ (kind = WorkItemKindEpic /\ NewParentID plan = None
        \/ kind <> WorkItemKindEpic /\ exists p, NewParentID plan = Some p /\ resolve_parent cur kind ep pr db = Ok (p, db)).
Proof.
  unfold ResolveKindSwitch. destruct (NormalizeWorkItemKind nk) as [kind|]; [|done].
  intros H. exists kind. split; [done|].
  apply tx_bind_ok in H as (? & ? & [_ ->]%guard_tx_ok & H).
  apply tx_bind_ok in H as (act & ? & Ha & H). ro_eq Ha ro_run_active. clear Ha.
  apply tx_bind_ok in H as (? & ? & [_ ->]%guard_tx_ok & H).
  apply tx_bind_ok in H as (rp & s & Hrp & H).
  assert (Hs : s = db /\ (kind = WorkItemKindEpic /\ rp = None
                 \/ kind <> WorkItemKindEpic /\ exists p, rp = Some p /\ resolve_parent cur kind ep pr db = Ok (p, db))).
  { destruct (kind == WorkItemKindEpic) eqn:E.
    - injection Hrp as <- <-. apply String.eqb_eq in E. auto.
    - apply tx_bind_ok in Hrp as (p & s1 & Hp & [= <- <-]).
      assert (s1 = db) as -> by (revert Hp; apply ro_resolve_parent). split; [done|]. right.
      apply String.eqb_neq in E. split; [done|]. by exists p. }
  destruct Hs as [-> Hs]. apply tx_bind_ok in H as (dbr & s & [= <- <-] & H).
  destruct (isSchedulableKind kind); injection H as <- <-; split; (done || exact Hs).
Qed.

Lemma nearest_spec fuel s d pr db p db' :
  keyed db -> tree_ok db -> nearestShallowerAncestor fuel s d pr db = Ok (p, db') ->
  exists row srow, items db !! p = Some row /\ (kindOrder (Kind row) < d)%Z
    /\ items db !! s = Some srow /\ (kindOrder (Kind row) <= kindOrder (Kind srow))%Z.
Proof.
  intros Hk Ht. revert s. induction fuel as [|fuel IH]; intros s H; cbn [nearestShallowerAncestor] in H; [done|].
  apply tx_bind_ok in H as (srow & s1 & [Hs ->]%GetWorkItem_ok & H).
  apply tx_bind_ok in H as (? & s1 & [_ ->]%guard_tx_ok & H).
  destruct (kindOrder (Kind srow) <? d)%Z eqn:E.
  - injection H as <- <-. apply Z.ltb_lt in E. exists srow, srow. rewrite (Hk _ _ Hs). by split_and!.
  - destruct (ParentID srow) as [q|] eqn:Eq; [|done].
    apply IH in H as (row & qrow & Hp & Hd & Hq & Hle). exists row, srow. split_and!; try done.
    pose proof (Ht _ _ _ _ Hs Eq Hq). lia.
Qed.

(** The reparenting loop changes the parents of the listed rows only. *)
Lemma each_reparent_spec np l db x db' id w2 :
  keyed db -> Forall (fun cr => ChildNewParentID cr = np) l ->
  each reparent l db = Ok (x, db') -> items db' !! id = Some w2 ->
  exists w1, items db !! id = Some w1 /\ Kind w2 = Kind w1
    /\ (ParentID w2 = ParentID w1 /\ ~ In id (map ChildID l)
        \/ ParentID w2 = upd_null np (ParentID w1) /\ In id (map ChildID l)).
Proof.
  intros Hk Hall. revert db Hk. induction Hall as [|cr l Hcr Hall IH]; intros db Hk H Hid.
  - injection H as _ <-. exists w2. split_and!; [done | done |]. left. split; [done | by intros []].
  - cbn [each] in H. apply tx_bind_ok in H as (? & s1 & H1 & H).
    apply tx_bind_ok in H1 as (w' & s2 & Hu & [= _ <-]).
    apply UpdateWorkItem_ok in Hu as (w0 & Hw0 & _ & Hw' & ->). pose proof (Hk _ _ Hw0) as HID.
    apply IH in H as (w1 & Hw1 & Hkind & Hpar); [| | done].
    2: { rewrite Hw'. exact (keyed_insert db (apply_fields _ _ w0) Hk). }
    cbn [items with_logs with_items] in Hw1. rewrite Hw' in Hw1. cbn [ID apply_fields] in Hw1.
    rewrite HID in Hw1. cbn [map In]. apply lookup_insert_Some in Hw1 as [[Hid' <-] | [Hne Hw1]].
    + subst id. exists w0. split_and!; [done | by rewrite Hkind |]. right. split; [|by left].
      cbn [ParentID apply_fields fParentID] in Hpar. rewrite Hcr in Hpar.
      destruct Hpar as [[-> _] | [-> _]]; [done|]. unfold upd_null. by repeat case_match.
    + exists w1. split_and!; [done | done |]. destruct Hpar as [[? ?] | [? ?]]; [left | right]; split; try done.
      * intros [? | ?]; done.
      * by right.
Qed.

Lemma validateKind_normal k nk : validateKind k = Some nk -> NormalizeWorkItemKind nk = Some nk.
Proof. by destruct k; intros [= <-]. Qed.

(** When a row [w] replaces [cur] and the rows of [moved] get the parent [np],
    a link after the change is well placed if it is unchanged or each changed
    link is checked, up to the pairs [bad] allows. *)
Lemma switch_link (bad : string -> string -> Prop) db db2 cur w (moved : list string) np :
  tree_ok db -> items db !! ID cur = Some cur ->
  (forall id w2, items db2 !! id = Some w2 -> exists w1, <[ID cur := w]> (items db) !! id = Some w1
     /\ Kind w2 = Kind w1
     /\ (ParentID w2 = ParentID w1 /\ ~ In id moved
         \/ ParentID w2 = upd_null np (ParentID w1) /\ In id moved)) ->
  (forall id c, items db !! id = Some c -> ParentID c = Some (ID cur) -> ~ In id moved ->
     (kindOrder (Kind w) < kindOrder (Kind c))%Z \/ bad id (ID cur)) ->
  (forall pid p, ParentID w = Some pid -> items db !! pid = Some p ->
     pid <> ID cur /\ (kindOrder (Kind p) < kindOrder (Kind w))%Z \/ bad (ID cur) pid) ->
  ~ In (ID cur) moved ->
  (forall id c pid p, In id moved -> items db !! id = Some c -> upd_null np (ParentID c) = Some pid ->
     items db !! pid = Some p -> pid <> ID cur /\ (kindOrder (Kind p) < kindOrder (Kind c))%Z \/ bad id pid) ->
  forall id w2 pid p2, items db2 !! id = Some w2 -> ParentID w2 = Some pid -> items db2 !! pid = Some p2 ->
  (kindOrder (Kind p2) < kindOrder (Kind w2))%Z \/ bad id pid.
Proof.
  intros Ht Hcur Hspec Hrest Hown Hself Hmoved id w2 pid p2 Hid Hpar Hpid.
  apply Hspec in Hid as (w1 & Hw1 & -> & Hpar1). apply Hspec in Hpid as (p1 & Hp1 & -> & _).
  apply lookup_insert_Some in Hw1 as [[<- <-] | [Hne Hw1]].
  - destruct Hpar1 as [[Hp _] | [_ ?]]; [|done]. rewrite Hp in Hpar.
    apply lookup_insert_Some in Hp1 as [[<- <-] | [_ Hp1]].
    + destruct (Hown _ _ Hpar Hcur) as [[? _] | ?]; [done | by right].
    + destruct (Hown _ _ Hpar Hp1) as [[_ ?] | ?]; [by left | by right].
  - destruct Hpar1 as [[Hp Hnot] | [Hp Hin]]; rewrite Hp in Hpar.
    + apply lookup_insert_Some in Hp1 as [[<- <-] | [_ Hp1]]; [by eapply Hrest | left; by eapply Ht].
    + apply lookup_insert_Some in Hp1 as [[<- <-] | [_ Hp1]].
      * destruct (Hmoved _ _ _ _ Hin Hw1 Hpar Hcur) as [[? _] | ?]; [done | by right].
      * destruct (Hmoved _ _ _ _ Hin Hw1 Hpar Hp1) as [[_ ?] | ?]; [by left | by right].
Qed.

Lemma upd_null_some f old p : upd_null f old = Some p -> (f = None /\ old = Some p) \/ f = Some p.
Proof. unfold upd_null. destruct f as [v|]; [|auto]. destruct (v == ""); [done|]. intros [= ->]. auto. Qed.

Lemma final_kind_parent m cur plan t f db :
  request_fields LoadLocation m db = Ok (f, db) ->
  let ff := final_fields LoadLocation m cur plan t (bound_fields m cur f) in
  match plan with
  | None => fKind ff = None /\ fParentID ff = rParentId m
  | Some (p, k) => fKind ff = Some k
      /\ fParentID ff = match NewParentID p, ParentID cur with
                        | Some np, Some old => if old == np then rParentId m else Some np
                        | Some np, None => Some np
                        | None, Some _ => Some ""
                        | None, None => rParentId m
                        end
  end.
Proof.
  intros (<- & _ & _ & Hk)%request_fields_spec ff. unfold ff, final_fields.
  edestruct rearm_same as (_ & _ & -> & -> & _). edestruct settle_same as (-> & -> & _).
  edestruct flip_same as (-> & -> & _). destruct plan as [[p k]|]; [|by rewrite <- Hk].
  unfold apply_plan. cbn [fKind fParentID set_clears].
  destruct (NewStatus p), (NewParentID p), (ParentID cur); cbn; try done; by destruct (_ == _).
Qed.

Lemma replaceDependsOn_items p item l db x db' :
  replaceDependsOn newID p item l db = Ok (x, db') -> items db' = items db.
Proof.
  unfold replaceDependsOn. intros H.
  apply tx_bind_ok in H as (? & ? & [= <- <-] & H).
  apply tx_bind_ok in H as (des & s1 & Hv & H). apply validateDependsOn_inv in Hv as [-> _].
  apply tx_bind_ok in H as (? & s2 & [= _ <-] & H).
  apply tx_bind_ok in H as (? & s3 & Hi & H).
  assert (Ha : forall A (g : A -> Tx unit) l db1 y db2,
    (forall a d1 z d2, g a d1 = Ok (z, d2) -> items d2 = items d1) ->
    each g l db1 = Ok (y, db2) -> items db2 = items db1).
  { intros A g l0. induction l0 as [|a l0 IH]; intros db1 y db2 Hg Hl; [by injection Hl as _ <-|].
    cbn [each] in Hl. apply tx_bind_ok in Hl as (? & s & H1 & Hl).
    apply IH in Hl; [|done]. apply Hg in H1. congruence. }
  apply Ha in H; [|by intros a d1 z d2 [= _ <-]]. apply Ha in Hi; [by rewrite H, Hi|].
  intros a d1 z d2 Hd. unfold insert_edge in Hd.
  apply tx_bind_ok in Hd as (? & ? & [= <- <-] & Hd).
  apply tx_bind_ok in Hd as (? & ? & [_ ->]%guard_tx_ok & Hd).
  apply tx_bind_ok in Hd as (? & ? & (_ & _ & ->)%CreateDependency_ok & Hd).
  destruct (existsb _ _); [by injection Hd as _ <-|].
  apply tx_bind_ok in Hd as (? & ? & [= _ <-] & Hd). by injection Hd as _ <-.
Qed.

(** The facts about the parent a switch without a new explicit parent
    resolves to. *)
Lemma resolve_auto cur kind ep pr db p db' :
  keyed db -> tree_ok db -> items db !! ID cur = Some cur -> (ep = None \/ ep = ParentID cur) ->
  resolve_parent cur kind ep pr db = Ok (p, db') ->
  exists row, items db !! p = Some row /\ (kindOrder (Kind row) < kindOrder kind)%Z
    /\ (kindOrder (Kind row) < kindOrder (Kind cur))%Z.
Proof.
  intros Hk Ht Hcur Hep. unfold resolve_parent.
  assert (Hexp : match ep, ParentID cur with
                 | Some e, Some p => if e == p then None else Some e
                 | e, _ => e end = None).
  { destruct Hep as [-> | ->]; [by destruct (ParentID cur)|].
    destruct (ParentID cur); [by rewrite String.eqb_refl | done]. }
  rewrite Hexp. destruct (ParentID cur) as [par|] eqn:Ep; [|done].
  intros H. apply nearest_spec in H as (row & srow & Hp & Hd & Hs & Hle); [|done..].
  exists row. split_and!; [done | done |]. pose proof (Ht _ _ _ _ Hcur Ep Hs). lia.
Qed.

(** An explicit new parent is another item, strictly shallower than the new
    kind. *)
Lemma resolve_explicit cur kind e pr db p db' :
  e <> "" -> ParentID cur <> Some e -> resolve_parent cur kind (Some e) pr db = Ok (p, db') ->
  p = e /\ e <> ID cur /\ exists row, items db !! e = Some row /\ (kindOrder (Kind row) < kindOrder kind)%Z.
Proof.
  intros He Hold. unfold resolve_parent. apply String.eqb_neq in He.
  assert (Hexp : match ParentID cur with
                 | Some p => if e == p then None else Some e
                 | None => Some e end = Some e).
  { destruct (ParentID cur) as [p0|]; [|done]. destruct (e == p0) eqn:E; [|done].
    apply String.eqb_eq in E as ->. done. }
  rewrite Hexp. intros H.
  apply tx_bind_ok in H as (? & ? & [Hself ->]%guard_tx_ok & H).
  apply tx_bind_ok in H as (? & ? & Hv & [= <- _]). split; [done|]. split; [by apply String.eqb_neq|].
  unfold ValidateParent in Hv. rewrite He in Hv.
  apply tx_bind_ok in Hv as (row & ? & [Hp ->]%GetWorkItem_ok & Hv).
  apply tx_bind_ok in Hv as (? & ? & [_ ->]%guard_tx_ok & Hv).
  apply guard_tx_ok in Hv as [Hv _]. apply Z.leb_gt in Hv. by exists row.
Qed.

(** A switch to a kind other than epic never resolves to "no parent" for an
    empty explicit parent: only an epic may be at the top. *)
Lemma resolve_empty cur kind pr db p db' :
  kind <> WorkItemKindEpic -> ParentID cur <> Some "" -> resolve_parent cur kind (Some "") pr db = Ok (p, db') ->
  False.
Proof.
  intros Hk Hold. unfold resolve_parent.
  assert (Hexp : match ParentID cur with
                 | Some p => if "" == p then None else Some ""
                 | None => Some "" end = Some "").
  { destruct (ParentID cur) as [[|]|]; done. }
  rewrite Hexp. intros H.
  apply tx_bind_ok in H as (? & ? & _ & H).
  apply tx_bind_ok in H as (? & ? & Hv & _). cbn in Hv. unfold validateTopLevelKind in Hv.
  apply guard_tx_ok in Hv as [Hv _]. by apply negb_false_iff, String.eqb_eq in Hv.
Qed.

Lemma check_parent_spec m f cur pid db db' :
  rParentId m = Some pid -> pid <> "" ->
  check_parent m false f cur db = Ok (tt, db') ->
  exists p, items db !! pid = Some p /\ (kindOrder (Kind p) < kindOrder (Kind cur))%Z.
Proof.
  intros Hm Hne H. unfold check_parent in H. rewrite Hm in H. unfold ValidateParent in H.
  apply String.eqb_neq in Hne. rewrite Hne in H.
  apply tx_bind_ok in H as (p & ? & [Hp ->]%GetWorkItem_ok & H).
  apply tx_bind_ok in H as (? & ? & [_ ->]%guard_tx_ok & H).
  apply guard_tx_ok in H as [H _]. apply Z.leb_gt in H. by exists p.
Qed.

(** The children of [cur] the switch moves. *)
Definition moved_ids (db : DB) (cur : WorkItemRow) (k : string) : list string :=
  map ID (List.filter (fun c => (kindOrder (Kind c) <=? kindOrder k)%Z) (ListDirectChildren db (ID cur))).

Lemma moved_ids_spec db cur k id c :
  keyed db -> items db !! id = Some c -> In id (moved_ids db cur k) ->
  ParentID c = Some (ID cur) /\ (kindOrder (Kind c) <= kindOrder k)%Z /\ ArchivedAt c = None.
Proof.
  intros Hk Hc (c' & Hid & [Hin Hle]%List.filter_In)%in_map_iff. apply Z.leb_le in Hle.
  apply ListDirectChildren_spec in Hin as ([id' Hc'] & Hp & Hvis).
  pose proof (Hk _ _ Hc') as E. rewrite <- E, Hid in Hc'. rewrite Hc in Hc'. injection Hc' as <-. done.
Qed.

(** The links a kind switch can leave at a wrong depth: that of an archived
    child, which the switch neither lists nor moves; that of a child moved
    along to a requested parent, which was checked against the item's new kind
    only; and the item's own link, when a top-level item becomes an epic and
    the request names a parent, which is then stored unchecked. *)
Definition misplaced (m : UpdateWorkItemRequest) (db : DB) (cur w : WorkItemRow) (id pid : string) : Prop :=
  rKind m <> None /\ Kind w <> Kind cur
  /\ (pid = ID cur /\ (exists c, items db !! id = Some c /\ ParentID c = Some (ID cur)
                        /\ ArchivedAt c <> None /\ (kindOrder (Kind c) <= kindOrder (Kind w))%Z)
      \/ rParentId m = Some pid /\ ParentID cur <> Some pid
         /\ (exists c, items db !! id = Some c /\ ParentID c = Some (ID cur)
               /\ ArchivedAt c = None /\ (kindOrder (Kind c) <= kindOrder (Kind w))%Z)
      \/ id = ID cur /\ rParentId m = Some pid /\ ParentID cur = None /\ Kind w = WorkItemKindEpic).

(** The parent a switch resolves to is another item, strictly shallower than
    the new kind; it is the one the request names, or it is shallower than the
    item was. *)
Lemma switch_parent_spec m cur k pr db np :
  keyed db -> tree_ok db -> items db !! ID cur = Some cur -> k <> WorkItemKindEpic ->
  resolve_parent cur k (rParentId m) pr db = Ok (np, db) ->
  np <> ID cur /\ exists row, items db !! np = Some row /\ (kindOrder (Kind row) < kindOrder k)%Z
  /\ ((kindOrder (Kind row) < kindOrder (Kind cur))%Z
      \/ rParentId m = Some np /\ ParentID cur <> Some np).
Proof.
  intros Hk Ht Hcur Hne Hr.
  destruct (decide (rParentId m = None \/ rParentId m = ParentID cur)) as [Ha | Hna].
  - apply resolve_auto in Hr as (row & Hrow & H1 & H2); [|done..].
    split; [|exists row; auto]. intros ->. rewrite Hcur in Hrow. injection Hrow as <-. lia.
  - destruct (rParentId m) as [e|]; [|by destruct Hna; left].
    assert (Hold : ParentID cur <> Some e) by (intros E; apply Hna; by right).
    destruct (decide (e = "")) as [->|He]; [by apply resolve_empty in Hr|].
    apply resolve_explicit in Hr as (-> & Hself & row & Hrow & Hlt); [|done..].
    split; [done|]. exists row. auto.
Qed.

(** The item's own link after a switch. *)
Lemma switch_own_link m cur w p k db f pid :
  fKind f = Some k -> w = apply_fields (now db) f cur ->
  fParentID f = match NewParentID p, ParentID cur with
                | Some np, Some old => if old == np then rParentId m else Some np
                | Some np, None => Some np
                | None, Some _ => Some ""
                | None, None => rParentId m
                end ->
  (forall np, NewParentID p = Some np -> rParentId m = None \/ rParentId m = ParentID cur
     \/ rParentId m = Some np) ->
  ParentID w = Some pid ->
  NewParentID p = Some pid \/ NewParentID p = None /\ ParentID cur = None /\ rParentId m = Some pid.
Proof.
  intros Hfk -> Hfpar Hreq Hp. cbn [ParentID apply_fields] in Hp. rewrite Hfpar in Hp.
  destruct (NewParentID p) as [np|] eqn:Enp, (ParentID cur) as [old|] eqn:Eold; cbn in Hp.
  - destruct (old == np) eqn:E; [apply String.eqb_eq in E; subst old|].
    + left. destruct (Hreq _ eq_refl) as [E0 | [E0 | E0]]; rewrite E0 in Hp; cbn in Hp;
        try destruct (np == ""); by simplify_eq.
    + left. cbn in Hp. destruct (np == ""); by simplify_eq.
  - left. destruct (np == ""); by simplify_eq.
  - done.
  - right. split_and!; [done..|]. destruct (rParentId m) as [e|]; [|done]. cbn in Hp.
    destruct (e == ""); [done|]. by injection Hp as ->.
Qed.

Lemma switched_links m f cur p k db db2 ff (w := apply_fields (now db) ff cur) :
  keyed db -> tree_ok db -> items db !! ID cur = Some cur -> (1 <= kindOrder (Kind cur))%Z ->
  switch_plan m f cur db = Ok (Some (p, k), db) ->
  fKind ff = Some k ->
  fParentID ff = match NewParentID p, ParentID cur with
                 | Some np, Some old => if old == np then rParentId m else Some np
                 | Some np, None => Some np
                 | None, Some _ => Some ""
                 | None, None => rParentId m
                 end ->
  forall x o a,
  each reparent (ReparentedChildren p)
    (with_logs (with_items db (<[ID cur := w]> (items db))) o a) = Ok (x, db2) ->
  forall id w2 pid p2, items db2 !! id = Some w2 -> ParentID w2 = Some pid -> items db2 !! pid = Some p2 ->
  (kindOrder (Kind p2) < kindOrder (Kind w2))%Z \/ misplaced m db cur w id pid.
Proof.
  intros Hk Ht Hcur Hord Hsw Hfk Hfpar x o a Heach.
  assert (HKw : Kind w = k) by (unfold w; cbn [Kind apply_fields]; by rewrite Hfk).
  unfold switch_plan in Hsw. destruct (rKind m) as [kp|] eqn:Ekind; [|by injection Hsw].
  destruct (validateKind kp) as [nk|] eqn:Enk; [|done].
  destruct (nk == Kind cur) eqn:Enew; [by injection Hsw|]. apply String.eqb_neq in Enew.
  apply tx_bind_ok in Hsw as (? & s1 & Hmv & Hsw). ro_eq Hmv ro_switch_move.
  apply tx_bind_ok in Hsw as (pl & s2 & Hres & Hsw). injection Hsw as -> -> ->.
  apply ResolveKindSwitch_inv in Hres as (kind & Hn & Hch & Hrp).
  rewrite (validateKind_normal _ _ Enk) in Hn. injection Hn as <-.
  assert (Hsp : forall np, NewParentID p = Some np -> np <> ID cur /\ exists row, items db !! np = Some row
    /\ (kindOrder (Kind row) < kindOrder k)%Z
    /\ ((kindOrder (Kind row) < kindOrder (Kind cur))%Z \/ rParentId m = Some np /\ ParentID cur <> Some np)).
  { intros np Hnp. destruct Hrp as [[_ Hrp] | [Hne (q & Hq & Hr)]]; [congruence|].
    rewrite Hnp in Hq. injection Hq as <-. by eapply switch_parent_spec. }
  assert (Hmis : forall id pid, (kindOrder (Kind w) = kindOrder k -> Kind w <> Kind cur -> rKind m <> None ->
    misplaced m db cur w id pid) -> misplaced m db cur w id pid).
  { intros id pid Hm. apply Hm; [by rewrite HKw | by rewrite HKw | by rewrite Ekind]. }
  eapply (switch_link (misplaced m db cur w) db db2 cur w (moved_ids db cur k) (NewParentID p)); try done.
  - intros id w2 Hid. replace (moved_ids db cur k) with (map ChildID (ReparentedChildren p))
      by (rewrite Hch, map_map; done).
    eapply (each_reparent_spec (NewParentID p)) in Heach; [exact Heach | | | exact Hid].
    + exact (keyed_insert db w Hk).
    + rewrite Hch. apply List.Forall_map, List.Forall_forall. done.
  - intros id c Hc Hpc Hnot. rewrite HKw. destruct (decide (kindOrder k < kindOrder (Kind c))%Z); [by left | right].
    apply Hmis. intros HK Hd Hr. split_and!; [done..|]. left. split; [done|]. exists c.
    split_and!; [done | done | | lia]. intros Hvis. apply Hnot.
    apply in_map_iff. exists c. split; [by apply Hk|]. apply List.filter_In. split; [|apply Z.leb_le; lia].
    apply ListDirectChildren_spec. split_and!; [by exists id | done | done].
  - intros pid q Hp Hq.
    apply (switch_own_link m cur w p k db ff) in Hp as [Hnp | (Hnp & Hpc & Hr)]; try done.
    + left. destruct (Hsp _ Hnp) as (Hself & row & Hrow & H1 & _). rewrite HKw. split; congruence.
    + right. apply Hmis. intros _ Hd Hkn. split_and!; [done..|]. right. right. split_and!; try done.
      destruct Hrp as [[-> _] | [_ (? & ? & _)]]; congruence.
    + intros np Hnp. destruct Hrp as [[_ Hrp] | [Hne (q' & Hq' & Hr)]]; [congruence|].
      rewrite Hnp in Hq'. injection Hq' as <-.
      destruct (rParentId m) as [e|]; [right | by left].
      destruct (decide (ParentID cur = Some e)) as [|Hold]; [left; congruence | right].
      destruct (decide (e = "")) as [->|He].
      * by apply resolve_empty in Hr.
      * by apply resolve_explicit in Hr as (-> & _).
  - intros Hin. eapply moved_ids_spec in Hin as [Hp _]; [|done|done].
    pose proof (Ht _ _ _ _ Hcur Hp Hcur). lia.
  - intros id c pid q Hin Hc Hp Hq. eapply moved_ids_spec in Hin as (Hpc & Hle & Hvis); [|done|done].
    pose proof (Ht _ _ _ _ Hc Hpc Hcur) as Hlt. apply upd_null_some in Hp as [[Hnp Hold] | Hnp].
    + exfalso. destruct Hrp as [[-> _] | [_ (q' & Hq' & _)]]; [|congruence].
      change (kindOrder WorkItemKindEpic) with 1%Z in Hle. lia.
    + destruct (Hsp _ Hnp) as (Hself & row & Hrow & H1 & [H2 | [H2 H3]]).
      * left. rewrite Hq in Hrow. injection Hrow as <-. split; [done | lia].
      * right. apply Hmis. intros HK Hd Hkn. split_and!; [done..|]. right. left. split_and!; [done..|].
        exists c. split_and!; try done. lia.
Qed.

(** Without a switch the item's own link alone changes, and it is checked. *)
Lemma unswitched_tree m f cur db ff o a :
  tree_ok db -> items db !! ID cur = Some cur ->
  fKind ff = None -> fParentID ff = rParentId m -> check_parent m false f cur db = Ok (tt, db) ->
  tree_ok (with_logs (with_items db (<[ID cur := apply_fields (now db) ff cur]> (items db))) o a).
Proof.
  intros Ht Hcur Hfk Hfpar Hparent id w2 pid p2 H1 H2 H3.
  cut ((kindOrder (Kind p2) < kindOrder (Kind w2))%Z \/ False); [by intros [|[]]|].
  eapply (switch_link (fun _ _ => False) db _ cur (apply_fields (now db) ff cur) [] None Ht Hcur
    _ _ _ _ _ id w2 pid p2 H1 H2 H3); try by intros [].
  Unshelve.
  - intros i x Hx. exists x. split_and!; [done | done |]. left. split; [done | by intros []].
  - intros i c Hc Hpc _. left. cbn [Kind apply_fields]. rewrite Hfk. by eapply Ht.
  - intros q row Hp Hq. left. cbn [Kind ParentID apply_fields] in *. rewrite Hfk, Hfpar in *. cbn [upd option_or] in *.
    assert (Hlt : (kindOrder (Kind row) < kindOrder (Kind cur))%Z).
    { apply upd_null_some in Hp as Hp'. destruct Hp' as [[_ Hold] | Hnew]; [by eapply Ht|].
      destruct (decide (q = "")) as [->|Hne]; [by rewrite Hnew in Hp|].
      destruct (check_parent_spec _ _ _ _ _ _ Hnew Hne Hparent) as (q' & Hq' & Hlt). congruence. }
    split; [|done]. intros ->. rewrite Hcur in Hq. injection Hq as <-. lia.
  - by intros [].
  - by intros i c q p [].
Qed.

Lemma edit_links m db db' cur w st :
  keyed db -> tree_ok db -> items db !! rId m = Some cur -> (1 <= kindOrder (Kind cur))%Z ->
  Service_UpdateWorkItem LoadLocation newID m db = Ok ((w, st), db') ->
  forall id w2 pid p2, items db' !! id = Some w2 -> ParentID w2 = Some pid -> items db' !! pid = Some p2 ->
  (kindOrder (Kind p2) < kindOrder (Kind w2))%Z \/ misplaced m db cur w id pid.
Proof.
  intros Hk Ht Hcur Hkind H.
  apply edit_inv in H as (ef & db2 & db3 & Hemit & Hdeps & -> & _).
  assert (Hitems : items db3 = items db2).
  { destruct (rDependsOn m); [by apply replaceDependsOn_items in Hdeps | by injection Hdeps as <-]. }
  clear Hdeps. cbn [items with_logs]. rewrite Hitems. clear Hitems db3.
  pose proof (ef_item _ _ _ ef) as Hcur'. rewrite Hcur in Hcur'. injection Hcur' as Hc.
  pose proof (ef_request _ _ _ ef) as Hreq. pose proof (ef_switch _ _ _ ef) as Hswitch.
  pose proof (ef_parent _ _ _ ef) as Hparent. pose proof (ef_row _ _ _ ef) as Hrow. unfold ef_final in Hrow.
  rewrite <- Hc in *. clear Hc.
  revert Hemit Hreq Hswitch Hparent Hrow. generalize (ef_plan _ _ _ ef) (ef_f _ _ _ ef). clear ef.
  intros plan f Hemit Hreq Hswitch Hparent ->. set (ff := final_fields _ _ _ _ _ _) in *.
  pose proof (Hk _ _ Hcur) as HID. rewrite <- HID in *.
  pose proof (final_kind_parent m cur plan (now db) f db Hreq) as Hfp. cbn zeta in Hfp. fold ff in Hfp.
  change (ID (apply_fields (now db) ff cur)) with (ID cur) in Hemit.
  destruct plan as [[p k]|]; cbn in Hemit.
  - destruct Hfp as [Hfk Hfpar].
    apply tx_bind_ok in Hemit as (? & ? & [= _ <-] & Hemit).
    apply tx_bind_ok in Hemit as (? & ? & [= _ <-] & Hemit).
    exact (switched_links m _ cur p k db db2 ff Hk Ht Hcur Hkind Hswitch Hfk Hfpar _ _ _ Hemit).
  - injection Hemit as <-. intros id w2 pid p2 H1 H2 H3. left. destruct Hfp as [Hfk Hfpar].
    by eapply unswitched_tree.
Qed.

(** C2: an edit keeps the hierarchy: when every stored parent link leads to a
    strictly shallower item and the edited item has one of the four kinds,
    every link after any accepted edit does too, except for the links a
    kind switch misplaces ([misplaced]: an archived child, a child moved along
    to a requested new parent, and the unchecked parent of a top-level item
    made an epic).  So an edit that is no such switch keeps the whole
    hierarchy: parent edits, moves between projects, and kind switches that
    leave the parent to the resolution and meet no archived child. *)
Theorem edit_keeps_hierarchy (m : UpdateWorkItemRequest) (db db' : DB) (cur w : WorkItemRow)
  (st : option start_request)
  (Hk : keyed db) (Ht : tree_ok db)
  (Hcur : items db !! rId m = Some cur) (Hkind : (1 <= kindOrder (Kind cur))%Z)
  (H : Service_UpdateWorkItem LoadLocation newID m db = Ok ((w, st), db')) :
  (forall id w2 pid p2, items db' !! id = Some w2 -> ParentID w2 = Some pid -> items db' !! pid = Some p2 ->
     (kindOrder (Kind p2) < kindOrder (Kind w2))%Z \/ misplaced m db cur w id pid)
  /\ ((rKind m = None \/ rParentId m = None \/ rParentId m = ParentID cur) ->
      (rKind m = None \/
       forall id c, items db !! id = Some c -> ParentID c = Some (ID cur) -> ArchivedAt c = None) ->
      tree_ok db').
Proof.
  pose proof (edit_links _ _ _ _ _ _ Hk Ht Hcur Hkind H) as Hall. split; [exact Hall|].
  intros Hauto Hvis id w2 pid p2 H1 H2 H3. destruct (Hall _ _ _ _ H1 H2 H3) as [|(Hrk & _ & Hm)]; [done|].
  exfalso. destruct Hauto as [|Hauto]; [done|]. destruct Hvis as [|Hvis]; [done|].
  destruct Hm as [(_ & c & Hc & Hp & Har & _) | [(Hr & Hne & _) | (_ & Hr & Hn & _)]].
  - by apply Har, (Hvis _ _ Hc).
  - destruct Hauto; congruence.
  - destruct Hauto; congruence.
Qed.

Lemma request_scheduled m db f :
  request_fields LoadLocation m db = Ok (f, db) ->
  fClearScheduledStartAt f
  = rClearScheduledStartAt m || (is_true (rAutoStartWorkflow m) && negb (is_some (rScheduledStartAt m)))
  /\ fScheduledStartAt f = (if rClearScheduledStartAt m then None else rScheduledStartAt m).
Proof.
  unfold request_fields. intros H. apply tx_bind_ok in H as (? & ? & _ & H).
  apply tx_bind_ok in H as (? & ? & _ & H). apply tx_bind_ok in H as (? & ? & _ & H).
  apply tx_bind_ok in H as ([[? ?] ?] & ? & _ & H). by injection H as <- <-.
Qed.

Lemma final_scheduled m cur t f :
  fClearScheduledStartAt (final_fields LoadLocation m cur None t f) = fClearScheduledStartAt f
  /\ fScheduledStartAt (final_fields LoadLocation m cur None t f) = fScheduledStartAt f.
Proof.
  unfold final_fields, rearm, settle_recurring, flip_status.
  split; repeat (case_match; cbn [fClearScheduledStartAt fScheduledStartAt put_next_run put_status set_clears];
    rewrite ?orb_false_r); try done.
Qed.

(** Without a kind switch a result with no scheduled start comes from a
    cleared one. *)
Lemma scheduled_cleared m cur f db t x :
  request_fields LoadLocation m db = Ok (f, db) -> rScheduledStartAt m = Some x ->
  is_some (ScheduledStartAt
    (apply_fields t (final_fields LoadLocation m cur None t (bound_fields m cur f)) cur)) = false ->
  rClearScheduledStartAt m = true.
Proof.
  intros [Hc Hs]%request_scheduled Hx. cbn [ScheduledStartAt apply_fields].
  destruct (final_scheduled m cur t (bound_fields m cur f)) as [-> ->].
  unfold bound_fields. cbn [fClearScheduledStartAt fScheduledStartAt set_clears].
  rewrite Hc, Hs, Hx, orb_false_r. cbn [is_some negb]. rewrite andb_false_r, orb_false_r.
  by destruct (rClearScheduledStartAt m).
Qed.

(** C28: an edit starts a run only when the request asks for one: by an
    explicit auto-start, or by a request that both gives and clears a scheduled
    start; and a leaf whose previous run is still active is never started
    again. *)
Theorem start_is_asked_for (m : UpdateWorkItemRequest) (db db' : DB) (w : WorkItemRow) (r : start_request)
  (H : Service_UpdateWorkItem LoadLocation newID m db = Ok ((w, Some r), db')) :
  (rAutoStartWorkflow m = Some true
   \/ rClearScheduledStartAt m = true /\ rScheduledStartAt m <> None)
  /\ AutoStartWorkflow w = true
  /\ (forall wf p id, r = StartWorkflow wf p id ->
        id = ID w /\ Some wf = WorkflowID w /\ run_is_over db' (WorkflowRunID w) = true
        /\ ListDirectChildren db' id = []).
Proof.
  apply edit_inv in H as (ef & db2 & db3 & _ & _ & _ & Hst). symmetry in Hst.
  pose proof (ef_request _ _ _ ef) as Hreq. pose proof (ef_row _ _ _ ef) as Hrow. unfold ef_final in *.
  revert Hreq Hrow Hst. generalize (ef_plan _ _ _ ef) (ef_f _ _ _ ef) (ef_current _ _ _ ef). clear ef.
  intros plan f cur Hreq Hrow Hst. unfold auto_start in Hst.
  destruct (_ && _) eqn:Ec in Hst; [|done].
  apply andb_true_iff in Ec as [[[Ename Enone]%andb_true_iff Eauto]%andb_true_iff Esw].
  split; [|split; [done|]].
  - destruct (rAutoStartWorkflow m) as [[]|] eqn:Ea; [by left | right | right]; cbn [is_true option_or orb] in *;
      (destruct (rScheduledStartAt m) eqn:Esc; [|done]); (split; [|done]);
      rewrite andb_true_r in Esw; apply negb_true_iff in Esw; (destruct plan; [done|]);
      apply negb_true_iff in Enone; rewrite Hrow in Enone;
      by apply (scheduled_cleared m cur f db (now db) _ Hreq Esc) in Enone.
  - intros wf p id ->. destruct (_ || _) in Hst; [|done].
    unfold itemHasChildren in Hst. destruct (ListDirectChildren db' (ID w)) eqn:El; [|done].
    destruct (WorkflowID w) as [x|] eqn:Ew; [|done].
    destruct (negb (x == "") && run_is_over db' (WorkflowRunID w)) eqn:Er; [|done].
    injection Hst as -> _ <-. apply andb_true_iff in Er as [_ Er]. by rewrite El.
Qed.

(** a request that gives a scheduled start and clears it at the same time
    stores a state no scan fires: status "scheduled" with no scheduled start. *)
Theorem clear_and_schedule_strands (m : UpdateWorkItemRequest) (db db' : DB) (cur w : WorkItemRow)
  (st : option start_request)
  (Hcur : items db !! rId m = Some cur) (Hk : rKind m = None) (Hr : rRecurringSchedule m = None)
  (Hclear : rClearScheduledStartAt m = true) (Hs : rScheduledStartAt m <> None)
  (Hact : IsActiveRunStatus (Status cur) = false)
  (H : Service_UpdateWorkItem LoadLocation newID m db = Ok ((w, st), db')) :
  Status w = WorkItemScheduled /\ ScheduledStartAt w = None.
Proof.
  apply edit_inv in H as (ef & db2 & db3 & _ & _ & _ & _).
  pose proof (ef_item _ _ _ ef) as Hc. rewrite Hcur in Hc. injection Hc as Hc.
  pose proof (ef_request _ _ _ ef) as Hreq. pose proof (ef_row _ _ _ ef) as Hrow. unfold ef_final in *.
  pose proof (ef_switch _ _ _ ef) as Hsw. unfold switch_plan in Hsw. rewrite Hk in Hsw. injection Hsw as Hsw.
  rewrite <- Hc, <- Hsw in Hrow. revert Hreq Hrow. generalize (ef_f _ _ _ ef). intros f Hreq ->.
  destruct (rScheduledStartAt m) as [t|] eqn:Est; [|done].
  assert (Hfl : flip_status m None cur (bound_fields m cur f) = put_status WorkItemScheduled (bound_fields m cur f)).
  { unfold flip_status. by rewrite Est, Hact, Hr. }
  assert (Hst : fStatus (final_fields LoadLocation m cur None (now db) (bound_fields m cur f))
                = Some WorkItemScheduled).
  { unfold final_fields. edestruct rearm_same as (-> & _). cbn [fmap option_fmap option_map].
    rewrite Hfl. unfold settle_recurring. cbn [other_status fStatus put_status set_clears].
    by destruct (json_present _); cbn; rewrite andb_false_r. }
  cbn [Status ScheduledStartAt apply_fields]. rewrite Hst. split; [done|].
  edestruct final_scheduled as [-> _]. assert (Hf : fClearScheduledStartAt f = true).
  { apply request_scheduled in Hreq as [-> _]. by rewrite Hclear. }
  unfold bound_fields. cbn [fClearScheduledStartAt set_clears]. by rewrite Hf.
Qed.

Lemma each_reparent_dom l db x db' id :
  keyed db -> each reparent l db = Ok (x, db') -> is_Some (items db !! id) -> is_Some (items db' !! id).
Proof.
  intros Hk. revert db Hk. induction l as [|cr l IH]; intros db Hk H Hid; [by injection H as _ <-|].
  cbn [each] in H. apply tx_bind_ok in H as (? & s1 & H1 & H).
  apply tx_bind_ok in H1 as (w' & s2 & Hu & [= _ <-]).
  apply UpdateWorkItem_ok in Hu as (w0 & Hw0 & _ & Hw' & ->).
  apply IH in H; [done | rewrite Hw'; exact (keyed_insert db (apply_fields _ _ w0) Hk) |].
  cbn [items with_logs with_items]. apply lookup_insert_is_Some. 
  destruct (decide (ID w0 = id)); [by left | by right].
Qed.

(** C39: a kind switch does not check the parent it is given against the item's
    own subtree: switched under one of its own children, the item and that
    child end up outside the tree, the child being its own parent. *)
Theorem switch_under_own_child (m : UpdateWorkItemRequest) (db db' : DB) (cur c w : WorkItemRow)
  (st : option start_request) (k : WorkItemKindProto) (nk e : string)
  (Hk : keyed db) (Hcur : items db !! rId m = Some cur)
  (Hkind : rKind m = Some k) (Hnk : validateKind k = Some nk) (Hnew : nk <> Kind cur)
  (Hne : nk <> WorkItemKindEpic)
  (Hpar : rParentId m = Some e) (He : e <> "") (Hold : ParentID cur <> Some e)
  (Hc : items db !! e = Some c) (Hchild : ParentID c = Some (ID cur)) (Hvis : ArchivedAt c = None)
  (H : Service_UpdateWorkItem LoadLocation newID m db = Ok ((w, st), db')) :
  exists c', items db' !! e = Some c' /\ ParentID c' = Some e.
Proof.
  apply edit_inv in H as (ef & db2 & db3 & Hemit & Hdeps & -> & _). cbn [items with_logs].
  assert (Hitems : items db3 = items db2).
  { destruct (rDependsOn m); [by apply replaceDependsOn_items in Hdeps | by injection Hdeps as <-]. }
  rewrite Hitems. clear Hdeps Hitems.
  pose proof (ef_item _ _ _ ef) as Hcur'. rewrite Hcur in Hcur'. injection Hcur' as Hc'.
  pose proof (ef_switch _ _ _ ef) as Hsw. pose proof (ef_row _ _ _ ef) as Hrow.
  revert Hemit Hsw Hrow. rewrite <- Hc'. generalize (ef_plan _ _ _ ef) (ef_f _ _ _ ef) (ef_final _ _ _ ef).
  intros plan f ff Hemit Hsw Hrow. clear ef Hc'.
  unfold switch_plan in Hsw. rewrite Hkind, Hnk in Hsw. apply String.eqb_neq in Hnew, Hne.
  rewrite Hnew in Hsw. apply tx_bind_ok in Hsw as (? & s1 & Hmv & Hsw). ro_eq Hmv ro_switch_move.
  apply tx_bind_ok in Hsw as (p & s2 & Hres & [= <- ->]).
  apply ResolveKindSwitch_inv in Hres as (kind & Hn & Hch & Hrp).
  rewrite (validateKind_normal _ _ Hnk) in Hn. injection Hn as <-.
  destruct Hrp as [[-> _] | [_ (q & Hq & Hrp)]]; [done|].
  rewrite Hpar in Hrp. apply resolve_explicit in Hrp as (-> & _ & cc & Hcc & Hlt); [|done..].
  rewrite Hc in Hcc. injection Hcc as <-.
  cbn [fmap option_fmap option_map fst emit_update] in Hemit.
  apply tx_bind_ok in Hemit as (? & ? & [= _ <-] & Hemit).
  apply tx_bind_ok in Hemit as (? & ? & [= _ <-] & Hemit).
  assert (Hkw : keyed (with_items db (<[ID w := w]> (items db)))) by (exact (keyed_insert db w Hk)).
  assert (Hdom : is_Some (items db2 !! e)).
  { eapply each_reparent_dom; [| exact Hemit |]; [exact Hkw|].
    cbn [items with_logs with_items]. apply lookup_insert_is_Some. destruct (decide (ID w = e)); [by left | right; by split]. }
  destruct Hdom as [c' Hc']. exists c'. split; [done|].
  eapply (each_reparent_spec (Some e)) in Hemit as (w1 & _ & _ & Hpc); [| exact Hkw | | exact Hc'].
  2: { rewrite Hch, Hq. apply List.Forall_map, List.Forall_forall. done. }
  destruct Hpc as [[_ Hnot] | [Hpc _]].
  - exfalso. apply Hnot. rewrite Hch, map_map. apply in_map_iff. exists c. split; [by apply Hk|].
    apply List.filter_In. split; [|apply Z.leb_le; lia]. apply ListDirectChildren_spec.
    split_and!; [by exists e | done | done].
  - rewrite Hpc. unfold upd_null. apply String.eqb_neq in He. by rewrite He.
Qed.

(** A switch to epic ignores the explicit parent without clearing it: for an
    item that had no parent the requested parent is stored as it came, not even
    checked for existence. *)
Lemma epic_switch_keeps_parent m db db' cur w st e :
  items db !! rId m = Some cur -> ParentID cur = None -> Kind cur <> WorkItemKindEpic ->
  rKind m = Some WORK_ITEM_KIND_EPIC -> rParentId m = Some e -> e <> "" ->
  Service_UpdateWorkItem LoadLocation newID m db = Ok ((w, st), db') ->
  Kind w = WorkItemKindEpic /\ ParentID w = Some e.
Proof.
  intros Hcur Hnone Hk Hkind Hpar He H.
  apply edit_inv in H as (ef & _). pose proof (ef_item _ _ _ ef) as Hc. rewrite Hcur in Hc. injection Hc as Hc.
  pose proof (ef_switch _ _ _ ef) as Hsw. pose proof (ef_row _ _ _ ef) as Hrow.
  pose proof (final_kind_parent _ (ef_current _ _ _ ef) (ef_plan _ _ _ ef) (now db) _ _ (ef_request _ _ _ ef)) as Hfp.
  cbn zeta in Hfp. unfold ef_final in Hrow. rewrite <- Hc in *.
  set (ff := final_fields _ _ _ _ _ _) in *. clearbody ff. revert Hsw Hfp. generalize (ef_plan _ _ _ ef) (ef_f _ _ _ ef).
  intros plan f Hsw Hfp. unfold switch_plan in Hsw. rewrite Hkind in Hsw. cbn [validateKind] in Hsw.
  destruct (WorkItemKindEpic == Kind cur) eqn:E; [apply String.eqb_eq in E; by destruct Hk|].
  apply tx_bind_ok in Hsw as (? & s1 & _ & Hsw).
  apply tx_bind_ok in Hsw as (p & s2 & Hres & [= <- _]).
  apply ResolveKindSwitch_inv in Hres as (kind & Hn & _ & Hrp). injection Hn as <-.
  destruct Hrp as [[_ Hrp] | [[] _]]; [|done].
  destruct Hfp as [Hfk Hfpar]. rewrite Hrp, Hnone, Hpar in Hfpar. subst w.
  cbn [Kind ParentID apply_fields]. rewrite Hfk, Hfpar. split; [done|].
  unfold upd_null. apply String.eqb_neq in He. by rewrite He.
Qed.

End edit.

(** ** Concrete instances *)

Definition plain_request (id : string) : UpdateWorkItemRequest :=
  mkUpdateRequest id None None None None None false None None None None None None.

(** An epic, a feature with a task, and a recurring task. *)
Definition tree_db : DB :=
  sample_db [sample "e" "epic" "pending" None 1; sample "f" "feature" "pending" (Some "e") 1;
             sample "t" "task" "pending" (Some "f") 1; schedule_row mon_thu] [].

Lemma tree_db_keyed : keyed tree_db.
Proof.
  intros id w H. unfold tree_db, sample_db in H. cbn [items list_to_map map foldr] in H.
  repeat (apply lookup_insert_Some in H as [[<- <-] | [_ H]]; [reflexivity|]). discriminate H.
Defined.

Lemma tree_db_ok : tree_ok tree_db.
Proof.
  intros id w pid p H Hp Hpid. unfold tree_db, sample_db in *. cbn [items list_to_map map foldr] in *.
  repeat (apply lookup_insert_Some in H as [[<- <-] | [_ H]];
    [try discriminate Hp; injection Hp as <-; vm_compute in Hpid; injection Hpid as <-; reflexivity|]).
  discriminate H.
Defined.

(** The feature becomes a task: its task moves up to the epic. *)
Definition feature_to_task : UpdateWorkItemRequest :=
  mkUpdateRequest "f" (Some WORK_ITEM_KIND_TASK) None None None None false None None None None None None.

Definition row_of (r : result db_error ((WorkItemRow * option start_request) * DB)) : WorkItemRow :=
  match r with Ok ((w, _), _) => w | Err _ => sample "" "" "" None 0 end.
Definition db_of (r : result db_error ((WorkItemRow * option start_request) * DB)) : DB :=
  match r with Ok (_, db) => db | Err _ => sample_db [] [] end.

(** An archived child is not listed and stays under the feature that becomes a
    task: a link [misplaced] names. *)
Definition archived_task : WorkItemRow :=
  mkItem "t" "p" (Some "f") "task" "t" WorkItemArchived None (Some "wf") "" (Some 1%Z) JNull None false
    JNull None true (Some 5%Z) (Some WorkItemSucceeded) false None 0 None 0 None 1 0 0.

Definition archived_db : DB :=
  sample_db [sample "e" "epic" "pending" None 1; sample "f" "feature" "pending" (Some "e") 1; archived_task] [].

Example archived_child_is_left :
  let db := match Service_UpdateWorkItem no_zones id feature_to_task archived_db with
            | Ok (_, db) => db | Err _ => archived_db end in
  (Kind <$> items db !! "f") = Some "task" /\ (Kind <$> items db !! "t") = Some "task"
  /\ (items db !! "t" ≫= ParentID) = Some "f".
Proof. vm_compute. repeat split. Qed.

Lemma recurring_status_has_schedule_witness :
  let r := Service_UpdateWorkItem no_zones id (plain_request "r") tree_db in
  json_present (RecurringScheduleCol (row_of r)) = true.
Proof.
  cbv zeta. apply (recurring_status_has_schedule no_zones id (plain_request "r") tree_db
    (db_of (Service_UpdateWorkItem no_zones id (plain_request "r") tree_db)) _ None);
    vm_compute; reflexivity.
Defined.

Lemma recurring_result_is_flat_witness :
  let r := Service_UpdateWorkItem no_zones id (plain_request "r") tree_db in
  Kind (row_of r) = WorkItemKindTask /\ option_or "" (ParentID (row_of r)) = "".
Proof.
  cbv zeta. destruct (recurring_result_is_flat no_zones id (plain_request "r") tree_db
    (db_of (Service_UpdateWorkItem no_zones id (plain_request "r") tree_db))
    (row_of (Service_UpdateWorkItem no_zones id (plain_request "r") tree_db)) None) as (H1 & H2 & _);
    [vm_compute; reflexivity | vm_compute; reflexivity | split; [exact H1 | exact H2]].
Defined.

Lemma edit_keeps_hierarchy_witness :
  tree_ok (db_of (Service_UpdateWorkItem no_zones id feature_to_task tree_db)).
Proof.
  eapply (edit_keeps_hierarchy no_zones id feature_to_task tree_db _ (sample "f" "feature" "pending" (Some "e") 1)
           (row_of (Service_UpdateWorkItem no_zones id feature_to_task tree_db)) None).
  - exact tree_db_keyed.
  - exact tree_db_ok.
  - vm_compute. reflexivity.
  - vm_compute. discriminate.
  - vm_compute. reflexivity.
  - right. left. reflexivity.
  - right. intros i c H Hp. unfold tree_db, sample_db in H. cbn [items list_to_map map foldr] in H.
    repeat (apply lookup_insert_Some in H as [[<- <-] | [_ H]]; [reflexivity|]). discriminate H.
Defined.

(** The explicit start of the bound task. *)
Definition start_task : UpdateWorkItemRequest :=
  mkUpdateRequest "t" None None None None None false None (Some true) None None None None.

Lemma start_is_asked_for_witness :
  let r := Service_UpdateWorkItem no_zones id start_task tree_db in
  AutoStartWorkflow (row_of r) = true /\ run_is_over (db_of r) (WorkflowRunID (row_of r)) = true.
Proof.
  cbv zeta. destruct (start_is_asked_for no_zones id start_task tree_db
    (db_of (Service_UpdateWorkItem no_zones id start_task tree_db))
    (row_of (Service_UpdateWorkItem no_zones id start_task tree_db))
    (StartWorkflow "wf" "p" "t")) as (_ & H1 & H2); [vm_compute; reflexivity|].
  split; [exact H1|]. destruct (H2 "wf" "p" "t" eq_refl) as (_ & _ & H3 & _). exact H3.
Defined.

Definition clear_and_schedule : UpdateWorkItemRequest :=
  mkUpdateRequest "t" None None None None None true (Some 5000%Z) None None None None None.

Lemma clear_and_schedule_strands_witness :
  let w := row_of (Service_UpdateWorkItem no_zones id clear_and_schedule tree_db) in
  Status w = WorkItemScheduled /\ ScheduledStartAt w = None.
Proof.
  cbv zeta. apply (clear_and_schedule_strands no_zones id clear_and_schedule tree_db
    (db_of (Service_UpdateWorkItem no_zones id clear_and_schedule tree_db))
    (sample "t" "task" "pending" (Some "f") 1) _ None);
    first [discriminate | vm_compute; reflexivity].
Defined.

(** The feature becomes a subtask of its own task. *)
Definition under_own_task : UpdateWorkItemRequest :=
  mkUpdateRequest "f" (Some WORK_ITEM_KIND_SUBTASK) None None None (Some "t") false None None None None None None.

Lemma switch_under_own_child_witness :
  exists c, items (db_of (Service_UpdateWorkItem no_zones id under_own_task tree_db)) !! "t" = Some c
            /\ ParentID c = Some "t".
Proof.
  apply (switch_under_own_child no_zones id under_own_task tree_db _ (sample "f" "feature" "pending" (Some "e") 1)
    (sample "t" "task" "pending" (Some "f") 1)
    (row_of (Service_UpdateWorkItem no_zones id under_own_task tree_db)) None
    WORK_ITEM_KIND_SUBTASK "subtask" "t");
    first [exact tree_db_keyed | discriminate | vm_compute; reflexivity].
Defined.
