(* ===== verification/Lifecycle.v ===== *)
(** * The life of a work item (internal/workitem/service.go)

    Creation, triage of ideas, soft and hard deletion, archiving and restoring,
    worker assignment and the order of siblings.  Other transactions may commit
    between a read and the conditional write that follows it; where the source
    handles that (archiving), [interfere] stands for what they do.  Titles are
    given validated; the other texts, budgets, secrets, context files and the
    runtime image of a creation are left out. *)

From S2P Require Import Prelude GoStrings GoJson Domain WorkItems Dependencies.
From S2P Require Import Hierarchy Calendar Recurring WorkItemUpdate.
From stdpp Require Import relations.

(** ** Triage and deletion *)

(** Read, update the status, emit the event, record the audit row. *)
Definition transition (id : string) (refuse : WorkItemRow -> bool) (status event : string) : Tx WorkItemRow :=
  guard_tx (id == "") (ErrInvalid "id");;
  current ← GetWorkItem id;
  guard_tx (refuse current) (ErrInvalid "status");;
  updated ← UpdateWorkItem id (Version current) (set_status status);
  enqueueEvent event (ID updated);;
  recordAudit event (ID updated);;
  mret updated.

Definition PromoteIdea (id : string) : Tx WorkItemRow :=
  transition id (fun w => negb (Status w == WorkItemIdea)) WorkItemPending "work_item.promoted".

Definition DismissIdea (id : string) : Tx WorkItemRow :=
  transition id (fun w => negb (Status w == WorkItemIdea)) WorkItemCancelled "work_item.dismissed".

Definition DeleteWorkItem (id : string) : Tx WorkItemRow :=
  transition id (fun w => IsIdeaStatus (Status w)) WorkItemCancelled "work_item.deleted".

Definition HardDeleteWorkItem (id : string) : Tx unit :=
  guard_tx (id == "") (ErrInvalid "id");;
  current ← GetWorkItem id;
  guard_tx (IsIdeaStatus (Status current)) (ErrInvalid "idea");;
  HardDeleteWorkItem_row id;;
  enqueueEvent "work_item.purged" (ID current);;
  recordAudit "work_item.hard_deleted" (ID current).

(** ** Archiving *)

Definition validateArchivePreconditions (current : WorkItemRow) : Tx unit :=
  guard_tx (IsIdeaStatus (Status current)) (ErrInvalid "idea");;
  guard_tx (negb (WorkItemIsTerminalArchivable (Status current))) (ErrInvalid "not terminal");;
  db ← read;
  guard_tx (itemHasChildren db (ID current)) (ErrInvalid "children").

(** What other transactions commit in the window before attempt [n]. *)
Definition commit_others (interfere : nat -> DB -> DB) (n : nat) : Tx unit :=
  fun db => Ok (tt, interfere n db).

(** The error of a conditional write that matched no row is a value: nothing
    was written and the transaction goes on. *)
Definition caught {A} (m : Tx A) : Tx (result db_error A) :=
  fun db => match m db with Ok (a, db') => Ok (Ok a, db') | Err e => Ok (Err e, db) end.

(** One attempt: the row it read and the outcome of the conditional write. *)
Definition archive_attempt (interfere : nat -> DB -> DB) (n : nat) (id : string)
    : Tx (WorkItemRow * result db_error WorkItemRow) :=
  current ← GetWorkItem id;
  validateArchivePreconditions current;;
  commit_others interfere n;;
  outcome ← caught (ArchiveWorkItem_row (ID current) (Version current) (Status current));
  mret (current, outcome).

(** A single version conflict is retried against the fresh row. *)
Definition ArchiveWorkItem (interfere : nat -> DB -> DB) (id : string) : Tx WorkItemRow :=
  guard_tx (id == "") (ErrInvalid "id");;
  '(_, first) ← archive_attempt interfere 1%nat id;
  outcome ← (match first with
             | Err ErrVersionConflict => '(_, second) ← archive_attempt interfere 2%nat id; mret second
             | o => mret o
             end);
  match outcome with
  | Err e => fail e
  | Ok archived =>
      enqueueEvent "work_item.archived" (ID archived);;
      recordAudit "work_item.archived" (ID archived);;
      mret archived
  end.

Definition RestoreWorkItem (id : string) : Tx WorkItemRow :=
  guard_tx (id == "") (ErrInvalid "id");;
  current ← GetWorkItem id;
  guard_tx (negb (Status current == WorkItemArchived)) (ErrInvalid "not archived");;
  let fromStatus := match ArchivedFromStatus current with
                    | Some s => if s == "" then WorkItemCancelled else s
                    | None => WorkItemCancelled
                    end in
  restored ← RestoreWorkItem_row (ID current) (Version current) fromStatus;
  enqueueEvent "work_item.restored" (ID restored);;
  recordAudit "work_item.restored" (ID restored);;
  mret restored.

(** ** Worker assignment *)

(** [Ok None] is the empty ref. *)
Definition ValidateWorkerRef (s : string) : result db_error (option string) :=
  let s := TrimSpace s in
  if s == "" then Ok None
  else if (16384 <? Z.of_nat (len s))%Z then Err (ErrInvalid "worker_ref length")
  else if negb (Valid s) then Err (ErrInvalid "worker_ref JSON")
  else Ok (Some s).

Definition AssignWorker (id workerRef : string) : Tx WorkItemRow :=
  guard_tx (id == "") (ErrInvalid "id");;
  match ValidateWorkerRef workerRef with
  | Err e => fail e
  | Ok None => fail (ErrInvalid "worker_ref")
  | Ok (Some ref) =>
      current ← GetWorkItem id;
      updated ← UpdateWorkItem id (Version current)
        (mkFields None None (Some ref) false None None None None None None None false None None None
           None false None);
      enqueueEvent "work_item.worker_assigned" (ID updated);;
      recordAudit "work_item.worker_assigned" (ID updated);;
      mret updated
  end.

(** The statement of its own that clears the reference: a version that moved
    on is "not found" here, not a conflict. *)
Definition unassign_row (id : string) (version : Z) : Tx WorkItemRow :=
  fun db =>
    match items db !! id with
    | Some w =>
        if (Version w =? version)%Z
        then put (apply_fields (now db)
               (mkFields None None None true None None None None None None None false None None None None
                  false None) w) db
        else Err ErrNotFound
    | None => Err ErrNotFound
    end.

Definition UnassignWorker (id : string) : Tx WorkItemRow :=
  guard_tx (id == "") (ErrInvalid "id");;
  current ← GetWorkItem id;
  updated ← unassign_row id (Version current);
  enqueueEvent "work_item.worker_unassigned" (ID updated);;
  recordAudit "work_item.worker_unassigned" (ID updated);;
  mret updated.

(** ** The order of siblings *)

Fixpoint child_ids_ok (seen ids : list string) : bool :=
  match ids with
  | [] => true
  | id :: rest => negb (id == "") && negb (existsb (String.eqb id) seen) && child_ids_ok (id :: seen) rest
  end.

(** The requested ids first, then the unlisted siblings in their order; [None]
    when an id is not a sibling's. *)
Fixpoint pick (siblings : list WorkItemRow) (ids : list string) : option (list WorkItemRow) :=
  match ids with
  | [] => Some []
  | id :: rest =>
      w ← List.find (fun w => ID w == id) siblings;
      ws ← pick siblings rest;
      Some (w :: ws)
  end.

Definition new_order (siblings : list WorkItemRow) (ids : list string) : option (list WorkItemRow) :=
  listed ← pick siblings ids;
  Some (listed ++ List.filter (fun w => negb (existsb (String.eqb (ID w)) ids)) siblings).

Definition set_order (n : Z) : UpdateWorkItemFields :=
  mkFields None None None false None None None None None None None false None (Some n) None None false None.

(** Number the rows from [n] on. *)
Fixpoint renumber (n : Z) (rows : list WorkItemRow) : Tx (list WorkItemRow) :=
  match rows with
  | [] => mret []
  | w :: rest =>
      updated ← UpdateWorkItem (ID w) (Version w) (set_order n);
      enqueueEvent "work_item.updated" (ID updated);;
      others ← renumber (n + 1)%Z rest;
      mret (updated :: others)
  end.

Definition ReorderWorkItems (projectID parentID : string) (childIDs : list string) : Tx (list WorkItemRow) :=
  guard_tx (projectID == "") (ErrInvalid "project_id");;
  guard_tx (match childIDs with [] => true | _ => false end) (ErrInvalid "child_ids");;
  guard_tx (negb (child_ids_ok [] childIDs)) (ErrInvalid "child_ids");;
  (if parentID == "" then mret tt
   else
     parent ← GetWorkItem parentID;
     guard_tx (negb (ProjectID parent == projectID)) (ErrInvalid "parent project"));;
  db ← read;
  let siblings := ListSiblingsForReorder db projectID parentID in
  guard_tx (match siblings with [] => true | _ => false end) (ErrInvalid "no siblings");;
  match new_order siblings childIDs with
  | None => fail (ErrInvalid "not a child")
  | Some ordered =>
      updated ← renumber 1 ordered;
      recordAudit "work_item.reordered" parentID;;
      mret updated
  end.

(** ** Creation *)

Record CreateWorkItemRequest := mkCreateRequest {
  cProjectId : string;
  cKind : WorkItemKindProto;
  cTitle : string;
  cParentId : string;
  cWorkflowId : string;
  cScheduledStartAt : option Z;
  cAutoStartWorkflow : option bool;
  cRecurringSchedule : option RecurringSchedule;
  cDependsOn : list string;
  cRunContext : jsonb (gmap string string) }.

(** The string members of the run context; the rest of the object is not read. *)
Definition ProvenanceFromRunContext (runContext : jsonb (gmap string string)) : string * string * string :=
  match runContext with
  | JVal m => (option_or "" (m !! "spawned_by"), option_or "" (m !! "spawned_by_run_id"),
               option_or "" (m !! "outputs_mode"))
  | _ => ("", "", "")
  end.

Definition ApplyAutomationProvenance (row : WorkItemRow) (runContext : jsonb (gmap string string))
    : WorkItemRow :=
  let '(spawnedBy, runID, mode) := ProvenanceFromRunContext runContext in
  if spawnedBy == "" then row
  else mkItem (ID row) (ProjectID row) (ParentID row) (Kind row) (Title row)
         (if mode == RecurringOutputsIdea then WorkItemIdea else Status row)
         (AssignedWorkerRef row) (WorkflowID row) (WorkflowRunID row) (SortOrder row) (Results row)
         (ScheduledStartAt row) (AutoStartWorkflow row) (RecurringScheduleCol row) (NextRunAt row)
         (RecurringEnabled row) (ArchivedAt row) (ArchivedFromStatus row) (Ephemeral row)
         (Some (spawnedBy, runID)) (SequenceAttempts row) (SequenceLastAttemptAt row)
         (SequenceConsecutiveScanErrors row) (SequenceLastProgressAt row) (Version row) (CreatedAt row)
         (UpdatedAt row).

(** The edges of a creation: no cycle check. *)
Definition create_edge (depIDOf : string -> string) (projectID itemID depID : string) : Tx unit :=
  created ← CreateDependency (mkDep (depIDOf depID) projectID itemID depID DependencyDependsOn 0);
  enqueueEvent "work_item.dependency_added" (DepID created);;
  recordAudit "work_item.dependency_added" (FromID created).

Section create.
Context (LoadLocation : string -> option Location).
(** The ids [db.NewID()] returns, and the run context carried by the request's
    context. *)
Context (newID : string) (newDepID : string -> string) (ctxRunContext : jsonb (gmap string string)).

Definition new_row (m : CreateWorkItemRequest) (kind : string) (schedule : option RecurringSchedule)
    (nextRunAt : option Z) : WorkItemRow :=
  let status := match schedule with
                | Some _ => WorkItemRecurring
                | None => match cScheduledStartAt m with
                          | Some _ => WorkItemScheduled
                          | None => WorkItemPending
                          end
                end in
  mkItem newID (cProjectId m) (if cParentId m == "" then None else Some (cParentId m)) kind (cTitle m)
    status None (if cWorkflowId m == "" then None else Some (cWorkflowId m)) "" None JNull
    (cScheduledStartAt m) (is_true (cAutoStartWorkflow m))
    (match schedule with Some s => JVal s | None => JNull end) nextRunAt true None None false None
    0 None 0 None 1 0 0.

Definition Service_CreateWorkItem (m : CreateWorkItemRequest) : Tx (WorkItemRow * option start_request) :=
  guard_tx (cProjectId m == "") (ErrInvalid "project_id");;
  match validateKind (cKind m) with
  | None => fail (ErrInvalid "kind")
  | Some kind =>
      RequireProjectActive (cProjectId m);;
      let given := match cRecurringSchedule m with
                   | Some rs => if IsRecurringScheduleEmpty rs then None else Some rs
                   | None => None
                   end in
      schedule ← (match given with
                  | None => mret None
                  | Some rs => match ValidateRecurringSchedule LoadLocation rs with
                               | Ok s => mret (Some s)
                               | Err _ => fail (ErrInvalid "recurring_schedule")
                               end
                  end);
      let isRecurring := is_some schedule in
      ValidateParent (cParentId m) kind (cProjectId m) isRecurring false;;
      (if isRecurring then
         ValidateRecurringFlatness true kind (cParentId m);;
         ValidateRecurringWorkflowBinding true false (cWorkflowId m)
       else mret tt);;
      db ← read;
      let nextRunAt := match schedule, given with
                       | Some _, Some rs => inst <$> ComputeNextRunAt LoadLocation rs (utc_time (now db))
                       | _, _ => None
                       end in
      let rc := if json_present (cRunContext m) then cRunContext m else ctxRunContext in
      created ← CreateWorkItem_row (ApplyAutomationProvenance (new_row m kind schedule nextRunAt) rc);
      (if is_some (cScheduledStartAt m) then ValidateSequenceSchedule created else mret tt);;
      enqueueEvent "work_item.created" (ID created);;
      recordAudit "work_item.created" (ID created);;
      (match cDependsOn m with
       | [] => mret tt
       | ids =>
           validated ← validateDependsOn (cProjectId m) (ID created) [] ids;
           each (create_edge newDepID (cProjectId m) (ID created)) validated
       end);;
      db' ← read;
      mret (created,
        if negb (is_some (cScheduledStartAt m)) && is_true (cAutoStartWorkflow m) then
          if itemHasChildren db' (ID created) then Some (StartSequence (ID created))
          else if negb (cWorkflowId m == "")
               then Some (StartWorkflow (cWorkflowId m) (cProjectId m) (ID created)) else None
        else None)
  end.

End create.

(** ** Reordering *)

Lemma find_id siblings id w :
  List.find (fun w => ID w == id) siblings = Some w -> In w siblings /\ ID w = id.
Proof. intros [Hin Heq]%List.find_some. split; [done | by apply String.eqb_eq]. Qed.

Lemma pick_spec siblings ids ws :
  pick siblings ids = Some ws -> map ID ws = ids /\ (forall w, In w ws -> In w siblings).
Proof.
  revert ws. induction ids as [|id ids IH]; intros ws H; cbn [pick] in H.
  - injection H as <-. split; [done | by intros w []].
  - destruct (List.find _ siblings) as [w|] eqn:Ef; [|done]. cbn [mbind option_bind] in H.
    destruct (pick siblings ids) as [ws'|] eqn:Ep; [|done]. injection H as <-.
    apply find_id in Ef as [Hin Hid]. destruct (IH ws' eq_refl) as [Hm Hs]. cbn [map]. split.
    + by rewrite Hm, Hid.
    + intros w' [<- | H]; auto.
Qed.

Lemma child_ids_ok_NoDup seen ids :
  child_ids_ok seen ids = true -> NoDup ids /\ (forall x, In x ids -> ~ In x seen).
Proof.
  revert seen. induction ids as [|id ids IH]; intros seen H; cbn [child_ids_ok] in H.
  - split; [constructor | by intros x []].
  - apply andb_true_iff in H as [[_ Hs]%andb_true_iff H]. apply IH in H as [Hnd Hout].
    apply negb_true_iff in Hs. rewrite existsb_false_forall in Hs. split.
    + constructor; [|done]. intros Hin%list_elem_of_In. apply (Hout _ Hin). by left.
    + intros x [<- | Hin] Hx.
      * specialize (Hs _ Hx). by rewrite String.eqb_refl in Hs.
      * apply (Hout _ Hin). by right.
Qed.

Lemma new_order_ids siblings ids ws :
  new_order siblings ids = Some ws ->
  map ID ws = ids ++ List.filter (fun i => negb (existsb (String.eqb i) ids)) (map ID siblings).
Proof.
  unfold new_order. destruct (pick siblings ids) as [l|] eqn:Ep; [|done]. intros [= <-].
  apply pick_spec in Ep as [Hm _]. rewrite map_app, Hm. f_equal. clear.
  induction siblings as [|w l IH]; [done|]. cbn [map List.filter].
  destruct (negb (existsb (String.eqb (ID w)) ids)); cbn [map]; by rewrite IH.
Qed.

Lemma NoDup_map_inj {A B} (f : A -> B) l a b :
  NoDup (map f l) -> In a l -> In b l -> f a = f b -> a = b.
Proof.
  induction l as [|x l IH]; [done|]. cbn [map]. rewrite NoDup_cons, list_elem_of_In. intros [Hn Hd].
  intros [<- | Ha] [<- | Hb] Heq; try done; [| | by apply IH].
  - destruct Hn. rewrite Heq. by apply in_map.
  - destruct Hn. rewrite <- Heq. by apply in_map.
Qed.

Lemma NoDup_of_map {A B} (f : A -> B) l : NoDup (map f l) -> NoDup l.
Proof. apply NoDup_fmap_1. Qed.

(** The new order is a permutation of the siblings. *)
Lemma new_order_perm siblings ids ws :
  NoDup (map ID siblings) -> NoDup ids -> new_order siblings ids = Some ws ->
  Permutation ws siblings /\ NoDup (map ID ws).
Proof.
  intros Hnd Hids H. pose proof (new_order_ids _ _ _ H) as Hm.
  unfold new_order in H. destruct (pick siblings ids) as [l|] eqn:Ep; [|done]. injection H as <-.
  apply pick_spec in Ep as [Hl Hsub].
  assert (Hws : NoDup (map ID (l ++ List.filter (fun w => negb (existsb (String.eqb (ID w)) ids)) siblings))).
  { rewrite map_app, Hl. apply NoDup_app. split_and!; [done | | by apply NoDup_map_filter].
    intros x Hx Hf. apply list_elem_of_In in Hx, Hf. apply in_map_iff in Hf as (w & <- & Hw).
    apply List.filter_In in Hw as [_ Hw]. apply negb_true_iff in Hw. rewrite existsb_false_forall in Hw.
    specialize (Hw _ Hx). by rewrite String.eqb_refl in Hw. }
  split; [|done].
  apply NoDup_Permutation; [by apply NoDup_of_map in Hws | by apply NoDup_of_map in Hnd |].
  intros w. rewrite !list_elem_of_In, in_app_iff, List.filter_In. split.
  - intros [Hw | [Hw _]]; auto.
  - intros Hw. destruct (existsb (String.eqb (ID w)) ids) eqn:E; [left | by right].
    apply existsb_exists in E as (i & Hi & <-%String.eqb_eq). rewrite <- Hl in Hi.
    apply in_map_iff in Hi as (w' & Heq & Hw'). pose proof (Hsub _ Hw') as Hw2.
    by rewrite <- (NoDup_map_inj _ _ _ _ Hnd Hw2 Hw Heq).
Qed.

(** The numbered rows. *)
Fixpoint numbered (t n : Z) (rows : list WorkItemRow) : list WorkItemRow :=
  match rows with
  | [] => []
  | w :: rest => apply_fields t (set_order n) w :: numbered t (n + 1) rest
  end.

Lemma numbered_ids t n rows : map ID (numbered t n rows) = map ID rows.
Proof. revert n. induction rows as [|w l IH]; intros n; [done|]. cbn. by rewrite IH. Qed.

Lemma numbered_in t n rows w :
  In w (numbered t n rows) -> exists v k, In v rows /\ (n <= k)%Z /\ w = apply_fields t (set_order k) v.
Proof.
  revert n. induction rows as [|v l IH]; intros n; [done|]. intros [<- | H].
  - exists v, n. split_and!; [by left | lia | done].
  - apply IH in H as (v' & k & Hv & Hk & ->). exists v', k. split_and!; [by right | lia | done].
Qed.

Lemma numbered_sorted t n rows : StronglySorted sibling_order (numbered t n rows).
Proof.
  revert n. induction rows as [|w l IH]; intros n; cbn [numbered]; constructor; [apply IH|].
  apply Forall_forall. intros v Hv%list_elem_of_In. apply numbered_in in Hv as (v' & k & _ & Hk & ->).
  unfold sibling_order, sibling_le. cbn [SortOrder apply_fields set_order fSortOrder].
  by assert (E : (n <? k)%Z = true) by (apply Z.ltb_lt; lia); rewrite E.
Qed.

Lemma numbered_order t n rows : map SortOrder (numbered t n rows) = map Some (seqZ n (Z.of_nat (length rows))).
Proof.
  revert n. induction rows as [|w l IH]; intros n; [done|]. cbn [numbered map length].
  rewrite seqZ_cons by lia. cbn [map]. rewrite IH. do 3 f_equal; lia.
Qed.

Lemma renumber_spec n ws db l db' :
  keyed db -> NoDup (map ID ws) -> (forall w, In w ws -> items db !! ID w = Some w) ->
  renumber n ws db = Ok (l, db') ->
  l = numbered (now db) n ws /\ keyed db'
  /\ (forall w, In w l -> items db' !! ID w = Some w)
  /\ (forall id, ~ In id (map ID ws) -> items db' !! id = items db !! id).
Proof.
  revert n db l. induction ws as [|w ws IH]; intros n db l Hk Hnd Hin H; cbn [renumber] in H.
  - injection H as <- <-. by split_and!.
  - apply tx_bind_ok in H as (u & s1 & Hu & H). apply tx_bind_ok in H as (? & s2 & [= _ <-] & H).
    apply tx_bind_ok in H as (others & s3 & Ho & [= <- <-]).
    apply UpdateWorkItem_ok in Hu as (w0 & Hw0 & _ & Hu & ->).
    rewrite (Hin w) in Hw0 by (by left). injection Hw0 as <-. subst u.
    cbn [map] in Hnd. rewrite NoDup_cons, list_elem_of_In in Hnd. destruct Hnd as [Hn Hnd].
    apply IH in Ho as (-> & Hk' & Hrows & Hrest); [| exact (keyed_insert db (apply_fields _ _ w) Hk) | done |].
    + cbn [now with_logs with_items items numbered] in *. split_and!; [done | done | |].
      * intros v [<- | Hv]; [|by apply Hrows]. cbn [ID apply_fields].
        rewrite Hrest by done. by rewrite lookup_insert_eq.
      * intros id Hid. cbn [map In] in Hid. rewrite Hrest by tauto. apply lookup_insert_ne. tauto.
    + intros v Hv. cbn [items with_logs with_items]. rewrite lookup_insert_ne; [apply Hin; by right|].
      intros E. apply Hn. rewrite E. by apply in_map.
Qed.

(** The filter of [ListSiblingsForReorder]. *)
Definition is_sibling (projectID parentID : string) (w : WorkItemRow) : bool :=
  (ProjectID w == projectID)
  && (if parentID == "" then match ParentID w with None => true | Some _ => false end
      else has_parent parentID w)
  && negb (is_archived w) && negb (Ephemeral w).

Lemma siblings_spec db p par w :
  In w (ListSiblingsForReorder db p par) <->
  (exists id, items db !! id = Some w) /\ is_sibling p par w = true.
Proof. unfold ListSiblingsForReorder. by rewrite in_merge_sort, List.filter_In, rows_spec. Qed.

Lemma siblings_NoDup db p par : keyed db -> NoDup (map ID (ListSiblingsForReorder db p par)).
Proof.
  intros Hk. unfold ListSiblingsForReorder.
  assert (Hp : forall l, Permutation (map ID (merge_sort sibling_order l)) (map ID l))
    by (intros l; apply Permutation_map, merge_sort_Permutation).
  rewrite Hp. by apply NoDup_map_filter, NoDup_rows_ids.
Qed.

Lemma is_sibling_order p par t n w : is_sibling p par (apply_fields t (set_order n) w) = is_sibling p par w.
Proof. done. Qed.

Lemma ReorderWorkItems_inv p par ids db l db' :
  ReorderWorkItems p par ids db = Ok (l, db') ->
  exists ws, child_ids_ok [] ids = true /\ new_order (ListSiblingsForReorder db p par) ids = Some ws
    /\ exists db1, renumber 1 ws db = Ok (l, db1)
    /\ db' = with_logs db1 (outbox db1) (audit db1 ++ [("work_item.reordered", par)]).
Proof.
  unfold ReorderWorkItems. intros H.
  apply tx_bind_ok in H as (? & ? & [_ ->]%guard_tx_ok & H).
  apply tx_bind_ok in H as (? & ? & [_ ->]%guard_tx_ok & H).
  apply tx_bind_ok in H as (? & ? & [Hids ->]%guard_tx_ok & H). apply negb_false_iff in Hids.
  apply tx_bind_ok in H as ([] & s & Hp & H).
  assert (s = db) as ->.
  { destruct (par == ""); [by injection Hp as <-|].
    apply tx_bind_ok in Hp as (? & ? & [_ ->]%GetWorkItem_ok & [_ ->]%guard_tx_ok). done. }
  apply tx_bind_ok in H as (? & ? & [= <- <-] & H).
  apply tx_bind_ok in H as (? & ? & [_ ->]%guard_tx_ok & H).
  destruct (new_order _ ids) as [ws|]; [|done]. exists ws. split_and!; [done | done |].
  apply tx_bind_ok in H as (u & s & Hr & H). apply tx_bind_ok in H as (? & ? & [= _ <-] & [= -> <-]).
  by exists s.
Qed.

Lemma sibling_order_same x y :
  SortOrder x <> None -> sibling_order x y -> sibling_order y x -> SortOrder x = SortOrder y.
Proof.
  unfold sibling_order, sibling_le. intros Hx H1 H2.
  destruct (SortOrder x) as [a|], (SortOrder y) as [b|]; try done.
  destruct (a <? b)%Z eqn:E1, (b <? a)%Z eqn:E2; try done; breflect; f_equal; lia.
Qed.

Lemma numbered_antisym t n rows x y :
  In x (numbered t n rows) -> In y (numbered t n rows) -> sibling_order x y -> sibling_order y x -> x = y.
Proof.
  intros Hx Hy Hxy Hyx. apply (NoDup_map_inj SortOrder (numbered t n rows)); try done.
  - rewrite numbered_order. apply NoDup_fmap_2; [by intros ? ? [=] | apply NoDup_seqZ].
  - apply sibling_order_same; [|done..]. apply numbered_in in Hx as (v & k & _ & _ & ->). done.
Qed.

(** The siblings after the renumbering are the numbered rows. *)
Lemma sibling_set db db1 p par ws t n :
  keyed db1 -> Permutation ws (ListSiblingsForReorder db p par) -> NoDup (map ID ws) ->
  (forall w, In w (numbered t n ws) -> items db1 !! ID w = Some w) ->
  (forall id, ~ In id (map ID ws) -> items db1 !! id = items db !! id) -> keyed db ->
  Permutation (ListSiblingsForReorder db1 p par) (numbered t n ws).
Proof.
  intros Hk1 Hperm Hnd Hrows Hrest Hk.
  apply NoDup_Permutation;
    [apply (NoDup_of_map ID), siblings_NoDup; done | apply (NoDup_of_map ID); by rewrite numbered_ids |].
  intros w. rewrite !list_elem_of_In, siblings_spec. split.
  - intros [[id Hid] Hs]. pose proof (Hk1 _ _ Hid) as HID. subst id.
    destruct (in_dec String.string_dec (ID w) (map ID ws)) as [Hin | Hnot].
    + rewrite <- (numbered_ids t n) in Hin. apply in_map_iff in Hin as (v & Hv & Hin).
      pose proof (Hrows _ Hin) as Hv1. rewrite Hv, Hid in Hv1. by injection Hv1 as ->.
    + exfalso. apply Hnot. rewrite Hrest in Hid by done. apply in_map.
      apply (Permutation_in w (Permutation_sym Hperm)), siblings_spec. split; [by eexists | done].
  - intros Hw. split; [eexists; by apply Hrows|]. apply numbered_in in Hw as (v & k & Hv & _ & ->).
    rewrite is_sibling_order. apply (Permutation_in v Hperm) in Hv. by apply siblings_spec in Hv as [_ ?].
Qed.

(** C17: a reorder does exactly what it says: afterwards the siblings are listed
    in the requested order, the unlisted ones after them in their old relative
    order, numbered 1 to N; no other row of the store has changed. *)
Theorem reorder_renumbers (p par : string) (ids : list string) (db db' : DB) (l : list WorkItemRow)
  (Hk : keyed db) (H : ReorderWorkItems p par ids db = Ok (l, db')) :
  ListSiblingsForReorder db' p par = l
  /\ map ID l = ids ++ List.filter (fun i => negb (existsb (String.eqb i) ids))
                         (map ID (ListSiblingsForReorder db p par))
  /\ map SortOrder l = map Some (seqZ 1 (Z.of_nat (length l)))
  /\ (forall id, ~ In id (map ID l) -> items db' !! id = items db !! id).
Proof.
  apply ReorderWorkItems_inv in H as (ws & Hids & Hord & db1 & Hren & ->).
  apply child_ids_ok_NoDup in Hids as [Hids _].
  destruct (new_order_perm _ _ _ (siblings_NoDup db p par Hk) Hids Hord) as [Hperm Hnd].
  pose proof (new_order_ids _ _ _ Hord) as Hm.
  assert (Hst : forall w, In w ws -> items db !! ID w = Some w).
  { intros w Hw. apply (Permutation_in w Hperm) in Hw. apply siblings_spec in Hw as [[id Hid] _].
    by rewrite (Hk _ _ Hid). }
  apply renumber_spec in Hren as (-> & Hk' & Hrows & Hrest); [|done..].
  rewrite numbered_ids. split_and!; [| done | | done].
  - change (ListSiblingsForReorder (with_logs db1 _ _) p par) with (ListSiblingsForReorder db1 p par).
    pose proof (sibling_set db db1 p par ws (now db) 1 Hk' Hperm Hnd Hrows Hrest Hk) as Hset.
    apply (StronglySorted_unique_strong sibling_order); [| apply StronglySorted_merge_sort; apply _
      | apply numbered_sorted | done].
    intros x y Hx Hy. rewrite Hset in Hx. apply list_elem_of_In in Hx, Hy. by apply (numbered_antisym (now db) 1 ws).
  - rewrite numbered_order. do 3 f_equal. rewrite <- (length_map ID), <- (length_map ID (numbered _ _ _)).
    by rewrite numbered_ids.
Qed.

(** ** Archiving and restoring *)

Definition quiet (n : nat) (db : DB) : DB := db.

Lemma ArchiveWorkItem_row_ok id v from db w' db' :
  ArchiveWorkItem_row id v from db = Ok (w', db') <->
  exists w, items db !! id = Some w /\ Version w = v
    /\ w' = set_archive (now db) WorkItemArchived (Some (now db)) (Some from) w
    /\ db' = with_items db (<[ID w := w']> (items db)).
Proof.
  unfold ArchiveWorkItem_row. destruct (items db !! id) as [w|]; [|split; [done | by intros (? & ? & _)]].
  destruct (Version w =? v)%Z eqn:E; breflect.
  - split; [intros [= <- <-]; by exists w | by intros (w0 & [= <-] & _ & -> & ->)].
  - split; [by destruct (isWorkItemVersionConflict db id) | by intros (w0 & [= <-] & ? & _)].
Qed.

Lemma validateArchive_ok w db db' :
  validateArchivePreconditions w db = Ok (tt, db') <->
  db' = db /\ IsIdeaStatus (Status w) = false /\ WorkItemIsTerminalArchivable (Status w) = true
  /\ itemHasChildren db (ID w) = false.
Proof.
  unfold validateArchivePreconditions, guard_tx, mbind, tx_bind, mret, tx_ret, read.
  destruct (IsIdeaStatus (Status w)); [simpl; split; [done | by intros (_ & ? & _)]|].
  destruct (WorkItemIsTerminalArchivable (Status w)); [|simpl; split; [done | by intros (_ & _ & ? & _)]].
  simpl. destruct (itemHasChildren db (ID w)); simpl; split; try done.
  - by intros (_ & _ & _ & ?).
  - by intros [= ->].
  - by intros (-> & _).
Qed.

(** An attempt in a quiet window archives the row it read. *)
Lemma archive_attempt_quiet n interfere id db cur out db' :
  keyed db -> (forall d, interfere n d = d) ->
  archive_attempt interfere n id db = Ok ((cur, out), db') ->
  exists w, items db !! id = Some w /\ cur = w /\ WorkItemIsTerminalArchivable (Status w) = true
    /\ itemHasChildren db id = false
    /\ out = Ok (set_archive (now db) WorkItemArchived (Some (now db)) (Some (Status w)) w)
    /\ db' = with_items db (<[id := set_archive (now db) WorkItemArchived (Some (now db)) (Some (Status w)) w]> (items db)).
Proof.
  intros Hk Hq H. unfold archive_attempt in H.
  apply tx_bind_ok in H as (w & ? & [Hw ->]%GetWorkItem_ok & H).
  apply tx_bind_ok in H as ([] & ? & (-> & _ & Ht & Hc)%validateArchive_ok & H).
  apply tx_bind_ok in H as ([] & s & [= <-] & H). rewrite Hq in H.
  pose proof (Hk _ _ Hw) as HID. rewrite HID in *.
  apply tx_bind_ok in H as (o & s & Ho & [= <- <- <-]). unfold caught in Ho.
  destruct (ArchiveWorkItem_row id (Version w) (Status w) db) as [[w' db1]|e] eqn:E.
  - injection Ho as <- <-. apply ArchiveWorkItem_row_ok in E as (w0 & Hw0 & _ & -> & ->).
    rewrite Hw in Hw0. injection Hw0 as <-. rewrite HID. exists w. by split_and!.
  - exfalso. unfold ArchiveWorkItem_row in E. rewrite Hw, Z.eqb_refl in E. done.
Qed.

Lemma archive_attempt_err n interfere id db : archive_attempt interfere n id db <> Err ErrVersionConflict.
Proof.
  unfold archive_attempt, mbind, tx_bind. destruct (GetWorkItem id db) as [[w s]|e] eqn:E.
  - destruct (validateArchivePreconditions w s) as [[[] s1]|e1] eqn:E1.
    + cbn. unfold caught. by destruct (ArchiveWorkItem_row _ _ _ _) as [[]|].
    + revert E1. unfold validateArchivePreconditions, guard_tx, mbind, tx_bind, mret, tx_ret, read, fail.
      repeat case_match; by intros; simplify_eq/=.
  - unfold GetWorkItem in E. destruct (items db !! id); [done|]. by injection E as <-.
Qed.

Lemma archive_attempt_keyed n interfere id db cur out db' :
  keyed db -> (forall d, keyed d -> keyed (interfere n d)) ->
  archive_attempt interfere n id db = Ok ((cur, out), db') -> keyed db'.
Proof.
  intros Hk Hi H. unfold archive_attempt in H.
  apply tx_bind_ok in H as (w & ? & [Hw ->]%GetWorkItem_ok & H).
  apply tx_bind_ok in H as ([] & ? & (-> & _)%validateArchive_ok & H).
  apply tx_bind_ok in H as ([] & s & [= <-] & H).
  apply tx_bind_ok in H as (o & s & Ho & [= <- <- <-]). apply Hi in Hk. unfold caught in Ho.
  destruct (ArchiveWorkItem_row _ _ _ _) as [[w' db1]|e] eqn:E; injection Ho as <- <-; [|done].
  apply ArchiveWorkItem_row_ok in E as (w0 & _ & _ & -> & ->).
  exact (keyed_insert _ (set_archive _ _ _ _ w0) Hk).
Qed.

(** archiving absorbs one stale read: whatever other transactions commit
    between the first read and the first write, a version conflict reaches the
    caller only if the row moves again before the second write. *)
Theorem archive_absorbs_one_conflict (interfere : nat -> DB -> DB) (id : string) (db : DB)
  (Hk : keyed db) (Hk1 : forall d, keyed d -> keyed (interfere 1%nat d))
  (Hquiet : forall d, interfere 2%nat d = d) :
  ArchiveWorkItem interfere id db <> Err ErrVersionConflict.
Proof.
  unfold ArchiveWorkItem, mbind, tx_bind.
  destruct (guard_tx _ _ db) as [[u s]|e] eqn:Eg; [|revert Eg; unfold guard_tx, fail, mret, tx_ret; destruct (id == ""); [by intros [= <-] | done]].
  apply guard_tx_ok in Eg as [_ ->].
  destruct (archive_attempt interfere 1 id db) as [[[c first] s1]|e] eqn:E1;
    [|intros [= ->]; by apply archive_attempt_err in E1].
  assert (Hs1 : keyed s1) by (by eapply archive_attempt_keyed).
  destruct first as [a|[]]; try done.
  destruct (archive_attempt interfere 2 id s1) as [[[c2 second] s2]|e2] eqn:E2;
    [|intros [= ->]; by apply archive_attempt_err in E2].
  apply archive_attempt_quiet in E2 as (w & _ & _ & _ & _ & -> & _); done.
Qed.

(** C29: archiving then restoring is the identity up to the version and the
    update time: the terminal status comes back, the archive columns are
    cleared, everything else of the row is as it was. *)
Theorem archive_restore_round_trip (id : string) (db db1 : DB) (w a : WorkItemRow)
  (Hk : keyed db) (Hw : items db !! id = Some w) (Hactive : ArchivedAt w = None)
  (Hfrom : ArchivedFromStatus w = None)
  (H : ArchiveWorkItem quiet id db = Ok (a, db1)) :
  exists r db2, RestoreWorkItem id db1 = Ok (r, db2)
    /\ r = apply_fields (now db) no_fields (apply_fields (now db) no_fields w)
    /\ items db2 = <[id := r]> (items db).
Proof.
  unfold ArchiveWorkItem in H. apply tx_bind_ok in H as ([] & s & [Hid ->]%guard_tx_ok & H).
  apply tx_bind_ok in H as ([c first] & s1 & H1 & H).
  apply archive_attempt_quiet in H1 as (w0 & Hw0 & _ & Ht & _ & -> & ->); [|done..].
  rewrite Hw in Hw0. injection Hw0 as <-.
  apply tx_bind_ok in H as (o & s & [= <- <-] & H).
  apply tx_bind_ok in H as (? & s2 & [= _ <-] & H). apply tx_bind_ok in H as (? & s3 & [= _ <-] & H).
  injection H as <- <-. pose proof (Hk _ _ Hw) as HID.
  unfold RestoreWorkItem, mbind, tx_bind. unfold guard_tx at 1. rewrite Hid. cbn [mret tx_ret].
  unfold GetWorkItem. cbn [items with_items with_logs]. rewrite lookup_insert_eq. cbn [Status set_archive].
  unfold guard_tx. rewrite String.eqb_refl. cbn [negb mret tx_ret ID set_archive ArchivedFromStatus Version].
  rewrite HID. unfold RestoreWorkItem_row. cbn [items with_items with_logs].
  rewrite lookup_insert_eq. cbn [Version set_archive]. rewrite Z.eqb_refl.
  assert (Hne : (Status w == "") = false).
  { apply String.eqb_neq. intros E. by rewrite E in Ht. }
  rewrite Hne. cbn [put enqueueEvent recordAudit ID set_archive now with_items with_logs items].
  eexists _, _. split; [reflexivity|]. split.
  - unfold set_archive, apply_fields. cbn. destruct w; cbn in *; subst. done.
  - cbn [items with_logs with_items]. rewrite HID, insert_insert_eq. done.
Qed.

(** Archiving a prerequisite closes the gate its success had opened: the
    archived row keeps its edges and "archived" is no terminal success. *)
Lemma archive_closes_gate id db a db1 d :
  keyed db -> ArchiveWorkItem quiet id db = Ok (a, db1) ->
  In d (deps db) -> dag_edge d = true -> FromID d = id ->
  CheckDependenciesSatisfied db1 (ToID d) = false.
Proof.
  intros Hk H Hin Hd Hf. unfold ArchiveWorkItem in H.
  apply tx_bind_ok in H as ([] & s & [Hid ->]%guard_tx_ok & H).
  apply tx_bind_ok in H as ([c first] & s1 & H1 & H).
  apply archive_attempt_quiet in H1 as (w & Hw & _ & _ & _ & -> & ->); [|done..].
  apply tx_bind_ok in H as (o & s & [= <- <-] & H).
  apply tx_bind_ok in H as (? & s2 & [= _ <-] & H). apply tx_bind_ok in H as (? & s3 & [= _ <-] & H).
  injection H as <- <-. apply not_true_iff_false. rewrite CheckDependenciesSatisfied_spec.
  cbn [items deps with_items with_logs]. intros HC.
  specialize (HC d (set_archive (now db) WorkItemArchived (Some (now db)) (Some (Status w)) w) Hin eq_refl Hd).
  rewrite Hf, lookup_insert_eq in HC. by specialize (HC eq_refl).
Qed.

(** A soft delete does not look at the archive columns: an archived item leaves
    status "archived" while its archive time stays, so no restore accepts it. *)
Lemma delete_strands_archived id db w u db1 :
  keyed db -> items db !! id = Some w -> Status w = WorkItemArchived ->
  DeleteWorkItem id db = Ok (u, db1) ->
  ArchivedAt u = ArchivedAt w /\ Status u = WorkItemCancelled /\ is_ok (RestoreWorkItem id db1) = false.
Proof.
  intros Hk Hw Hs H. unfold DeleteWorkItem, transition in H.
  apply tx_bind_ok in H as (? & ? & [Hid ->]%guard_tx_ok & H).
  apply tx_bind_ok in H as (w0 & ? & [Hw0 ->]%GetWorkItem_ok & H). rewrite Hw in Hw0. injection Hw0 as <-.
  apply tx_bind_ok in H as (? & ? & [_ ->]%guard_tx_ok & H).
  apply tx_bind_ok in H as (u' & s & Hu & H). apply UpdateWorkItem_ok in Hu as (w0 & Hw0 & _ & -> & ->).
  rewrite Hw in Hw0. injection Hw0 as <-.
  apply tx_bind_ok in H as (? & s2 & [= _ <-] & H). apply tx_bind_ok in H as (? & s3 & [= _ <-] & H).
  injection H as <- <-. split_and!; [done | done |].
  unfold RestoreWorkItem, mbind, tx_bind. unfold guard_tx at 1. rewrite Hid. cbn [mret tx_ret].
  unfold GetWorkItem. cbn [items with_items with_logs]. by rewrite (Hk _ _ Hw), lookup_insert_eq.
Qed.

(** ** Creation *)

Lemma ApplyAutomationProvenance_ID row rc : ID (ApplyAutomationProvenance row rc) = ID row.
Proof.
  unfold ApplyAutomationProvenance. destruct (ProvenanceFromRunContext rc) as [[sb r] mo].
  by destruct (sb == "").
Qed.

Section created.
Context (LoadLocation : string -> option Location).
Context (newID : string) (newDepID : string -> string) (ctxRunContext : jsonb (gmap string string)).

Lemma ok_pair_inj {E A B} (a a' : A) (b b' : B) : @Ok E _ (a, b) = Ok (a', b') -> a = a' /\ b = b'.
Proof. by intros [= -> ->]. Qed.

Lemma tc_target (R : relation string) a b : tc R a b -> exists y, R y b.
Proof. intros H. induction H as [x y H | x y z _ _ IH]; eauto. Qed.

(** The steps of a creation that matter to the edges. *)
Lemma create_inv m db w st db' :
  Service_CreateWorkItem LoadLocation newID newDepID ctxRunContext m db = Ok ((w, st), db') ->
  ID w = newID /\ exists s, deps s = deps db
    /\ (cDependsOn m = [] /\ db' = s
        \/ exists l, validateDependsOn (cProjectId m) (ID w) [] (cDependsOn m) s = Ok (l, s)
           /\ exists x, each (create_edge newDepID (cProjectId m) (ID w)) l s = Ok (x, db')).
Proof.
  unfold Service_CreateWorkItem. intros H.
  apply tx_bind_ok in H as (? & ? & [_ ->]%guard_tx_ok & H).
  destruct (validateKind (cKind m)) as [kind|]; [|done].
  apply tx_bind_ok in H as (? & s1 & Hp & H). apply ro_project in Hp as ->.
  apply tx_bind_ok in H as (sch & s2 & Hs & H).
  assert (s2 = db) as ->.
  { repeat case_match; try done; injection Hs; intros; congruence. }
  apply tx_bind_ok in H as (? & s3 & Hv & H). apply ro_validate_parent in Hv as ->.
  apply tx_bind_ok in H as (? & s4 & Hr & H).
  assert (s4 = db) as ->.
  { revert Hr. assert (Hro : read_only (if is_some sch then
         ValidateRecurringFlatness true kind (cParentId m);;
         ValidateRecurringWorkflowBinding true false (cWorkflowId m) else mret tt)).
    { unfold ValidateRecurringFlatness, ValidateRecurringWorkflowBinding. ro. }
    apply Hro. }
  apply tx_bind_ok in H as (? & s5 & [= <- <-] & H).
  apply tx_bind_ok in H as (created & s6 & Hc & H).
  assert (HID : ID created = newID /\ deps s6 = deps db).
  { revert Hc. unfold CreateWorkItem_row. destruct (items db !! _); [done|]. intros [<- <-]%ok_pair_inj.
    split; [|done]. exact (ApplyAutomationProvenance_ID _ _). }
  destruct HID as [HID Hd].
  apply tx_bind_ok in H as (? & s7 & Hseq & H).
  assert (s7 = s6) as ->.
  { destruct (is_some (cScheduledStartAt m)); [by apply ro_sequence_schedule in Hseq | by injection Hseq as _ <-]. }
  apply tx_bind_ok in H as (? & s8 & [= _ <-] & H). apply tx_bind_ok in H as (? & s9 & [= _ <-] & H).
  apply tx_bind_ok in H as (? & s10 & He & H).
  apply tx_bind_ok in H as (? & s11 & [= <- <-] & H). injection H as <- _ <-.
  split; [done|]. revert He. set (s := with_logs _ _ _). intros He. exists s. split; [exact Hd|].
  destruct (cDependsOn m) as [|i ids].
  - left. split; [done|]. apply ok_pair_inj in He as [_ He]. symmetry. exact He.
  - right. apply tx_bind_ok in He as (l & s12 & Hval & He). pose proof Hval as Hval2.
    apply validateDependsOn_inv in Hval2 as [-> _]. exists l. split; [exact Hval|]. eexists. exact He.
Qed.

Lemma create_edges_spec p item l db x db' :
  each (create_edge newDepID p item) l db = Ok (x, db') ->
  (forall t, In t l -> t <> item) ->
  (forall d, In d (deps db) -> ToID d <> item) ->
  acyclic db ->
  acyclic db' /\ (forall d, In d (deps db') -> ToID d <> item)
  /\ (forall t, (exists d, In d (deps db') /\ depends_on_of item d = true /\ ToID d = t)
                <-> (exists d, In d (deps db) /\ depends_on_of item d = true /\ ToID d = t) \/ In t l).
Proof.
  revert db. induction l as [|t l IH]; intros db H Hl Hto Hac; cbn [each] in H.
  - injection H as _ <-. split_and!; [done | done |]. intros t. cbn [In]. tauto.
  - apply tx_bind_ok in H as (? & s1 & H1 & H). unfold create_edge in H1.
    apply tx_bind_ok in H1 as (row & s & Hrow & H1). apply CreateDependency_ok in Hrow as (_ & Hrow & ->).
    apply tx_bind_ok in H1 as (? & ? & [= _ <-] & [= _ <-]).
    assert (Hto1 : forall d, In d (deps db ++ [row]) -> ToID d <> item).
    { intros d [Hd | [<- | []]]%in_app_iff; [by apply Hto|]. rewrite Hrow. apply Hl. by left. }
    apply IH in H as (Hac' & Hto' & Hspec); [| intros; apply Hl; by right | done |].
    + split_and!; [done | done |]. intros y. rewrite Hspec. cbn [deps with_logs with_deps]. split.
      * intros [(d & [Hd | [<- | []]]%in_app_iff & Hdep & <-) | Hy]; [left; by exists d | | right; by right].
        right. left. by rewrite Hrow.
      * intros [(d & Hd & Hdep & <-) | [<- | Hy]]; [left; exists d | left; exists row | by right].
        -- split_and!; [apply in_app_iff; by left | done | done].
        -- split_and!; [apply in_app_iff; right; by left | | by rewrite Hrow].
           rewrite Hrow. unfold depends_on_of. cbn. by rewrite String.eqb_refl.
    + apply (acyclic_add db _ p item t); [| intros E; apply (Hl t); [by left | done] | | done].
      * intros q a b He. apply (edge_snoc db _ row) in He; [|done]. rewrite Hrow in He. cbn in He. tauto.
      * intros Htc. destruct (tc_target _ _ _ Htc) as (y & d & Hd & _ & _ & _ & Hd2).
        by apply (Hto d Hd).
Qed.

(** C22: the edges of a creation need no cycle check: for a fresh id the graph
    stays acyclic, and the created item depends on exactly the requested
    items. *)
Theorem create_edges_need_no_check (m : CreateWorkItemRequest) (db db' : DB) (w : WorkItemRow)
  (st : option start_request)
  (Hfresh : forall d, In d (deps db) -> FromID d <> newID /\ ToID d <> newID) (Hac : acyclic db)
  (H : Service_CreateWorkItem LoadLocation newID newDepID ctxRunContext m db = Ok ((w, st), db')) :
  ID w = newID /\ acyclic db'
  /\ (forall t, (exists d, In d (deps db') /\ depends_on_of newID d = true /\ ToID d = t)
                <-> In t (map TrimSpace (cDependsOn m))).
Proof.
  apply create_inv in H as (HID & s & Hdeps & Hedges). split; [done|].
  assert (Hold : forall t, ~ exists d, In d (deps db) /\ depends_on_of newID d = true /\ ToID d = t).
  { intros t (d & Hd & Hdep & _). unfold depends_on_of in Hdep. apply andb_true_iff in Hdep as [Hdep _].
    apply String.eqb_eq in Hdep. by destruct (Hfresh d Hd). }
  assert (Hac1 : acyclic s).
  { apply (acyclic_subset db); [|done]. intros q a b (d & Hd & He). exists d. by rewrite Hdeps in Hd. }
  destruct Hedges as [[Hnil ->] | (l & Hv & x & Heach)].
  - split; [done|]. intros t. rewrite Hnil, Hdeps. split; [intros Hd; by destruct (Hold t) | by intros []].
  - apply validateDependsOn_inv in Hv as (_ & Hne & Hin). rewrite Forall_forall in Hne.
    rewrite HID in *. apply create_edges_spec in Heach as (Hac2 & _ & Hspec); [| | |done].
    + split; [done|]. intros t. rewrite Hspec, Hin, Hdeps. split.
      * intros [Hd | [Ht _]]; [by destruct (Hold t) | done].
      * intros Ht. right. split; [done | by intros []].
    + intros t Ht. by apply Hne, list_elem_of_In.
    + intros d Hd. rewrite Hdeps in Hd. by apply Hfresh.
Qed.

End created.

(** ** Concrete instances *)

(** Three tasks under a feature, one of them done. *)
Definition board_db : DB :=
  sample_db [sample "f" "feature" "pending" None 1; sample "a" "task" "pending" (Some "f") 1;
             sample "b" "task" "succeeded" (Some "f") 2; sample "c" "task" "pending" (Some "f") 3]
    [mkDep "e1" "p" "b" "a" DependencyBlocks 0].

Lemma board_keyed : keyed board_db.
Proof.
  intros id w H. unfold board_db, sample_db in H. cbn [items list_to_map map foldr] in H.
  repeat (apply lookup_insert_Some in H as [[<- <-] | [_ H]]; [reflexivity|]). discriminate H.
Defined.

Definition res_of {A} (d : A) (r : result db_error (A * DB)) : A :=
  match r with Ok (a, _) => a | Err _ => d end.
Definition after {A} (r : result db_error (A * DB)) : DB :=
  match r with Ok (_, db) => db | Err _ => board_db end.

Lemma reorder_renumbers_witness :
  map ID (ListSiblingsForReorder (after (ReorderWorkItems "p" "f" ["c"; "a"] board_db)) "p" "f")
  = ["c"; "a"; "b"].
Proof.
  destruct (reorder_renumbers "p" "f" ["c"; "a"] board_db (after (ReorderWorkItems "p" "f" ["c"; "a"] board_db))
              (res_of [] (ReorderWorkItems "p" "f" ["c"; "a"] board_db))) as (H1 & H2 & _);
    [exact board_keyed | vm_compute; reflexivity |].
  rewrite H1. vm_compute. reflexivity.
Defined.

(** Another transaction bumps the row's version once. *)
Definition bump_once (n : nat) (db : DB) : DB :=
  match n with
  | 1%nat => match items db !! "b" with
             | Some w => with_items db (<[ID w := apply_fields 0 no_fields w]> (items db))
             | None => db
             end
  | _ => db
  end.

Lemma archive_absorbs_one_conflict_witness :
  ArchiveWorkItem bump_once "b" board_db <> Err ErrVersionConflict
  /\ is_ok (ArchiveWorkItem bump_once "b" board_db) = true.
Proof.
  split; [|vm_compute; reflexivity].
  apply (archive_absorbs_one_conflict bump_once "b" board_db).
  - exact board_keyed.
  - intros d Hd. unfold bump_once. destruct (items d !! "b") as [w|]; [|exact Hd].
    exact (keyed_insert d (apply_fields 0 no_fields w) Hd).
  - reflexivity.
Defined.

Lemma archive_restore_round_trip_witness :
  exists r db2, RestoreWorkItem "b" (after (ArchiveWorkItem quiet "b" board_db)) = Ok (r, db2)
                /\ Status r = "succeeded" /\ Version r = 3%Z.
Proof.
  destruct (archive_restore_round_trip "b" board_db (after (ArchiveWorkItem quiet "b" board_db))
              (sample "b" "task" "succeeded" (Some "f") 2)
              (res_of (sample "" "" "" None 0) (ArchiveWorkItem quiet "b" board_db))) as (r & db2 & H1 & H2 & _);
    [exact board_keyed | reflexivity | reflexivity | reflexivity | vm_compute; reflexivity |].
  exists r, db2. split; [exact H1|]. rewrite H2. split; reflexivity.
Defined.

Definition create_request : CreateWorkItemRequest :=
  mkCreateRequest "p" WORK_ITEM_KIND_TASK "new" "f" "wf" None (Some true) None ["a"; " b"; "a"] JNull.

Lemma create_edges_need_no_check_witness :
  let r := Service_CreateWorkItem no_zones "n" id JNull create_request board_db in
  acyclic (after r).
Proof.
  cbv zeta.
  apply (create_edges_need_no_check no_zones "n" id JNull create_request board_db _
           (fst (res_of (sample "" "" "" None 0, None)
                   (Service_CreateWorkItem no_zones "n" id JNull create_request board_db)))
           (Some (StartWorkflow "wf" "p" "n"))).
  - intros d [<- | []]. split; discriminate.
  - apply (acyclic_add (with_deps board_db []) board_db "p" "b" "a").
    + intros q x y (d & [<- | []] & <- & _ & <- & <-). right. split; [|split]; reflexivity.
    + discriminate.
    + intros Htc. apply tc_target in Htc as (z & d & [] & _).
    + apply acyclic_empty. reflexivity.
  - vm_compute. reflexivity.
Defined.

(** An idea created with auto-start and a workflow starts a run at once: the
    decision looks at the request, not at the status the provenance gave. *)
Example idea_is_started :
  let rc := JVal (<["spawned_by" := "r"]> (<["outputs_mode" := "idea"]> ∅)) in
  let r := Service_CreateWorkItem no_zones "n" id rc create_request board_db in
  exists w, res_of (sample "" "" "" None 0, None) r = (w, Some (StartWorkflow "wf" "p" "n"))
            /\ Status w = WorkItemIdea.
Proof. eexists. split; vm_compute; reflexivity. Qed.
