(* ===== verification/Sequence.v ===== *)
(** * Sequence runs (internal/scheduler/sequence_reconciler.go,
    internal/workflow/service.go [AbortRunInTx], internal/workitem/service.go
    [ControlSequence])

    A parent with children and no bound run is a sequence: the next child is
    derived from the order, the statuses and the dependency edges on every
    pass.  The walks along the hierarchy ([failSequenceChain] upwards,
    [resetSubtree] and [haltWorkItemCollect] downwards) are not bounded in the
    source; the model follows [chain_fuel] levels and fails with [ErrFuel],
    which a store that respects the hierarchy never reaches.  The starter of a
    workflow is a parameter that commits its own transaction and reports
    success; session and container kills after a stop are left out. *)

From S2P Require Import Prelude GoStrings Domain WorkItems Dependencies.
From S2P Require Import Hierarchy Calendar Recurring WorkItemUpdate.
From stdpp Require Import pretty.

Open Scope Z_scope.

Definition sequenceMaxAttempts : Z := 5.
Definition sequenceMaxConsecutiveErrors : Z := 5.
Definition sequenceStallThreshold : Z := 5 * Minute.

(** [1 << n] in 64 bits. *)
Definition shl1 (n : Z) : Z := if n <? 64 then wrap64 (2 ^ n) else 0.

Definition sequenceBackoff (attempts : Z) : Z :=
  if attempts <=? 0 then 0
  else
    let d := wrap64 (wrap64 (5 * shl1 (attempts - 1)) * Second) in
    if 5 * Minute <? d then 5 * Minute else d.

Record leafStart := mkStart { lsWorkflow : string; lsProject : string; lsItem : string }.

Definition is_recurring (w : WorkItemRow) : bool := json_present (RecurringScheduleCol w).

(** The fields of a status change; a recurring parent's cursor is recomputed
    when it was cleared. *)
Definition status_next (s : string) (next : option Z) : UpdateWorkItemFields := put_next_run next (set_status s).

Definition fail_reason (c : WorkItemRow) (reason : string) : UpdateWorkItemFields :=
  fail_fields (<["sequence_failure_reason" := reason]>
                 (match Results c with JVal m => m | _ => ∅ end)).

Section sequence.
Context (LoadLocation : string -> option Location).

(** ** Deriving and arming *)

(** The first child that is not terminal-success. *)
Fixpoint deriveNextChild (children : list WorkItemRow) : option nat :=
  match children with
  | [] => None
  | c :: rest => if negb (WorkItemIsTerminalSuccess (Status c)) then Some O
                 else S <$> deriveNextChild rest
  end.

(** The fields that end a cycle of a parent: [done] unless it recurs. *)
Definition end_cycle (parent : WorkItemRow) (status : string) (t : Z) : UpdateWorkItemFields :=
  if is_recurring parent
  then status_next WorkItemRecurring
         (ensureRecurringNextRun LoadLocation (RecurringScheduleCol parent) (NextRunAt parent) t)
  else set_status status.

Fixpoint failSequenceChain (fuel : nat) (cur : WorkItemRow) : Tx unit :=
  match fuel with
  | O => fail ErrFuel
  | S fuel =>
      match ParentID cur with
      | None => mret tt
      | Some pid =>
          db ← read;
          match items db !! pid with
          | None => mret tt
          | Some parent =>
              (if (Status parent == WorkItemRunning) && (WorkflowRunID parent == "")
                  && itemHasChildren db (ID parent)
               then UpdateWorkItem (ID parent) (Version parent) (end_cycle parent WorkItemFailed (now db));; mret tt
               else mret tt);;
              failSequenceChain fuel parent
          end
      end
  end.

Definition is_in_flight_run (s : string) : bool :=
  (s == WorkItemRunning) || (s == WorkItemCheckpointing) || (s == WorkItemRecovering).

Fixpoint resetSubtree (fuel : nat) (parentID : string) : Tx unit :=
  match fuel with
  | O => fail ErrFuel
  | S fuel =>
      cs ← children parentID;
      each (fun c =>
        if is_in_flight_run (Status c) || WorkItemIsTerminalSuccess (Status c) then mret tt
        else
          (if Status c == WorkItemPending then mret tt
           else UpdateWorkItem (ID c) (Version c) (set_status WorkItemPending);; mret tt);;
          resetSubtree fuel (ID c)) cs
  end.

(** What a child makes of the pass: go on, with the workflow to start if it was
    armed as a leaf, or end the pass. *)
Inductive child_outcome := Next (start : option leafStart) | EndPass.

(** In flight or human-managed. *)
Definition is_waiting (s : string) : bool :=
  (s == WorkItemRunning) || (s == WorkItemAssigned) || (s == WorkItemReady)
  || (s == WorkItemCheckpointing) || (s == WorkItemRecovering) || (s == WorkItemScheduled)
  || (s == WorkItemRecurring).

Definition in_backoff (c : WorkItemRow) (t : Z) : bool :=
  (0 <? SequenceAttempts c)
  && match SequenceLastAttemptAt c with
     | Some last => t - last <? sequenceBackoff (SequenceAttempts c)
     | None => false
     end.

(** Arm a child whose gates have passed. *)
Definition arm (c : WorkItemRow) : Tx child_outcome :=
  db ← read;
  if itemHasChildren db (ID c) then
    UpdateWorkItem (ID c) (Version c) (set_status WorkItemRunning);;
    resetSubtree chain_fuel (ID c);;
    mret (Next None)
  else
    match WorkflowID c with
    | Some wf =>
        if wf == "" then
          UpdateWorkItem (ID c) (Version c) (set_status WorkItemFailed);;
          failSequenceChain chain_fuel c;;
          mret EndPass
        else
          UpdateWorkItem (ID c) (Version c) (set_status WorkItemRunning);;
          mret (Next (Some (mkStart wf (ProjectID c) (ID c))))
    | None =>
        UpdateWorkItem (ID c) (Version c) (set_status WorkItemFailed);;
        failSequenceChain chain_fuel c;;
        mret EndPass
    end.

(** One iteration of the arming loop; [prev] is the predecessor as it was
    before the pass. *)
Definition arm_child (depGoverned : string -> bool) (prev : option WorkItemRow) (c : WorkItemRow)
    : Tx child_outcome :=
  if WorkItemIsTerminalSuccess (Status c) || is_waiting (Status c) then mret (Next None)
  else if negb ((Status c == WorkItemPending) || (Status c == WorkItemBlocked)) then mret (Next None)
  else
    db ← read;
    if sequenceMaxAttempts <=? SequenceAttempts c then
      UpdateWorkItem (ID c) (Version c)
        (fail_reason c ("start failed " +:+ pretty (SequenceAttempts c) +:+ " times"));;
      failSequenceChain chain_fuel c;;
      mret EndPass
    else if in_backoff c (now db) then mret (Next None)
    else if negb (depGoverned (ID c))
            && match prev with Some p => negb (WorkItemIsTerminalSuccess (Status p)) | None => false end
    then mret (Next None)
    else if negb (CheckDependenciesSatisfied db (ID c)) then
      (if Status c == WorkItemPending
       then UpdateWorkItem (ID c) (Version c) (set_status WorkItemBlocked);; mret tt else mret tt);;
      mret (Next None)
    else
      c' ← (if Status c == WorkItemBlocked
            then UpdateWorkItem (ID c) (Version c) (set_status WorkItemPending) else mret c);
      arm c'.

Fixpoint arm_children (depGoverned : string -> bool) (prev : option WorkItemRow)
    (children : list WorkItemRow) (starts : list leafStart) : Tx (list leafStart) :=
  match children with
  | [] => mret starts
  | c :: rest =>
      outcome ← arm_child depGoverned prev c;
      match outcome with
      | EndPass => mret []
      | Next None => arm_children depGoverned (Some c) rest starts
      | Next (Some s) => arm_children depGoverned (Some c) rest (starts ++ [s])
      end
  end.

Definition is_halted (c : WorkItemRow) : bool :=
  (Status c == WorkItemFailed) || (Status c == WorkItemCancelled).

(** The children with an incoming dependency edge. *)
Definition dep_governed (db : DB) (children : list WorkItemRow) (id : string) : bool :=
  existsb (fun d => ToID d == id)
    (ListDependenciesTargetingItems db (map ID children) [DependencyBlocks; DependencyDependsOn]).

Definition reconcileParent (parentID : string) : Tx (list leafStart) :=
  parent ← GetWorkItem parentID;
  if negb (WorkflowRunID parent == "")
     || negb ((Status parent == WorkItemRunning) || (Status parent == WorkItemFailed)) then mret []
  else
    db ← read;
    let cs := ListDirectChildren db parentID in
    match cs with
    | [] => mret []
    | _ :: _ =>
        match deriveNextChild cs with
        | None =>
            UpdateWorkItem parentID (Version parent) (end_cycle parent WorkItemSucceeded (now db));;
            mret []
        | Some _ =>
            match List.find is_halted cs with
            | Some c => failSequenceChain chain_fuel c;; mret []
            | None =>
                (if Status parent == WorkItemFailed then
                   fresh ← GetWorkItem parentID;
                   if Status fresh == WorkItemFailed
                   then UpdateWorkItem parentID (Version fresh) (set_status WorkItemRunning);; mret tt
                   else mret tt
                 else mret tt);;
                arm_children (dep_governed db cs) None cs []
            end
        end
    end.

(** ** Starting and resuming *)

Definition run_parent : UpdateWorkItemFields :=
  mkFields None (Some WorkItemRunning) None false None None (Some "") None None None None false None None
    None None false None.

Definition StartSequence_tx (parentID : string) : Tx (list leafStart) :=
  parent ← GetWorkItem parentID;
  db ← read;
  guard_tx (negb (itemHasChildren db parentID)) (ErrInvalid "no children");;
  UpdateWorkItem parentID (Version parent) run_parent;;
  resetSubtree chain_fuel parentID;;
  reconcileParent parentID.

Definition ResumeSequence_tx (parentID : string) : Tx (list leafStart) :=
  parent ← GetWorkItem parentID;
  db ← read;
  let cs := ListDirectChildren db parentID in
  guard_tx (match cs with [] => true | _ => false end) (ErrInvalid "no children");;
  (match deriveNextChild cs ≫= fun i => nth_error cs i with
   | Some c => if is_halted c
               then UpdateWorkItem (ID c) (Version c) (set_status WorkItemPending);; mret tt else mret tt
   | None => mret tt
   end);;
  UpdateWorkItem parentID (Version parent) run_parent;;
  reconcileParent parentID.

(** [start workflow project item] *)
Context (start : string -> string -> string -> DB -> DB * bool).

Definition resetArmedChild (childID : string) (db : DB) : DB :=
  match items db !! childID with
  | Some c =>
      if negb (Status c == WorkItemRunning) || negb (WorkflowRunID c == "") then db
      else with_items db (<[ID c := set_sequence (now db) WorkItemPending (SequenceAttempts c + 1)
                                      (Some (now db)) (SequenceConsecutiveScanErrors c)
                                      (SequenceLastProgressAt c) c]> (items db))
  | None => db
  end.

Fixpoint fireLeafStarts (starts : list leafStart) (db : DB) : DB :=
  match starts with
  | [] => db
  | s :: rest =>
      let '(db1, ok) := start (lsWorkflow s) (lsProject s) (lsItem s) db in
      fireLeafStarts rest (if ok then db1 else resetArmedChild (lsItem s) db1)
  end.

(** Commit, then fire; an error leaves the state as it was. *)
Definition commit_and_fire (m : Tx (list leafStart)) (db : DB) : DB * option db_error :=
  match m db with
  | Ok (starts, db') => (fireLeafStarts starts db', None)
  | Err e => (db, Some e)
  end.

Definition StartSequence (parentID : string) : DB -> DB * option db_error := commit_and_fire (StartSequence_tx parentID).
Definition ResumeSequence (parentID : string) : DB -> DB * option db_error := commit_and_fire (ResumeSequence_tx parentID).
Definition reconcileOne (parentID : string) : DB -> DB * option db_error := commit_and_fire (reconcileParent parentID).

(** ** The scan and its guards *)

Definition put_sequence (w : WorkItemRow) (db : DB) : DB := with_items db (<[ID w := w]> (items db)).

(** The status a wedged or stalled parent is halted in. *)
Definition halt_fields (w : WorkItemRow) (reason : string) : UpdateWorkItemFields :=
  let f := fail_reason w reason in
  if is_recurring w then put_status WorkItemRecurring f else f.

(** The text of the failed pass is left out of the recorded reason. *)
Definition recordScanError (parentID : string) (db : DB) : DB :=
  match items db !! parentID with
  | None => db
  | Some parent =>
      let newCount := SequenceConsecutiveScanErrors parent + 1 in
      if sequenceMaxConsecutiveErrors <=? newCount then
        settle (UpdateWorkItem parentID (Version parent) (halt_fields parent "reconcile wedged")) db
      else put_sequence (set_sequence (now db) (Status parent) (SequenceAttempts parent)
                           (SequenceLastAttemptAt parent) newCount (SequenceLastProgressAt parent) parent) db
  end.

Definition clearScanError (parentID : string) (db : DB) : DB :=
  match items db !! parentID with
  | None => db
  | Some parent =>
      if (SequenceConsecutiveScanErrors parent =? 0) && is_some (SequenceLastProgressAt parent) then db
      else put_sequence (set_sequence (now db) (Status parent) (SequenceAttempts parent)
                           (SequenceLastAttemptAt parent) 0 (Some (now db)) parent) db
  end.

(** A running parent without recent progress and nothing in flight. *)
Definition is_stalled (db : DB) (p : WorkItemRow) : bool :=
  let ref := match SequenceLastProgressAt p with Some t => t | None => UpdatedAt p end in
  negb (now db - ref <? sequenceStallThreshold)
  && (Status p == WorkItemRunning)
  && negb (existsb (fun c => is_waiting (Status c) || (Status c == WorkItemBlocked))
             (ListDirectChildren db (ID p))).

Definition checkStalledParent (id : string) (db : DB) : DB :=
  match items db !! id with
  | None => db
  | Some p => if is_stalled db p
              then settle (UpdateWorkItem id (Version p) (halt_fields p "stalled: no progress for 5m")) db
              else db
  end.

(** [ErrNotFound] counts as a conflict; the texts of the other errors name
    none. *)
Definition reIsCASConflict (e : db_error) : bool :=
  match e with ErrVersionConflict | ErrNotFound => true | _ => false end.

Definition scan_one (db : DB) (id : string) : DB :=
  match reconcileOne id db with
  | (db', None) => clearScanError id db'
  | (db', Some e) => if reIsCASConflict e then db' else recordScanError id db'
  end.

Definition scan (db : DB) : DB :=
  let parents := map ID (ListSequenceActiveParents db) in
  fold_left (fun db id => checkStalledParent id db) parents
    (fold_left scan_one (firstn 16 parents) db).

(** ** Stopping *)

Definition is_terminal_run (s : string) : bool :=
  (s == WorkflowRunCompleted) || (s == WorkflowRunFailed) || (s == WorkflowRunAborted).

Definition is_open_step (s : string) : bool :=
  (s == StepRunPending) || (s == StepRunReady) || (s == StepRunRunning) || (s == StepRunApprovalPending).

Definition is_open_execution (s : string) : bool := (s == ExecutionRunning) || (s == ExecutionDispatching).

(** The linked executions, in step order: each one found open is terminated
    and reported once. *)
Fixpoint terminate_linked (steps : list StepRunRow) (execs : gmap string string)
    : list string * gmap string string :=
  match steps with
  | [] => ([], execs)
  | sr :: rest =>
      let e := WorkerExecutionID sr in
      if negb (e == "") && match execs !! e with Some s => is_open_execution s | None => false end then
        let '(ids, execs') := terminate_linked rest (<[e := ExecutionTerminated]> execs) in (e :: ids, execs')
      else terminate_linked rest execs
  end.

Definition steps_of (db : DB) (runID : string) : list StepRunRow :=
  List.filter (fun sr => StepRunOf sr == runID) (stepRuns db).

Definition abort_state (db : DB) (runID : string) (run : WorkflowRunRow) : DB :=
  with_runs db
    (<[runID := mkRun WorkflowRunAborted (RunWorkItemID run) (RunVersion run + 1)]> (runs db))
    (map (fun sr => if (StepRunOf sr == runID) && is_open_step (StepRunStatus sr)
                    then mkStepRun (StepRunID sr) (StepRunOf sr) StepRunFailed (WorkerExecutionID sr)
                    else sr) (stepRuns db))
    (snd (terminate_linked (steps_of db runID) (executions db))).

(** The linked work item's status; any error of it is dropped. *)
Definition set_linked_status (id status : string) : Tx unit :=
  fun db => Ok (tt, match items db !! id with
                    | Some wi => settle (UpdateWorkItem id (Version wi) (set_status status)) db
                    | None => db
                    end).

Definition AbortRunInTx (runID workItemStatus : string) : Tx (list string) :=
  db ← read;
  match runs db !! runID with
  | None => fail ErrNotFound
  | Some run =>
      if is_terminal_run (RunStatus run) then mret []
      else
        let aborted := fst (terminate_linked (steps_of db runID) (executions db)) in
        ((fun _ => Ok (tt, abort_state db runID run)) : Tx unit);;
        (if RunWorkItemID run == "" then mret tt else set_linked_status (RunWorkItemID run) workItemStatus);;
        mret aborted
  end.

(** Up to three conditional writes, then an unconditional one. *)
Fixpoint parkWorkItemResilient (retries : nat) (itemID : string) : Tx unit :=
  fresh ← GetWorkItem itemID;
  if WorkItemIsTerminalSuccess (Status fresh) then mret tt
  else
    match retries with
    | O => ParkWorkItem itemID;; mret tt
    | S retries =>
        let status := if is_recurring fresh then WorkItemRecurring else WorkItemPending in
        ((fun db =>
          match UpdateWorkItem itemID (Version fresh)
                  (mkFields None (Some status) None false None None None None None (Some "") None true
                     None None None None false None) db with
          | Ok (_, db') => Ok (tt, db')
          | Err ErrVersionConflict => parkWorkItemResilient retries itemID db
          | Err e => Err e
          end) : Tx unit)
    end.

(** Abort the run bound to an item; a run that is gone is no error. *)
Definition abort_bound (runID : string) (acc : list string * list string) : Tx (list string * list string) :=
  fun db =>
    if runID == "" then Ok (acc, db)
    else match AbortRunInTx runID WorkItemPending db with
         | Ok (aborted, db') => Ok ((fst acc ++ aborted, snd acc ++ [runID]), db')
         | Err ErrNotFound => Ok (acc, db)
         | Err e => Err e
         end.

(** The aborted executions and runs, in the order they are met. *)
Fixpoint haltWorkItemCollect (fuel : nat) (itemID : string) (acc : list string * list string)
    : Tx (list string * list string) :=
  match fuel with
  | O => fail ErrFuel
  | S fuel =>
      item ← GetWorkItem itemID;
      if WorkItemIsTerminalSuccess (Status item) then mret acc
      else
        acc1 ← abort_bound (WorkflowRunID item) acc;
        cs ← children itemID;
        acc2 ← fold_left (fun (m : Tx (list string * list string)) c =>
                            a ← m; haltWorkItemCollect fuel (ID c) a) cs (mret acc1);
        parkWorkItemResilient 3%nat itemID;;
        mret acc2
  end.

Definition StopSequence (parentID : string) : Tx (list string * list string) :=
  haltWorkItemCollect chain_fuel parentID ([], []).

End sequence.

(** ** What a pass may change *)

(** A postcondition for results and one for errors. *)
Definition wp {A} (m : Tx A) (E : db_error -> Prop) (Q : A -> DB -> Prop) (db : DB) : Prop :=
  match m db with Ok (a, db') => Q a db' | Err e => E e end.

Lemma wp_bind {A B} (m : Tx A) (k : A -> Tx B) E Q db :
  wp m E (fun a => wp (k a) E Q) db -> wp (m ≫= k) E Q db.
Proof. unfold wp, mbind, tx_bind. by destruct (m db) as [[a db1]|e]. Qed.

Lemma wp_ret {A} (a : A) E (Q : A -> DB -> Prop) db : Q a db -> wp (mret a) E Q db.
Proof. done. Qed.

Lemma wp_mono {A} (m : Tx A) E (Q Q' : A -> DB -> Prop) db :
  wp m E Q db -> (forall a db', Q a db' -> Q' a db') -> wp m E Q' db.
Proof. unfold wp. destruct (m db) as [[a db1]|e]; auto. Qed.

Lemma wp_get id (E : db_error -> Prop) Q db :
  E ErrNotFound -> (forall w, items db !! id = Some w -> Q w db) -> wp (GetWorkItem id) E Q db.
Proof. unfold wp, GetWorkItem. destruct (items db !! id); auto. Qed.

Lemma wp_read E Q db : Q db db -> wp read E Q db.
Proof. done. Qed.

(** A row of a pass keeps its place in the tree and its workflow, and never
    becomes a success. *)
Definition row_step (w w' : WorkItemRow) : Prop :=
  ID w' = ID w /\ ParentID w' = ParentID w /\ Kind w' = Kind w /\ ArchivedAt w' = ArchivedAt w
  /\ ProjectID w' = ProjectID w /\ WorkflowID w' = WorkflowID w
  /\ (WorkItemIsTerminalSuccess (Status w') = true -> WorkItemIsTerminalSuccess (Status w) = true).

(** The states a pass can reach: the same rows, edges and clock. *)
Definition pass_step (db db' : DB) : Prop :=
  deps db' = deps db /\ now db' = now db
  /\ forall id, match items db !! id, items db' !! id with
                | Some w, Some w' => row_step w w'
                | None, None => True
                | _, _ => False
                end.

Lemma row_step_refl w : row_step w w.
Proof. by split_and!. Qed.

#[export] Instance pass_step_refl : Reflexive pass_step.
Proof. intros db. split_and!; [done | done |]. intros id. destruct (items db !! id); [apply row_step_refl | done]. Qed.

#[export] Instance pass_step_trans : Transitive pass_step.
Proof.
  intros a b c (H1 & H2 & H3) (H4 & H5 & H6). split_and!; [congruence | congruence |]. intros id.
  specialize (H3 id). specialize (H6 id).
  destruct (items a !! id), (items b !! id), (items c !! id); try done.
  destruct H3 as (?&?&?&?&?&?&?), H6 as (?&?&?&?&?&?&?). split_and!; try congruence. auto.
Qed.

Lemma pass_step_row db db' id w :
  pass_step db db' -> items db !! id = Some w -> exists w', items db' !! id = Some w' /\ row_step w w'.
Proof. intros (_ & _ & H) Hw. specialize (H id). rewrite Hw in H. destruct (items db' !! id); [by eexists | done]. Qed.

Lemma pass_step_row_back db db' id w' :
  pass_step db db' -> items db' !! id = Some w' -> exists w, items db !! id = Some w /\ row_step w w'.
Proof. intros (_ & _ & H) Hw. specialize (H id). rewrite Hw in H. destruct (items db !! id); [by eexists | done]. Qed.

Lemma pass_step_tree db db' : pass_step db db' -> tree_ok db -> tree_ok db'.
Proof.
  intros Hs Ht id w pid p Hw Hp Hpid.
  apply (pass_step_row_back db) in Hw as (w0 & Hw0 & _ & Hpar & Hk & _); [|done].
  apply (pass_step_row_back db) in Hpid as (p0 & Hp0 & _ & _ & Hkp & _); [|done].
  rewrite Hk, Hkp. apply (Ht id w0 pid p0); congruence.
Qed.

Lemma pass_step_keyed db db' : pass_step db db' -> keyed db -> keyed db'.
Proof.
  intros Hs Hk id w Hw. apply (pass_step_row_back db) in Hw as (w0 & Hw0 & HID & _); [|done].
  rewrite HID. by apply Hk.
Qed.

(** A gate that is open later in the pass was open when it began. *)
Lemma pass_step_gate db db' id :
  pass_step db db' -> CheckDependenciesSatisfied db' id = true -> CheckDependenciesSatisfied db id = true.
Proof.
  intros Hs. rewrite !CheckDependenciesSatisfied_spec. intros H d w Hin Ht Hd Hw.
  destruct (pass_step_row _ _ _ _ Hs Hw) as (w' & Hw' & _ & _ & _ & _ & _ & _ & Hterm).
  apply Hterm, (H d w'); try done. by destruct Hs as [-> _].
Qed.

(** Updates that leave the tree alone and do not succeed. *)
Definition plain_update (f : UpdateWorkItemFields) : Prop :=
  fParentID f = None /\ fKind f = None /\ fProjectID f = None /\ fWorkflowID f = None
  /\ match fStatus f with Some s => WorkItemIsTerminalSuccess s = false | None => True end.

Lemma wp_update id v f (E : db_error -> Prop) (Q : WorkItemRow -> DB -> Prop) db :
  keyed db -> plain_update f -> E ErrNotFound -> E ErrVersionConflict ->
  (forall w, items db !! id = Some w -> Version w = v ->
     let w' := apply_fields (now db) f w in
     let db' := with_items db (<[id := w']> (items db)) in
     pass_step db db' -> Q w' db') ->
  wp (UpdateWorkItem id v f) E Q db.
Proof.
  intros Hk (Hp & Hki & Hpr & Hwf & Hs) H1 H2 HQ. unfold wp. destruct (UpdateWorkItem id v f db) as [[w' db']|e] eqn:E0.
  - apply UpdateWorkItem_ok in E0 as (w & Hw & Hv & -> & ->). rewrite (Hk _ _ Hw). apply HQ; [done | done |].
    split_and!; [done | done |]. intros i. cbn [items with_items].
    destruct (decide (id = i)) as [<-|Hne].
    + rewrite lookup_insert_eq, Hw. split_and!; cbn [ID ParentID Kind ArchivedAt ProjectID WorkflowID Status apply_fields];
        rewrite ?Hp, ?Hki, ?Hpr, ?Hwf; try done. destruct (fStatus f); cbn [upd option_or]; [by rewrite Hs | done].
    + rewrite lookup_insert_ne by done. destruct (items db !! i); [apply row_step_refl | done].
  - unfold UpdateWorkItem in E0. destruct (items db !! id); [|by injection E0 as <-].
    destruct (_ =? _) in E0; [done|]. injection E0 as <-. by destruct (isWorkItemVersionConflict db id).
Qed.

(** Errors other than the model's own bound. *)
Definition no_fuel (e : db_error) : Prop := e <> ErrFuel.

Section passes.
Context (LoadLocation : string -> option Location).

Lemma plain_status s : WorkItemIsTerminalSuccess s = false -> plain_update (set_status s).
Proof. intros H. unfold plain_update. by split_and!. Qed.

Lemma plain_end_cycle w s t :
  WorkItemIsTerminalSuccess s = false -> plain_update (end_cycle LoadLocation w s t).
Proof. intros H. unfold end_cycle, plain_update. destruct (is_recurring w); by split_and!. Qed.

#[local] Hint Resolve plain_status plain_end_cycle pass_step_keyed pass_step_tree : core.

(** An update whose row is not used. *)
Lemma wp_touch id v f db (Q : unit -> DB -> Prop) :
  keyed db -> plain_update f -> (forall db', pass_step db db' -> Q tt db') ->
  wp (UpdateWorkItem id v f;; mret tt) no_fuel Q db.
Proof. intros Hk Hf HQ. apply wp_bind, wp_update; try done. intros w _ _ w' db' Hs. apply wp_ret, HQ, Hs. Qed.

(** The walk up ends: each parent is strictly shallower. *)
Lemma wp_fail_chain fuel c db :
  keyed db -> tree_ok db -> (kindOrder (Kind c) < Z.of_nat fuel) ->
  (forall pid p, ParentID c = Some pid -> items db !! pid = Some p -> kindOrder (Kind p) < kindOrder (Kind c)) ->
  wp (failSequenceChain LoadLocation fuel c) no_fuel (fun _ db' => pass_step db db') db.
Proof.
  revert c db. induction fuel as [|fuel IH]; intros c db Hk Ht Hf Hc; cbn [failSequenceChain].
  - pose proof (kindOrder_range (Kind c)). lia.
  - destruct (ParentID c) as [pid|]; [|apply wp_ret; reflexivity].
    apply wp_bind, wp_read. destruct (items db !! pid) as [p|] eqn:Hp; [|apply wp_ret; reflexivity].
    pose proof (Hc _ _ eq_refl Hp) as Hlt. apply wp_bind.
    apply (wp_mono _ _ (fun _ db' => pass_step db db')).
    + destruct (_ && _); [apply wp_touch; auto | apply wp_ret; reflexivity].
    + intros ? db1 Hs. eapply wp_mono; [apply IH; eauto; [lia|] | intros ? db2 Hs2; by etrans].
      intros qid q Hq Hqid. apply (pass_step_row_back db) in Hqid as (q0 & Hq0 & _ & _ & Hkq & _); [|done].
      rewrite Hkq. by apply (Ht pid p qid q0).
Qed.

(** Iterating over rows of a state that keeps its tree. *)
Lemma wp_each {A} (g : A -> Tx unit) l db0 db :
  pass_step db0 db -> keyed db0 -> tree_ok db0 ->
  (forall a d, In a l -> pass_step db0 d -> wp (g a) no_fuel (fun _ d' => pass_step db0 d') d) ->
  wp (each g l) no_fuel (fun _ db' => pass_step db0 db') db.
Proof.
  intros Hs Hk Ht. revert db Hs. induction l as [|a l IH]; intros db Hs Hg; cbn [each]; [by apply wp_ret|].
  apply wp_bind. eapply wp_mono; [apply Hg; [by left | done]|].
  intros ? d Hd. apply IH; [done|]. intros b d' Hb. apply Hg. by right.
Qed.

(** The walk down ends: each child is strictly deeper. *)
Lemma wp_reset fuel pid p db :
  keyed db -> tree_ok db -> items db !! pid = Some p -> 5 - kindOrder (Kind p) <= Z.of_nat fuel ->
  wp (resetSubtree fuel pid) no_fuel (fun _ db' => pass_step db db') db.
Proof.
  revert pid p db. induction fuel as [|fuel IH]; intros pid p db Hk Ht Hp Hf; cbn [resetSubtree].
  - pose proof (kindOrder_range (Kind p)). lia.
  - apply wp_bind. apply (wp_each _ _ db db); [reflexivity | done | done |]. intros c d Hc Hd.
    apply ListDirectChildren_spec in Hc as ([cid Hcid] & Hpc & _). pose proof (Hk _ _ Hcid) as HID.
    pose proof (Ht _ _ _ _ Hcid Hpc Hp) as Hlt. rewrite HID.
    destruct (is_in_flight_run _ || _); [by apply wp_ret|]. apply wp_bind.
    apply (wp_mono _ _ (fun _ d' => pass_step db d')).
    + destruct (_ == _); [by apply wp_ret|]. apply wp_touch; eauto. intros d' Hd'. by etrans.
    + intros ? d1 Hd1. destruct (pass_step_row _ _ _ _ Hd1 Hcid) as (c1 & Hc1 & _ & _ & Hkc & _).
      eapply wp_mono; [apply (IH cid c1); eauto; rewrite Hkc; lia|]. intros ? d2 Hd2. by etrans.
Qed.

(** The row stands where a stored row stands. *)
Definition placed (db0 : DB) (c : WorkItemRow) : Prop :=
  exists c0, items db0 !! ID c = Some c0 /\ Kind c = Kind c0 /\ ParentID c = ParentID c0
    /\ ProjectID c = ProjectID c0 /\ WorkflowID c = WorkflowID c0.

Lemma wp_fail_placed c db0 d :
  keyed db0 -> tree_ok db0 -> pass_step db0 d -> placed db0 c ->
  wp (failSequenceChain LoadLocation chain_fuel c) no_fuel (fun _ d' => pass_step db0 d') d.
Proof.
  intros Hk Ht Hd (c0 & Hc0 & Hki & Hpar & _).
  eapply wp_mono; [apply wp_fail_chain; eauto | intros ? d' Hd'; by etrans].
  - pose proof (kindOrder_range (Kind c)). unfold chain_fuel. lia.
  - intros pid p Hp Hpid. apply (pass_step_row_back db0) in Hpid as (p0 & Hp0 & _ & _ & Hkp & _); [|done].
    rewrite Hkp, Hki. apply (Ht (ID c) c0 pid p0); congruence.
Qed.

(** Mark a child failed and halt its chain. *)
Lemma wp_halt {A} id v f c (o : A) db0 d (Q : A -> DB -> Prop) :
  keyed db0 -> tree_ok db0 -> pass_step db0 d -> placed db0 c -> plain_update f ->
  (forall d', pass_step db0 d' -> Q o d') ->
  wp (UpdateWorkItem id v f;; failSequenceChain LoadLocation chain_fuel c;; mret o) no_fuel Q d.
Proof.
  intros Hk Ht Hd Hp Hf HQ. apply wp_bind, wp_update; eauto; try done. intros w _ _ w' d1 Hd1.
  apply wp_bind. eapply wp_mono; [apply (wp_fail_placed c db0); eauto; by etrans|].
  intros ? d2 Hd2. apply wp_ret, HQ, Hd2.
Qed.

Definition start_of (c : WorkItemRow) (o : child_outcome) : Prop :=
  match o with
  | Next (Some s) => lsItem s = ID c /\ lsProject s = ProjectID c /\ WorkflowID c = Some (lsWorkflow s)
                     /\ lsWorkflow s <> ""
  | _ => True
  end.

Lemma wp_arm c db0 d :
  keyed db0 -> tree_ok db0 -> pass_step db0 d -> placed db0 c ->
  wp (arm LoadLocation c) no_fuel (fun o d' => pass_step db0 d' /\ start_of c o) d.
Proof.
  intros Hk Ht Hd Hp. unfold arm. apply wp_bind, wp_read.
  destruct (itemHasChildren d (ID c)).
  - apply wp_bind, wp_update; eauto; try done. intros w Hw _ w' d1 Hd1.
    apply wp_bind. assert (Hw' : items d1 !! ID c = Some w') by apply lookup_insert_eq.
    eapply wp_mono; [apply (wp_reset _ _ w'); eauto|].
    + pose proof (kindOrder_range (Kind w')). unfold chain_fuel. lia.
    + intros ? d2 Hd2. apply wp_ret. split; [|done]. etrans; [exact Hd|]. by etrans.
  - destruct (WorkflowID c) as [wf|] eqn:Ewf; [destruct (wf == "") eqn:E|].
    + apply (wp_halt _ _ _ _ _ db0); eauto. intros d' Hd'. by split.
    + apply wp_bind, wp_update; eauto; try done. intros w Hw _ w' d1 Hd1. apply wp_ret.
      split; [by etrans|]. apply String.eqb_neq in E. by split_and!.
    + apply (wp_halt _ _ _ _ _ db0); eauto. intros d' Hd'. by split.
Qed.

(** Why a child may start. *)
Definition may_start (db0 : DB) (gov : string -> bool) (prev : option WorkItemRow) (c : WorkItemRow)
    (s : leafStart) : Prop :=
  start_of c (Next (Some s)) /\ (Status c = WorkItemPending \/ Status c = WorkItemBlocked)
  /\ SequenceAttempts c < sequenceMaxAttempts /\ in_backoff c (now db0) = false
  /\ CheckDependenciesSatisfied db0 (ID c) = true
  /\ (gov (ID c) = false -> match prev with
                            | Some p => WorkItemIsTerminalSuccess (Status p) = true
                            | None => True
                            end).

Lemma plain_reason c r : plain_update (fail_reason c r).
Proof. by split_and!. Qed.

(** Unblocking a placed child keeps its place. *)
Lemma stored_again w c db0 d :
  pass_step db0 d -> keyed db0 -> items d !! ID c = Some w -> placed db0 c ->
  let w' := apply_fields (now d) (set_status WorkItemPending) w in
  ID w' = ID c /\ Kind w' = Kind c /\ ParentID w' = ParentID c /\ ProjectID w' = ProjectID c
  /\ WorkflowID w' = WorkflowID c.
Proof.
  intros Hd Hk Hw (c0 & Hc0 & ? & ? & ? & ?). pose proof (Hk _ _ Hc0).
  destruct (pass_step_row _ _ _ _ Hd Hc0) as (w0 & Hw0 & ? & ? & ? & _ & ? & ? & _).
  rewrite Hw in Hw0. apply (inj Some) in Hw0 as ->. cbn. split_and!; congruence.
Qed.

Lemma wp_arm_child gov prev c db0 d :
  keyed db0 -> tree_ok db0 -> pass_step db0 d -> placed db0 c ->
  wp (arm_child LoadLocation gov prev c) no_fuel
    (fun o d' => pass_step db0 d' /\ match o with Next (Some s) => may_start db0 gov prev c s | _ => True end) d.
Proof.
  intros Hk Ht Hd Hp. unfold arm_child.
  destruct (WorkItemIsTerminalSuccess (Status c) || is_waiting (Status c)); [by apply wp_ret|].
  destruct (negb (_ || _)) eqn:Est; [by apply wp_ret|]. apply negb_false_iff, orb_true_iff in Est.
  rewrite !String.eqb_eq in Est. apply wp_bind, wp_read.
  destruct (sequenceMaxAttempts <=? SequenceAttempts c) eqn:Ecap; [apply (wp_halt _ _ _ _ _ db0); eauto using plain_reason|].
  apply Z.leb_gt in Ecap.
  assert (Hnow : now d = now db0) by (destruct Hd as (_ & ? & _); done). rewrite Hnow.
  destruct (in_backoff c (now db0)) eqn:Eb; [by apply wp_ret|].
  destruct (negb (gov (ID c)) && _) eqn:Ech; [by apply wp_ret|].
  destruct (negb (CheckDependenciesSatisfied d (ID c))) eqn:Eg.
  - apply wp_bind. apply (wp_mono _ _ (fun _ d' => pass_step db0 d')).
    + destruct (_ == _); [apply wp_touch; eauto; intros; by etrans | by apply wp_ret].
    + intros ? d1 Hd1. by apply wp_ret.
  - apply negb_false_iff in Eg. apply (pass_step_gate db0) in Eg; [|done].
    apply wp_bind. apply (wp_mono _ _ (fun c' d' => pass_step db0 d' /\ ID c' = ID c /\ Kind c' = Kind c
        /\ ParentID c' = ParentID c /\ ProjectID c' = ProjectID c /\ WorkflowID c' = WorkflowID c)).
    + destruct (_ == _); [|by apply wp_ret]. apply wp_update; eauto; try done.
      intros w Hw _ w' d1 Hd1. split; [by etrans|]. by apply (stored_again w c db0 d), Hp.
    + intros c' d1 (Hd1 & HID & Hki & Hpar & Hpr & Hwf). destruct Hp as (c0 & Hc0 & ? & ? & ? & ?).
      eapply wp_mono; [apply (wp_arm c' db0); eauto; exists c0; rewrite HID; split_and!; congruence|].
      intros o d2 [Hd2 Hst]. split; [done|]. destruct o as [[s|]|]; try done.
      cbn in Hst. rewrite HID, Hpr, Hwf in Hst. split_and!; try done. intros Hgov. rewrite Hgov in Ech. cbn in Ech.
      destruct prev; [by apply negb_false_iff in Ech | done].
Qed.

(** ** The pass *)

(** The child stands in the list and may start after its predecessor. *)
Definition justified (db0 : DB) (gov : string -> bool) (cs : list WorkItemRow) (s : leafStart) : Prop :=
  exists pre c post, cs = pre ++ c :: post /\ may_start db0 gov (last pre) c s.

Lemma justified_more db0 gov cs more s : justified db0 gov cs s -> justified db0 gov (cs ++ more) s.
Proof.
  intros (pre & c & post & -> & H). exists pre, c, (post ++ more). split; [|done].
  by rewrite <- app_assoc.
Qed.

Definition starts_ok (db0 : DB) (gov : string -> bool) (cs : list WorkItemRow) (starts : list leafStart) : Prop :=
  Forall (justified db0 gov cs) starts /\ map lsItem starts `sublist_of` map ID cs.

Lemma wp_arm_children gov cs pre starts db0 d :
  keyed db0 -> tree_ok db0 -> pass_step db0 d -> Forall (placed db0) cs -> starts_ok db0 gov pre starts ->
  wp (arm_children LoadLocation gov (last pre) cs starts) no_fuel
    (fun l d' => pass_step db0 d' /\ starts_ok db0 gov (pre ++ cs) l) d.
Proof.
  intros Hk Ht. revert pre starts d. induction cs as [|c cs IH]; intros pre starts d Hd Hp [Hj Hsub];
    cbn [arm_children].
  - apply wp_ret. by rewrite app_nil_r.
  - apply Forall_cons in Hp as [Hpc Hp]. apply wp_bind.
    eapply wp_mono; [by apply (wp_arm_child _ _ _ db0)|]. intros o d1 [Hd1 Ho].
    assert (Hnext : forall l, starts_ok db0 gov (pre ++ [c]) l ->
      wp (arm_children LoadLocation gov (Some c) cs l) no_fuel
        (fun l d' => pass_step db0 d' /\ starts_ok db0 gov (pre ++ c :: cs) l) d1).
    { intros l Hl. specialize (IH (pre ++ [c]) l d1 Hd1 Hp Hl). rewrite last_snoc in IH.
      by rewrite <- app_assoc in IH. }
    destruct o as [[s|]|].
    + apply Hnext. split.
      * apply Forall_app. split; [eapply Forall_impl; [exact Hj|]; intros; by apply justified_more|].
        apply Forall_singleton. exists pre, c, []. by split.
      * rewrite !map_app. apply sublist_app; [done|]. cbn. destruct Ho as ((-> & _) & _). done.
    + apply Hnext. split; [eapply Forall_impl; [exact Hj|]; intros; by apply justified_more|].
      rewrite map_app. by apply sublist_inserts_r.
    + apply wp_ret. split; [done|]. split; [apply Forall_nil_2 | apply sublist_nil_l].
Qed.

Lemma child_placed db pid c : keyed db -> In c (ListDirectChildren db pid) -> placed db c.
Proof.
  intros Hk Hc. apply ListDirectChildren_spec in Hc as ([cid Hcid] & _). exists c.
  rewrite (Hk _ _ Hcid). by split_and!.
Qed.

Definition runs_as_sequence (p : WorkItemRow) : Prop :=
  WorkflowRunID p = "" /\ (Status p = WorkItemRunning \/ Status p = WorkItemFailed).

(** The parent's cycle has ended. *)
Definition cycle_done (db0 : DB) (pid : string) (db' : DB) : Prop :=
  let cs := ListDirectChildren db0 pid in
  cs <> [] /\ (forall c, In c cs -> WorkItemIsTerminalSuccess (Status c) = true)
  /\ exists p, items db0 !! pid = Some p
       /\ db' = with_items db0 (<[pid := apply_fields (now db0)
                                           (end_cycle LoadLocation p WorkItemSucceeded (now db0)) p]> (items db0)).

(** What a pass may do and start, from the state it began in. *)
Definition pass_result (db0 : DB) (pid : string) (starts : list leafStart) (db' : DB) : Prop :=
  let cs := ListDirectChildren db0 pid in
  (pass_step db0 db' \/ cycle_done db0 pid db') /\ starts_ok db0 (dep_governed db0 cs) cs starts
  /\ (starts <> [] ->
        (exists p, items db0 !! pid = Some p /\ runs_as_sequence p)
        /\ forall c, In c cs -> is_halted c = false).

Lemma deriveNextChild_none cs :
  deriveNextChild cs = None -> forall c, In c cs -> WorkItemIsTerminalSuccess (Status c) = true.
Proof.
  induction cs as [|c cs IH]; cbn [deriveNextChild]; intros H x Hx; [done|].
  destruct (WorkItemIsTerminalSuccess (Status c)) eqn:E; cbn [negb] in H; [|done].
  destruct Hx as [<-|Hx]; [done|]. apply IH; [|done]. by destruct (deriveNextChild cs).
Qed.

Lemma deriveNextChild_all cs :
  (forall c, In c cs -> WorkItemIsTerminalSuccess (Status c) = true) -> deriveNextChild cs = None.
Proof.
  induction cs as [|c cs IH]; cbn [deriveNextChild]; intros H; [done|].
  rewrite (H c (or_introl eq_refl)). cbn [negb]. rewrite IH; [done|]. intros x Hx. apply H. by right.
Qed.

Lemma no_starts db0 gov cs : starts_ok db0 gov cs [].
Proof. split; [apply Forall_nil_2 | apply sublist_nil_l]. Qed.

#[local] Hint Resolve no_starts : core.

Lemma nothing_started db0 pid db' : pass_step db0 db' -> pass_result db0 pid [] db'.
Proof. intros H. unfold pass_result. split_and!; auto; done. Qed.

#[local] Hint Resolve nothing_started : core.

Lemma wp_pass pid db :
  keyed db -> tree_ok db -> wp (reconcileParent LoadLocation pid) no_fuel (pass_result db pid) db.
Proof.
  intros Hk Ht. unfold reconcileParent. apply wp_bind, wp_get; [done|]. intros p Hp.
  destruct (_ || negb _) eqn:Est; [apply wp_ret, nothing_started; reflexivity|].
  apply orb_false_iff in Est as [Hrun Hst]. apply negb_false_iff, String.eqb_eq in Hrun.
  apply negb_false_iff, orb_true_iff in Hst. rewrite !String.eqb_eq in Hst.
  apply wp_bind, wp_read. destruct (ListDirectChildren db pid) as [|c0 cs0] eqn:Ecs;
    [apply wp_ret, nothing_started; reflexivity|]. rewrite <- Ecs.
  destruct (deriveNextChild (ListDirectChildren db pid)) eqn:Ed.
  - destruct (List.find is_halted (ListDirectChildren db pid)) as [c|] eqn:Ef.
    + apply find_some in Ef as [Hc _]. apply wp_bind. eapply wp_mono.
      * apply (wp_fail_placed c db db); eauto using child_placed; reflexivity.
      * intros ? d Hd. by apply wp_ret, nothing_started.
    + apply wp_bind. apply (wp_mono _ _ (fun _ d => pass_step db d)).
      * destruct (Status p == WorkItemFailed); [|apply wp_ret; reflexivity].
        apply wp_bind, wp_get; [done|]. intros f _.
        destruct (_ == _); [apply wp_touch; auto | apply wp_ret; reflexivity].
      * intros ? d Hd. eapply wp_mono; [apply (wp_arm_children _ _ [] _ db); eauto|].
        { apply Forall_forall. intros c Hc. apply list_elem_of_In in Hc. by eapply child_placed. }
        intros l d' [Hd' Hl]. split_and!; [by left | done |]. intros _. split; [by exists p|].
        intros c Hc. by apply (find_none _ _ Ef).
  - apply wp_bind. unfold wp. destruct (UpdateWorkItem _ _ _ db) as [[w' db']|e] eqn:Eu.
    + apply UpdateWorkItem_ok in Eu as (w & Hw & _ & -> & ->). rewrite Hp in Hw. apply (inj Some) in Hw as <-.
      apply wp_ret. split_and!; [right | done | done]. split_and!; [by rewrite Ecs | by apply deriveNextChild_none |].
      exists p. by rewrite (Hk _ _ Hp).
    + unfold UpdateWorkItem in Eu. rewrite Hp, Z.eqb_refl in Eu. done.
Qed.

(** ** Chains and cycles *)

(** No finished child stands behind an unfinished one. *)
Definition successes_first (cs : list WorkItemRow) : Prop :=
  forall i j a b, (i <= j)%nat -> cs !! i = Some a -> cs !! j = Some b ->
    WorkItemIsTerminalSuccess (Status b) = true -> WorkItemIsTerminalSuccess (Status a) = true.

Lemma deriveNextChild_after pre c post :
  (forall a, In a pre -> WorkItemIsTerminalSuccess (Status a) = true) ->
  WorkItemIsTerminalSuccess (Status c) = false -> deriveNextChild (pre ++ c :: post) = Some (length pre).
Proof.
  intros Hpre Hc. induction pre as [|a pre IH]; cbn [app deriveNextChild]; [by rewrite Hc|].
  rewrite (Hpre a (or_introl eq_refl)). cbn [negb]. rewrite IH; [done|]. intros x Hx. apply Hpre. by right.
Qed.

(** In an ordered chain a justified start is the cursor. *)
Lemma justified_is_cursor db0 gov cs s :
  successes_first cs -> (forall c, In c cs -> gov (ID c) = false) -> justified db0 gov cs s ->
  exists i c, deriveNextChild cs = Some i /\ cs !! i = Some c /\ lsItem s = ID c.
Proof.
  intros Hord Hgov (pre & c & post & -> & (Hid & _) & Hst & _ & _ & _ & Hprev).
  exists (length pre), c. split_and!; [| by rewrite lookup_app_r, Nat.sub_diag | done].
  apply deriveNextChild_after; [|by destruct Hst as [-> | ->]].
  intros a Ha. specialize (Hprev (Hgov c ltac:(apply in_or_app; right; by left))).
  apply list_elem_of_In, list_elem_of_lookup in Ha as [i Hi].
  destruct pre as [|x pre _] using rev_ind; [done|]. rewrite last_snoc in Hprev.
  pose proof (lookup_lt_Some _ _ _ Hi) as Hlt. rewrite length_app in Hlt. cbn in Hlt.
  apply (Hord i (length pre) a x); [lia | by apply lookup_app_l_Some | | done].
  rewrite <- app_assoc. by rewrite lookup_app_r, Nat.sub_diag.
Qed.

Lemma single_start {A} (f : leafStart -> A) l x :
  NoDup (map f l) -> (forall s, In s l -> f s = x) -> l = [] \/ exists s, l = [s].
Proof.
  destruct l as [|a [|b l]]; intros Hnd Hall; [by left | right; by exists a |].
  cbn [map] in Hnd. rewrite (Hall a), (Hall b) in Hnd by (cbn; tauto).
  apply NoDup_cons in Hnd as [Hn _]. destruct Hn. by left.
Qed.

(** Nothing to reset below a parent whose children are all done. *)
Lemma resetSubtree_done fuel pid db :
  (forall c, In c (ListDirectChildren db pid) -> WorkItemIsTerminalSuccess (Status c) = true) ->
  resetSubtree (S fuel) pid db = Ok (tt, db).
Proof.
  intros H. cbn [resetSubtree]. unfold mbind, tx_bind, children. revert H. generalize (ListDirectChildren db pid).
  intros l H. induction l as [|c l IH]; [done|]. cbn [each]. unfold mbind, tx_bind.
  rewrite (H c (or_introl eq_refl)), orb_true_r. cbn. apply IH. intros x Hx. apply H. by right.
Qed.

(** The pass of a running parent whose children are all done ends the cycle. *)
Lemma pass_done pid p db :
  items db !! pid = Some p -> runs_as_sequence p -> ListDirectChildren db pid <> [] ->
  (forall c, In c (ListDirectChildren db pid) -> WorkItemIsTerminalSuccess (Status c) = true) ->
  ID p = pid ->
  reconcileParent LoadLocation pid db
  = Ok ([], with_items db (<[pid := apply_fields (now db)
                                      (end_cycle LoadLocation p WorkItemSucceeded (now db)) p]> (items db))).
Proof.
  intros Hp [Hrun Hst] Hne Hall Hid. unfold reconcileParent, GetWorkItem, mbind, tx_bind. rewrite Hp.
  replace (_ || _) with false; [|rewrite Hrun; by destruct Hst as [-> | ->]].
  unfold read. apply deriveNextChild_all in Hall. destruct (ListDirectChildren db pid) as [|c cs]; [done|].
  rewrite Hall. unfold UpdateWorkItem. rewrite Hp, Z.eqb_refl. unfold put. cbn [ID apply_fields]. by rewrite Hid.
Qed.

(** ** Theorems *)

(** C3: One pass of the sequence engine over a parent of a store that respects
    the hierarchy ends, and its only errors are those of the store.  It keeps
    every row's place, its edges and its workflow, and the only row that can
    become a success is the parent, which does (or re-arms when it recurs)
    exactly when every child has finished.  Each start names a pending or
    blocked child, bound to a workflow, within its attempt limit, out of its
    backoff, whose gate was open when the pass began and, when no edge governs
    it, whose predecessor had finished; no child is started twice and nothing
    starts under a parent with a halted child. *)
Theorem sequence_pass_is_safe pid db :
  keyed db -> tree_ok db ->
  match reconcileParent LoadLocation pid db with
  | Ok (starts, db') => pass_result db pid starts db' /\ NoDup (map lsItem starts)
  | Err e => e <> ErrFuel
  end.
Proof.
  intros Hk Ht. pose proof (wp_pass pid db Hk Ht) as H. unfold wp in H.
  destruct (reconcileParent _ _ _) as [[starts db']|e]; [|exact H]. split; [done|].
  destruct H as (_ & [_ Hsub] & _). eapply sublist_NoDup; [|exact Hsub]. by apply NoDup_children_ids.
Qed.

(** C16: In a plain ordered sequence (no dependency edge enters a child, no
    finished child behind an unfinished one) a pass starts at most one child,
    and that is the first child that is not finished. *)
Theorem strict_chain_starts_the_cursor pid db starts db' :
  keyed db -> tree_ok db -> reconcileParent LoadLocation pid db = Ok (starts, db') ->
  (forall c, In c (ListDirectChildren db pid) -> dep_governed db (ListDirectChildren db pid) (ID c) = false) ->
  successes_first (ListDirectChildren db pid) ->
  starts = [] \/
  exists s i c, starts = [s] /\ deriveNextChild (ListDirectChildren db pid) = Some i
                /\ ListDirectChildren db pid !! i = Some c /\ lsItem s = ID c.
Proof.
  intros Hk Ht E Hgov Hord. pose proof (wp_pass pid db Hk Ht) as H. unfold wp in H. rewrite E in H.
  destruct H as (_ & [Hj Hsub] & _). rewrite Forall_forall in Hj.
  assert (Hcur : forall s, In s starts -> exists i c, deriveNextChild (ListDirectChildren db pid) = Some i
                   /\ ListDirectChildren db pid !! i = Some c /\ lsItem s = ID c).
  { intros s Hs%list_elem_of_In%Hj. by eapply justified_is_cursor. }
  assert (Hnd : NoDup (map lsItem starts)) by (eapply sublist_NoDup; [by apply NoDup_children_ids | exact Hsub]).
  destruct starts as [|s l]; [by left|]. right.
  destruct (Hcur s (or_introl eq_refl)) as (i & c & Hi & Hc & Hs).
  destruct (single_start lsItem (s :: l) (ID c)) as [|[s' [= -> ->]]]; [done | | done | by exists s', i, c].
  intros x (i' & c' & Hi' & Hc' & ->)%Hcur. congruence.
Qed.

(** C40: Starting a recurring sequence without a bound run whose children all finished in an
    earlier cycle starts nothing: finished children are kept, so the start's own
    pass finds every child done and re-arms the parent for its next time. *)
Theorem finished_recurring_sequence_restarts_nothing pid p db :
  keyed db -> tree_ok db -> items db !! pid = Some p -> is_recurring p = true -> WorkflowRunID p = "" ->
  ListDirectChildren db pid <> [] ->
  (forall c, In c (ListDirectChildren db pid) -> WorkItemIsTerminalSuccess (Status c) = true) ->
  exists db', StartSequence_tx LoadLocation pid db = Ok ([], db')
              /\ (exists p', items db' !! pid = Some p' /\ Status p' = WorkItemRecurring)
              /\ (forall id, id <> pid -> items db' !! id = items db !! id).
Proof.
  intros Hk Ht Hp Hrec Hrun Hne Hall. pose proof (Hk _ _ Hp) as Hid.
  set (p1 := apply_fields (now db) run_parent p).
  set (db1 := with_items db (<[pid := p1]> (items db))).
  assert (Hsame : forall c, In c (ListDirectChildren db1 pid) <-> In c (ListDirectChildren db pid)).
  { intros c. rewrite !ListDirectChildren_spec. unfold db1. cbn [items with_items].
    assert (Hself : forall q, ParentID q = ParentID p -> Kind q = Kind p -> ParentID q = Some pid -> False).
    { intros q Hq _ Hq'. pose proof (Ht pid p pid p Hp ltac:(congruence) Hp). lia. }
    split; intros ((id & Hc) & Hpar & Har); split; try done.
    - exists id. apply lookup_insert_Some in Hc as [[<- <-] | [_ Hc]]; [by destruct (Hself p1) | done].
    - exists id. rewrite lookup_insert_ne; [done|]. intros <-. rewrite Hp in Hc. apply (inj Some) in Hc as <-.
      by destruct (Hself p). }
  assert (Hall1 : forall c, In c (ListDirectChildren db1 pid) -> WorkItemIsTerminalSuccess (Status c) = true)
    by (intros c Hc%Hsame; by apply Hall).
  assert (Hne1 : ListDirectChildren db1 pid <> []).
  { intros E. destruct (ListDirectChildren db pid) as [|c l] eqn:E'; [done|].
    assert (H : In c (ListDirectChildren db1 pid)) by (apply Hsame; by left). by rewrite E in H. }
  assert (Hp1 : items db1 !! pid = Some p1) by apply lookup_insert_eq.
  eexists. split; [|split].
  - unfold StartSequence_tx, GetWorkItem, guard_tx. unfold mbind at 1, tx_bind at 1. rewrite Hp.
    unfold mbind at 1, tx_bind at 1, read at 1. unfold itemHasChildren.
    replace (match ListDirectChildren db pid with [] => false | _ => true end) with true
      by (by destruct (ListDirectChildren db pid)).
    unfold mbind at 1, tx_bind at 1. cbn [negb]. unfold mbind at 1, tx_bind at 1, UpdateWorkItem.
    cbn [mret tx_ret]. rewrite Hp, Z.eqb_refl. unfold put. cbn [ID apply_fields]. rewrite Hid.
    unfold mbind, tx_bind. unfold chain_fuel. fold p1. fold db1. rewrite (resetSubtree_done _ pid db1 Hall1).
    apply (pass_done pid p1 db1 Hp1); [split; [exact Hrun | left; reflexivity] | done | done | exact Hid].
  - eexists. cbn [items with_items]. rewrite lookup_insert_eq. split; [done|].
    unfold end_cycle. change (is_recurring p1) with (is_recurring p). by rewrite Hrec.
  - intros id Hne'. cbn [items with_items db1]. by rewrite !lookup_insert_ne.
Qed.
End passes.

(** ** Concrete instances *)

(** A running feature with one finished task, one to start and one behind it. *)
Definition chain_db : DB :=
  sample_db [sample "f" "feature" "running" None 1; sample "a" "task" "succeeded" (Some "f") 1;
             sample "b" "task" "pending" (Some "f") 2; sample "c" "task" "pending" (Some "f") 3] [].

Lemma chain_keyed : keyed chain_db.
Proof.
  intros id w H. unfold chain_db, sample_db in H. cbn [items list_to_map map foldr] in H.
  repeat (apply lookup_insert_Some in H as [[<- <-] | [_ H]]; [reflexivity|]). discriminate H.
Defined.

Lemma chain_tree : tree_ok chain_db.
Proof.
  intros id w pid p H Hp Hpid. unfold chain_db, sample_db in *. cbn [items list_to_map map foldr] in *.
  repeat (apply lookup_insert_Some in H as [[<- <-] | [_ H]];
    [try discriminate Hp; injection Hp as <-; vm_compute in Hpid; injection Hpid as <-; reflexivity|]).
  discriminate H.
Defined.

Definition starts_of (r : result db_error (list leafStart * DB)) : list leafStart :=
  match r with Ok (s, _) => s | Err _ => [] end.
Definition state_of (r : result db_error (list leafStart * DB)) : DB :=
  match r with Ok (_, db) => db | Err _ => chain_db end.

(** The pass over the sample starts the second task. *)
Lemma sequence_pass_is_safe_witness :
  starts_of (reconcileParent no_zones "f" chain_db) = [mkStart "wf" "p" "b"]
  /\ justified chain_db (fun _ => false) (ListDirectChildren chain_db "f") (mkStart "wf" "p" "b").
Proof.
  assert (E : reconcileParent no_zones "f" chain_db
              = Ok ([mkStart "wf" "p" "b"], state_of (reconcileParent no_zones "f" chain_db)))
    by (vm_compute; reflexivity).
  split; [rewrite E; reflexivity|].
  pose proof (sequence_pass_is_safe no_zones "f" chain_db chain_keyed chain_tree) as H. rewrite E in H.
  destruct H as [[_ [[Hj _] _]] _]. apply Forall_inv in Hj. exact Hj.
Defined.

Lemma strict_chain_starts_the_cursor_witness :
  exists s c, starts_of (reconcileParent no_zones "f" chain_db) = [s]
              /\ ListDirectChildren chain_db "f" !! 1%nat = Some c /\ lsItem s = ID c.
Proof.
  destruct (strict_chain_starts_the_cursor no_zones "f" chain_db
              (starts_of (reconcileParent no_zones "f" chain_db))
              (state_of (reconcileParent no_zones "f" chain_db)) chain_keyed chain_tree)
    as [H | (s & i & c & H & Hi & Hc & Hs)].
  - vm_compute. reflexivity.
  - intros c _. reflexivity.
  - intros i j a b Hij Ha Hb Hsucc.
    assert (Hcs : ListDirectChildren chain_db "f"
                  = [sample "a" "task" "succeeded" (Some "f") 1; sample "b" "task" "pending" (Some "f") 2;
                     sample "c" "task" "pending" (Some "f") 3]) by (vm_compute; reflexivity).
    rewrite Hcs in Ha, Hb. destruct j as [|[|[|j]]]; cbn in Hb; try discriminate Hb; injection Hb as <-;
      try discriminate Hsucc. assert (i = 0%nat) as -> by lia. injection Ha as <-. reflexivity.
  - vm_compute in H. discriminate H.
  - exists s, c. split; [exact H|]. vm_compute in Hi. injection Hi as <-. split; [exact Hc | exact Hs].
Defined.

(** A weekly parent whose only task finished last week. *)
Definition weekly_db : DB :=
  sample_db [mkItem "r" "p" None "feature" "r" WorkItemRecurring None (Some "wf") "" None JNull None false
               (JVal every_minute) (Some 0) true None None false None 0 None 0 None 1 0 0;
             sample "a" "task" "succeeded" (Some "r") 1] [].

Lemma finished_recurring_sequence_restarts_nothing_witness :
  starts_of (StartSequence_tx no_zones "r" weekly_db) = []
  /\ exists p', items (state_of (StartSequence_tx no_zones "r" weekly_db)) !! "r" = Some p'
                /\ Status p' = WorkItemRecurring.
Proof.
  destruct (items weekly_db !! "r") as [p|] eqn:Hp; [|vm_compute in Hp; discriminate Hp].
  destruct (finished_recurring_sequence_restarts_nothing no_zones "r" p weekly_db) as (db' & H & Hp' & _).
  - intros id w H. unfold weekly_db, sample_db in H. cbn [items list_to_map map foldr] in H.
    repeat (apply lookup_insert_Some in H as [[<- <-] | [_ H]]; [reflexivity|]). discriminate H.
  - intros id w pid q H Hw Hpid. unfold weekly_db, sample_db in H, Hpid. cbn [items list_to_map map foldr] in H, Hpid.
    repeat (apply lookup_insert_Some in H as [[<- <-] | [_ H]];
      [try discriminate Hw; injection Hw as <-; vm_compute in Hpid; injection Hpid as <-; reflexivity|]).
    discriminate H.
  - exact Hp.
  - vm_compute in Hp. injection Hp as <-. reflexivity.
  - vm_compute in Hp. injection Hp as <-. reflexivity.
  - vm_compute. discriminate.
  - intros c Hc. vm_compute in Hc. destruct Hc as [<- | []]. reflexivity.
  - rewrite H. split; [reflexivity | exact Hp'].
Defined.

(** A second ready child with no workflow ends the pass: the start armed before
    it is dropped although its row was set running. *)
Example armed_start_is_dropped :
  let db := sample_db [sample "f" "feature" "running" None 1; sample "a" "task" "pending" (Some "f") 1;
                       mkItem "b" "p" (Some "f") "task" "b" "pending" None None "" (Some 2) JNull None false
                         JNull None true None None false None 0 None 0 None 1 0 0]
              [mkDep "e1" "p" "x" "b" DependencyBlocks 0] in
  let r := reconcileParent no_zones "f" db in
  starts_of r = [] /\ (Status <$> items (state_of r) !! "a") = Some WorkItemRunning
  /\ (WorkflowRunID <$> items (state_of r) !! "a") = Some "".
Proof. vm_compute. done. Qed.
