(* ===== verification/SequenceControl.v ===== *)
(** * Manual control of a sequence (internal/workitem/service.go [ControlSequence])

    START, RESUME and STOP on a sequence parent or a leaf: the checks and the
    audit row commit first, then the engine's own operation runs in its own
    transactions (Sequence.v).  STOP is the one operation that walks a whole
    subtree and aborts runs; the second half of the file proves what it leaves
    behind.  The four starters are the wired ones. *)

From S2P Require Import Prelude GoStrings Domain WorkItems Dependencies.
From S2P Require Import Hierarchy Calendar Recurring WorkItemUpdate Sequence.

Open Scope Z_scope.

Inductive SequenceAction :=
| SEQUENCE_ACTION_UNSPECIFIED | SEQUENCE_ACTION_START | SEQUENCE_ACTION_RESUME | SEQUENCE_ACTION_STOP.

(** What runs after the commit. *)
Inductive control_call :=
| CallStart | CallResume | CallStop | CallStartWorkflow (workflow project : string).

(** A leaf with a run, or about to get one. *)
Definition busy_leaf (w : WorkItemRow) : bool :=
  negb (WorkflowRunID w == "") || IsActiveRunStatus (Status w)
  || (Status w == WorkItemReady) || (Status w == WorkItemAssigned).

Definition control_leaf (current : WorkItemRow) (action : string) : Tx control_call :=
  match WorkflowID current with
  | None => fail (ErrInvalid "no workflow bound")
  | Some wf =>
      guard_tx (wf == "") (ErrInvalid "no workflow bound");;
      guard_tx (busy_leaf current) (ErrInvalid "already running or queued");;
      recordAudit action (ID current);;
      mret (CallStartWorkflow wf (ProjectID current))
  end.

Definition control_checks (id : string) (action : SequenceAction) : Tx control_call :=
  guard_tx (id == "") (ErrInvalid "id");;
  guard_tx (match action with SEQUENCE_ACTION_UNSPECIFIED => true | _ => false end) (ErrInvalid "action");;
  current ← GetWorkItem id;
  db ← read;
  let isParent := itemHasChildren db id in
  match action with
  | SEQUENCE_ACTION_UNSPECIFIED => fail (ErrInvalid "action")
  | SEQUENCE_ACTION_START =>
      if isParent then
        guard_tx (IsActiveRunStatus (Status current)) (ErrInvalid "already running");;
        ValidateSequenceSchedule current;;
        recordAudit "work_item.sequence_started" (ID current);;
        mret CallStart
      else control_leaf current "work_item.started"
  | SEQUENCE_ACTION_RESUME =>
      if isParent then
        guard_tx (negb (Status current == WorkItemFailed) && negb (Status current == WorkItemPending))
          (ErrInvalid "not halted or parked");;
        ValidateSequenceSchedule current;;
        recordAudit "work_item.sequence_resumed" (ID current);;
        mret CallResume
      else control_leaf current "work_item.resumed"
  | SEQUENCE_ACTION_STOP =>
      guard_tx (Status current == WorkItemSucceeded) (ErrInvalid "already succeeded");;
      recordAudit "work_item.stopped" (ID current);;
      mret CallStop
  end.

Section control.
Context (LoadLocation : string -> option Location).
(** [start workflow project item] *)
Context (start : string -> string -> string -> DB -> DB * bool).

Definition run_call (id : string) (call : control_call) (db : DB) : DB * option db_error :=
  match call with
  | CallStart => Sequence.StartSequence LoadLocation start id db
  | CallResume => ResumeSequence LoadLocation start id db
  | CallStop => match StopSequence id db with
                | Ok (_, db') => (db', None)
                | Err e => (db, Some e)
                end
  | CallStartWorkflow wf project =>
      let '(db', ok) := start wf project id db in (db', if ok then None else Some (ErrInvalid "start"))
  end.

(** The item is read again after the action. *)
Definition ControlSequence (id : string) (action : SequenceAction) (db : DB) : DB * result db_error WorkItemRow :=
  match control_checks id action db with
  | Err e => (db, Err e)
  | Ok (call, db1) =>
      match run_call id call db1 with
      | (db2, Some e) => (db2, Err e)
      | (db2, None) => (db2, match items db2 !! id with Some w => Ok w | None => Err ErrNotFound end)
      end
  end.

End control.

(** ** What a stop may change *)

Definition run_over (db : DB) (r : string) : Prop :=
  r = "" \/ forall run, runs db !! r = Some run -> is_terminal_run (RunStatus run) = true.

Definition success (w : WorkItemRow) : bool := WorkItemIsTerminalSuccess (Status w).

(** One row before and after: its place and schedule stay, a finished item is
    not touched, an unfinished one does not finish, and a run is unbound only
    when it is over. *)
Definition halted_row (db' : DB) (w w' : WorkItemRow) : Prop :=
  ID w' = ID w /\ ParentID w' = ParentID w /\ Kind w' = Kind w /\ ArchivedAt w' = ArchivedAt w
  /\ RecurringScheduleCol w' = RecurringScheduleCol w
  /\ (WorkflowRunID w' = WorkflowRunID w \/ WorkflowRunID w' = "" /\ run_over db' (WorkflowRunID w))
  /\ (if success w then w' = w else success w' = false).

Definition halt_step (db db' : DB) : Prop :=
  (forall r, match runs db !! r, runs db' !! r with
             | Some a, Some b => RunWorkItemID b = RunWorkItemID a
                                 /\ (is_terminal_run (RunStatus a) = true -> is_terminal_run (RunStatus b) = true)
             | None, None => True
             | _, _ => False
             end)
  /\ forall x, match items db !! x, items db' !! x with
               | Some w, Some w' => halted_row db' w w'
               | None, None => True
               | _, _ => False
               end.

Lemma halted_row_refl db w : halted_row db w w.
Proof. unfold halted_row. split_and!; auto. by destruct (success w) eqn:E. Qed.

#[export] Instance halt_step_refl : Reflexive halt_step.
Proof.
  intros db. split.
  - intros r. destruct (runs db !! r); [by split | done].
  - intros x. destruct (items db !! x); [apply halted_row_refl | done].
Qed.

Lemma run_over_step db db' r : halt_step db db' -> run_over db r -> run_over db' r.
Proof.
  intros [Hr _] [-> | H]; [by left | right]. intros run Hrun. specialize (Hr r). rewrite Hrun in Hr.
  destruct (runs db !! r) as [a|] eqn:Ha; [|done]. destruct Hr as [_ Hr]. by apply Hr, H.
Qed.

#[export] Instance halt_step_trans : Transitive halt_step.
Proof.
  intros a b c Hab Hbc. pose proof Hab as [R1 I1]. pose proof Hbc as [R2 I2]. split.
  - intros r. specialize (R1 r). specialize (R2 r).
    destruct (runs a !! r), (runs b !! r), (runs c !! r); try done. destruct R1, R2. split; [congruence | auto].
  - intros x. specialize (I1 x). specialize (I2 x).
    destruct (items a !! x) as [u|], (items b !! x) as [v|], (items c !! x) as [w|]; try done.
    destruct I1 as (?&?&?&?&?&Hr1&Hs1), I2 as (?&?&?&?&?&Hr2&Hs2). unfold halted_row. split_and!; try congruence.
    + destruct Hr2 as [-> | [-> Hover]].
      * destruct Hr1 as [-> | [-> Hover]]; [by left | right; split; [done | by eapply run_over_step]].
      * right. split; [done|]. destruct Hr1 as [<- | [_ Hover1]]; [done | by eapply run_over_step].
    + destruct (success u) eqn:E; [subst v; by rewrite E in Hs2 | by rewrite Hs1 in Hs2].
Qed.

Lemma halt_row db db' x w :
  halt_step db db' -> items db !! x = Some w -> exists w', items db' !! x = Some w' /\ halted_row db' w w'.
Proof. intros [_ H] Hw. specialize (H x). rewrite Hw in H. destruct (items db' !! x); [by eexists | done]. Qed.

Lemma halt_row_back db db' x w' :
  halt_step db db' -> items db' !! x = Some w' -> exists w, items db !! x = Some w /\ halted_row db' w w'.
Proof. intros [_ H] Hw. specialize (H x). rewrite Hw in H. destruct (items db !! x); [by eexists | done]. Qed.

(** Every bound run names the item it is bound to, or none. *)
Definition links_ok (db : DB) : Prop :=
  forall x w run, items db !! x = Some w -> WorkflowRunID w <> "" -> runs db !! WorkflowRunID w = Some run ->
  RunWorkItemID run = "" \/ RunWorkItemID run = x.

Lemma halt_links db db' : halt_step db db' -> links_ok db -> links_ok db'.
Proof.
  intros Hs Hl x w' run' Hw' Hne Hrun'. destruct (halt_row_back _ _ _ _ Hs Hw') as (w & Hw & Hr).
  destruct Hr as (_&_&_&_&_& [Heq | [E _]] &_); [|by rewrite E in Hne]. destruct Hs as [Hr _].
  specialize (Hr (WorkflowRunID w')). rewrite Hrun', Heq in Hr. destruct (runs db !! WorkflowRunID w) as [run|] eqn:E; [|done].
  destruct Hr as [-> _]. apply (Hl x w); congruence.
Qed.

Lemma halt_keyed db db' : halt_step db db' -> keyed db -> keyed db'.
Proof. intros Hs Hk x w' Hw'. destruct (halt_row_back _ _ _ _ Hs Hw') as (w & Hw & -> & _). by apply Hk. Qed.

(** Parked: no run, no start time, waiting for the next command or the next
    recurrence. *)
Definition parked (w : WorkItemRow) : Prop :=
  WorkflowRunID w = "" /\ ScheduledStartAt w = None
  /\ Status w = if is_recurring w then WorkItemRecurring else WorkItemPending.

Definition parked_at (db : DB) (x : string) : Prop := exists w, items db !! x = Some w /\ parked w.

(** A step that keeps what was parked and leaves the rows outside [P] alone. *)
Record halts (P : string -> Prop) (db db' : DB) : Prop := mkHalts {
  h_step : halt_step db db';
  h_parked : forall x, parked_at db x -> parked_at db' x;
  h_frame : forall x, ~ P x -> items db' !! x = items db !! x }.

Lemma halts_refl P db : halts P db db.
Proof. split; [reflexivity | done | done]. Qed.

Lemma halts_trans P a b c : halts P a b -> halts P b c -> halts P a c.
Proof.
  intros [S1 P1 F1] [S2 P2 F2]. split; [by etrans | auto |]. intros x Hx. by rewrite F2, F1.
Qed.

Lemma halts_mono (P Q : string -> Prop) db db' : (forall x, P x -> Q x) -> halts P db db' -> halts Q db db'.
Proof. intros HPQ [? ? F]. split; [done | done |]. intros x Hx. apply F. intros HP. by apply Hx, HPQ. Qed.

Definition no_error : db_error -> Prop := fun _ => False.

(** Writing one unfinished row. *)
Lemma write_row id item item' d d' :
  items d !! id = Some item -> halted_row d' item item' -> (parked item -> parked item') ->
  items d' = <[id := item']> (items d) ->
  (forall r, match runs d !! r, runs d' !! r with
             | Some a, Some b => RunWorkItemID b = RunWorkItemID a
                                 /\ (is_terminal_run (RunStatus a) = true -> is_terminal_run (RunStatus b) = true)
             | None, None => True
             | _, _ => False
             end) ->
  halts (eq id) d d'.
Proof.
  intros Hid Hrow Hpark Hitems Hruns. split.
  - split; [done|]. intros x. rewrite Hitems. destruct (decide (id = x)) as [<-|Hne].
    + by rewrite Hid, lookup_insert_eq.
    + rewrite lookup_insert_ne by done. destruct (items d !! x); [apply halted_row_refl | done].
  - intros x (w & Hw & Hp). unfold parked_at. rewrite Hitems. destruct (decide (id = x)) as [<-|Hne].
    + rewrite lookup_insert_eq. rewrite Hid in Hw. apply (inj Some) in Hw as <-. eauto.
    + rewrite lookup_insert_ne by done. eauto.
  - intros x Hne. rewrite Hitems. by apply lookup_insert_ne.
Qed.

Lemma runs_same d r :
  match runs d !! r, runs d !! r with
  | Some a, Some b => RunWorkItemID b = RunWorkItemID a
                      /\ (is_terminal_run (RunStatus a) = true -> is_terminal_run (RunStatus b) = true)
  | None, None => True
  | _, _ => False
  end.
Proof. by destruct (runs d !! r). Qed.

Lemma wp_park n id item d :
  keyed d -> items d !! id = Some item -> success item = false -> run_over d (WorkflowRunID item) ->
  wp (parkWorkItemResilient (S n) id) no_error (fun _ d' => halts (eq id) d d' /\ parked_at d' id) d.
Proof.
  intros Hk Hid Hs Hover. cbn [parkWorkItemResilient]. unfold wp, mbind, tx_bind, GetWorkItem. rewrite Hid.
  unfold success in Hs. rewrite Hs. unfold UpdateWorkItem. rewrite Hid, Z.eqb_refl. unfold put.
  cbn [ID apply_fields]. rewrite (Hk _ _ Hid). set (item' := apply_fields _ _ item).
  assert (Hp : parked item').
  { split_and!; [done | done |]. unfold item', is_recurring. cbn. by destruct (json_present _). }
  split; [|exists item'; split; [apply lookup_insert_eq | done]].
  apply (write_row id item item'); [done | | done | done | exact (runs_same d)].
  unfold halted_row, success, item'. rewrite Hs. split_and!; try done.
  - right. split; [done|]. exact Hover.
  - cbn. by destruct (is_recurring item).
Qed.

Lemma abort_runs d r run x :
  runs d !! r = Some run ->
  match runs d !! x, runs (abort_state d r run) !! x with
  | Some a, Some b => RunWorkItemID b = RunWorkItemID a
                      /\ (is_terminal_run (RunStatus a) = true -> is_terminal_run (RunStatus b) = true)
  | None, None => True
  | _, _ => False
  end.
Proof.
  intros Hr. unfold abort_state, with_runs. cbn [runs]. destruct (decide (r = x)) as [<-|Hne].
  - rewrite Hr, lookup_insert_eq. by split.
  - rewrite lookup_insert_ne by done. apply runs_same.
Qed.

Lemma wp_abort id item acc d :
  keyed d -> links_ok d -> items d !! id = Some item -> success item = false ->
  wp (abort_bound (WorkflowRunID item) acc) no_error
    (fun _ d' => halts (eq id) d d' /\ run_over d' (WorkflowRunID item)) d.
Proof.
  intros Hk Hl Hid Hs. unfold wp, abort_bound. destruct (WorkflowRunID item == "") eqn:Er.
  { apply String.eqb_eq in Er. split; [apply halts_refl | by left]. }
  apply String.eqb_neq in Er. unfold AbortRunInTx, mbind, tx_bind, read.
  destruct (runs d !! WorkflowRunID item) as [run|] eqn:Hrun.
  - destruct (is_terminal_run (RunStatus run)) eqn:Et.
    { split; [apply halts_refl|]. right. intros run' Hrun'. rewrite Hrun in Hrun'. by apply (inj Some) in Hrun' as <-. }
    set (d1 := abort_state d (WorkflowRunID item) run).
    assert (Hover : forall d', runs d' = runs d1 -> run_over d' (WorkflowRunID item)).
    { intros d' Hd'. right. rewrite Hd'. unfold d1, abort_state, with_runs. cbn [runs]. intros run'.
      rewrite lookup_insert_eq. intros E. by apply (inj Some) in E as <-. }
    assert (Hd1 : items d1 = items d) by done.
    destruct (RunWorkItemID run == "") eqn:El.
    + cbn [mret tx_ret]. split; [|by apply Hover].
      apply (write_row id item item); [done | apply halted_row_refl | done | by rewrite insert_id | by intros x; exact (abort_runs d _ run x Hrun)].
    + apply String.eqb_neq in El. destruct (Hl id item run Hid Er Hrun) as [?|Hlink]; [done|]. rewrite Hlink.
      cbn [mret tx_ret]. unfold set_linked_status. rewrite Hd1, Hid. unfold settle, UpdateWorkItem. rewrite Hd1, Hid.
      rewrite Z.eqb_refl. unfold put. cbn [ID apply_fields]. rewrite (Hk _ _ Hid). split; [|by apply Hover].
      eapply write_row; [exact Hid | | | cbn [items with_items]; by rewrite Hd1 | by intros x; exact (abort_runs d _ run x Hrun)].
      * unfold halted_row, success in *. rewrite Hs. split_and!; try done. by left.
      * intros (E & _). done.
  - cbn. split; [apply halts_refl|]. right. intros run. by rewrite Hrun.
Qed.

(** ** The subtree a stop reaches *)

(** Through live children of unfinished items. *)
Inductive under (db : DB) : string -> string -> Prop :=
| under_self id w : items db !! id = Some w -> success w = false -> under db id id
| under_child id w cid c x :
    items db !! id = Some w -> success w = false ->
    items db !! cid = Some c -> ParentID c = Some id -> ArchivedAt c = None ->
    under db cid x -> under db id x.

(** Folding a transaction over a list. *)
Lemma wp_fold {A B} (g : B -> A -> Tx A) cs m E (P : list B -> DB -> Prop) done_ db :
  wp m E (fun _ d => P done_ d) db ->
  (forall pre c a d, P pre d -> In c cs -> wp (g c a) E (fun _ d' => P (pre ++ [c]) d') d) ->
  wp (fold_left (fun m c => a ← m; g c a) cs m) E (fun _ d => P (done_ ++ cs) d) db.
Proof.
  revert m done_. induction cs as [|c cs IH]; intros m done_ Hm Hg; cbn [fold_left]; [by rewrite app_nil_r|].
  change (c :: cs) with ([c] ++ cs). rewrite app_assoc. apply IH.
  - apply wp_bind. eapply wp_mono; [exact Hm|]. intros a d Hd. apply Hg; [done | by left].
  - intros pre c' a d Hd Hc. apply Hg; [done | by right].
Qed.

(** What finished before the stop is finished now, and conversely. *)
Lemma success_kept db w w' : halted_row db w w' -> success w' = success w.
Proof. intros (_&_&_&_&_&_&H). destruct (success w) eqn:E; [by subst w' | done]. Qed.

Lemma under_unfinished db id w x : items db !! id = Some w -> under db id x -> success w = false.
Proof. intros Hw Hx. inversion Hx; congruence. Qed.

(** The live children now are the live children the walk began with. *)
Lemma child_before db0 d id c :
  keyed db0 -> halt_step db0 d -> In c (ListDirectChildren d id) ->
  exists c0, items db0 !! ID c = Some c0 /\ ParentID c0 = Some id /\ ArchivedAt c0 = None.
Proof.
  intros Hk Hd Hc. apply ListDirectChildren_spec in Hc as ([cid Hcid] & Hp & Ha).
  destruct (halt_row_back _ _ _ _ Hd Hcid) as (c0 & Hc0 & HI & HP & _ & HA & _).
  exists c0. rewrite HI, (Hk _ _ Hc0). split_and!; congruence.
Qed.

Lemma child_now db0 d id cid c :
  keyed db0 -> halt_step db0 d -> items db0 !! cid = Some c -> ParentID c = Some id -> ArchivedAt c = None ->
  exists c1, In c1 (ListDirectChildren d id) /\ ID c1 = cid.
Proof.
  intros Hk Hd Hc Hp Ha. destruct (halt_row _ _ _ _ Hd Hc) as (c1 & Hc1 & HI & HP & _ & HA & _).
  exists c1. rewrite HI, (Hk _ _ Hc), ListDirectChildren_spec. split_and!; [by exists cid | congruence..].
Qed.

(** The children one after the other. *)
Lemma wp_halt_children (halt : string -> list string * list string -> Tx (list string * list string))
    db0 id w m d1 :
  keyed db0 -> items db0 !! id = Some w -> success w = false -> halt_step db0 d1 ->
  (forall c c0 a d, In c (ListDirectChildren d1 id) -> items db0 !! ID c = Some c0 -> ParentID c0 = Some id ->
     halt_step db0 d ->
     wp (halt (ID c) a) no_error
       (fun _ d' => halts (under db0 (ID c)) d d' /\ forall x, under db0 (ID c) x -> parked_at d' x) d) ->
  wp (fold_left (fun (m : Tx (list string * list string)) c => a ← m; halt (ID c) a)
        (ListDirectChildren d1 id) (mret m)) no_error
    (fun _ d' => halts (under db0 id) d1 d'
                 /\ forall c x, In c (ListDirectChildren d1 id) -> under db0 (ID c) x -> parked_at d' x) d1.
Proof.
  intros Hk Hw Hsw Hd1 Hhalt.
  apply (wp_fold (fun c a => halt (ID c) a) _ _ _
    (fun seen d' => halts (under db0 id) d1 d' /\ forall c x, In c seen -> under db0 (ID c) x -> parked_at d' x) []).
  - apply wp_ret. split; [apply halts_refl | done].
  - intros seen c a d2 [Hh2 Hseen] Hc. destruct (child_before _ _ _ _ Hk Hd1 Hc) as (c0 & Hc0 & Hp & Ha).
    eapply wp_mono; [apply (Hhalt c c0); eauto; etrans; [exact Hd1 | apply Hh2]|].
    intros ? d3 [Hh3 Hc3]. split.
    + eapply halts_trans; [exact Hh2|]. eapply halts_mono; [|exact Hh3].
      intros x Hx. by eapply (under_child _ _ w (ID c) c0).
    + intros c' x [Hin | [<- | []]]%in_app_iff Hx; [|by apply Hc3]. apply Hh3. by apply (Hseen c').
Qed.

Lemma wp_halt_item fuel id w acc db0 d :
  keyed db0 -> tree_ok db0 -> links_ok db0 -> halt_step db0 d ->
  items db0 !! id = Some w -> 5 - kindOrder (Kind w) <= Z.of_nat fuel ->
  wp (haltWorkItemCollect fuel id acc) no_error
    (fun _ d' => halts (under db0 id) d d' /\ forall x, under db0 id x -> parked_at d' x) d.
Proof.
  revert id w acc d. induction fuel as [|fuel IH]; intros id w acc d Hk Ht Hl Hd Hw Hf;
    cbn [haltWorkItemCollect]; [pose proof (kindOrder_range (Kind w)); lia|].
  destruct (halt_row _ _ _ _ Hd Hw) as (item & Hitem & Hrow). apply success_kept in Hrow as Hsw.
  apply wp_bind. unfold wp at 1, GetWorkItem. rewrite Hitem. change (WorkItemIsTerminalSuccess _) with (success item).
  rewrite Hsw. destruct (success w) eqn:Es.
  { apply wp_ret. split; [apply halts_refl|]. intros x Hx%(under_unfinished _ _ _ _ Hw). congruence. }
  pose proof (halt_keyed _ _ Hd Hk) as Hkd. pose proof (halt_links _ _ Hd Hl) as Hld.
  assert (Hself : forall x, id = x -> under db0 id x) by (intros x <-; by apply (under_self _ _ w)).
  apply wp_bind. eapply wp_mono; [by apply (wp_abort id item)|]. intros acc1 d1 [Hh1 Hover].
  apply (halts_mono _ (under db0 id)) in Hh1; [|done].
  apply wp_bind. unfold wp at 1, children.
  assert (Hd1 : halt_step db0 d1) by (etrans; [exact Hd | apply Hh1]).
  apply wp_bind. eapply wp_mono; [apply (wp_halt_children (haltWorkItemCollect fuel) db0 id w); try done|].
  { intros c c0 a d2 Hc Hc0 Hp Hd2. apply (IH (ID c) c0); auto.
    pose proof (Ht _ _ _ _ Hc0 Hp Hw). lia. }
  intros acc2 d2 [Hh2 Hseen].
  assert (Hd2 : halt_step d d2) by (etrans; [apply Hh1 | apply Hh2]).
  destruct (halt_row _ _ _ _ Hd2 Hitem) as (item2 & Hitem2 & Hrow2). apply success_kept in Hrow2 as Hs2.
  destruct Hrow2 as (_&_&_&_&_&Hr2&_).
  apply wp_bind. eapply wp_mono; [apply (wp_park 2 id item2); [by eapply halt_keyed | done | congruence |]|].
  { destruct Hr2 as [-> | [-> _]]; [|by left]. eapply run_over_step; [apply Hh2 | done]. }
  intros ? d3 [Hh3 Hp3]. apply wp_ret. apply (halts_mono _ (under db0 id)) in Hh3; [|done]. split.
  - eapply halts_trans; [exact Hh1|]. by eapply halts_trans.
  - intros x Hx. inversion Hx as [? w' Hw' Hs' | ? w' cid c ? Hw' Hs' Hc Hcp Hca Hcx]; subst; [done|].
    apply Hh3. destruct (child_now _ _ _ _ _ Hk Hd1 Hc Hcp Hca) as (c1 & Hc1 & HI).
    apply (Hseen c1); [done | by rewrite HI].
Qed.

(** ** The theorem *)

(** C4: A STOP of an item that has not succeeded always completes.  Every item it
    reaches, through live children of unfinished items, ends parked: pending
    (recurring when it has a schedule), without start time and without run,
    and the run it was bound to is over.  Every other row is untouched, the
    finished items below included. *)
Theorem stop_parks_the_subtree LoadLocation start id w db :
  keyed db -> tree_ok db -> links_ok db -> id <> "" -> items db !! id = Some w -> Status w <> WorkItemSucceeded ->
  exists db' w', ControlSequence LoadLocation start id SEQUENCE_ACTION_STOP db = (db', Ok w')
  /\ (forall x, under db id x -> parked_at db' x)
  /\ (forall x wx, items db !! x = Some wx -> under db id x -> run_over db' (WorkflowRunID wx))
  /\ (forall x, ~ under db id x -> items db' !! x = items db !! x).
Proof.
  intros Hk Ht Hl Hne Hw Hs. apply String.eqb_neq in Hne, Hs.
  unfold ControlSequence, control_checks, guard_tx, mbind, tx_bind. rewrite Hne. cbn [mret tx_ret].
  unfold GetWorkItem. rewrite Hw. unfold read. rewrite Hs. cbn [mret tx_ret recordAudit run_call].
  set (d := with_logs db _ _). pose proof (kindOrder_range (Kind w)) as Hr.
  pose proof (wp_halt_item chain_fuel id w ([], []) db d Hk Ht Hl (halt_step_refl db) Hw ltac:(unfold chain_fuel; lia)) as H.
  unfold wp in H. unfold StopSequence. destruct (haltWorkItemCollect _ _ _ d) as [[acc db']|e]; [|done].
  destruct H as [[Hstep _ Hframe] Hpark]. destruct (halt_row _ _ id w Hstep Hw) as (w' & Hw' & _).
  exists db', w'. rewrite Hw'. split_and!; [done | done | | done].
  intros x wx Hwx Hx. destruct (halt_row _ _ x wx Hstep Hwx) as (wx' & Hwx' & Hrow).
  destruct (Hpark x Hx) as (v & Hv & Hrun & _). rewrite Hwx' in Hv. apply (inj Some) in Hv as <-.
  destruct Hrow as (_&_&_&_&_&[Heq | [_ Hover]]&_); [left; congruence | done].
Qed.

(** ** A concrete stop *)

(** A running feature over a finished task, a task with a live run and a task
    to do. *)
Definition stop_db : DB :=
  mkDB (list_to_map (map (fun w => (ID w, w))
     [sample "f" "feature" "running" None 1; sample "a" "task" "succeeded" (Some "f") 1;
      mkItem "b" "p" (Some "f") "task" "b" "running" None (Some "wf") "run1" (Some 2) JNull None false JNull None
        true None None false None 0 None 0 None 1 0 0;
      sample "c" "task" "pending" (Some "f") 3]))
    [] {["run1" := mkRun "running" "b" 1]} [mkStepRun "s1" "run1" "running" "e1"] {["e1" := "running"]}
    {["wf" := mkWorkflow WorkflowPublished true]} {["p" := "active"]} [] [] 1000.

Lemma stop_parks_the_subtree_witness :
  let r := ControlSequence no_zones (fun _ _ _ db => (db, true)) "f" SEQUENCE_ACTION_STOP stop_db in
  parked_at (fst r) "b" /\ run_over (fst r) "run1" /\ items (fst r) !! "a" = items stop_db !! "a".
Proof.
  cbv zeta.
  destruct (stop_parks_the_subtree no_zones (fun _ _ _ db => (db, true)) "f"
              (sample "f" "feature" "running" None 1) stop_db) as (db' & w' & H & Hp & Hr & Hf).
  - intros id w H. unfold stop_db in H. cbn [items list_to_map map foldr] in H.
    repeat (apply lookup_insert_Some in H as [[<- <-] | [_ H]]; [reflexivity|]). discriminate H.
  - intros id w pid p H Hw Hpid. unfold stop_db in H, Hpid. cbn [items list_to_map map foldr] in H, Hpid.
    repeat (apply lookup_insert_Some in H as [[<- <-] | [_ H]];
      [try discriminate Hw; injection Hw as <-; vm_compute in Hpid; injection Hpid as <-; reflexivity|]).
    discriminate H.
  - intros id w run H Hne Hrun. unfold stop_db in H, Hrun. cbn [items runs list_to_map map foldr] in H, Hrun.
    repeat (apply lookup_insert_Some in H as [[<- <-] | [_ H]];
      [first [destruct (Hne eq_refl) | vm_compute in Hrun; injection Hrun as <-; right; reflexivity]|]).
    discriminate H.
  - discriminate.
  - reflexivity.
  - discriminate.
  - rewrite H. cbn [fst].
    assert (Hb : under stop_db "f" "b").
    { eapply (under_child _ _ (sample "f" "feature" "running" None 1) "b"); [reflexivity | reflexivity | reflexivity | reflexivity | reflexivity |].
      eapply under_self; reflexivity. }
    split; [exact (Hp "b" Hb)|]. split.
    + destruct (items stop_db !! "b") as [b|] eqn:Eb; [|discriminate Eb].
      pose proof (Hr "b" b Eb Hb) as Hover. vm_compute in Eb. injection Eb as <-. exact Hover.
    + apply (Hf "a"). intros Ha.
      inversion Ha as [? ? Hw Hs | ? ? cid c ? Hw Hs Hc Hpar Har Hx].
      inversion Hx as [? wa Hwa Hsa | ? wa cid' c' ? Hwa Hsa Hc' Hpar' Har' Hx']; subst.
      * vm_compute in Hwa. injection Hwa as <-. discriminate Hsa.
      * unfold stop_db in Hc'. cbn [items list_to_map map foldr] in Hc'.
        repeat (apply lookup_insert_Some in Hc' as [[<- <-] | [_ Hc']];
          [first [discriminate Hpar' | injection Hpar' as <-; vm_compute in Hc; injection Hc as <-; discriminate Hpar]|]).
        discriminate Hc'.
Defined.
