(* ===== verification/WorkflowDag.v ===== *)
(** * The step graph of a workflow run (internal/scheduler/workflow_reconciler.go,
    internal/workflow/service.go [StepWire])

    The rows of one run in the order the store lists them, the map of active
    runs a pass works on, the pending-to-ready phase with its fan-in rule, the
    verdict on the run, and loops: the steps between a loop's target and its
    decision, their re-creation, and the routing of a loop decision.  Of a
    step's result only the work item id and the decision matter here.  A pass
    runs in one transaction, in which the store keeps new rows last; [newID] is
    the fresh identifier given to the new run of a step.  Gates, dispatch to
    workers, recovery and work trees are not modelled. *)

From S2P Require Import Prelude GoStrings Domain.
From stdpp Require Import relations.

Open Scope Z_scope.

Record StepWire := mkStep { SwID : string; SwName : string; SwKind : string; DependsOn : list string }.

Record StepRun := mkSR {
  srID : string; srStepID : string; srName : string; srKind : string; srStatus : string;
  srWorkItem : string; srDecision : string; srIteration : Z; srSupersededBy : string; srVersion : Z }.

(** ** Row updates *)

Definition superseded (r : StepRun) : bool := negb (srSupersededBy r == "").

Definition put_run_status (s : string) (r : StepRun) : StepRun :=
  mkSR (srID r) (srStepID r) (srName r) (srKind r) s (srWorkItem r) (srDecision r) (srIteration r)
    (srSupersededBy r) (srVersion r).
(** An empty id leaves the column null. *)
Definition put_superseded (by_ : string) (r : StepRun) : StepRun :=
  mkSR (srID r) (srStepID r) (srName r) (srKind r) (srStatus r) (srWorkItem r) (srDecision r) (srIteration r)
    by_ (srVersion r).
(** A new result without work item. *)
Definition put_result (decision : string) (r : StepRun) : StepRun :=
  mkSR (srID r) (srStepID r) (srName r) (srKind r) (srStatus r) "" decision (srIteration r)
    (srSupersededBy r) (srVersion r).

Definition bump (r : StepRun) : StepRun :=
  mkSR (srID r) (srStepID r) (srName r) (srKind r) (srStatus r) (srWorkItem r) (srDecision r) (srIteration r)
    (srSupersededBy r) (srVersion r + 1).

(** [None]: no row has that id and version ([ErrNotFound], which rolls the
    pass back). *)
Fixpoint UpdateWorkflowStepRun (id : string) (version : Z) (f : StepRun -> StepRun) (rows : list StepRun)
    : option (StepRun * list StepRun) :=
  match rows with
  | [] => None
  | r :: rest =>
      if (srID r == id) && (srVersion r =? version) then Some (bump (f r), bump (f r) :: rest)
      else '(u, rest') ← UpdateWorkflowStepRun id version f rest; Some (u, r :: rest')
  end.

Definition new_run (id stepID name kind : string) (iteration : Z) : StepRun :=
  mkSR id stepID name kind StepRunPending "" "" iteration "" 1.

Definition listStepRunsByStepID (stepID : string) (rows : list StepRun) : list StepRun :=
  List.filter (fun r => srStepID r == stepID) rows.

(** ** The map of a pass *)

(** A superseded row never shadows an active one. *)
Definition add_run (runs : gmap string StepRun) (r : StepRun) : gmap string StepRun :=
  match runs !! srStepID r with
  | Some cur => if superseded r then runs
                else if negb (superseded cur) then runs else <[srStepID r := r]> runs
  | None => <[srStepID r := r]> runs
  end.

Definition runByID (rows : list StepRun) : gmap string StepRun := fold_left add_run rows ∅.

(** The later of two steps with one id wins. *)
Definition stepByID (steps : list StepWire) (id : string) : option StepWire :=
  List.find (fun s => SwID s == id) (rev steps).

Definition parallelBranchChildIDs (steps : list StepWire) : gset string :=
  let parallel := list_to_set (C := gset string)
                    (map SwID (List.filter (fun s => SwKind s == StepKindParallel) steps)) in
  list_to_set (map SwID (List.filter (fun s => existsb (fun d => bool_decide (d ∈ parallel)) (DependsOn s)) steps)).

Definition depsSatisfied (step : StepWire) (runs : gmap string StepRun) : bool :=
  forallb (fun dep =>
    match runs !! dep with
    | None => false
    | Some r =>
        if superseded r then false
        else (srStatus r == StepRunSucceeded) || (srStatus r == StepRunSkipped)
             || ((SwKind step == StepKindLoopDecision) && (srStatus r == StepRunFailed))
    end) (DependsOn step).

Definition loopDecisionUpstreamFailed (step : StepWire) (runs : gmap string StepRun) : bool :=
  existsb (fun dep => match runs !! dep with
                      | Some up => negb (superseded up) && (srStatus up == StepRunFailed)
                      | None => false
                      end) (DependsOn step).

(** ** Pending to ready *)

Definition pass_state : Type := (list StepRun * gmap string StepRun * bool).

(** May this run of the step start now? *)
Definition may_ready (steps : list StepWire) (runs : gmap string StepRun) (r : StepRun) : bool :=
  match stepByID steps (srStepID r) with
  | None => false
  | Some step =>
      negb ((SwKind step == StepKindLoopDecision) && (0 <? srIteration r) && loopDecisionUpstreamFailed step runs)
      && depsSatisfied step runs
  end.

(** One iteration over the rows loaded at the start of the pass. *)
Definition ready_one (steps : list StepWire) (st : option pass_state) (r : StepRun) : option pass_state :=
  '(rows, runs, progress) ← st;
  let active := option_or r (runs !! srStepID r) in
  if superseded r then Some (rows, runs, progress)
  else if negb (srStatus active == StepRunPending) then Some (rows, runs, progress)
  else if may_ready steps runs r then
    '(updated, rows') ← UpdateWorkflowStepRun (srID r) (srVersion r) (put_run_status StepRunReady) rows;
    Some (rows', <[srStepID r := updated]> runs, true)
  else Some (rows, runs, progress).

(** The phase runs over the rows loaded at the start of the pass ([stepRuns]),
    on the rows and the map the handling of rejected approvals before it has
    left; without a rejected approval these are [stepRuns] and
    [runByID stepRuns]. *)
Definition mark_ready (steps : list StepWire) (stepRuns rows : list StepRun) (runs : gmap string StepRun)
    : option pass_state :=
  fold_left (ready_one steps) stepRuns (Some (rows, runs, false)).

(** ** The verdict on the run *)

Record tally := mkTally {
  allSucceeded : bool; anyFailed : bool; anySkipped : bool; hasSteps : bool; anyRunning : bool;
  nonTerminal : list StepRun }.

Definition count_run (runs : gmap string StepRun) (t : tally) (r : StepRun) : tally :=
  if superseded r then t
  else
    let sr := option_or r (runs !! srStepID r) in
    let s := srStatus sr in
    if s == StepRunSucceeded then
      mkTally (allSucceeded t) (anyFailed t) (anySkipped t) true (anyRunning t) (nonTerminal t)
    else if s == StepRunSkipped then
      mkTally (allSucceeded t) (anyFailed t) true true (anyRunning t) (nonTerminal t)
    else if (s == StepRunFailed) || (s == StepRunBlocked) then
      mkTally false true (anySkipped t) true (anyRunning t) (nonTerminal t)
    else if s == StepRunRunning then
      mkTally false (anyFailed t) (anySkipped t) true true (nonTerminal t)
    else if (s == StepRunApprovalPending) || (s == StepRunRecovering) then
      mkTally false (anyFailed t) (anySkipped t) true (anyRunning t) (nonTerminal t)
    else mkTally false (anyFailed t) (anySkipped t) true (anyRunning t) (nonTerminal t ++ [sr]).

Definition tally_runs (rows : list StepRun) (runs : gmap string StepRun) : tally :=
  fold_left (count_run runs) rows (mkTally true false false false false []).

Inductive verdict := RunCompletes (some_skipped : bool) | RunFails | RunContinues.

Definition run_verdict (t : tally) : verdict :=
  if hasSteps t && allSucceeded t then RunCompletes (anySkipped t)
  else if anyFailed t && negb (anyRunning t) then RunFails
  else RunContinues.

(** Steps that will not run any more are skipped once a step has failed. *)
Fixpoint skip_rest (l : list StepRun) (rows : list StepRun) : option (list StepRun) :=
  match l with
  | [] => Some rows
  | r :: rest =>
      if srStatus r == StepRunRunning then skip_rest rest rows
      else '(_, rows') ← UpdateWorkflowStepRun (srID r) (srVersion r) (put_run_status StepRunSkipped) rows;
           skip_rest rest rows'
  end.

Definition conclude (rows : list StepRun) (runs : gmap string StepRun) : option (list StepRun * verdict) :=
  let t := tally_runs rows runs in
  rows' ← (if anyFailed t then skip_rest (nonTerminal t) rows else Some rows);
  Some (rows', run_verdict t).

(** The bound work item's status at the end of a run. *)
Definition bound_item_status (recurring : bool) (v : verdict) : option string :=
  match v with
  | RunCompletes some_skipped =>
      Some (if recurring then WorkItemRecurring else if some_skipped then WorkItemSkipped else WorkItemSucceeded)
  | RunFails => Some (if recurring then WorkItemRecurring else WorkItemFailed)
  | RunContinues => None
  end.

(** ** The steps of a loop *)

Definition dependents (steps : list StepWire) (id : string) : list string :=
  flat_map (fun s => map (fun _ => SwID s) (List.filter (String.eqb id) (DependsOn s))) steps.

Definition prerequisites (steps : list StepWire) (id : string) : list string :=
  match stepByID steps id with Some s => DependsOn s | None => [] end.

(** The queue loops of [chainStepIDs]; [None] when the fuel runs out. *)
Fixpoint walk (fuel : nat) (adj : string -> list string) (seen : gset string) (queue : list string)
    : option (gset string) :=
  match queue with
  | [] => Some seen
  | id :: rest =>
      match fuel with
      | O => None
      | S fuel =>
          if decide (id ∈ seen) then walk fuel adj seen rest
          else walk fuel adj ({[id]} ∪ seen) (rest ++ adj id)
      end
  end.

(** Every id the steps mention. *)
Definition nodes (steps : list StepWire) : gset string :=
  list_to_set (flat_map (fun s => SwID s :: DependsOn s) steps).

(** One round per id that enters the queue. *)
Definition walk_fuel (steps : list StepWire) (adj : string -> list string) : nat :=
  S (sum_list_with (fun x => length (adj x)) (elements (nodes steps))).

Definition reach (steps : list StepWire) (adj : string -> list string) (from : string) : option (gset string) :=
  walk (walk_fuel steps adj) adj ∅ [from].

Definition chainStepIDs (steps : list StepWire) (fromID toID : string) : list string :=
  match stepByID steps fromID, stepByID steps toID with
  | Some _, Some _ =>
      match reach steps (dependents steps) fromID, reach steps (prerequisites steps) toID with
      | Some downstream, Some upstream =>
          map SwID (List.filter (fun s => negb (SwID s == toID) && bool_decide (SwID s ∈ downstream)
                                          && bool_decide (SwID s ∈ upstream)) steps)
      | _, _ => []
      end
  | _, _ => []
  end.

(** ** Creating runs *)

Section loops.
Context (newID : string -> string).

(** Supersede the first active run of the step and add a pending one. *)
Definition create_chain_run (steps : list StepWire) (iteration : Z) (stepID : string) (rows : list StepRun)
    : option (list StepRun) :=
  let kind := match stepByID steps stepID with
              | Some s => if SwKind s == "" then StepKindTask else SwKind s
              | None => StepKindTask
              end in
  let id := newID stepID in
  rows1 ← match List.find (fun r => negb (superseded r)) (listStepRunsByStepID stepID rows) with
          | Some prior => snd <$> UpdateWorkflowStepRun (srID prior) (srVersion prior) (put_superseded id) rows
          | None => Some rows
          end;
  Some (rows1 ++ [new_run id stepID (stepID +:+ " (loop)") kind iteration]).

Fixpoint createChainRuns (steps : list StepWire) (stepIDs : list string) (iteration : Z) (rows : list StepRun)
    : option (list StepRun) :=
  match stepIDs with
  | [] => Some rows
  | sid :: rest => rows' ← create_chain_run steps iteration sid rows; createChainRuns steps rest iteration rows'
  end.

Definition currentLoopIteration (runs : gmap string StepRun) (stepID : string) : Z :=
  foldr Z.max 0 (map srIteration
    (List.filter (fun r => (srStepID r == stepID) && negb (superseded r)) (map snd (map_to_list runs)))).

Definition loopDecisionReenter (steps : list StepWire) (step : StepWire) (sr : StepRun) (loopBranch : string)
    (currentIter : Z) (rows : list StepRun) : option (list StepRun) :=
  rows1 ← createChainRuns steps (chainStepIDs steps loopBranch (SwID step)) (currentIter + 1) rows;
  snd <$> UpdateWorkflowStepRun (srID sr) (srVersion sr) (fun r => put_run_status StepRunRunning (put_result "" r)) rows1.

Definition approvalReenter (steps : list StepWire) (step : StepWire) (sr : StepRun) (loopBranch : string)
    (currentIter : Z) (rows : list StepRun) : option (list StepRun) :=
  rows1 ← createChainRuns steps (chainStepIDs steps loopBranch (SwID step)) (currentIter + 1) rows;
  let id := newID (SwID step) in
  snd <$> UpdateWorkflowStepRun (srID sr) (srVersion sr) (fun r => put_superseded id (put_result "rejected" r))
            (rows1 ++ [new_run id (SwID step) (SwName step +:+ " (loop)") StepKindApproval (currentIter + 1)]).

Definition createLoopDecisionIteration (step : StepWire) (sr : StepRun) (nextIter : Z) (rows : list StepRun)
    : option (list StepRun) :=
  let id := newID (SwID step) in
  snd <$> UpdateWorkflowStepRun (srID sr) (srVersion sr)
            (fun r => put_superseded id (put_run_status StepRunSucceeded (put_result "" r)))
            (rows ++ [new_run id (SwID step) (SwName step) StepKindLoopDecision nextIter]).

Definition reaskRunName : string := "Reviewer (re-ask)".

Definition countReaskRuns (rows : list StepRun) : Z :=
  Z.of_nat (length (List.filter (fun r => srName r == reaskRunName) rows)).

Fixpoint supersede_all (by_ : string) (l : list StepRun) (rows : list StepRun) : option (list StepRun) :=
  match l with
  | [] => Some rows
  | r :: rest =>
      if superseded r then supersede_all by_ rest rows
      else '(_, rows') ← UpdateWorkflowStepRun (srID r) (srVersion r) (put_superseded by_) rows;
           supersede_all by_ rest rows'
  end.

Definition reaskDecisionStep (sr : StepRun) (runs : gmap string StepRun) (reaskStepID : string)
    (rows : list StepRun) : option (list StepRun) :=
  rows1 ← supersede_all (srID sr) (listStepRunsByStepID reaskStepID rows) rows;
  Some (rows1 ++ [new_run (newID reaskStepID) reaskStepID reaskRunName StepKindTask
                    (currentLoopIteration runs reaskStepID + 1)]).

(** Whether the re-entered chain has finished. *)
Definition pollLoopDecisionChain (steps : list StepWire) (loopBranch : string) (sr : StepRun) (rows : list StepRun)
    : bool :=
  let chain := if loopBranch == "" then [] else chainStepIDs steps loopBranch (srStepID sr) in
  match chain with
  | [] => false
  | _ :: _ =>
      forallb (fun cid =>
        match List.find (fun r => negb (superseded r)) (listStepRunsByStepID cid rows) with
        | Some active => negb (srID active == "") && (srStatus active == StepRunSucceeded)
        | None => false
        end) chain
  end.

(** ** Routing a loop decision *)

Record loopDecisionConfig := mkLoopConfig {
  LoopBranch : string; MaxIterations : Z; SuccessValue : string; FailureValue : string; MaxReask : Z;
  OnMissingDecision : string }.

Definition MissingDecisionReask : string := "reask".
Definition MissingDecisionSuccess : string := "success".
Definition MissingDecisionFail : string := "fail".

(** The defaults of a decoded configuration. *)
Definition parseLoopDecisionConfig (raw : loopDecisionConfig) : loopDecisionConfig :=
  mkLoopConfig (LoopBranch raw) (MaxIterations raw)
    (if SuccessValue raw == "" then "success" else SuccessValue raw)
    (if FailureValue raw == "" then "failure" else FailureValue raw)
    (if MaxReask raw <=? 0 then 3 else MaxReask raw)
    (if (OnMissingDecision raw == MissingDecisionReask) || (OnMissingDecision raw == MissingDecisionSuccess)
        || (OnMissingDecision raw == MissingDecisionFail)
     then OnMissingDecision raw else MissingDecisionReask).

Fixpoint aggregate (decision : string) (decisions : list string) (failureValue successValue : string) : string :=
  match decisions with
  | [] => decision
  | d :: rest =>
      if d == failureValue then failureValue
      else aggregate (if d == successValue then successValue else decision) rest failureValue successValue
  end.

Definition aggregateLoopDecisions : list string -> string -> string -> string := aggregate "".

Inductive loop_action :=
| LoopFail (reason : string)
| LoopWait
| LoopSpawn
| LoopAccept
| LoopReenter (currentIter : Z)
| LoopReask (reviewer : string).

(** The ticket's value of the decision field, [""] when it has none. *)
Context (ticket : string -> string).

Definition decision_of (u : StepRun) : string :=
  if negb (srDecision u == "") || (srWorkItem u == "") then srDecision u else ticket (srWorkItem u).

Definition is_decided (u : StepRun) : bool :=
  (srStatus u == StepRunSucceeded) || (srStatus u == StepRunFailed).

(** Another iteration of the decision that is still open. *)
Definition has_active_iteration (step : StepWire) (sr : StepRun) (rows : list StepRun) : bool :=
  existsb (fun p => negb (superseded p) && negb (srID p == srID sr) && (0 <? srIteration p)
                    && negb (srStatus p == StepRunSucceeded) && negb (srStatus p == StepRunFailed)
                    && negb (srStatus p == StepRunSkipped))
    (listStepRunsByStepID (SwID step) rows).

Definition missing_verdict (cfg : loopDecisionConfig) (step : StepWire) (rows : list StepRun) : loop_action :=
  if OnMissingDecision cfg == MissingDecisionSuccess then LoopAccept
  else if OnMissingDecision cfg == MissingDecisionFail then LoopFail "no decision signal"
  else match DependsOn step with
       | [] => LoopFail "no upstream step to re-ask"
       | reviewer :: _ =>
           if reviewer == "" then LoopFail "no upstream step to re-ask"
           else if MaxReask cfg <=? countReaskRuns (listStepRunsByStepID reviewer rows)
           then LoopFail "no decision signal after re-asks"
           else LoopReask reviewer
       end.

(** [spawned]: this pass already created an iteration of the step. *)
Definition loop_decide (cfg : loopDecisionConfig) (step : StepWire) (sr : StepRun) (runs : gmap string StepRun)
    (spawned : bool) (rows : list StepRun) : loop_action :=
  if (LoopBranch cfg == "") || (MaxIterations cfg <? 1) then LoopFail "missing or invalid config"
  else
    let ups := omap (fun dep => runs !! dep) (DependsOn step) in
    match ups with
    | [] => LoopFail "no upstream step result found"
    | _ :: _ =>
        if negb (forallb is_decided ups) then LoopWait
        else if existsb (fun u => negb (srStatus u == StepRunSucceeded)) ups then
          if (0 <? srIteration sr) || spawned then LoopWait
          else if has_active_iteration step sr rows then LoopWait
          else LoopSpawn
        else
          let decision := aggregateLoopDecisions (map decision_of ups) (FailureValue cfg) (SuccessValue cfg) in
          if decision == SuccessValue cfg then LoopAccept
          else if decision == FailureValue cfg then
            let currentIter := currentLoopIteration runs (LoopBranch cfg) in
            if MaxIterations cfg <=? currentIter then LoopFail "max_iterations exhausted"
            else LoopReenter currentIter
          else missing_verdict cfg step rows
    end.

(** What the action does to the rows. *)
Definition loop_apply (cfg : loopDecisionConfig) (steps : list StepWire) (step : StepWire) (sr : StepRun)
    (runs : gmap string StepRun) (a : loop_action) (rows : list StepRun) : option (list StepRun) :=
  match a with
  | LoopFail _ =>
      snd <$> UpdateWorkflowStepRun (srID sr) (srVersion sr) (fun r => put_run_status StepRunFailed (put_result "" r)) rows
  | LoopWait => Some rows
  | LoopSpawn => createLoopDecisionIteration step sr (currentLoopIteration runs (SwID step) + 1) rows
  | LoopAccept => snd <$> UpdateWorkflowStepRun (srID sr) (srVersion sr) (put_run_status StepRunSucceeded) rows
  | LoopReenter currentIter => loopDecisionReenter steps step sr (LoopBranch cfg) currentIter rows
  | LoopReask reviewer =>
      rows1 ← reaskDecisionStep sr runs reviewer rows;
      createLoopDecisionIteration step sr (currentLoopIteration runs (SwID step) + 1) rows1
  end.

End loops.

(** ** The container image of a run *)

Fixpoint resolve_image (chosen : string) (values : list string) : option string :=
  match values with
  | [] => Some chosen
  | img :: rest =>
      if img == "" then resolve_image chosen rest
      else if chosen == "" then resolve_image img rest
      else if img == chosen then resolve_image chosen rest
      else None
  end.

Definition resolveImageFromValues : list string -> option string := resolve_image "".

(** ** Rows with one active run per step *)

Definition is_active (r : StepRun) : Prop := superseded r = false.

(** At most one run of a step is active. *)
Definition active_unique (rows : list StepRun) : Prop :=
  forall r r', In r rows -> In r' rows -> is_active r -> is_active r' -> srStepID r = srStepID r' -> r = r'.

(** An update of the row with the given id. *)
Definition on_row (id : string) (f : StepRun -> StepRun) (r : StepRun) : StepRun :=
  if srID r == id then bump (f r) else r.

Lemma on_row_other id f rows :
  ~ In id (map srID rows) -> map (on_row id f) rows = rows.
Proof.
  intros H. rewrite <- (map_id rows) at 2. apply map_ext_in. intros r Hr. unfold on_row.
  destruct (srID r == id) eqn:E; [|done]. apply String.eqb_eq in E as <-. destruct H. by apply in_map.
Qed.

Lemma update_hit f rows r :
  NoDup (map srID rows) -> In r rows ->
  UpdateWorkflowStepRun (srID r) (srVersion r) f rows = Some (bump (f r), map (on_row (srID r) f) rows).
Proof.
  induction rows as [|x rows IH]; [done|]. cbn [map UpdateWorkflowStepRun].
  rewrite NoDup_cons, list_elem_of_In. intros [Hn Hd] [-> | Hr].
  - rewrite String.eqb_refl, Z.eqb_refl. cbn [andb]. unfold on_row at 1. rewrite String.eqb_refl.
    by rewrite on_row_other.
  - assert (Hne : srID x <> srID r) by (intros E; apply Hn; rewrite E; by apply in_map).
    apply String.eqb_neq in Hne. unfold on_row at 1. rewrite Hne. cbn [andb]. by rewrite IH.
Qed.

Lemma NoDup_id_inj rows a b : NoDup (map srID rows) -> In a rows -> In b rows -> srID a = srID b -> a = b.
Proof.
  induction rows as [|x l IH]; [done|]. cbn [map]. rewrite NoDup_cons, list_elem_of_In. intros [Hn Hd].
  intros [<- | Ha] [<- | Hb] Heq; try done; [| | by apply IH].
  - destruct Hn. rewrite Heq. by apply in_map.
  - destruct Hn. rewrite <- Heq. by apply in_map.
Qed.

(** *** The map of a pass *)

Lemma runByID_snoc rows r : runByID (rows ++ [r]) = add_run (runByID rows) r.
Proof. unfold runByID. by rewrite fold_left_app. Qed.

Lemma add_run_lookup runs r s :
  add_run runs r !! s
  = if decide (srStepID r = s)
    then match runs !! s with
         | Some cur => if superseded r || negb (superseded cur) then Some cur else Some r
         | None => Some r
         end
    else runs !! s.
Proof.
  unfold add_run. destruct (decide (srStepID r = s)) as [->|Hne].
  - destruct (runs !! s) as [cur|] eqn:E; [|apply lookup_insert_eq].
    destruct (superseded r); [done|]. destruct (superseded cur); [apply lookup_insert_eq | done].
  - destruct (runs !! srStepID r) as [cur|]; [|by apply lookup_insert_ne].
    destruct (superseded r); [done|]. destruct (superseded cur); [by apply lookup_insert_ne | done].
Qed.

Lemma runByID_in rows s r : runByID rows !! s = Some r -> In r rows /\ srStepID r = s.
Proof.
  induction rows as [|x rows IH] using rev_ind; [done|]. rewrite runByID_snoc, add_run_lookup, in_app_iff.
  destruct (decide (srStepID x = s)) as [Hx|_]; [|intros [? ?]%IH; auto].
  destruct (runByID rows !! s) as [cur|]; [destruct (_ || _)|]; intros [= <-].
  - destruct IH as [? ?]; auto.
  - split; [right; by left | done].
  - split; [right; by left | done].
Qed.

Lemma runByID_active rows r :
  In r rows -> is_active r -> exists r', runByID rows !! srStepID r = Some r' /\ is_active r'.
Proof.
  induction rows as [|x rows IH] using rev_ind; [done|]. rewrite in_app_iff, runByID_snoc, add_run_lookup.
  intros Hr Ha. destruct (decide (srStepID x = srStepID r)) as [Hx|Hne].
  - destruct (runByID rows !! srStepID r) as [cur|] eqn:E.
    + destruct (superseded x) eqn:Ex; cbn [orb].
      * destruct Hr as [Hr | [-> | []]]; [by apply IH|]. unfold is_active in Ha. congruence.
      * destruct (superseded cur) eqn:Ec; cbn [negb]; eauto.
    + exists x. split; [done|]. destruct Hr as [Hr | [-> | []]]; [|done].
      destruct (IH Hr Ha) as (? & ? & _). congruence.
  - destruct Hr as [Hr | [-> | []]]; [by apply IH | done].
Qed.

Lemma runByID_unique rows r : active_unique rows -> In r rows -> is_active r -> runByID rows !! srStepID r = Some r.
Proof.
  intros Hu Hr Ha. destruct (runByID_active rows r Hr Ha) as (r' & Hr' & Ha').
  destruct (runByID_in _ _ _ Hr') as [Hin Hs]. rewrite Hr'. f_equal. by apply Hu.
Qed.

(** ** The ready phase *)

(** Two maps that agree but for pending runs marked ready. *)
Definition ready_sim (a b : option StepRun) : Prop :=
  match a, b with
  | Some x, Some y => x = y \/ srStatus x = StepRunPending /\ srStatus y = StepRunReady /\ superseded y = superseded x
  | None, None => True
  | _, _ => False
  end.

Lemma existsb_ext {A} (f g : A -> bool) l : (forall x, f x = g x) -> existsb f l = existsb g l.
Proof. intros H. induction l as [|x l IH]; [done|]. cbn. by rewrite H, IH. Qed.

Lemma forallb_ext' {A} (f g : A -> bool) l : (forall x, f x = g x) -> forallb f l = forallb g l.
Proof. intros H. induction l as [|x l IH]; [done|]. cbn. by rewrite H, IH. Qed.

Lemma may_ready_sim steps m m' r :
  (forall s, ready_sim (m !! s) (m' !! s)) -> may_ready steps m' r = may_ready steps m r.
Proof.
  intros H. unfold may_ready. destruct (stepByID steps (srStepID r)) as [step|]; [|done]. f_equal.
  - f_equal. f_equal. apply existsb_ext. intros d. specialize (H d). unfold ready_sim in H.
    destruct (m !! d) as [x|], (m' !! d) as [y|]; try done. by destruct H as [-> | (-> & -> & ->)].
  - apply forallb_ext'. intros d. specialize (H d). unfold ready_sim in H.
    destruct (m !! d) as [x|], (m' !! d) as [y|]; try done. by destruct H as [-> | (-> & -> & ->)].
Qed.

(** Which rows the phase marks, read off the rows it starts from. *)
Definition becomes_ready (steps : list StepWire) (rows : list StepRun) (r : StepRun) : bool :=
  negb (superseded r) && (srStatus r == StepRunPending) && may_ready steps (runByID rows) r.

Definition marked (steps : list StepWire) (rows : list StepRun) (r : StepRun) : StepRun :=
  if becomes_ready steps rows r then bump (put_run_status StepRunReady r) else r.

Lemma marked_id steps rows r : srID (marked steps rows r) = srID r.
Proof. unfold marked. by destruct (becomes_ready steps rows r). Qed.

Lemma map_marked_ids steps rows l : map srID (map (marked steps rows) l) = map srID l.
Proof. rewrite map_map. apply map_ext, marked_id. Qed.

#[export] Instance StepRun_eq_dec : EqDecision StepRun.
Proof. solve_decision. Defined.

(** The map after a prefix of the rows has been visited. *)
Definition map_inv (steps : list StepWire) (rows pre : list StepRun) (runs : gmap string StepRun) : Prop :=
  forall s, match runByID rows !! s with
            | None => runs !! s = None
            | Some r => runs !! s = Some (if decide (r ∈ pre) then marked steps rows r else r)
            end.

Lemma map_inv_sim steps rows pre runs s :
  map_inv steps rows pre runs -> ready_sim (runByID rows !! s) (runs !! s).
Proof.
  intros H. specialize (H s). destruct (runByID rows !! s) as [r|]; rewrite H; [|done]. cbn.
  destruct (decide (r ∈ pre)); [|by left]. unfold marked, becomes_ready.
  destruct (superseded r) eqn:Es; [by left|]. destruct (srStatus r == StepRunPending) eqn:Ep; [|by left].
  destruct (may_ready _ _ _); [|by left]. right. apply String.eqb_eq in Ep. by split_and!.
Qed.

Lemma ready_step steps rows pre r rest runs p :
  NoDup (map srID rows) -> active_unique rows -> rows = pre ++ r :: rest ->
  map_inv steps rows pre runs ->
  exists runs', ready_one steps (Some (map (marked steps rows) pre ++ r :: rest, runs, p)) r
                = Some (map (marked steps rows) (pre ++ [r]) ++ rest, runs', p || becomes_ready steps rows r)
                /\ map_inv steps rows (pre ++ [r]) runs'.
Proof.
  intros Hnd Hu Hrows Hinv.
  assert (Hr : In r rows) by (rewrite Hrows; apply in_or_app; right; by left).
  assert (Hpre : r ∉ pre).
  { intros Hin. rewrite Hrows, map_app in Hnd. apply NoDup_app in Hnd as (_ & Hnd & _).
    apply (Hnd (srID r)); [by apply list_elem_of_fmap_2 | by left]. }
  assert (Hkeep : marked steps rows r = r -> map_inv steps rows (pre ++ [r]) runs).
  { intros Hm s. specialize (Hinv s). destruct (runByID rows !! s) as [x|]; [|done]. rewrite Hinv. f_equal.
    destruct (decide (x = r)) as [->|Hne].
    - rewrite Hm. by destruct (decide _), (decide _).
    - repeat case_decide; try done; exfalso.
      + match goal with H : x ∉ _ |- _ => apply H end. apply elem_of_app. by left.
      + match goal with H : x ∈ pre ++ _ |- _ => apply elem_of_app in H as [?|?%list_elem_of_singleton]; done end. }
  assert (Hlist : forall x, map (marked steps rows) (pre ++ [r]) ++ x = map (marked steps rows) pre ++ marked steps rows r :: x)
    by (intros x; rewrite map_app, <- app_assoc; done).
  cbn [ready_one mbind option_bind]. rewrite Hlist. unfold becomes_ready.
  destruct (superseded r) eqn:Es.
  { assert (Hm : marked steps rows r = r) by (unfold marked, becomes_ready; by rewrite Es).
    exists runs. rewrite Hm, orb_false_r. auto. }
  pose proof (runByID_unique rows r Hu Hr Es) as Hlook.
  pose proof (Hinv (srStepID r)) as Hact. rewrite Hlook, decide_False in Hact by done. rewrite Hact. cbn [option_or].
  rewrite (may_ready_sim steps (runByID rows) runs r) by (intros s; by eapply map_inv_sim).
  destruct (srStatus r == StepRunPending) eqn:Ep; [|
    assert (Hm : marked steps rows r = r) by (unfold marked, becomes_ready; by rewrite Es, Ep);
    exists runs; rewrite Hm, orb_false_r; auto].
  destruct (may_ready steps (runByID rows) r) eqn:Em; [|
    assert (Hm : marked steps rows r = r) by (unfold marked, becomes_ready; by rewrite Es, Ep, Em);
    exists runs; rewrite Hm, orb_false_r; auto].
  assert (Hm : marked steps rows r = bump (put_run_status StepRunReady r))
    by (unfold marked, becomes_ready; by rewrite Es, Ep, Em).
  cbn [negb andb]. rewrite update_hit.
  - cbn [mbind option_bind]. rewrite orb_true_r, <- Hm. exists (<[srStepID r := marked steps rows r]> runs).
    split.
    + f_equal. f_equal. f_equal. rewrite map_app. cbn [map].
      assert (Hnd' : NoDup (map srID (map (marked steps rows) pre ++ r :: rest)))
        by (rewrite map_app, map_marked_ids, <- map_app; by rewrite Hrows in Hnd).
      rewrite map_app in Hnd'. cbn [map] in Hnd'. apply NoDup_app in Hnd' as (_ & Hx & Hy%NoDup_cons).
      destruct Hy as [Hy _]. rewrite list_elem_of_In in Hy. unfold on_row at 2. rewrite String.eqb_refl, <- Hm.
      rewrite !on_row_other; [done | done |]. intros Hin%list_elem_of_In. apply (Hx _ Hin). by left.
    + intros s. specialize (Hinv s). destruct (decide (srStepID r = s)) as [<-|Hne].
      * rewrite Hlook, lookup_insert_eq, decide_True; [done|]. apply elem_of_app. right. by apply list_elem_of_singleton.
      * rewrite lookup_insert_ne by done. destruct (runByID rows !! s) as [x|] eqn:Ex; [|done]. rewrite Hinv. f_equal.
        assert (x <> r) by (intros ->; apply runByID_in in Ex as [_ ?]; done).
        repeat case_decide; try done; exfalso.
        -- match goal with H : x ∉ _ |- _ => apply H end. apply elem_of_app. by left.
        -- match goal with H : x ∈ pre ++ _ |- _ => apply elem_of_app in H as [?|?%list_elem_of_singleton]; done end.
  - by rewrite map_app, map_marked_ids, <- map_app, <- Hrows.
  - apply in_or_app. right. by left.
Qed.

Lemma ready_fold steps rows pre rest runs p :
  NoDup (map srID rows) -> active_unique rows -> rows = pre ++ rest -> map_inv steps rows pre runs ->
  exists runs', fold_left (ready_one steps) rest (Some (map (marked steps rows) pre ++ rest, runs, p))
                = Some (map (marked steps rows) rows, runs', p || existsb (becomes_ready steps rows) rest)
                /\ map_inv steps rows rows runs'.
Proof.
  intros Hnd Hu. revert pre runs p. induction rest as [|r rest IH]; intros pre runs p Hrows Hinv; cbn [fold_left existsb].
  - rewrite app_nil_r in Hrows. subst pre. rewrite app_nil_r, orb_false_r. by exists runs.
  - destruct (ready_step steps rows pre r rest runs p) as (runs1 & E & Hinv1); [done..|]. rewrite E.
    destruct (IH (pre ++ [r]) runs1 (p || becomes_ready steps rows r)) as (runs2 & E2 & Hinv2);
      [by rewrite <- app_assoc | done |].
    exists runs2. split; [|done]. by rewrite E2, orb_assoc.
Qed.

Lemma mark_ready_eq steps rows :
  NoDup (map srID rows) -> active_unique rows ->
  exists runs, mark_ready steps rows rows (runByID rows)
               = Some (map (marked steps rows) rows, runs, existsb (becomes_ready steps rows) rows)
               /\ map_inv steps rows rows runs.
Proof.
  intros Hnd Hu. apply (ready_fold steps rows [] rows); [done | done | done |].
  intros s. destruct (runByID rows !! s) as [r|]; [|done]. by rewrite decide_False by apply not_elem_of_nil.
Qed.

(** ** The walk of the graph *)

(** Work left in ids not yet seen. *)
Definition open_work (adj : string -> list string) (u : list string) (seen : gset string) : nat :=
  sum_list_with (fun x => if decide (x ∈ seen) then O else length (adj x)) u.

Lemma open_work_seen adj u seen id :
  NoDup u -> (id ∈ u \/ adj id = []) -> id ∉ seen ->
  (length (adj id) + open_work adj u ({[id]} ∪ seen) <= open_work adj u seen)%nat.
Proof.
  intros Hnd Hid Hn. destruct Hid as [Hid | ->].
  - induction u as [|x u IH]; [by apply elem_of_nil in Hid|]. apply NoDup_cons in Hnd as [Hx Hnd].
    unfold open_work in *. cbn [sum_list_with]. apply elem_of_cons in Hid as [<- | Hid].
    + rewrite decide_True by set_solver. rewrite decide_False by done.
      assert (E : sum_list_with (fun y => if decide (y ∈ {[id]} ∪ seen) then O else length (adj y)) u
                  = sum_list_with (fun y => if decide (y ∈ seen) then O else length (adj y)) u).
      { clear IH Hnd. induction u as [|y u IHu]; [done|]. cbn [sum_list_with].
        apply not_elem_of_cons in Hx as [Hy Hx]. rewrite IHu by done. f_equal.
        destruct (decide (y ∈ seen)); [rewrite decide_True by set_solver | rewrite decide_False by set_solver]; done. }
      lia.
    + specialize (IH Hnd Hid). destruct (decide (x ∈ {[id]} ∪ seen)), (decide (x ∈ seen)); try lia. set_solver.
  - cbn [length]. induction u as [|x u IH]; [done|]. apply NoDup_cons in Hnd as [_ Hnd].
    unfold open_work in *. cbn [sum_list_with]. specialize (IH Hnd).
    destruct (decide (x ∈ {[id]} ∪ seen)), (decide (x ∈ seen)); try lia. set_solver.
Qed.

Lemma open_work_empty adj u : open_work adj u ∅ = sum_list_with (fun x => length (adj x)) u.
Proof.
  induction u as [|x u IH]; [done|]. unfold open_work in *. cbn [sum_list_with].
  rewrite decide_False by apply not_elem_of_empty. by rewrite IH.
Qed.

Definition next_of (adj : string -> list string) (a b : string) : Prop := In b (adj a).

(** With one round per queued id the walk ends with the ids reachable from the
    queue. *)
Lemma walk_spec adj u fuel seen queue :
  NoDup u -> (forall x, x ∉ u -> adj x = []) -> (length queue + open_work adj u seen <= fuel)%nat ->
  (forall x y, x ∈ seen -> In y (adj x) -> y ∈ seen \/ In y queue) ->
  exists r, walk fuel adj seen queue = Some r
    /\ (forall x, x ∈ seen \/ In x queue -> x ∈ r)
    /\ (forall x y, x ∈ r -> In y (adj x) -> y ∈ r)
    /\ (forall x, x ∈ r -> x ∈ seen \/ exists q, In q queue /\ rtc (next_of adj) q x).
Proof.
  intros Hnd Hadj. revert seen queue. induction fuel as [|fuel IH]; intros seen queue Hf Hcl.
  - destruct queue as [|q queue]; [|cbn in Hf; lia]. exists seen. split_and!; [done | intros x [?|[]]; done | | auto].
    intros x y Hx Hy. by destruct (Hcl x y Hx Hy) as [?|[]].
  - destruct queue as [|q queue]; cbn [walk].
    + exists seen. split_and!; [done | intros x [?|[]]; done | | auto].
      intros x y Hx Hy. by destruct (Hcl x y Hx Hy) as [?|[]].
    + destruct (decide (q ∈ seen)) as [Hq|Hq].
      * destruct (IH seen queue) as (r & Hr & Hin & Hcl' & Hsound); [cbn in Hf; lia | |].
        { intros x y Hx Hy. destruct (Hcl x y Hx Hy) as [?|[<-|?]]; auto. }
        exists r. split_and!; [done | | done |].
        -- intros x [?|[<-|?]]; auto.
        -- intros x [?|(q' & ? & ?)]%Hsound; [by left | right; exists q'; split; [by right | done]].
      * destruct (IH ({[q]} ∪ seen) (queue ++ adj q)) as (r & Hr & Hin & Hcl' & Hsound).
        { rewrite length_app. assert (q ∈ u \/ adj q = []) as Hor by (destruct (decide (q ∈ u)); auto).
          pose proof (open_work_seen adj u seen q Hnd Hor Hq). cbn in Hf. lia. }
        { intros x y [->%elem_of_singleton | Hx]%elem_of_union Hy; [right; apply in_or_app; by right|].
          destruct (Hcl x y Hx Hy) as [?|[<-|?]]; [left; set_solver | left; set_solver | right; apply in_or_app; by left]. }
        exists r. split_and!; [done | | done |].
        -- intros x [?|[<-|?]]; apply Hin; [left; set_solver | left; set_solver | right; apply in_or_app; by left].
        -- intros x [[->%elem_of_singleton | ?]%elem_of_union | (q' & [?|Hq']%in_app_or & ?)]%Hsound.
           ++ right. exists q. split; [by left | reflexivity].
           ++ by left.
           ++ right. exists q'. split; [by right | done].
           ++ right. exists q. split; [by left |]. by eapply rtc_l.
Qed.

Lemma nodes_dependents steps x : x ∉ elements (nodes steps) -> dependents steps x = [].
Proof.
  rewrite elem_of_elements. unfold nodes, dependents. rewrite elem_of_list_to_set. intros Hx.
  induction steps as [|s steps IH]; [done|]. cbn [flat_map] in *. rewrite elem_of_app, elem_of_cons in Hx.
  rewrite IH by tauto. rewrite app_nil_r.
  assert (Hn : ~ In x (DependsOn s)) by (rewrite <- list_elem_of_In; tauto). clear IH Hx.
  induction (DependsOn s) as [|d l IH]; [done|]. cbn [List.filter]. cbn [In] in Hn.
  destruct (x =? d)%string eqn:E; [apply String.eqb_eq in E; subst; tauto|]. apply IH. tauto.
Qed.

Lemma stepByID_in steps id s : stepByID steps id = Some s -> In s steps /\ SwID s = id.
Proof.
  unfold stepByID. intros [H1 H2]%find_some. apply in_rev in H1. by apply String.eqb_eq in H2.
Qed.

Lemma nodes_prerequisites steps x : x ∉ elements (nodes steps) -> prerequisites steps x = [].
Proof.
  rewrite elem_of_elements. unfold prerequisites. intros Hx. destruct (stepByID steps x) as [s|] eqn:E; [|done].
  apply stepByID_in in E as [Hs <-]. destruct Hx. unfold nodes. rewrite elem_of_list_to_set, list_elem_of_In, in_flat_map.
  exists s. split; [done | by left].
Qed.

Lemma reach_spec steps adj from :
  (forall x, x ∉ elements (nodes steps) -> adj x = []) ->
  exists r, reach steps adj from = Some r /\ forall x, x ∈ r <-> rtc (next_of adj) from x.
Proof.
  intros Hadj.
  destruct (walk_spec adj (elements (nodes steps)) (walk_fuel steps adj) ∅ [from]) as (r & Hr & Hin & Hcl & Hsound).
  - apply NoDup_elements.
  - done.
  - unfold walk_fuel. rewrite open_work_empty. cbn [length]. lia.
  - set_solver.
  - exists r. split; [done|]. intros x. split.
    + intros [?|(q & [<-|[]] & ?)]%Hsound; [set_solver | done].
    + intros H. assert (from ∈ r) by (apply Hin; right; by left). clear Hr Hin Hsound.
      induction H as [|a b c Hab Hbc IH]; [done|]. apply IH. by apply (Hcl a).
Qed.

(** An edge of the graph: [b] depends on [a]. *)
Definition feeds (steps : list StepWire) (a b : string) : Prop :=
  exists s, In s steps /\ SwID s = b /\ In a (DependsOn s).

Lemma dependents_spec steps a b : next_of (dependents steps) a b <-> feeds steps a b.
Proof.
  unfold next_of, dependents, feeds. rewrite in_flat_map. split.
  - intros (s & Hs & (d & <- & [Hd He]%List.filter_In)%in_map_iff). apply String.eqb_eq in He as <-. by exists s.
  - intros (s & Hs & <- & Ha). exists s. split; [done|]. apply in_map_iff. exists a. split; [done|].
    apply List.filter_In. by rewrite String.eqb_refl.
Qed.

Lemma stepByID_unique steps s : NoDup (map SwID steps) -> In s steps -> stepByID steps (SwID s) = Some s.
Proof.
  intros Hnd Hs. unfold stepByID. destruct (List.find _ (rev steps)) as [t|] eqn:E.
  - apply find_some in E as [Ht Hid]. apply in_rev in Ht. apply String.eqb_eq in Hid. f_equal.
    clear -Hnd Hs Ht Hid. induction steps as [|x l IH]; [done|]. cbn [map] in Hnd.
    rewrite NoDup_cons, list_elem_of_In in Hnd. destruct Hnd as [Hn Hd].
    destruct Hs as [<- | Hs], Ht as [<- | Ht]; try done; [| | by apply IH].
    + destruct Hn. rewrite <- Hid. by apply in_map.
    + destruct Hn. rewrite Hid. by apply in_map.
  - apply in_rev in Hs. apply (find_none _ _ E) in Hs. by rewrite String.eqb_refl in Hs.
Qed.

Lemma prerequisites_spec steps a b : NoDup (map SwID steps) -> next_of (prerequisites steps) b a <-> feeds steps a b.
Proof.
  intros Hnd. unfold next_of, prerequisites, feeds. split.
  - destruct (stepByID steps b) as [s|] eqn:E; [|done]. apply stepByID_in in E as [Hs <-]. intros Ha. by exists s.
  - intros (s & Hs & <- & Ha). by rewrite stepByID_unique.
Qed.

Lemma rtc_flip {A} (R S : A -> A -> Prop) x y : (forall a b, R b a <-> S a b) -> rtc R y x <-> rtc S x y.
Proof.
  intros H. split.
  - induction 1 as [|a b c Hab _ IH]; [done|]. eapply rtc_r; [exact IH|]. by apply H.
  - induction 1 as [|a b c Hab _ IH]; [done|]. eapply rtc_r; [exact IH|]. by apply H.
Qed.

Lemma rtc_iff {A} (R S : A -> A -> Prop) x y : (forall a b, R a b <-> S a b) -> rtc R x y <-> rtc S x y.
Proof. intros H. split; apply rtc_subrel; intros ? ? ?; by apply H. Qed.

Lemma chain_eq steps fromID toID :
  NoDup (map SwID steps) -> In fromID (map SwID steps) -> In toID (map SwID steps) ->
  exists down up : gset string,
    chainStepIDs steps fromID toID
    = map SwID (List.filter (fun s => negb (SwID s == toID) && bool_decide (SwID s ∈ down)
                                      && bool_decide (SwID s ∈ up)) steps)
    /\ (forall x, x ∈ down <-> rtc (feeds steps) fromID x) /\ (forall x, x ∈ up <-> rtc (feeds steps) x toID).
Proof.
  intros Hnd (sf & <- & Hf)%in_map_iff (st & <- & Ht)%in_map_iff. unfold chainStepIDs.
  rewrite !stepByID_unique by done.
  destruct (reach_spec steps (dependents steps) (SwID sf) (nodes_dependents steps)) as (down & -> & Hd).
  destruct (reach_spec steps (prerequisites steps) (SwID st) (nodes_prerequisites steps)) as (up & -> & Hu).
  exists down, up. split; [done|]. split; intros x.
  - rewrite Hd. apply rtc_iff, dependents_spec.
  - rewrite Hu. apply rtc_flip. intros a b. by apply prerequisites_spec.
Qed.

Lemma NoDup_ids_filter (p : StepWire -> bool) l : NoDup (map SwID l) -> NoDup (map SwID (List.filter p l)).
Proof.
  induction l as [|a l IH]; [done|]. cbn [map List.filter]. rewrite NoDup_cons. intros [Hn Hd].
  destruct (p a); cbn [map]; [|auto]. apply NoDup_cons. split; [|auto].
  rewrite list_elem_of_In in *. intros (x & Hx & Hin%List.filter_In)%in_map_iff. apply Hn, in_map_iff. exists x. tauto.
Qed.

Lemma chain_NoDup steps a b : NoDup (map SwID steps) -> NoDup (chainStepIDs steps a b).
Proof.
  intros H. unfold chainStepIDs. repeat case_match; try apply NoDup_nil_2. by apply NoDup_ids_filter.
Qed.

Lemma chain_excludes steps a b : ~ In b (chainStepIDs steps a b).
Proof.
  unfold chainStepIDs. repeat case_match; try (intros []).
  intros (x & Hx & [_ Hp]%List.filter_In)%in_map_iff. subst b. by rewrite String.eqb_refl in Hp.
Qed.

(** ** New runs *)

(** The active run of the step, superseded. *)
Definition sup_row (stepID id : string) (r : StepRun) : StepRun :=
  if negb (superseded r) && (srStepID r == stepID) then bump (put_superseded id r) else r.

Lemma sup_row_id stepID id r : srID (sup_row stepID id r) = srID r.
Proof. unfold sup_row. by destruct (_ && _). Qed.

Lemma sup_row_step stepID id r : srStepID (sup_row stepID id r) = srStepID r.
Proof. unfold sup_row. by destruct (_ && _). Qed.

(** After it, no run of the step is active and the others are as they were. *)
Lemma sup_row_active stepID id r :
  id <> "" -> is_active (sup_row stepID id r) -> sup_row stepID id r = r /\ is_active r /\ srStepID r <> stepID.
Proof.
  intros Hid. unfold is_active, sup_row. destruct (superseded r) eqn:Es; cbn [negb andb]; [by rewrite Es|].
  destruct (srStepID r == stepID) eqn:E.
  - unfold superseded at 1. cbn. apply String.eqb_neq in Hid. by rewrite Hid.
  - intros _. by apply String.eqb_neq in E.
Qed.

Section creating.
Context (newID : string -> string).

Definition chain_kind (steps : list StepWire) (stepID : string) : string :=
  match stepByID steps stepID with
  | Some s => if SwKind s == "" then StepKindTask else SwKind s
  | None => StepKindTask
  end.

Definition chain_run (steps : list StepWire) (iteration : Z) (stepID : string) : StepRun :=
  new_run (newID stepID) stepID (stepID +:+ " (loop)") (chain_kind steps stepID) iteration.

Lemma create_chain_run_eq steps iteration sid rows :
  NoDup (map srID rows) -> active_unique rows ->
  create_chain_run newID steps iteration sid rows
  = Some (map (sup_row sid (newID sid)) rows ++ [chain_run steps iteration sid]).
Proof.
  intros Hnd Hu. unfold create_chain_run. fold (chain_kind steps sid). fold (chain_run steps iteration sid).
  destruct (List.find _ _) as [prior|] eqn:E.
  - apply find_some in E as [Hin Ha]. apply negb_true_iff in Ha.
    apply List.filter_In in Hin as [Hin Hs]. rewrite update_hit by done. cbn [fmap option_fmap option_map snd mbind option_bind].
    do 2 f_equal. apply map_ext_in. intros r Hr. unfold on_row, sup_row.
    destruct (srID r == srID prior) eqn:Er.
    + apply String.eqb_eq in Er. rewrite (NoDup_id_inj rows r prior) by done. by rewrite Ha, Hs.
    + destruct (superseded r) eqn:Es; [done|]. destruct (srStepID r == sid) eqn:Est; [|done].
      apply String.eqb_eq in Est, Hs. rewrite (Hu r prior) in Er by (done || congruence).
      by rewrite String.eqb_refl in Er.
  - cbn [mbind option_bind]. do 2 f_equal. rewrite <- (map_id rows) at 1. apply map_ext_in. intros r Hr.
    unfold sup_row. destruct (negb (superseded r) && (srStepID r == sid)) eqn:Er; [|done]. exfalso.
    apply andb_true_iff in Er as [Ha Hs].
    assert (Hf : In r (listStepRunsByStepID sid rows)) by (apply List.filter_In; by split).
    apply (find_none _ _ E) in Hf. congruence.
Qed.

(** The chain's steps have one pending run each; the other rows are as they
    were. *)
Record reentered (steps : list StepWire) (iteration : Z) (chain : list string) (rows rows' : list StepRun) : Prop := {
  re_ids : NoDup (map srID rows');
  re_unique : active_unique rows';
  re_new : forall c, In c chain -> In (chain_run steps iteration c) rows';
  re_old : forall r, In r rows -> ~ In (srStepID r) chain -> In r rows';
  re_only : forall r, In r rows' -> is_active r -> ~ In (srStepID r) chain -> In r rows;
  re_origin : forall i, In i (map srID rows') -> In i (map srID rows) \/ exists c, In c chain /\ i = newID c }.

Lemma create_chain_run_step steps iteration sid rows :
  NoDup (map srID rows) -> active_unique rows -> newID sid <> "" -> ~ In (newID sid) (map srID rows) ->
  reentered steps iteration [sid] rows (map (sup_row sid (newID sid)) rows ++ [chain_run steps iteration sid]).
Proof.
  intros Hnd Hu Hne Hfresh.
  assert (Hids : map srID (map (sup_row sid (newID sid)) rows) = map srID rows)
    by (rewrite map_map; apply map_ext, sup_row_id).
  split.
  - rewrite map_app, Hids. cbn [map]. apply NoDup_app. split_and!; [done | | apply NoDup_singleton].
    intros x Hx%list_elem_of_In Hy%list_elem_of_singleton. subst x. done.
  - intros r r' Hr Hr' Ha Ha' Hs. apply in_app_or in Hr, Hr'.
    destruct Hr as [(x & Hx & Hin)%in_map_iff | [<- | []]], Hr' as [(x' & Hx' & Hin')%in_map_iff | [<- | []]]; [| | |done].
    + rewrite <- Hx in Ha. rewrite <- Hx' in Ha'. apply sup_row_active in Ha as (E & Ha & _); [|done].
      apply sup_row_active in Ha' as (E' & Ha' & _); [|done]. rewrite E in Hx. rewrite E' in Hx'. subst x x'. by apply Hu.
    + rewrite <- Hx in Ha. apply sup_row_active in Ha as (E & _ & Hn); [|done]. rewrite E in Hx. subst x. done.
    + rewrite <- Hx' in Ha'. apply sup_row_active in Ha' as (E & _ & Hn); [|done]. rewrite E in Hx'. subst x'. by destruct Hn.
  - intros c [<- | []]. apply in_or_app. right. by left.
  - intros r Hr Hn. apply in_or_app. left. apply in_map_iff. exists r. split; [|done].
    unfold sup_row. destruct (srStepID r == sid) eqn:E; [|by rewrite andb_false_r].
    apply String.eqb_eq in E. destruct Hn. by left.
  - intros r Hr Ha Hn. apply in_app_or in Hr as [(x & Hx & Hin)%in_map_iff | [<- | []]].
    + rewrite <- Hx in Ha. apply sup_row_active in Ha as (E & _ & _); [|done]. rewrite E in Hx. by subst x.
    + destruct Hn. by left.
  - intros i. rewrite map_app, Hids, in_app_iff. intros [?|[<-|[]]]; [by left | right; exists sid; split; [by left | done]].
Qed.

Lemma createChainRuns_spec steps iteration chain rows :
  NoDup (map srID rows) -> active_unique rows -> NoDup chain -> NoDup (map newID chain) ->
  (forall c, In c chain -> newID c <> "" /\ ~ In (newID c) (map srID rows)) ->
  exists rows', createChainRuns newID steps chain iteration rows = Some rows'
                /\ reentered steps iteration chain rows rows'.
Proof.
  revert rows. induction chain as [|c chain IH]; intros rows Hnd Hu Hc Hnew Hfresh; cbn [createChainRuns].
  - exists rows. split; [done|]. split; try done. intros i Hi. by left.
  - apply NoDup_cons in Hc as [Hn Hc]. cbn [map] in Hnew. apply NoDup_cons in Hnew as [Hnn Hnew].
    rewrite list_elem_of_In in Hn, Hnn. destruct (Hfresh c (or_introl eq_refl)) as [Hne Hf].
    rewrite create_chain_run_eq by done. cbn [mbind option_bind].
    pose proof (create_chain_run_step steps iteration c rows Hnd Hu Hne Hf) as R1. revert R1.
    generalize (map (sup_row c (newID c)) rows ++ [chain_run steps iteration c]). intros rows1 R1.
    destruct (IH rows1) as (rows' & E & R2); [apply R1 | apply R1 | done | done | |].
    { intros d Hd. split; [apply Hfresh; by right|]. intros Hin.
      destruct (re_origin _ _ _ _ _ R1 _ Hin) as [?|(c' & [<- | []] & Heq)].
      - by apply (proj2 (Hfresh d (or_intror Hd))).
      - apply Hnn. rewrite <- Heq. by apply in_map. }
    exists rows'. split; [exact E|]. constructor; [apply R2 | apply R2 | | | |].
    + intros d [<- | Hd]; [|by apply (re_new _ _ _ _ _ R2)].
      apply (re_old _ _ _ _ _ R2); [apply (re_new _ _ _ _ _ R1); by left | done].
    + intros r Hr Hno. cbn [In] in Hno.
      apply (re_old _ _ _ _ _ R2); [apply (re_old _ _ _ _ _ R1); [done | cbn [In]; tauto] | tauto].
    + intros r Hr Ha Hno. cbn [In] in Hno.
      apply (re_only _ _ _ _ _ R1); [apply (re_only _ _ _ _ _ R2); [done | done | tauto] | done | cbn [In]; tauto].
    + intros i Hi. destruct (re_origin _ _ _ _ _ R2 _ Hi) as [Hi1 | (d & Hd & ->)].
      * destruct (re_origin _ _ _ _ _ R1 _ Hi1) as [?|(d & [<- | []] & ->)]; [by left|].
        right. exists c. split; [by left | done].
      * right. exists d. split; [by right | done].
Qed.

(** A dependency on an active run that has not succeeded closes the fan-in. *)
Lemma dep_blocks rows r s :
  active_unique rows -> In r rows -> is_active r -> In (srStepID r) (DependsOn s) ->
  srStatus r = StepRunPending \/ srStatus r = StepRunRunning ->
  depsSatisfied s (runByID rows) = false.
Proof.
  intros Hu Hr Ha Hd Hs. apply forallb_false_exists. exists (srStepID r). split; [done|].
  rewrite (runByID_unique rows r) by done. rewrite Ha.
  destruct Hs as [-> | ->]; by rewrite andb_false_r.
Qed.

(** Updating an active row without superseding it. *)
Lemma on_row_unique rows sr f :
  active_unique rows -> In sr rows -> is_active sr ->
  (forall r, superseded (f r) = superseded r /\ srStepID (f r) = srStepID r) ->
  active_unique (map (on_row (srID sr) f) rows).
Proof.
  intros Hu Hsr Hact Hf. assert (Hon : forall r, superseded (on_row (srID sr) f r) = superseded r
      /\ srStepID (on_row (srID sr) f r) = srStepID r)
    by (intros r; unfold on_row; destruct (_ == _); [apply Hf | done]).
  intros r r' (x & <- & Hx)%in_map_iff (x' & <- & Hx')%in_map_iff Ha Ha' Hs. unfold is_active in *.
  destruct (Hon x) as [Hs1 Ht1], (Hon x') as [Hs2 Ht2]. rewrite Hs1 in Ha. rewrite Hs2 in Ha'. rewrite Ht1, Ht2 in Hs.
  by rewrite (Hu x x').
Qed.

End creating.

(** ** The verdict *)

Definition all_active (rows : list StepRun) (P : string -> bool) : Prop :=
  forall r, In r rows -> is_active r -> P (srStatus r) = true.
Definition some_active (rows : list StepRun) (P : string -> bool) : Prop :=
  exists r, In r rows /\ is_active r /\ P (srStatus r) = true.

Definition run_done (s : string) : bool := (s == StepRunSucceeded) || (s == StepRunSkipped).
Definition run_broken (s : string) : bool := (s == StepRunFailed) || (s == StepRunBlocked).

(** The statuses of the active runs decide. *)
Definition statuses (rows : list StepRun) : list string :=
  map srStatus (List.filter (fun r => negb (superseded r)) rows).

Lemma tally_spec rows runs :
  (forall r, In r rows -> is_active r -> runs !! srStepID r = Some r) ->
  let t := tally_runs rows runs in
  allSucceeded t = forallb run_done (statuses rows)
  /\ anyFailed t = existsb run_broken (statuses rows)
  /\ anySkipped t = existsb (String.eqb StepRunSkipped) (statuses rows)
  /\ hasSteps t = negb (match statuses rows with [] => true | _ => false end)
  /\ anyRunning t = existsb (String.eqb StepRunRunning) (statuses rows).
Proof.
  cbv zeta. unfold tally_runs. induction rows as [|r rows IH] using rev_ind; [by repeat split|]. intros Hruns.
  rewrite fold_left_app. cbn [fold_left].
  destruct IH as (H1 & H2 & H3 & H4 & H5); [intros x Hx; apply Hruns; apply in_or_app; by left|].
  revert H1 H2 H3 H4 H5. generalize (fold_left (count_run runs) rows (mkTally true false false false false [])).
  intros t H1 H2 H3 H4 H5. unfold statuses in *. rewrite List.filter_app, map_app. cbn [List.filter].
  unfold count_run. destruct (superseded r) eqn:Es; cbn [negb map]; [by rewrite app_nil_r|].
  rewrite Hruns; [|apply in_or_app; right; by left | done]. cbn [option_or].
  rewrite forallb_app, !existsb_app, <- H1, <- H2, <- H3, <- H5. cbn [map forallb existsb].
  assert (Hne : match map srStatus (List.filter (fun r => negb (superseded r)) rows) ++ [srStatus r] with
                | [] => true | _ => false end = false)
    by (by destruct (map srStatus (List.filter (fun r => negb (superseded r)) rows))).
  rewrite Hne. unfold run_done, run_broken. rewrite (String.eqb_sym StepRunSkipped), (String.eqb_sym StepRunRunning).
  generalize (srStatus r). intros s.
  destruct (s == StepRunSucceeded) eqn:E1; [apply String.eqb_eq in E1 as ->; cbn; by rewrite ?andb_true_r, ?orb_false_r|].
  destruct (s == StepRunSkipped) eqn:E2; [apply String.eqb_eq in E2 as ->; cbn; by rewrite ?andb_true_r, ?orb_false_r, ?orb_true_r|].
  destruct (s == StepRunFailed) eqn:E3; [apply String.eqb_eq in E3 as ->; cbn; by rewrite ?andb_false_r, ?orb_false_r, ?orb_true_r|].
  destruct (s == StepRunBlocked) eqn:E4; [apply String.eqb_eq in E4 as ->; cbn; by rewrite ?andb_false_r, ?orb_false_r, ?orb_true_r|].
  destruct (s == StepRunRunning) eqn:E5; [apply String.eqb_eq in E5 as ->; cbn; by rewrite ?andb_false_r, ?orb_false_r, ?orb_true_r|].
  cbn [orb]. destruct (_ || _); cbn; by rewrite ?andb_false_r, ?orb_false_r.
Qed.

Lemma verdict_statuses rows :
  active_unique rows ->
  let s := statuses rows in
  run_verdict (tally_runs rows (runByID rows))
  = if negb (match s with [] => true | _ => false end) && forallb run_done s
    then RunCompletes (existsb (String.eqb StepRunSkipped) s)
    else if existsb run_broken s && negb (existsb (String.eqb StepRunRunning) s) then RunFails else RunContinues.
Proof.
  intros Hu. destruct (tally_spec rows (runByID rows)) as (H1 & H2 & H3 & H4 & H5);
    [intros r Hr Ha; by apply runByID_unique|]. cbv zeta. unfold run_verdict. by rewrite H1, H2, H3, H4, H5.
Qed.

Lemma in_statuses rows s : In s (statuses rows) <-> exists r, In r rows /\ is_active r /\ srStatus r = s.
Proof.
  unfold statuses, is_active. rewrite in_map_iff. split.
  - intros (r & <- & [Hr Ha]%List.filter_In). apply negb_true_iff in Ha. by exists r.
  - intros (r & Hr & Ha & <-). exists r. split; [done|]. apply List.filter_In. by rewrite Ha.
Qed.

Lemma statuses_all rows P : forallb P (statuses rows) = true <-> all_active rows P.
Proof.
  rewrite forallb_forall. unfold all_active. setoid_rewrite in_statuses. split.
  - intros H r Hr Ha. apply H. by exists r.
  - intros H s (r & Hr & Ha & <-). by apply H.
Qed.

Lemma statuses_some rows P : existsb P (statuses rows) = true <-> some_active rows P.
Proof.
  rewrite existsb_exists. unfold some_active. setoid_rewrite in_statuses. split.
  - intros (s & (r & Hr & Ha & <-) & HP). by exists r.
  - intros (r & Hr & Ha & HP). exists (srStatus r). split; [by exists r | done].
Qed.

(** ** Routing *)

Lemma aggregate_success d l f s :
  s <> f -> aggregate d l f s = s -> ~ In f l /\ (d = s \/ In s l).
Proof.
  intros Hsf. revert d. induction l as [|x l IH]; intros d; cbn [aggregate].
  - intros ->. split; [intros [] | by left].
  - destruct (x == f) eqn:Ef; [intros ->; done|]. apply String.eqb_neq in Ef. intros [Hn Hor]%IH. split.
    + intros [?|?]; done.
    + destruct Hor as [Hor | ?]; [|right; by right]. destruct (x == s) eqn:Es; [|by left].
      apply String.eqb_eq in Es. right. by left.
Qed.

Lemma aggregate_cases d l f s : aggregate d l f s = d \/ aggregate d l f s = f \/ aggregate d l f s = s.
Proof.
  revert d. induction l as [|x l IH]; intros d; cbn [aggregate]; [by left|].
  destruct (x == f); [by right; left|]. destruct (IH (if x == s then s else d)) as [H|?]; [|by right].
  destruct (x == s); [by right; right | by left].
Qed.

Lemma aggregate_failure d l f s : In f l -> aggregate d l f s = f.
Proof.
  revert d. induction l as [|x l IH]; intros d; [done|]. cbn [aggregate].
  destruct (x == f) eqn:E; [done|]. intros [-> | H]; [by rewrite String.eqb_refl in E | by apply IH].
Qed.

Lemma aggregate_silent d l f s : aggregate d l f s = "" -> f <> "" -> s <> "" -> ~ In f l /\ ~ In s l.
Proof.
  intros H Hf Hs. split.
  - intros Hin. by rewrite aggregate_failure in H.
  - intros Hin. revert d H. induction l as [|x l IH]; intros d; [done|]. cbn [aggregate].
    destruct (x == f); [done|]. destruct Hin as [-> | Hin].
    + rewrite String.eqb_refl. intros H. destruct (aggregate_cases s l f s) as [E|[E|E]]; congruence.
    + by apply IH.
Qed.

(** ** Theorems *)

(** C6: The steps a loop re-runs are exactly those on a dependency path from the
    loop's target to its decision, the decision excluded, in canvas order; the
    two graph walks that find them always finish. *)
Theorem chain_is_between steps fromID toID :
  NoDup (map SwID steps) -> In fromID (map SwID steps) -> In toID (map SwID steps) ->
  (forall x, In x (chainStepIDs steps fromID toID)
             <-> In x (map SwID steps) /\ x <> toID /\ rtc (feeds steps) fromID x /\ rtc (feeds steps) x toID)
  /\ chainStepIDs steps fromID toID `sublist_of` map SwID steps.
Proof.
  intros Hnd Hf Ht. destruct (chain_eq steps fromID toID Hnd Hf Ht) as (down & up & -> & Hd & Hu). split.
  - intros x. rewrite !in_map_iff. split.
    + intros (s & <- & [Hs Hp]%List.filter_In). apply andb_true_iff in Hp as [[Hne H1]%andb_true_iff H2].
      apply bool_decide_eq_true in H1, H2. apply negb_true_iff, String.eqb_neq in Hne.
      split_and!; [by exists s | done | by apply Hd | by apply Hu].
    + intros ((s & <- & Hs) & Hne & H1%Hd & H2%Hu). exists s. split; [done|]. apply List.filter_In. split; [done|].
      apply String.eqb_neq in Hne. by rewrite Hne, !bool_decide_eq_true_2.
  - clear. induction steps as [|s l IH]; [done|]. cbn [map List.filter].
    destruct (_ && _); cbn [map]; [by apply sublist_skip | by apply sublist_cons].
Qed.

(** C5: The pending-to-ready phase, which updates rows and its map one after the
    other, marks exactly the active pending runs whose fan-in holds in the
    state the pass loaded: the order of the rows does not matter (in a pass in
    which no rejected approval changed the rows or the map before the phase).
    A marked run has an active run behind every dependency, succeeded or
    skipped (or failed, for a loop decision); nothing else changes, and the
    pass reports progress exactly when it marked one. *)
Theorem ready_phase_exact steps rows :
  NoDup (map srID rows) -> active_unique rows ->
  exists runs, mark_ready steps rows rows (runByID rows)
  = Some (map (marked steps rows) rows, runs, existsb (becomes_ready steps rows) rows)
  /\ (forall r, In r rows -> is_active r -> runs !! srStepID r = Some (marked steps rows r))
  /\ (forall r, In r rows -> becomes_ready steps rows r = true ->
        is_active r /\ srStatus r = StepRunPending
        /\ exists step, stepByID steps (srStepID r) = Some step
           /\ forall d, In d (DependsOn step) ->
              exists u, In u rows /\ is_active u /\ srStepID u = d
                /\ (run_done (srStatus u) = true
                    \/ SwKind step = StepKindLoopDecision /\ srStatus u = StepRunFailed)).
Proof.
  intros Hnd Hu. destruct (mark_ready_eq steps rows Hnd Hu) as (runs & E & Hinv). exists runs.
  split; [done|]. split.
  - intros r Hr Ha. specialize (Hinv (srStepID r)). rewrite (runByID_unique rows r Hu Hr Ha) in Hinv.
    rewrite decide_True in Hinv; [done | by apply list_elem_of_In].
  - intros r Hr H. unfold becomes_ready in H. apply andb_true_iff in H as [[Ha%negb_true_iff Hp]%andb_true_iff Hm].
    apply String.eqb_eq in Hp. split; [done|]. split; [done|]. unfold may_ready in Hm.
    destruct (stepByID steps (srStepID r)) as [step|]; [|done]. exists step. split; [done|].
    apply andb_true_iff in Hm as [_ Hdeps]. intros d Hd. unfold depsSatisfied in Hdeps.
    rewrite forallb_forall in Hdeps. specialize (Hdeps d Hd). destruct (runByID rows !! d) as [u|] eqn:Eu; [|done].
    destruct (superseded u) eqn:Es; [done|]. destruct (runByID_in _ _ _ Eu) as [Hin Hid].
    exists u. split_and!; [done | done | done |]. apply orb_true_iff in Hdeps as [Hdone | Hloop]; [by left|].
    apply andb_true_iff in Hloop as [Hk%String.eqb_eq Hs%String.eqb_eq]. by right.
Qed.

(** C7: A rejected loop decision re-enters its loop without a gap: every step
    between the target and the decision gets one fresh pending run of the next
    iteration as its active run, the decision runs again, every other run stays
    as it was, and no step that depends on the decision or on a step of the
    loop can start from the results of the previous iteration. *)
Theorem reentry_blocks_downstream newID steps step sr loopBranch currentIter rows :
  NoDup (map srID rows) -> active_unique rows -> NoDup (map SwID steps) ->
  In sr rows -> is_active sr -> srStepID sr = SwID step ->
  let chain := chainStepIDs steps loopBranch (SwID step) in
  NoDup (map newID chain) -> (forall c, In c chain -> newID c <> "" /\ ~ In (newID c) (map srID rows)) ->
  exists rows', loopDecisionReenter newID steps step sr loopBranch currentIter rows = Some rows'
  /\ active_unique rows'
  /\ (forall c, In c chain -> exists r, runByID rows' !! c = Some r /\ srStatus r = StepRunPending
                                        /\ srIteration r = currentIter + 1)
  /\ (forall r, In r rows -> r <> sr -> ~ In (srStepID r) chain -> In r rows')
  /\ (forall s d, In d (DependsOn s) -> d = SwID step \/ In d chain -> depsSatisfied s (runByID rows') = false).
Proof.
  cbv zeta. intros Hnd Hu Hsteps Hsr Hact Hstep Hnew Hfresh. set (chain := chainStepIDs _ _ _) in *.
  destruct (createChainRuns_spec newID steps (currentIter + 1) chain rows) as (rows1 & E & R); [done | done | | done | done |].
  { by apply chain_NoDup. }
  assert (Hnot : ~ In (srStepID sr) chain) by (rewrite Hstep; apply chain_excludes).
  pose proof (re_old _ _ _ _ _ _ R sr Hsr Hnot) as Hsr1. pose proof (re_ids _ _ _ _ _ _ R) as Hids1.
  pose proof (re_unique _ _ _ _ _ _ R) as Hu1.
  unfold loopDecisionReenter. fold chain. rewrite E. cbn [mbind option_bind].
  set (f := fun r => put_run_status StepRunRunning (put_result "" r)). rewrite update_hit by done.
  cbn [fmap option_fmap option_map snd]. set (rows' := map (on_row (srID sr) f) rows1).
  assert (Hu' : active_unique rows') by (by apply on_row_unique).
  assert (Hsame : forall r, In r rows1 -> r <> sr -> In r rows').
  { intros r Hr Hne. apply in_map_iff. exists r. split; [|done]. unfold on_row.
    destruct (srID r == srID sr) eqn:Er; [|done]. apply String.eqb_eq in Er.
    destruct Hne. by apply (NoDup_id_inj rows1). }
  assert (Hchain : forall c, In c chain -> In (chain_run newID steps (currentIter + 1) c) rows').
  { intros c Hc. apply Hsame; [by apply R|]. intros <-. by apply Hnot. }
  assert (Hrun : In (bump (f sr)) rows').
  { apply in_map_iff. exists sr. split; [|done]. unfold on_row. by rewrite String.eqb_refl. }
  exists rows'. split_and!; [done | done | | |].
  - intros c Hc. exists (chain_run newID steps (currentIter + 1) c). split; [|done].
    by apply (runByID_unique rows' _ Hu' (Hchain c Hc)).
  - intros r Hr Hne Hno. apply Hsame; [|done]. by apply (re_old _ _ _ _ _ _ R).
  - intros s d Hd [-> | Hc].
    + apply (dep_blocks rows' (bump (f sr)) s Hu' Hrun Hact); [by rewrite <- Hstep in Hd | by right].
    + by apply (dep_blocks rows' _ s Hu' (Hchain d Hc) eq_refl); [|left].
Qed.

(** C19: The verdict at the end of a pass depends on the active runs alone: the run
    completes exactly when it has an active run and all of them succeeded or
    were skipped, and fails exactly when one failed or is blocked and none is
    running.  A run that waits for an approval or a recovery does not hold the
    verdict back. *)
Theorem verdict_spec rows :
  active_unique rows ->
  let v := run_verdict (tally_runs rows (runByID rows)) in
  (forall b, v = RunCompletes b
     <-> some_active rows (fun _ => true) /\ all_active rows run_done
         /\ (b = true <-> some_active rows (String.eqb StepRunSkipped)))
  /\ (v = RunFails <-> some_active rows run_broken /\ ~ some_active rows (String.eqb StepRunRunning)).
Proof.
  intros Hu. cbv zeta. rewrite verdict_statuses by done.
  setoid_rewrite <- (statuses_all rows run_done). rewrite <- (statuses_some rows run_broken).
  setoid_rewrite <- (statuses_some rows (fun _ => true)). setoid_rewrite <- (statuses_some rows (String.eqb StepRunSkipped)).
  rewrite <- (statuses_some rows (String.eqb StepRunRunning)).
  destruct (statuses rows) as [|s l] eqn:Es.
  { cbn. split; [|intuition congruence]. intros b. intuition congruence. }
  cbn [negb andb]. destruct (forallb run_done (s :: l)) eqn:Ed.
  - assert (Hb : existsb run_broken (s :: l) = false).
    { apply existsb_false_forall. intros x Hx. rewrite forallb_forall in Ed. specialize (Ed x Hx). unfold run_done in Ed.
      apply orb_true_iff in Ed as [->%String.eqb_eq | ->%String.eqb_eq]; done. }
    rewrite Hb. split; [|intuition congruence]. intros b. cbn [existsb]. split.
    + intros [= <-]. split_and!; [done | done | done].
    + intros (_ & _ & H). f_equal. destruct b, (_ || _); intuition congruence.
  - split; [intros b; split; [destruct (_ && _); discriminate | intuition congruence]|].
    destruct (existsb run_broken (s :: l)), (existsb (String.eqb StepRunRunning) (s :: l)); cbn; intuition congruence.
Qed.

(** A state a re-entered loop can be in when a step of its chain has failed:
    the poll does not free the waiting decision, the ready phase marks neither
    run, and the running decision keeps the verdict from failing the run. *)
Lemma failed_chain_step_keeps_waiting steps loopBranch rows sr r :
  active_unique rows -> In sr rows -> is_active sr -> srStatus sr = StepRunRunning ->
  In r rows -> is_active r -> In (srStepID r) (chainStepIDs steps loopBranch (srStepID sr)) ->
  srStatus r = StepRunFailed ->
  pollLoopDecisionChain steps loopBranch sr rows = false
  /\ becomes_ready steps rows sr = false /\ becomes_ready steps rows r = false
  /\ run_verdict (tally_runs rows (runByID rows)) = RunContinues.
Proof.
  intros Hu Hsr Ha Hs Hr Har Hin Hf. split_and!.
  - unfold pollLoopDecisionChain. destruct (loopBranch == ""); [done|].
    destruct (chainStepIDs _ _ _) as [|c l] eqn:E; [done|]. rewrite <- E. apply forallb_false_exists.
    exists (srStepID r). rewrite <- E in Hin. split; [done|].
    destruct (List.find _ _) as [a|] eqn:Ef; [|done]. apply find_some in Ef as [Hl Hact].
    apply List.filter_In in Hl as [Hl Hid]. apply String.eqb_eq in Hid. apply negb_true_iff in Hact.
    rewrite (Hu a r) by done. rewrite Hf. by rewrite andb_false_r.
  - unfold becomes_ready. rewrite Hs. by rewrite andb_false_r.
  - unfold becomes_ready. rewrite Hf. by rewrite andb_false_r.
  - rewrite verdict_statuses by done.
    assert (H1 : forallb run_done (statuses rows) = false).
    { apply not_true_iff_false. rewrite statuses_all. intros H. specialize (H r Hr Har). by rewrite Hf in H. }
    assert (H2 : existsb (String.eqb StepRunRunning) (statuses rows) = true)
      by (apply statuses_some; exists sr; by rewrite Hs).
    by rewrite H1, H2, !andb_false_r.
Qed.

(** What an acceptance says of the dependencies' runs. *)
Lemma accept_inv ticket raw step sr runs spawned rows :
  let cfg := parseLoopDecisionConfig raw in
  let ups := omap (fun dep => runs !! dep) (DependsOn step) in
  SuccessValue cfg <> FailureValue cfg -> loop_decide ticket cfg step sr runs spawned rows = LoopAccept ->
  (forall u, In u ups -> srStatus u = StepRunSucceeded)
  /\ ~ In (FailureValue cfg) (map (decision_of ticket) ups)
  /\ (In (SuccessValue cfg) (map (decision_of ticket) ups) \/ OnMissingDecision cfg = MissingDecisionSuccess).
Proof.
  cbv zeta. set (cfg := parseLoopDecisionConfig raw). intros Hsf H. unfold loop_decide in H.
  assert (Hf : FailureValue cfg <> "") by (unfold cfg; cbn; destruct (FailureValue raw == "") eqn:E; [done | by apply String.eqb_neq]).
  assert (Hs : SuccessValue cfg <> "") by (unfold cfg; cbn; destruct (SuccessValue raw == "") eqn:E; [done | by apply String.eqb_neq]).
  destruct (_ || _); [done|]. set (ups := omap _ _) in *.
  destruct ups as [|u0 ups0] eqn:Eups; [done|]. rewrite <- Eups in *. destruct (negb (forallb _ _)); [done|].
  destruct (existsb _ ups) eqn:Ebad; [repeat case_match; done|]. rewrite existsb_false_forall in Ebad. split.
  { intros u Hu. apply String.eqb_eq, negb_false_iff. by apply Ebad. }
  unfold aggregateLoopDecisions in H. set (dec := aggregate _ _ _ _) in H. destruct (dec == SuccessValue cfg) eqn:E1.
  - apply String.eqb_eq in E1. apply aggregate_success in E1 as [? [E|?]]; [by split; [|left]..|done].
  - destruct (dec == FailureValue cfg) eqn:E2; [by destruct (MaxIterations cfg <=? _)|].
    apply String.eqb_neq in E1, E2. assert (E0 : dec = "") by (destruct (aggregate_cases "" (map (decision_of ticket) ups)
      (FailureValue cfg) (SuccessValue cfg)) as [?|[?|?]]; done).
    apply aggregate_silent in E0 as [? _]; [|done|done]. split; [done|]. right. unfold missing_verdict in H.
    destruct (OnMissingDecision cfg == MissingDecisionSuccess) eqn:E; [by apply String.eqb_eq|].
    destruct (_ == _); [done|]. repeat case_match; done.
Qed.

(** C20: A loop decision that is ready proceeds only when every step it depends on
    has an active run that succeeded, none of them reported failure, and at
    least one reported success - or, where none reported anything, the
    configuration accepts a missing verdict. *)
Theorem loop_accepts_only_successes ticket raw step sr runs spawned rows :
  let cfg := parseLoopDecisionConfig raw in
  SuccessValue cfg <> FailureValue cfg -> depsSatisfied step runs = true ->
  loop_decide ticket cfg step sr runs spawned rows = LoopAccept ->
  (forall d, In d (DependsOn step) -> exists u, runs !! d = Some u /\ is_active u /\ srStatus u = StepRunSucceeded
                                              /\ decision_of ticket u <> FailureValue cfg)
  /\ ((exists d u, In d (DependsOn step) /\ runs !! d = Some u /\ decision_of ticket u = SuccessValue cfg)
      \/ OnMissingDecision cfg = MissingDecisionSuccess).
Proof.
  cbv zeta. intros Hsf Hdeps H. apply accept_inv in H as (Hsucc & Hno & Hor); [|done]. split.
  - intros d Hd. unfold depsSatisfied in Hdeps. rewrite forallb_forall in Hdeps. specialize (Hdeps d Hd).
    destruct (runs !! d) as [u|] eqn:Eu; [|done].
    assert (Hin : In u (omap (fun dep => runs !! dep) (DependsOn step)))
      by (apply list_elem_of_In, list_elem_of_omap; exists d; by rewrite list_elem_of_In).
    exists u. split_and!; [done | by destruct (superseded u) eqn:E | by apply Hsucc |].
    intros E. apply Hno. rewrite <- E. by apply in_map.
  - destruct Hor as [(u & Hu & Hin)%in_map_iff | ?]; [left | by right].
    rewrite <- list_elem_of_In in Hin. apply list_elem_of_omap in Hin as (d & Hd & Hl). exists d, u. by rewrite <- list_elem_of_In.
Qed.

(** A skipped dependency opens the fan-in of a loop decision but is none of the
    two states the decision itself waits for. *)
Lemma skipped_upstream_stalls ticket cfg step sr runs spawned rows d u :
  LoopBranch cfg <> "" -> 1 <= MaxIterations cfg -> In d (DependsOn step) -> runs !! d = Some u ->
  srStatus u = StepRunSkipped -> loop_decide ticket cfg step sr runs spawned rows = LoopWait.
Proof.
  intros Hb Hm Hd Hu Hs. unfold loop_decide. apply String.eqb_neq in Hb. rewrite Hb.
  replace (MaxIterations cfg <? 1) with false by (symmetry; apply Z.ltb_ge; lia). cbn [orb].
  assert (Hin : In u (omap (fun dep => runs !! dep) (DependsOn step)))
    by (apply list_elem_of_In, list_elem_of_omap; exists d; by rewrite list_elem_of_In).
  destruct (omap _ _) as [|u0 l]; [done|]. replace (forallb is_decided (u0 :: l)) with false; [done|].
  symmetry. apply forallb_false_exists. exists u. split; [done|]. unfold is_decided. by rewrite Hs.
Qed.

(** ** A concrete workflow *)

(** Implement, review, a gate that loops back to the implementation, end. *)
Definition loop_steps : list StepWire :=
  [mkStep "impl" "Impl" "task" []; mkStep "review" "Review" "task" ["impl"]; mkStep "gate" "Gate" "loop_decision" ["review"];
   mkStep "end" "End" "end" ["gate"]].

Definition run_of (id status decision : string) : StepRun :=
  mkSR ("r-" +:+ id) id id (match stepByID loop_steps id with Some s => SwKind s | None => "task" end) status "" decision 0 "" 1.

(** The review is done, the gate may start. *)
Definition reviewed (decision : string) : list StepRun :=
  [run_of "impl" "succeeded" ""; run_of "review" "succeeded" decision; run_of "gate" "pending" ""; run_of "end" "pending" ""].

Lemma reviewed_ids d : NoDup (map srID (reviewed d)).
Proof. apply (bool_decide_unpack _). vm_compute. exact I. Defined.

(** A list of runs with distinct steps has one active run per step. *)
Lemma distinct_unique rows : NoDup (map srStepID rows) -> active_unique rows.
Proof.
  induction rows as [|x l IH]; intros Hnd r r' Hr Hr' Ha Ha' Hs; [destruct Hr|]. cbn [map] in Hnd.
  apply NoDup_cons in Hnd as [Hn Hd]. rewrite list_elem_of_In in Hn.
  destruct Hr as [<- | Hr], Hr' as [<- | Hr']; [reflexivity | | |].
  - destruct Hn. rewrite Hs. apply in_map, Hr'.
  - destruct Hn. rewrite <- Hs. apply in_map, Hr.
  - exact (IH Hd r r' Hr Hr' Ha Ha' Hs).
Defined.

Lemma reviewed_unique d : active_unique (reviewed d).
Proof. apply distinct_unique, (bool_decide_unpack _). vm_compute. exact I. Defined.

Lemma loop_steps_ids : NoDup (map SwID loop_steps).
Proof. apply (bool_decide_unpack _). vm_compute. exact I. Defined.

Lemma chain_is_between_witness :
  chainStepIDs loop_steps "impl" "gate" = ["impl"; "review"] /\ rtc (feeds loop_steps) "impl" "review".
Proof.
  assert (E : chainStepIDs loop_steps "impl" "gate" = ["impl"; "review"]) by (vm_compute; reflexivity).
  split; [exact E|].
  destruct (chain_is_between loop_steps "impl" "gate") as [H _]; [exact loop_steps_ids | | |].
  - left. reflexivity.
  - right. right. left. reflexivity.
  - destruct (proj1 (H "review")) as (_ & _ & Hr & _); [rewrite E; right; left; reflexivity | exact Hr].
Defined.

Lemma ready_phase_exact_witness :
  exists runs, mark_ready loop_steps (reviewed "failure") (reviewed "failure") (runByID (reviewed "failure"))
    = Some (map (marked loop_steps (reviewed "failure")) (reviewed "failure"), runs, true)
    /\ map srStatus (map (marked loop_steps (reviewed "failure")) (reviewed "failure"))
       = ["succeeded"; "succeeded"; "ready"; "pending"].
Proof.
  destruct (ready_phase_exact loop_steps (reviewed "failure")) as (runs & H & _);
    [apply reviewed_ids | apply reviewed_unique |].
  exists runs. split; [exact H | vm_compute; reflexivity].
Defined.

Lemma reentry_blocks_downstream_witness :
  match loopDecisionReenter (fun s => "n-" +:+ s) loop_steps (mkStep "gate" "Gate" "loop_decision" ["review"])
          (run_of "gate" "pending" "") "impl" 0 (reviewed "failure") with
  | Some rows' => map srStatus rows' = ["succeeded"; "succeeded"; "running"; "pending"; "pending"; "pending"]
                  /\ depsSatisfied (mkStep "end" "End" "end" ["gate"]) (runByID rows') = false
  | None => False
  end.
Proof.
  destruct (reentry_blocks_downstream (fun s => "n-" +:+ s) loop_steps (mkStep "gate" "Gate" "loop_decision" ["review"])
              (run_of "gate" "pending" "") "impl" 0 (reviewed "failure")) as (rows' & H & _ & _ & _ & Hdeps).
  - apply reviewed_ids.
  - apply reviewed_unique.
  - exact loop_steps_ids.
  - right. right. left. reflexivity.
  - reflexivity.
  - reflexivity.
  - apply (bool_decide_unpack _). vm_compute. exact I.
  - intros c Hc. vm_compute in Hc. destruct Hc as [<- | [<- | []]]; (split; [discriminate|]);
      intros [E | [E | [E | [E | []]]]]; discriminate E.
  - rewrite H. split.
    + revert H. vm_compute. intros H. injection H as <-. reflexivity.
    + apply (Hdeps _ "gate"); [left; reflexivity | left; reflexivity].
Defined.

Lemma verdict_spec_witness :
  run_verdict (tally_runs (reviewed "success") (runByID (reviewed "success"))) <> RunFails.
Proof.
  destruct (verdict_spec (reviewed "success")) as [_ H]; [apply reviewed_unique|].
  intros E. apply H in E as [(r & Hr & _ & Hb) _].
  vm_compute in Hr. destruct Hr as [<- | [<- | [<- | [<- | []]]]]; discriminate Hb.
Defined.

Definition gate_config : loopDecisionConfig := mkLoopConfig "impl" 3 "" "" 0 "".

Lemma loop_accepts_only_successes_witness :
  let runs := runByID (reviewed "success") in
  exists u, runs !! "review" = Some u /\ srStatus u = StepRunSucceeded /\ decision_of (fun _ => "") u <> "failure".
Proof.
  cbv zeta.
  destruct (loop_accepts_only_successes (fun _ => "") gate_config (mkStep "gate" "Gate" "loop_decision" ["review"])
              (run_of "gate" "ready" "") (runByID (reviewed "success")) false (reviewed "success")) as [H _].
  - discriminate.
  - vm_compute. reflexivity.
  - vm_compute. reflexivity.
  - destruct (H "review") as (u & Hu & _ & Hs & Hd); [left; reflexivity|]. exists u. split; [exact Hu | split; [exact Hs | exact Hd]].
Defined.

(** One report of success among silent dependencies is enough. *)
Example silent_reviewer_is_no_veto : aggregateLoopDecisions ["success"; ""] "failure" "success" = "success".
Proof. reflexivity. Qed.
